(** * Session-daemon core of lttng-tools: UST application registry,
      per-application shadow state and consumer handoff.

    Shallow embedding of [src/bin/lttng-sessiond/ust-app.c] and
    [src/bin/lttng-sessiond/kernel-consumer.c].

    Conventions of the embedding:
    - C integers are [Z]; the places where a fixed width matters
      (the [unsigned int] product in [create_ust_channel]) spell the
      wrap-around out;
    - C strings are [string]; fixed-size [char] arrays are handled by the
      explicit [strncpy]/[strncmp] models below;
    - a pointer that may be [NULL] is an [option];
    - the urcu hash tables ([cds_lfht] behind [lttng_ht]) owned by one
      object are lists of nodes in iteration order; the two process-wide
      registries are finite maps from the integer key to the address of
      the application object;
    - everything outside the two files (tracer control library, consumer
      socket helpers, libc, the allocator) is reached through an
      [environment] of oracles, and every such call is appended to the
      call log of the [world];
    - [assert] failures abort the daemon: a computation that hits one has
      no result ([None]). *)

From Stdlib Require Import ZArith List String Ascii Bool Lia.
From Stdlib Require Import Strings.Byte DecimalString.
From stdpp Require Import base gmap.
Import ListNotations.

Local Open Scope Z_scope.

(** ** Constants *)

(** <errno.h> values used by the two files. *)
Definition EPERM : Z := 1.
Definition ENOMEM : Z := 12.
Definition EEXIST : Z := 17.
Definition EINVAL : Z := 22.
Definition EPIPE : Z := 32.
Definition ENOTCONN : Z := 107.

(** <lttng/ust-error.h>: [enum lttng_ust_error_code]. *)
Definition LTTNG_UST_ERR_NOENT : Z := 1025.
Definition LTTNG_UST_ERR_EXIST : Z := 1026.
Definition LTTNG_UST_ERR_PERM : Z := 1028.
Definition LTTNG_UST_ERR_EXITING : Z := 1030.

(** Size of the symbol-name arrays ([char name[LTTNG_UST_SYM_NAME_LEN]]). *)
Definition LTTNG_UST_SYM_NAME_LEN : nat := 256.

(** The registration error message reads "sessiond supports 2.x". *)
Definition LTTNG_UST_COMM_MAJOR : Z := 2.

(** "It must be 2 per stream." *)
Definition DEFAULT_UST_STREAM_FD_NUM : Z := 2.

Definition DEFAULT_METADATA_NAME : string := "metadata"%string.

(** The two error codes that mean "the application is gone". *)
Definition app_vanished (ret : Z) : bool :=
  (ret =? - EPIPE) || (ret =? - LTTNG_UST_ERR_EXITING).

(** ** libc string and memory helpers *)

(** [strncmp(s1, s2, n)]: only the sign of the result is modelled. *)
Fixpoint strncmp (s1 s2 : string) (n : nat) {struct n} : Z :=
  match n with
  | O => 0
  | S n' =>
      match s1, s2 with
      | EmptyString, EmptyString => 0
      | EmptyString, String _ _ => -1
      | String _ _, EmptyString => 1
      | String c1 r1, String c2 r2 =>
          if Ascii.eqb c1 c2 then strncmp r1 r2 n'
          else if (N_of_ascii c1 <? N_of_ascii c2)%N then -1 else 1
      end
  end.

(** The first [n] characters of a string. *)
Fixpoint string_prefix (n : nat) (s : string) {struct n} : string :=
  match n, s with
  | S n', String c r => String c (string_prefix n' r)
  | _, _ => EmptyString
  end.

(** [strncpy(dst, src, size); dst[size - 1] = '\0';] read back as a
    string. *)
Definition strncpy_term (src : string) (size : nat) : string :=
  string_prefix (size - 1) src.

(** [memcmp(a, b, n)], sign only.  A buffer shorter than [n] compares as
    ending there. *)
Fixpoint memcmp (a b : list byte) (n : nat) {struct n} : Z :=
  match n with
  | O => 0
  | S n' =>
      match a, b with
      | [], [] => 0
      | [], _ :: _ => -1
      | _ :: _, [] => 1
      | x :: a', y :: b' =>
          if Byte.eqb x y then memcmp a' b' n'
          else if (Byte.to_N x <? Byte.to_N y)%N then -1 else 1
      end
  end.

(** ** Data model: events *)

Inductive lttng_ust_loglevel_type :=
| LTTNG_UST_LOGLEVEL_ALL
| LTTNG_UST_LOGLEVEL_RANGE
| LTTNG_UST_LOGLEVEL_SINGLE.

Definition loglevel_type_eqb (a b : lttng_ust_loglevel_type) : bool :=
  match a, b with
  | LTTNG_UST_LOGLEVEL_ALL, LTTNG_UST_LOGLEVEL_ALL
  | LTTNG_UST_LOGLEVEL_RANGE, LTTNG_UST_LOGLEVEL_RANGE
  | LTTNG_UST_LOGLEVEL_SINGLE, LTTNG_UST_LOGLEVEL_SINGLE => true
  | _, _ => false
  end.

(** [struct lttng_ust_filter_bytecode]: a length and the bytecode. *)
Record lttng_ust_filter_bytecode := {
  f_len : Z;
  f_data : list byte
}.

(** [struct lttng_ust_event]: the attribute bundle of an event. *)
Record lttng_ust_event := {
  attr_instrumentation : Z;
  attr_name : string;
  attr_loglevel_type : lttng_ust_loglevel_type;
  attr_loglevel : Z
}.

(** [struct ltt_ust_event]: an event of the global session. *)
Record ltt_ust_event := {
  uevent_enabled : Z;
  uevent_attr : lttng_ust_event;
  uevent_filter : option lttng_ust_filter_bytecode
}.

(** [struct ust_app_event].  [ev_obj] is the tracer object handle once
    the event exists on the tracer; [ev_name] is also the key of its
    hash-table node. *)
Record ust_app_event := {
  ev_enabled : Z;
  ev_handle : Z;
  ev_obj : option Z;
  ev_attr : lttng_ust_event;
  ev_name : string;
  ev_filter : option lttng_ust_filter_bytecode
}.

(** [struct ust_app_ht_key]. *)
Record ust_app_ht_key := {
  key_name : string;
  key_filter : option lttng_ust_filter_bytecode;
  key_loglevel : Z
}.

(** ** The event hash table *)

(** Match function for the hash table lookup. *)
Definition ht_match_ust_app_event (event : ust_app_event)
    (key : ust_app_ht_key) : bool :=
  (* Event name *)
  if negb (strncmp (attr_name (ev_attr event)) (key_name key)
             LTTNG_UST_SYM_NAME_LEN =? 0)
  then false
  (* Event loglevel. *)
  else if negb (attr_loglevel (ev_attr event) =? key_loglevel key)
          && negb (loglevel_type_eqb (attr_loglevel_type (ev_attr event))
                     LTTNG_UST_LOGLEVEL_ALL
                   && (key_loglevel key =? 0)
                   && (attr_loglevel (ev_attr event) =? -1))
  then false
  else
    match key_filter key, ev_filter event with
    (* One of the filters is NULL, fail. *)
    | Some _, None | None, Some _ => false
    (* Both filters exists, check length followed by the bytecode. *)
    | Some kf, Some ef =>
        if negb (f_len ef =? f_len kf)
           || negb (memcmp (f_data ef) (f_data kf) (Z.to_nat (f_len ef)) =? 0)
        then false else true
    | None, None => true
    end.

Section EventTable.

(** [ht->hash_fct(key, lttng_ht_seed)] for string keys. *)
Variable hash_fct : string -> Z.

(** [cds_lfht_lookup] with a custom match: the first node of the chain
    whose stored hash is the one asked for and which the match function
    accepts.  A node is stored under the hash of its key,
    [event->node.key], which points to [ua_event->name]. *)
Definition cds_lfht_lookup_event (ht : list ust_app_event) (hash : Z)
    (key : ust_app_ht_key) : option ust_app_event :=
  find (fun n => (hash_fct (ev_name n) =? hash)
                 && ht_match_ust_app_event n key) ht.

(** Lookup for an ust app event based on event name, filter bytecode and
    the event loglevel. *)
Definition find_ust_app_event (ht : list ust_app_event) (name : string)
    (filter : option lttng_ust_filter_bytecode) (loglevel : Z)
    : option ust_app_event :=
  let key := {| key_name := name; key_filter := filter;
                key_loglevel := loglevel |} in
  cds_lfht_lookup_event ht (hash_fct name) key.

(** Unique add of an ust app event in the given ht.
    [cds_lfht_add_unique] returns the node already present when one
    matches, and the assertion [node_ptr == &event->node.node] then
    fails; a new node goes to the front of its identical-hash chain. *)
Definition add_unique_ust_app_event (ht : list ust_app_event)
    (event : ust_app_event) : option (list ust_app_event) :=
  let key := {| key_name := attr_name (ev_attr event);
                key_filter := ev_filter event;
                key_loglevel := attr_loglevel (ev_attr event) |} in
  match cds_lfht_lookup_event ht (hash_fct (ev_name event)) key with
  | Some _ => None
  | None => Some (event :: ht)
  end.

End EventTable.

(** ** Event-key equality, in the words of the specification *)

(** Filter equality: length first, then the bytes. *)
Definition filter_equal (a b : option lttng_ust_filter_bytecode) : Prop :=
  match a, b with
  | None, None => True
  | Some fa, Some fb =>
      f_len fa = f_len fb /\
      firstn (Z.to_nat (f_len fa)) (f_data fa)
      = firstn (Z.to_nat (f_len fa)) (f_data fb)
  | _, _ => False
  end.

(** Loglevel equality up to the ALL normalisation. *)
Definition loglevel_equal (event : ust_app_event) (loglevel : Z) : Prop :=
  attr_loglevel (ev_attr event) = loglevel \/
  (attr_loglevel_type (ev_attr event) = LTTNG_UST_LOGLEVEL_ALL /\
   attr_loglevel (ev_attr event) = -1 /\ loglevel = 0).

Definition same_event_key (event : ust_app_event) (key : ust_app_ht_key)
    : Prop :=
  attr_name (ev_attr event) = key_name key /\
  loglevel_equal event (key_loglevel key) /\
  filter_equal (ev_filter event) (key_filter key).

(** A name that fits a [char[LTTNG_UST_SYM_NAME_LEN]] array. *)
Definition name_fits (s : string) : Prop :=
  (String.length s <= LTTNG_UST_SYM_NAME_LEN)%nat.

(** ** Data model: channels, sessions, applications *)

Inductive lttng_ust_chan_type :=
| LTTNG_UST_CHAN_PER_CPU
| LTTNG_UST_CHAN_METADATA.

(** [struct lttng_ust_channel_attr]: the attributes of a channel of the
    global session. *)
Record lttng_ust_channel_attr := {
  uattr_subbuf_size : Z;
  uattr_num_subbuf : Z;
  uattr_overwrite : Z;
  uattr_switch_timer_interval : Z;
  uattr_read_timer_interval : Z;
  uattr_output : Z
}.

(** [struct ustctl_consumer_channel_attr]: the attributes kept in the
    shadow, with the channel type. *)
Record ustctl_consumer_channel_attr := {
  attr_subbuf_size : Z;
  attr_num_subbuf : Z;
  attr_overwrite : Z;
  attr_switch_timer_interval : Z;
  attr_read_timer_interval : Z;
  attr_output : Z;
  attr_type : lttng_ust_chan_type
}.

(** [struct ust_app_ctx]; [ctx_kind] is [ctx.ctx], the key of the node. *)
Record ust_app_ctx := {
  ctx_handle : Z;
  ctx_kind : Z;
  ctx_obj : option Z
}.

(** [struct ust_app_stream]. *)
Record ust_app_stream := {
  stream_handle : Z;
  stream_obj : option Z
}.

(** [struct ust_app_channel]. *)
Record ust_app_channel := {
  ch_enabled : Z;
  ch_handle : Z;
  ch_name : string;
  ch_key : Z;
  ch_is_sent : Z;
  ch_expected_stream_count : Z;
  ch_obj : option Z;
  ch_attr : ustctl_consumer_channel_attr;
  ch_streams : list ust_app_stream;
  ch_ctx : list ust_app_ctx;
  ch_events : list ust_app_event
}.

(** [struct ust_app_session]. *)
Record ust_app_session := {
  s_handle : Z;
  s_id : Z;
  s_uid : Z;
  s_gid : Z;
  s_uuid : Z;
  s_started : Z;
  s_path : string;
  s_channels : list ust_app_channel;
  s_metadata : option ust_app_channel
}.

(** [struct ust_app]. *)
Record ust_app := {
  app_ppid : Z;
  app_sock : Z;
  app_pid : Z;
  app_uid : Z;
  app_gid : Z;
  app_bits_per_long : Z;
  app_compatible : Z;
  app_v_major : Z;
  app_v_minor : Z;
  app_name : string;
  app_sessions : list ust_app_session;
  app_teardown_head : list ust_app_session
}.

(** [struct ust_register_msg]. *)
Record ust_register_msg := {
  msg_major : Z;
  msg_minor : Z;
  msg_pid : Z;
  msg_ppid : Z;
  msg_uid : Z;
  msg_gid : Z;
  msg_bits_per_long : Z;
  msg_name : string
}.

(** ** Data model: the global session and its consumer *)

Inductive consumer_dst_type := CONSUMER_DST_LOCAL | CONSUMER_DST_NET.

(** [struct consumer_socket], identified by its descriptor. *)
Record consumer_socket := { cs_fd : Z }.

(** [struct consumer_output]. *)
Record consumer_output := {
  co_enabled : Z;
  co_type : consumer_dst_type;
  co_net_seq_index : Z;
  co_trace_path : string;
  co_subdir : string
}.

(** [struct ltt_ust_context]: [uctx_kind] is [ctx.ctx]. *)
Record ltt_ust_context := { uctx_kind : Z }.

(** [struct ltt_ust_channel]. *)
Record ltt_ust_channel := {
  uchan_enabled : Z;
  uchan_name : string;
  uchan_attr : lttng_ust_channel_attr;
  uchan_ctx : list ltt_ust_context;
  uchan_events : list ltt_ust_event
}.

(** [struct ltt_ust_session]; [usess_channels] is
    [domain_global.channels]. *)
Record ltt_ust_session := {
  usess_id : Z;
  usess_uid : Z;
  usess_gid : Z;
  usess_start_trace : Z;
  usess_consumer : consumer_output;
  usess_channels : list ltt_ust_channel
}.

(** ** Data model: kernel session and consumer control messages *)

Inductive lttng_consumer_command :=
| LTTNG_CONSUMER_ADD_CHANNEL
| LTTNG_CONSUMER_ADD_STREAM.

Inductive consumer_channel_type :=
| CONSUMER_CHANNEL_TYPE_METADATA
| CONSUMER_CHANNEL_TYPE_DATA.

(** The [channel] member of [struct lttcomm_consumer_msg]. *)
Record lttcomm_channel_msg := {
  cm_channel_key : Z;
  cm_session_id : Z;
  cm_pathname : string;
  cm_uid : Z;
  cm_gid : Z;
  cm_relayd_id : Z;
  cm_name : string;
  cm_nb_init_streams : Z;
  cm_output : Z;
  cm_type : consumer_channel_type;
  cm_tracefile_size : Z;
  cm_tracefile_count : Z
}.

(** The [stream] member of [struct lttcomm_consumer_msg]. *)
Record lttcomm_stream_msg := {
  sm_channel_key : Z;
  sm_stream_key : Z;
  sm_cpu : Z;
  sm_no_monitor : Z
}.

Inductive lttcomm_consumer_msg :=
| msg_channel (cmd : lttng_consumer_command) (m : lttcomm_channel_msg)
| msg_stream (cmd : lttng_consumer_command) (m : lttcomm_stream_msg).

(** [struct ltt_kernel_session], with [session->metadata->fd]. *)
Record ltt_kernel_session := {
  ks_id : Z;
  ks_uid : Z;
  ks_gid : Z;
  ks_metadata_fd : Z;
  ks_metadata_stream_fd : Z;
  ks_consumer : consumer_output
}.

(** ** Data model: enumeration records *)

(** [struct lttng_ust_tracepoint_iter]. *)
Record lttng_ust_tracepoint_iter := {
  tp_name : string;
  tp_loglevel : Z
}.

(** [struct lttng_ust_field_iter]. *)
Record lttng_ust_field_iter := {
  fi_event_name : string;
  fi_field_name : string;
  fi_type : Z;
  fi_loglevel : Z;
  fi_nowrite : Z
}.

Inductive lttng_event_type := LTTNG_EVENT_TRACEPOINT.

(** [struct lttng_event], the fields that enumeration fills. *)
Record lttng_event := {
  le_type : lttng_event_type;
  le_name : string;
  le_loglevel : Z;
  le_enabled : Z;
  le_pid : Z
}.

(** [struct lttng_event_field]. *)
Record lttng_event_field := {
  lf_field_name : string;
  lf_type : Z;
  lf_nowrite : Z;
  lf_event : lttng_event
}.

(** ** External calls, the environment and the world *)

(** The calls that leave the two files.  Each carries the arguments that
    identify it; the order in which they are made is kept in the log of
    the [world]. *)
Inductive call :=
| c_close (fd : Z)
| c_run_as_mkdir_recursive (path : string) (uid gid : Z)
| c_lttng_fd_get (nr : Z)
| c_lttng_fd_put (nr : Z)
| c_lttng_uuid_generate
| c_ustctl_create_session (sock : Z)
| c_ustctl_release_handle (sock handle : Z)
| c_ustctl_release_object (sock obj : Z)
| c_ustctl_create_event (sock : Z) (attr : lttng_ust_event)
    (chan_obj : option Z)
| c_ustctl_set_filter (sock : Z) (filter : lttng_ust_filter_bytecode)
    (obj : option Z)
| c_ustctl_enable (sock : Z) (obj : option Z)
| c_ustctl_disable (sock : Z) (obj : option Z)
| c_ustctl_add_context (sock kind : Z) (chan_obj : option Z)
| c_ustctl_start_session (sock handle : Z)
| c_ustctl_stop_session (sock handle : Z)
| c_ustctl_wait_quiescent (sock : Z)
| c_ustctl_sock_flush_buffer (sock : Z) (obj : option Z)
| c_ustctl_tracepoint_list (sock : Z)
| c_ustctl_tracepoint_list_get (sock handle : Z)
| c_ustctl_tracepoint_field_list (sock : Z)
| c_ustctl_tracepoint_field_list_get (sock handle : Z)
| c_ust_consumer_ask_channel (consumer_fd session_id chan_key : Z)
| c_ust_consumer_get_channel (consumer_fd chan_key : Z)
| c_ust_consumer_destroy_channel (consumer_fd chan_key : Z)
| c_ust_consumer_send_channel_to_ust (sock chan_key : Z)
| c_ust_consumer_send_stream_to_ust (sock chan_key stream_handle : Z)
| c_consumer_send_channel (consumer_fd : Z) (msg : lttcomm_consumer_msg)
| c_consumer_send_stream (consumer_fd : Z) (msg : lttcomm_consumer_msg)
    (fds : list Z).

(** What the rest of the system answers.  An answer may depend on every
    call made before it. *)
Class environment := {
  (** the [int] returned by an external call *)
  env_ret : list call -> call -> Z;
  (** whether the n-th [zmalloc]/[realloc] of the run succeeds *)
  env_zmalloc : nat -> bool;
  (** the tracer object handle that a creating call hands back *)
  env_obj : list call -> Z;
  (** the stream count announced by the consumer for a new channel *)
  env_stream_count : list call -> Z;
  (** the streams received from the consumer for a channel *)
  env_streams : list call -> list ust_app_stream;
  (** the answers of the successive [ustctl_tracepoint_list_get] calls on
      a listing handle, as return code and filled entry; a tracer lists
      finitely many tracepoints, and after them the answer is
      [-LTTNG_UST_ERR_NOENT] *)
  env_tracepoints : list call -> list (Z * lttng_ust_tracepoint_iter);
  (** the same for [ustctl_tracepoint_field_list_get] *)
  env_fields : list call -> list (Z * lttng_ust_field_iter);
  (** [consumer_find_socket(consumer_fd, consumer)] *)
  env_consumer_find_socket : Z -> consumer_output -> option consumer_socket;
  (** [strftime("%Y%m%d-%H%M%S")] of [localtime] of a [time_t] *)
  env_datetime : Z -> string;
  (** [ht->hash_fct(key, lttng_ht_seed)] of the string tables *)
  env_hash_str : string -> Z;
  (** constants of [defaults.h] and [ust-app.h] *)
  UST_APP_EVENT_LIST_SIZE : Z;
  DEFAULT_CHANNEL_OVERWRITE : Z;
  DEFAULT_METADATA_SUBBUF_NUM : Z;
  DEFAULT_CHANNEL_SWITCH_TIMER : Z;
  DEFAULT_CHANNEL_READ_TIMER : Z;
  DEFAULT_KERNEL_CHANNEL_OUTPUT : Z;
  LTTNG_UST_MMAP : Z;
  default_get_metadata_subbuf_size : Z
}.

(** The process-wide state of the daemon. *)
Record world := {
  (** external calls made so far, oldest first *)
  w_log : list call;
  (** descriptors accounted to [LTTNG_FD_APPS] *)
  w_fd_apps : Z;
  (** allocations attempted so far *)
  w_allocs : nat;
  (** [next_channel_key] *)
  w_next_channel_key : Z;
  (** what [time()] returns *)
  w_rawtime : Z;
  (** [ust_consumerd32_fd], [ust_consumerd64_fd] *)
  w_consumerd32_fd : Z;
  w_consumerd64_fd : Z;
  (** the application objects, by address *)
  w_apps : gmap nat ust_app;
  (** [ust_app_ht]: pid to application *)
  w_ust_app_ht : gmap Z nat;
  (** [ust_app_ht_by_sock]: socket to application *)
  w_ust_app_ht_by_sock : gmap Z nat;
  (** applications handed to [call_rcu(..., delete_ust_app_rcu)], oldest
      first *)
  w_call_rcu : list nat
}.

Definition set_w_log (l : list call) (w : world) : world :=
  {| w_log := l; w_fd_apps := w_fd_apps w; w_allocs := w_allocs w;
     w_next_channel_key := w_next_channel_key w; w_rawtime := w_rawtime w;
     w_consumerd32_fd := w_consumerd32_fd w;
     w_consumerd64_fd := w_consumerd64_fd w;
     w_apps := w_apps w; w_ust_app_ht := w_ust_app_ht w;
     w_ust_app_ht_by_sock := w_ust_app_ht_by_sock w;
     w_call_rcu := w_call_rcu w |}.

Definition set_w_fd_apps (n : Z) (w : world) : world :=
  {| w_log := w_log w; w_fd_apps := n; w_allocs := w_allocs w;
     w_next_channel_key := w_next_channel_key w; w_rawtime := w_rawtime w;
     w_consumerd32_fd := w_consumerd32_fd w;
     w_consumerd64_fd := w_consumerd64_fd w;
     w_apps := w_apps w; w_ust_app_ht := w_ust_app_ht w;
     w_ust_app_ht_by_sock := w_ust_app_ht_by_sock w;
     w_call_rcu := w_call_rcu w |}.

Definition set_w_allocs (n : nat) (w : world) : world :=
  {| w_log := w_log w; w_fd_apps := w_fd_apps w; w_allocs := n;
     w_next_channel_key := w_next_channel_key w; w_rawtime := w_rawtime w;
     w_consumerd32_fd := w_consumerd32_fd w;
     w_consumerd64_fd := w_consumerd64_fd w;
     w_apps := w_apps w; w_ust_app_ht := w_ust_app_ht w;
     w_ust_app_ht_by_sock := w_ust_app_ht_by_sock w;
     w_call_rcu := w_call_rcu w |}.

Definition set_w_next_channel_key (k : Z) (w : world) : world :=
  {| w_log := w_log w; w_fd_apps := w_fd_apps w; w_allocs := w_allocs w;
     w_next_channel_key := k; w_rawtime := w_rawtime w;
     w_consumerd32_fd := w_consumerd32_fd w;
     w_consumerd64_fd := w_consumerd64_fd w;
     w_apps := w_apps w; w_ust_app_ht := w_ust_app_ht w;
     w_ust_app_ht_by_sock := w_ust_app_ht_by_sock w;
     w_call_rcu := w_call_rcu w |}.

(** The clock of the daemon reads [t]. *)
Definition set_w_rawtime (t : Z) (w : world) : world :=
  {| w_log := w_log w; w_fd_apps := w_fd_apps w; w_allocs := w_allocs w;
     w_next_channel_key := w_next_channel_key w; w_rawtime := t;
     w_consumerd32_fd := w_consumerd32_fd w;
     w_consumerd64_fd := w_consumerd64_fd w;
     w_apps := w_apps w; w_ust_app_ht := w_ust_app_ht w;
     w_ust_app_ht_by_sock := w_ust_app_ht_by_sock w;
     w_call_rcu := w_call_rcu w |}.

(** Replace the registry: objects, both indices and the [call_rcu]
    queue. *)
Definition set_w_registry (apps : gmap nat ust_app)
    (by_pid by_sock : gmap Z nat) (rcu : list nat) (w : world) : world :=
  {| w_log := w_log w; w_fd_apps := w_fd_apps w; w_allocs := w_allocs w;
     w_next_channel_key := w_next_channel_key w; w_rawtime := w_rawtime w;
     w_consumerd32_fd := w_consumerd32_fd w;
     w_consumerd64_fd := w_consumerd64_fd w;
     w_apps := apps; w_ust_app_ht := by_pid;
     w_ust_app_ht_by_sock := by_sock;
     w_call_rcu := rcu |}.

(** ** The monad of the daemon: state, and abort on a failed assertion *)

Definition M (A : Type) : Type := world -> option (A * world).

Definition ret {A : Type} (a : A) : M A := fun w => Some (a, w).

Definition bind {A B : Type} (m : M A) (k : A -> M B) : M B :=
  fun w => match m w with
           | Some (a, w') => k a w'
           | None => None
           end.

Notation "'let*' x ':=' m 'in' k" := (bind m (fun x => k))
  (at level 10, x pattern, m at level 100, k at level 200).

(** [assert(b)]. *)
Definition assert (b : bool) : M unit :=
  fun w => if b then Some (tt, w) else None.

Definition get_world : M world := fun w => Some (w, w).

Section Primitives.
Context `{E : environment}.

(** An external call: logged, answered by the environment. *)
Definition extcall (c : call) : M Z :=
  fun w => Some (env_ret (w_log w) c, set_w_log (w_log w ++ [c]) w).

(** An external call whose answer comes from a listing script of the
    environment: logged only. *)
Definition logcall (c : call) : M unit :=
  fun w => Some (tt, set_w_log (w_log w ++ [c]) w).

(** [zmalloc]/[realloc]: [true] when memory was obtained. *)
Definition zmalloc : M bool :=
  fun w => Some (env_zmalloc (w_allocs w), set_w_allocs (S (w_allocs w)) w).

(** Return the atomically incremented value of next_channel_key
    ([unsigned long]). *)
Definition get_next_channel_key : M Z :=
  fun w => let k := (w_next_channel_key w + 1) mod 2 ^ 64 in
           Some (k, set_w_next_channel_key k w).

(** Modelled from the spec: the FD quota of [fd-limit.c], which is not
    among the sources, "exposed only as reserve(n)/release(n)" on "a
    process-wide counter"; whether a reservation is refused is the
    environment's answer, and a refused reservation leaves the counter
    as it was. *)
Definition lttng_fd_get (nr : Z) : M Z :=
  let* r := extcall (c_lttng_fd_get nr) in
  if r <? 0 then ret r
  else fun w => Some (r, set_w_fd_apps (w_fd_apps w + nr) w).

(** Modelled from the spec: release of [nr] units of the FD quota. *)
Definition lttng_fd_put (nr : Z) : M unit :=
  let* _ := extcall (c_lttng_fd_put nr) in
  fun w => Some (tt, set_w_fd_apps (w_fd_apps w - nr) w).

End Primitives.

(** ** Field updates *)

Definition set_ch_shadow (name : string) (attr : ustctl_consumer_channel_attr)
    (enabled : Z) (c : ust_app_channel) : ust_app_channel :=
  {| ch_enabled := enabled; ch_handle := ch_handle c; ch_name := name;
     ch_key := ch_key c; ch_is_sent := ch_is_sent c;
     ch_expected_stream_count := ch_expected_stream_count c;
     ch_obj := ch_obj c; ch_attr := attr; ch_streams := ch_streams c;
     ch_ctx := ch_ctx c; ch_events := ch_events c |}.

Definition set_ch_enabled (enabled : Z) (c : ust_app_channel)
    : ust_app_channel :=
  set_ch_shadow (ch_name c) (ch_attr c) enabled c.

Definition set_attr_type (t : lttng_ust_chan_type)
    (a : ustctl_consumer_channel_attr) : ustctl_consumer_channel_attr :=
  {| attr_subbuf_size := attr_subbuf_size a;
     attr_num_subbuf := attr_num_subbuf a;
     attr_overwrite := attr_overwrite a;
     attr_switch_timer_interval := attr_switch_timer_interval a;
     attr_read_timer_interval := attr_read_timer_interval a;
     attr_output := attr_output a; attr_type := t |}.

Definition set_ch_attr_type (t : lttng_ust_chan_type) (c : ust_app_channel)
    : ust_app_channel :=
  set_ch_shadow (ch_name c) (set_attr_type t (ch_attr c)) (ch_enabled c) c.

Definition set_ch_is_sent (v : Z) (c : ust_app_channel) : ust_app_channel :=
  {| ch_enabled := ch_enabled c; ch_handle := ch_handle c;
     ch_name := ch_name c; ch_key := ch_key c; ch_is_sent := v;
     ch_expected_stream_count := ch_expected_stream_count c;
     ch_obj := ch_obj c; ch_attr := ch_attr c; ch_streams := ch_streams c;
     ch_ctx := ch_ctx c; ch_events := ch_events c |}.

Definition set_ch_expected_stream_count (v : Z) (c : ust_app_channel)
    : ust_app_channel :=
  {| ch_enabled := ch_enabled c; ch_handle := ch_handle c;
     ch_name := ch_name c; ch_key := ch_key c; ch_is_sent := ch_is_sent c;
     ch_expected_stream_count := v;
     ch_obj := ch_obj c; ch_attr := ch_attr c; ch_streams := ch_streams c;
     ch_ctx := ch_ctx c; ch_events := ch_events c |}.

Definition set_ch_obj (obj : option Z) (c : ust_app_channel)
    : ust_app_channel :=
  {| ch_enabled := ch_enabled c; ch_handle := ch_handle c;
     ch_name := ch_name c; ch_key := ch_key c; ch_is_sent := ch_is_sent c;
     ch_expected_stream_count := ch_expected_stream_count c;
     ch_obj := obj; ch_attr := ch_attr c; ch_streams := ch_streams c;
     ch_ctx := ch_ctx c; ch_events := ch_events c |}.

Definition set_ch_streams (l : list ust_app_stream) (c : ust_app_channel)
    : ust_app_channel :=
  {| ch_enabled := ch_enabled c; ch_handle := ch_handle c;
     ch_name := ch_name c; ch_key := ch_key c; ch_is_sent := ch_is_sent c;
     ch_expected_stream_count := ch_expected_stream_count c;
     ch_obj := ch_obj c; ch_attr := ch_attr c; ch_streams := l;
     ch_ctx := ch_ctx c; ch_events := ch_events c |}.

Definition set_ch_ctx (l : list ust_app_ctx) (c : ust_app_channel)
    : ust_app_channel :=
  {| ch_enabled := ch_enabled c; ch_handle := ch_handle c;
     ch_name := ch_name c; ch_key := ch_key c; ch_is_sent := ch_is_sent c;
     ch_expected_stream_count := ch_expected_stream_count c;
     ch_obj := ch_obj c; ch_attr := ch_attr c; ch_streams := ch_streams c;
     ch_ctx := l; ch_events := ch_events c |}.

Definition set_ch_events (l : list ust_app_event) (c : ust_app_channel)
    : ust_app_channel :=
  {| ch_enabled := ch_enabled c; ch_handle := ch_handle c;
     ch_name := ch_name c; ch_key := ch_key c; ch_is_sent := ch_is_sent c;
     ch_expected_stream_count := ch_expected_stream_count c;
     ch_obj := ch_obj c; ch_attr := ch_attr c; ch_streams := ch_streams c;
     ch_ctx := ch_ctx c; ch_events := l |}.

Definition set_s_ids (id uid gid : Z) (path : string) (s : ust_app_session)
    : ust_app_session :=
  {| s_handle := s_handle s; s_id := id; s_uid := uid; s_gid := gid;
     s_uuid := s_uuid s; s_started := s_started s; s_path := path;
     s_channels := s_channels s; s_metadata := s_metadata s |}.

Definition set_s_handle (h : Z) (s : ust_app_session) : ust_app_session :=
  {| s_handle := h; s_id := s_id s; s_uid := s_uid s; s_gid := s_gid s;
     s_uuid := s_uuid s; s_started := s_started s; s_path := s_path s;
     s_channels := s_channels s; s_metadata := s_metadata s |}.

Definition set_s_started (v : Z) (s : ust_app_session) : ust_app_session :=
  {| s_handle := s_handle s; s_id := s_id s; s_uid := s_uid s;
     s_gid := s_gid s; s_uuid := s_uuid s; s_started := v;
     s_path := s_path s; s_channels := s_channels s;
     s_metadata := s_metadata s |}.

Definition set_s_channels (l : list ust_app_channel) (s : ust_app_session)
    : ust_app_session :=
  {| s_handle := s_handle s; s_id := s_id s; s_uid := s_uid s;
     s_gid := s_gid s; s_uuid := s_uuid s; s_started := s_started s;
     s_path := s_path s; s_channels := l; s_metadata := s_metadata s |}.

Definition set_s_metadata (m : option ust_app_channel) (s : ust_app_session)
    : ust_app_session :=
  {| s_handle := s_handle s; s_id := s_id s; s_uid := s_uid s;
     s_gid := s_gid s; s_uuid := s_uuid s; s_started := s_started s;
     s_path := s_path s; s_channels := s_channels s; s_metadata := m |}.

Definition set_app_sessions (l teardown : list ust_app_session) (a : ust_app)
    : ust_app :=
  {| app_ppid := app_ppid a; app_sock := app_sock a; app_pid := app_pid a;
     app_uid := app_uid a; app_gid := app_gid a;
     app_bits_per_long := app_bits_per_long a;
     app_compatible := app_compatible a; app_v_major := app_v_major a;
     app_v_minor := app_v_minor a; app_name := app_name a;
     app_sessions := l; app_teardown_head := teardown |}.

(** ** [lttng_ht] tables owned by one object *)

(** [lttng_ht_lookup] with the default match of the table: the node whose
    key equals the key asked for. *)
Definition lookup_channel (ht : list ust_app_channel) (name : string)
    : option ust_app_channel :=
  find (fun c => String.eqb (ch_name c) name) ht.

Definition lookup_session (ht : list ust_app_session) (id : Z)
    : option ust_app_session :=
  find (fun s => s_id s =? id) ht.

Definition lookup_ctx (ht : list ust_app_ctx) (kind : Z)
    : option ust_app_ctx :=
  find (fun c => ctx_kind c =? kind) ht.

Definition is_null {A : Type} (p : option A) : bool :=
  match p with None => true | Some _ => false end.

(** [lttng_ht_add_unique_str] / [lttng_ht_add_unique_ulong]: the addition
    asserts that no node with that key was there. *)
Definition add_unique_channel (ht : list ust_app_channel)
    (c : ust_app_channel) : M (list ust_app_channel) :=
  let* _ := assert (is_null (lookup_channel ht (ch_name c))) in
  ret (c :: ht).

Definition add_unique_session (ht : list ust_app_session)
    (s : ust_app_session) : M (list ust_app_session) :=
  let* _ := assert (is_null (lookup_session ht (s_id s))) in
  ret (s :: ht).

Definition add_unique_ctx (ht : list ust_app_ctx) (c : ust_app_ctx)
    : M (list ust_app_ctx) :=
  let* _ := assert (is_null (lookup_ctx ht (ctx_kind c))) in
  ret (c :: ht).

(** Store a channel back over the node that has its name, a session over
    the node that has its id: the effect in the table of a write through
    the pointer found by a lookup. *)
Fixpoint store_channel (ht : list ust_app_channel) (c : ust_app_channel)
    : list ust_app_channel :=
  match ht with
  | [] => []
  | x :: r => if String.eqb (ch_name x) (ch_name c) then c :: r
              else x :: store_channel r c
  end.

Fixpoint store_session (ht : list ust_app_session) (s : ust_app_session)
    : list ust_app_session :=
  match ht with
  | [] => []
  | x :: r => if s_id x =? s_id s then s :: r else x :: store_session r s
  end.

(** [lttng_ht_del] of the node of a session. *)
Fixpoint del_session (ht : list ust_app_session) (id : Z)
    : list ust_app_session :=
  match ht with
  | [] => []
  | x :: r => if s_id x =? id then r else x :: del_session r id
  end.

(** A loop over the nodes of a table or list, run for its effects. *)
Fixpoint for_each {A : Type} (f : A -> M unit) (l : list A) : M unit :=
  match l with
  | [] => ret tt
  | x :: r => let* _ := f x in for_each f r
  end.

(** ** Releasing shadow objects *)

Section Shadow.
Context `{E : environment}.

(** Delete ust context safely. *)
Definition delete_ust_app_ctx (sock : Z) (ua_ctx : ust_app_ctx) : M unit :=
  match ctx_obj ua_ctx with
  | Some obj => let* _ := extcall (c_ustctl_release_object sock obj) in ret tt
  | None => ret tt
  end.

(** Delete ust app event safely. *)
Definition delete_ust_app_event (sock : Z) (ua_event : ust_app_event)
    : M unit :=
  match ev_obj ua_event with
  | Some obj => let* _ := extcall (c_ustctl_release_object sock obj) in ret tt
  | None => ret tt
  end.

(** Delete ust app stream safely. *)
Definition delete_ust_app_stream (sock : Z) (stream : ust_app_stream)
    : M unit :=
  match stream_obj stream with
  | Some obj =>
      let* _ := extcall (c_ustctl_release_object sock obj) in
      lttng_fd_put 2
  | None => ret tt
  end.

(** Delete ust app channel safely. *)
Definition delete_ust_app_channel (sock : Z) (ua_chan : ust_app_channel)
    : M unit :=
  (* Wipe stream *)
  let* _ := for_each (delete_ust_app_stream sock) (ch_streams ua_chan) in
  (* Wipe context *)
  let* _ := for_each (delete_ust_app_ctx sock) (ch_ctx ua_chan) in
  (* Wipe events *)
  let* _ := for_each (delete_ust_app_event sock) (ch_events ua_chan) in
  match ch_obj ua_chan with
  | Some obj =>
      let* _ := extcall (c_ustctl_release_object sock obj) in
      lttng_fd_put 2
  | None => ret tt
  end.

(** Delete ust app session safely. *)
Definition delete_ust_app_session (sock : Z) (ua_sess : ust_app_session)
    : M unit :=
  let* _ := match s_metadata ua_sess with
            | Some metadata => delete_ust_app_channel sock metadata
            | None => ret tt
            end in
  let* _ := for_each (delete_ust_app_channel sock) (s_channels ua_sess) in
  if negb (s_handle ua_sess =? -1) then
    let* _ := extcall (c_ustctl_release_handle sock (s_handle ua_sess)) in
    ret tt
  else ret tt.

(** ** Allocation of shadow objects *)

(** Alloc new UST app session: zeroed, handle -1, empty channel table, a
    generated uuid. *)
Definition alloc_ust_app_session : M (option ust_app_session) :=
  let* ok := zmalloc in
  if negb ok then ret None
  else
    let* w := get_world in
    let* r := extcall c_lttng_uuid_generate in
    if negb (r =? 0) then ret None
    else ret (Some {| s_handle := -1; s_id := 0; s_uid := 0; s_gid := 0;
                      s_uuid := env_obj (w_log w); s_started := 0;
                      s_path := EmptyString; s_channels := [];
                      s_metadata := None |}).

(** Alloc new UST app channel. *)
Definition alloc_ust_app_channel (name : string)
    (attr : option lttng_ust_channel_attr) : M (option ust_app_channel) :=
  let* ok := zmalloc in
  if negb ok then ret None
  else
    let* key := get_next_channel_key in
    let a :=
      match attr with
      | Some attr =>
          {| attr_subbuf_size := uattr_subbuf_size attr;
             attr_num_subbuf := uattr_num_subbuf attr;
             attr_overwrite := uattr_overwrite attr;
             attr_switch_timer_interval := uattr_switch_timer_interval attr;
             attr_read_timer_interval := uattr_read_timer_interval attr;
             attr_output := uattr_output attr;
             (* By default, the channel is a per cpu channel. *)
             attr_type := LTTNG_UST_CHAN_PER_CPU |}
      | None =>
          {| attr_subbuf_size := 0; attr_num_subbuf := 0;
             attr_overwrite := 0; attr_switch_timer_interval := 0;
             attr_read_timer_interval := 0; attr_output := 0;
             attr_type := LTTNG_UST_CHAN_PER_CPU |}
      end in
    ret (Some {| ch_enabled := 1; ch_handle := -1;
                 ch_name := strncpy_term name LTTNG_UST_SYM_NAME_LEN;
                 ch_key := key; ch_is_sent := 0;
                 ch_expected_stream_count := 0; ch_obj := None;
                 ch_attr := a; ch_streams := []; ch_ctx := [];
                 ch_events := [] |}).

(** The zeroed [struct lttng_ust_event]. *)
Definition zero_lttng_ust_event : lttng_ust_event :=
  {| attr_instrumentation := 0; attr_name := EmptyString;
     attr_loglevel_type := LTTNG_UST_LOGLEVEL_ALL; attr_loglevel := 0 |}.

(** Alloc new UST app event. *)
Definition alloc_ust_app_event (name : string)
    (attr : option lttng_ust_event) : M (option ust_app_event) :=
  let* ok := zmalloc in
  if negb ok then ret None
  else
    ret (Some {| ev_enabled := 1; ev_handle := 0; ev_obj := None;
                 ev_attr := match attr with
                            | Some a => a
                            | None => zero_lttng_ust_event
                            end;
                 ev_name := strncpy_term name LTTNG_UST_SYM_NAME_LEN;
                 ev_filter := None |}).

(** Alloc new UST app context. *)
Definition alloc_ust_app_ctx (uctx : option ltt_ust_context)
    : M (option ust_app_ctx) :=
  let* ok := zmalloc in
  if negb ok then ret None
  else
    ret (Some {| ctx_handle := 0;
                 ctx_kind := match uctx with
                             | Some u => uctx_kind u
                             | None => 0
                             end;
                 ctx_obj := None |}).

(** Allocate a filter and copy the given original filter. *)
Definition alloc_copy_ust_app_filter (orig_f : lttng_ust_filter_bytecode)
    : M (option lttng_ust_filter_bytecode) :=
  let* ok := zmalloc in
  if negb ok then ret None else ret (Some orig_f).

(** ** Shadow copies *)

(** Copy data between an UST app event and a LTT event. *)
Definition shadow_copy_event (ua_event : ust_app_event)
    (uevent : ltt_ust_event) : M ust_app_event :=
  let* filter :=
    match uevent_filter uevent with
    | Some f => alloc_copy_ust_app_filter f
      (* Filter might be NULL here in case of ENONEM. *)
    | None => ret (ev_filter ua_event)
    end in
  ret {| ev_enabled := uevent_enabled uevent;
         ev_handle := ev_handle ua_event; ev_obj := ev_obj ua_event;
         ev_attr := uevent_attr uevent;
         ev_name := strncpy_term (attr_name (uevent_attr uevent))
                      LTTNG_UST_SYM_NAME_LEN;
         ev_filter := filter |}.

(** The context loop of [shadow_copy_channel]. *)
Fixpoint shadow_copy_ctxs (ctx : list ust_app_ctx)
    (uctxs : list ltt_ust_context) : M (list ust_app_ctx) :=
  match uctxs with
  | [] => ret ctx
  | uctx :: rest =>
      let* ua_ctx := alloc_ust_app_ctx (Some uctx) in
      match ua_ctx with
      | None => shadow_copy_ctxs ctx rest
      | Some ua_ctx =>
          let* ctx := add_unique_ctx ctx ua_ctx in
          shadow_copy_ctxs ctx rest
      end
  end.

(** [add_unique_ust_app_event] with its assertion. *)
Definition add_unique_event (ht : list ust_app_event)
    (event : ust_app_event) : M (list ust_app_event) :=
  fun w => match add_unique_ust_app_event env_hash_str ht event with
           | Some ht' => Some (ht', w)
           | None => None
           end.

(** The event loop of [shadow_copy_channel]. *)
Fixpoint shadow_copy_events (events : list ust_app_event)
    (uevents : list ltt_ust_event) : M (list ust_app_event) :=
  match uevents with
  | [] => ret events
  | uevent :: rest =>
      match find_ust_app_event env_hash_str events
              (attr_name (uevent_attr uevent)) (uevent_filter uevent)
              (attr_loglevel (uevent_attr uevent)) with
      | Some _ => shadow_copy_events events rest
      | None =>
          let* ua_event := alloc_ust_app_event
                             (attr_name (uevent_attr uevent))
                             (Some (uevent_attr uevent)) in
          match ua_event with
          | None => shadow_copy_events events rest
          | Some ua_event =>
              let* ua_event := shadow_copy_event ua_event uevent in
              let* events := add_unique_event events ua_event in
              shadow_copy_events events rest
          end
      end
  end.

(** Copy data between an UST app channel and a LTT channel. *)
Definition shadow_copy_channel (ua_chan : ust_app_channel)
    (uchan : ltt_ust_channel) : M ust_app_channel :=
  let ua_chan :=
    set_ch_shadow
      (strncpy_term (uchan_name uchan) LTTNG_UST_SYM_NAME_LEN)
      (* the attribute channel type is not set *)
      {| attr_subbuf_size := uattr_subbuf_size (uchan_attr uchan);
         attr_num_subbuf := uattr_num_subbuf (uchan_attr uchan);
         attr_overwrite := uattr_overwrite (uchan_attr uchan);
         attr_switch_timer_interval :=
           uattr_switch_timer_interval (uchan_attr uchan);
         attr_read_timer_interval :=
           uattr_read_timer_interval (uchan_attr uchan);
         attr_output := uattr_output (uchan_attr uchan);
         attr_type := attr_type (ch_attr ua_chan) |}
      (uchan_enabled uchan) ua_chan in
  let* ctx := shadow_copy_ctxs (ch_ctx ua_chan) (uchan_ctx uchan) in
  let ua_chan := set_ch_ctx ctx ua_chan in
  (* Copy all events from ltt ust channel to ust app channel *)
  let* events := shadow_copy_events (ch_events ua_chan)
                   (uchan_events uchan) in
  ret (set_ch_events events ua_chan).

(** [PATH_MAX] of <limits.h>. *)
Definition PATH_MAX : nat := 4096.

(** [snprintf(path, PATH_MAX, "%s-%d-%s/", name, pid, datetime)]. *)
Definition snprintf_path (name : string) (pid : Z) (datetime : string)
    : string :=
  string_prefix (PATH_MAX - 1)
    (name ++ "-" ++ NilZero.string_of_int (Z.to_int pid) ++ "-"
          ++ datetime ++ "/")%string.

(** The channel loop of [shadow_copy_session]. *)
Fixpoint shadow_copy_channels (channels : list ust_app_channel)
    (uchans : list ltt_ust_channel) : M (list ust_app_channel) :=
  match uchans with
  | [] => ret channels
  | uchan :: rest =>
      match lookup_channel channels (uchan_name uchan) with
      | Some _ => (* Session exist. Contiuing. *)
          shadow_copy_channels channels rest
      | None =>
          let* ua_chan := alloc_ust_app_channel (uchan_name uchan)
                            (Some (uchan_attr uchan)) in
          match ua_chan with
          | None => shadow_copy_channels channels rest
          | Some ua_chan =>
              let* ua_chan := shadow_copy_channel ua_chan uchan in
              let ua_chan := set_ch_attr_type LTTNG_UST_CHAN_PER_CPU
                               ua_chan in
              let* channels := add_unique_channel channels ua_chan in
              shadow_copy_channels channels rest
          end
      end
  end.

(** Copy data between a UST app session and a regular LTT session. *)
Definition shadow_copy_session (ua_sess : ust_app_session)
    (usess : ltt_ust_session) (app : ust_app) : M ust_app_session :=
  (* Get date and time for unique app path *)
  let* w := get_world in
  let datetime := env_datetime (w_rawtime w) in
  let ua_sess :=
    set_s_ids (usess_id usess) (usess_uid usess) (usess_gid usess)
      (snprintf_path (app_name app) (app_pid app) datetime) ua_sess in
  (* Iterate over all channels in global domain. *)
  let* channels := shadow_copy_channels (s_channels ua_sess)
                     (usess_channels usess) in
  ret (set_s_channels channels ua_sess).

End Shadow.

(** ** Tracer and consumer operations on one application *)

Section Tracer.
Context `{E : environment}.

(** Return the consumer socket from the given consumer output with the
    right bitness.  On error, returns NULL. *)
Definition find_consumer_socket_by_bitness (bits : Z)
    (consumer : consumer_output) : M (option consumer_socket) :=
  let* w := get_world in
  if bits =? 64 then
    ret (env_consumer_find_socket (w_consumerd64_fd w) consumer)
  else if bits =? 32 then
    ret (env_consumer_find_socket (w_consumerd32_fd w) consumer)
  else
    let* _ := assert false in ret None.

(** Modelled from the spec: [ust_consumer_ask_channel] of
    [ust-consumer.c], which is not among the sources.  "The coordinator
    sends an ADD_CHANNEL request and receives back an
    expected_stream_count"; the count is an [unsigned int]. *)
Definition ust_consumer_ask_channel (ua_sess : ust_app_session)
    (ua_chan : ust_app_channel) (consumer : consumer_output)
    (socket : consumer_socket) : M (Z * ust_app_channel) :=
  let* w := get_world in
  let* r := extcall (c_ust_consumer_ask_channel (cs_fd socket)
                       (s_id ua_sess) (ch_key ua_chan)) in
  if r <? 0 then ret (r, ua_chan)
  else ret (r, set_ch_expected_stream_count
                 (env_stream_count (w_log w) mod 2 ^ 32) ua_chan).

(** Modelled from the spec: [ust_consumer_get_channel] of
    [ust-consumer.c].  "Get channel from consumer, populating the
    channel's tracer-side object" and its "ordered list of stream
    objects". *)
Definition ust_consumer_get_channel (socket : consumer_socket)
    (ua_chan : ust_app_channel) : M (Z * ust_app_channel) :=
  let* w := get_world in
  let* r := extcall (c_ust_consumer_get_channel (cs_fd socket)
                       (ch_key ua_chan)) in
  if r <? 0 then ret (r, ua_chan)
  else ret (r, set_ch_streams (env_streams (w_log w))
                 (set_ch_obj (Some (env_obj (w_log w))) ua_chan)).

(** Create the channel context on the tracer. *)
Definition create_ust_channel_context (ua_chan : ust_app_channel)
    (ua_ctx : ust_app_ctx) (app : ust_app) : M (Z * ust_app_ctx) :=
  let* w := get_world in
  let* r := extcall (c_ustctl_add_context (app_sock app) (ctx_kind ua_ctx)
                       (ch_obj ua_chan)) in
  if r <? 0 then ret (r, ua_ctx)
  else ret (r, {| ctx_handle := env_obj (w_log w);
                  ctx_kind := ctx_kind ua_ctx;
                  ctx_obj := Some (env_obj (w_log w)) |}).

(** Set the filter on the tracer. *)
Definition set_ust_event_filter (ua_event : ust_app_event) (app : ust_app)
    : M Z :=
  match ev_filter ua_event with
  | None => ret 0
  | Some filter =>
      extcall (c_ustctl_set_filter (app_sock app) filter (ev_obj ua_event))
  end.

(** Disable the specified event on to UST tracer for the UST session. *)
Definition disable_ust_event (app : ust_app) (ua_sess : ust_app_session)
    (ua_event : ust_app_event) : M Z :=
  extcall (c_ustctl_disable (app_sock app) (ev_obj ua_event)).

(** Disable the specified channel on to UST tracer for the UST session. *)
Definition disable_ust_channel (app : ust_app) (ua_sess : ust_app_session)
    (ua_chan : ust_app_channel) : M Z :=
  extcall (c_ustctl_disable (app_sock app) (ch_obj ua_chan)).

(** Enable the specified channel on to UST tracer for the UST session. *)
Definition enable_ust_channel (app : ust_app) (ua_sess : ust_app_session)
    (ua_chan : ust_app_channel) : M (Z * ust_app_channel) :=
  let* r := extcall (c_ustctl_enable (app_sock app) (ch_obj ua_chan)) in
  if r <? 0 then ret (r, ua_chan)
  else ret (r, set_ch_enabled 1 ua_chan).

(** Enable the specified event on to UST tracer for the UST session. *)
Definition enable_ust_event (app : ust_app) (ua_sess : ust_app_session)
    (ua_event : ust_app_event) : M Z :=
  extcall (c_ustctl_enable (app_sock app) (ev_obj ua_event)).

(** The stream loop of [create_ust_channel]: send each stream to the
    application, then drop it.  Returns the streams still in the list. *)
Fixpoint send_streams_to_ust (app : ust_app) (ua_chan : ust_app_channel)
    (streams : list ust_app_stream) : M (Z * list ust_app_stream) :=
  match streams with
  | [] => ret (0, [])
  | stream :: rest =>
      let* r := extcall (c_ust_consumer_send_stream_to_ust (app_sock app)
                           (ch_key ua_chan) (stream_handle stream)) in
      if r <? 0 then ret (r, stream :: rest)
      else
        (* We don't need the stream anymore once sent to the tracer. *)
        let* _ := delete_ust_app_stream (-1) stream in
        send_streams_to_ust app ua_chan rest
  end.

(** Create the specified channel onto the UST tracer for a UST session.
    Return 0 on success.  On error, a negative value is returned. *)
Definition create_ust_channel (app : ust_app) (ua_sess : ust_app_session)
    (ua_chan : ust_app_channel) (consumer : consumer_output)
    : M (Z * ust_app_channel) :=
  (* Get the right consumer socket for the application. *)
  let* socket := find_consumer_socket_by_bitness (app_bits_per_long app)
                   consumer in
  match socket with
  | None => ret (-1, ua_chan)
  | Some socket =>
      (* Ask consumer to create channel. *)
      let* (r, ua_chan) := ust_consumer_ask_channel ua_sess ua_chan
                              consumer socket in
      if r <? 0 then ret (r, ua_chan)
      else
        (* Compute the number of fd needed before receiving them. *)
        let nb_fd := (DEFAULT_UST_STREAM_FD_NUM
                      * ch_expected_stream_count ua_chan) mod 2 ^ 32 in
        (* Reserve the amount of file descriptor we need. *)
        let* r := lttng_fd_get nb_fd in
        if r <? 0 then
          (* error_fd_get *)
          let* _ := extcall (c_ust_consumer_destroy_channel (cs_fd socket)
                               (ch_key ua_chan)) in
          ret (r, ua_chan)
        else
          (* Now get the channel from the consumer. *)
          let* (r, ua_chan) := ust_consumer_get_channel socket ua_chan in
          if r <? 0 then
            (* error_destroy *)
            let* _ := lttng_fd_put nb_fd in
            let* _ := extcall (c_ust_consumer_destroy_channel
                                 (cs_fd socket) (ch_key ua_chan)) in
            ret (r, ua_chan)
          else
            (* Send channel to the application. *)
            let* r := extcall (c_ust_consumer_send_channel_to_ust
                                 (app_sock app) (ch_key ua_chan)) in
            if r <? 0 then ret (r, ua_chan)
            else
              (* Send all streams to application. *)
              let* (r, streams) := send_streams_to_ust app ua_chan
                                      (ch_streams ua_chan) in
              let ua_chan := set_ch_streams streams ua_chan in
              if r <? 0 then ret (r, ua_chan)
              else
                (* Flag the channel that it is sent to the application. *)
                let ua_chan := set_ch_is_sent 1 ua_chan in
                (* If channel is not enabled, disable it on the tracer *)
                if ch_enabled ua_chan =? 0 then
                  let* r := disable_ust_channel app ua_sess ua_chan in
                  if r <? 0 then ret (r, ua_chan) else ret (0, ua_chan)
                else ret (0, ua_chan)
  end.

(** Create the specified event onto the UST tracer for a UST session. *)
Definition create_ust_event (app : ust_app) (ua_sess : ust_app_session)
    (ua_chan : ust_app_channel) (ua_event : ust_app_event)
    : M (Z * ust_app_event) :=
  let* w := get_world in
  (* Create UST event on tracer *)
  let* r := extcall (c_ustctl_create_event (app_sock app) (ev_attr ua_event)
                       (ch_obj ua_chan)) in
  if r <? 0 then ret (r, ua_event)
  else
    let ua_event :=
      {| ev_enabled := ev_enabled ua_event;
         ev_handle := env_obj (w_log w);
         ev_obj := Some (env_obj (w_log w));
         ev_attr := ev_attr ua_event; ev_name := ev_name ua_event;
         ev_filter := ev_filter ua_event |} in
    (* Set filter if one is present. *)
    let* r := match ev_filter ua_event with
              | Some _ => set_ust_event_filter ua_event app
              | None => ret r
              end in
    if r <? 0 then ret (r, ua_event)
    else
      (* If event not enabled, disable it on the tracer *)
      if ev_enabled ua_event =? 0 then
        let* r := disable_ust_event app ua_sess ua_event in
        if r <? 0 then
          if r =? - LTTNG_UST_ERR_PERM then
            (* Code flow problem *)
            let* _ := assert false in ret (r, ua_event)
          else if r =? - LTTNG_UST_ERR_EXIST then
            (* It's OK for our use case. *)
            ret (0, ua_event)
          else ret (r, ua_event)
        else ret (r, ua_event)
      else ret (r, ua_event).

(** Create UST app event and create it on the tracer side. *)
Definition create_ust_app_event (ua_sess : ust_app_session)
    (ua_chan : ust_app_channel) (uevent : ltt_ust_event) (app : ust_app)
    : M (Z * ust_app_channel) :=
  (* Get event node *)
  match find_ust_app_event env_hash_str (ch_events ua_chan)
          (attr_name (uevent_attr uevent)) (uevent_filter uevent)
          (attr_loglevel (uevent_attr uevent)) with
  | Some _ => ret (- EEXIST, ua_chan)
  | None =>
      (* Does not exist so create one *)
      let* ua_event := alloc_ust_app_event (attr_name (uevent_attr uevent))
                         (Some (uevent_attr uevent)) in
      match ua_event with
      | None => ret (- ENOMEM, ua_chan)
      | Some ua_event =>
          let* ua_event := shadow_copy_event ua_event uevent in
          (* Create it on the tracer side *)
          let* (r, ua_event) := create_ust_event app ua_sess ua_chan
                                   ua_event in
          if r <? 0 then
            (* Not found previously means that it does not exist on the
               tracer *)
            let* _ := assert (negb (r =? - LTTNG_UST_ERR_EXIST)) in
            let* _ := delete_ust_app_event (-1) ua_event in
            ret (r, ua_chan)
          else
            let* events := add_unique_event (ch_events ua_chan) ua_event in
            ret (r, set_ch_events events ua_chan)
      end
  end.

(** Create UST app channel and create it on the tracer. *)
Definition create_ust_app_channel (ua_sess : ust_app_session)
    (uchan : ltt_ust_channel) (app : ust_app) (consumer : consumer_output)
    (type : lttng_ust_chan_type) : M (Z * ust_app_session) :=
  (* Lookup channel in the ust app session *)
  match lookup_channel (s_channels ua_sess) (uchan_name uchan) with
  | Some _ => ret (0, ua_sess)
  | None =>
      let* ua_chan := alloc_ust_app_channel (uchan_name uchan)
                        (Some (uchan_attr uchan)) in
      match ua_chan with
      | None =>
          (* [goto error] reads [ua_chan->is_sent] through the NULL
             pointer: the daemon crashes. *)
          let* _ := assert false in ret (- ENOMEM, ua_sess)
      | Some ua_chan =>
          let* ua_chan := shadow_copy_channel ua_chan uchan in
          (* Set channel type. *)
          let ua_chan := set_ch_attr_type type ua_chan in
          let* (r, ua_chan) := create_ust_channel app ua_sess ua_chan
                                  consumer in
          if r <? 0 then
            let* _ := delete_ust_app_channel
                        (if negb (ch_is_sent ua_chan =? 0)
                         then app_sock app else -1) ua_chan in
            ret (r, ua_sess)
          else
            (* Only add the channel if successful on the tracer side. *)
            let* channels := add_unique_channel (s_channels ua_sess)
                               ua_chan in
            ret (0, set_s_channels channels ua_sess)
      end
  end.

(** Create UST metadata and open it on the tracer side. *)
Definition create_ust_app_metadata (ua_sess : ust_app_session)
    (app : ust_app) (consumer : consumer_output)
    : M (Z * ust_app_session) :=
  match s_metadata ua_sess with
  | Some _ => (* Already exist. Return success. *) ret (0, ua_sess)
  | None =>
      (* Allocate UST metadata *)
      let* metadata := alloc_ust_app_channel DEFAULT_METADATA_NAME None in
      match metadata with
      | None => ret (- ENOMEM, ua_sess)
      | Some metadata =>
          (* Set default attributes for metadata. *)
          let metadata :=
            set_ch_shadow (ch_name metadata)
              {| attr_subbuf_size := default_get_metadata_subbuf_size;
                 attr_num_subbuf := DEFAULT_METADATA_SUBBUF_NUM;
                 attr_overwrite := DEFAULT_CHANNEL_OVERWRITE;
                 attr_switch_timer_interval := DEFAULT_CHANNEL_SWITCH_TIMER;
                 attr_read_timer_interval := DEFAULT_CHANNEL_READ_TIMER;
                 attr_output := LTTNG_UST_MMAP;
                 attr_type := LTTNG_UST_CHAN_METADATA |}
              (ch_enabled metadata) metadata in
          let* (r, metadata) := create_ust_channel app ua_sess metadata
                                   consumer in
          if r <? 0 then
            let* _ := delete_ust_app_channel
                        (if negb (ch_is_sent metadata =? 0)
                         then app_sock app else -1) metadata in
            ret (r, ua_sess)
          else ret (0, set_s_metadata (Some metadata) ua_sess)
      end
  end.

End Tracer.

(** ** Session operations on one application *)

Section Application.
Context `{E : environment}.

(** Return ust app session from the app session hashtable using the UST
    session id. *)
Definition lookup_session_by_app (usess : ltt_ust_session) (app : ust_app)
    : option ust_app_session :=
  lookup_session (app_sessions app) (usess_id usess).

(** The application after a write through a session pointer that a
    lookup returned. *)
Definition app_store_session (app : ust_app) (ua_sess : ust_app_session)
    : ust_app :=
  set_app_sessions (store_session (app_sessions app) ua_sess)
    (app_teardown_head app) app.

(** Delete the session from the application ht and delete the data
    structure by freeing every object inside and releasing them.  A
    session whose node is no longer in the table is already scheduled for
    teardown and left alone. *)
Definition destroy_session (app : ust_app) (ua_sess : ust_app_session)
    : M ust_app :=
  match lookup_session (app_sessions app) (s_id ua_sess) with
  | None => ret app
  | Some _ =>
      let* _ := delete_ust_app_session (app_sock app) ua_sess in
      ret (set_app_sessions (del_session (app_sessions app) (s_id ua_sess))
             (app_teardown_head app) app)
  end.

(** Create a session on the tracer side for the given app.  Returns 0 on
    success or else a negative code which is either -ENOMEM or -ENOTCONN;
    the second component is [is_created]. *)
Definition create_ust_app_session (usess : ltt_ust_session) (app : ust_app)
    : M (Z * Z * ust_app) :=
  let* found :=
    match lookup_session_by_app usess app with
    | Some ua_sess => ret (Some (ua_sess, 0))
    | None =>
        let* ua_sess := alloc_ust_app_session in
        match ua_sess with
        | None => ret None
        | Some ua_sess =>
            let* ua_sess := shadow_copy_session ua_sess usess app in
            ret (Some (ua_sess, 1))
        end
    end in
  match found with
  | None => (* Only malloc can failed so something is really wrong *)
      ret (- ENOMEM, 0, app)
  | Some (ua_sess, created) =>
      if s_handle ua_sess =? -1 then
        let* r := extcall (c_ustctl_create_session (app_sock app)) in
        if r <? 0 then
          let* _ := delete_ust_app_session (-1) ua_sess in
          ret (if negb (r =? - ENOMEM) then - ENOTCONN else r, 0, app)
        else
          let ua_sess := set_s_handle r ua_sess in
          (* Add ust app session to app's HT *)
          let* sessions := add_unique_session (app_sessions app) ua_sess in
          ret (0, created,
               set_app_sessions sessions (app_teardown_head app) app)
      else ret (0, created, app)
  end.

(** Start tracing for a specific UST session and app. *)
Definition ust_app_start_trace (usess : ltt_ust_session) (app : ust_app)
    : M (Z * ust_app) :=
  if app_compatible app =? 0 then ret (0, app)
  else
    match lookup_session_by_app usess app with
    | None =>
        (* The session is in teardown process. Ignore and continue. *)
        ret (0, app)
    | Some ua_sess =>
        let* setup :=
          (* Upon restart, we skip the setup, already done *)
          if negb (s_started ua_sess =? 0) then ret (0, ua_sess)
          else
            (* Create directories if consumer is LOCAL and has a path
               defined. *)
            let* r :=
              match co_type (usess_consumer usess) with
              | CONSUMER_DST_LOCAL =>
                  if (0 <? String.length
                             (co_trace_path (usess_consumer usess)))%nat
                  then extcall (c_run_as_mkdir_recursive
                                  (co_trace_path (usess_consumer usess))
                                  (usess_uid usess) (usess_gid usess))
                  else ret 0
              | CONSUMER_DST_NET => ret 0
              end in
            if (r <? 0) && negb (r =? - EEXIST) then ret (r, ua_sess)
            else
              (* Create the metadata for the application. *)
              create_ust_app_metadata ua_sess app (usess_consumer usess) in
        let (r, ua_sess) := setup in
        if r <? 0 then ret (-1, app)
        else
          let app := app_store_session app ua_sess in
          (* This start the UST tracing *)
          let* r := extcall (c_ustctl_start_session (app_sock app)
                               (s_handle ua_sess)) in
          if r <? 0 then ret (-1, app)
          else
            (* Indicate that the session has been started once *)
            let app := app_store_session app (set_s_started 1 ua_sess) in
            (* Quiescent wait after starting trace *)
            let* _ := extcall (c_ustctl_wait_quiescent (app_sock app)) in
            ret (0, app)
    end.

(** The flush loop of [ust_app_stop_trace] over the data channels;
    [true] when a flush found the application gone ([goto end]). *)
Fixpoint flush_channels (app : ust_app) (channels : list ust_app_channel)
    : M bool :=
  match channels with
  | [] => ret false
  | ua_chan :: rest =>
      let* _ := assert (negb (ch_is_sent ua_chan =? 0)) in
      let* r := extcall (c_ustctl_sock_flush_buffer (app_sock app)
                           (ch_obj ua_chan)) in
      if r <? 0 then
        if negb (r =? - EPIPE) && negb (r =? - LTTNG_UST_ERR_EXITING) then
          (* Continuing flushing all buffers *)
          flush_channels app rest
        else
          (* No need to continue. *)
          ret true
      else flush_channels app rest
  end.

(** Stop tracing for a specific UST session and app. *)
Definition ust_app_stop_trace (usess : ltt_ust_session) (app : ust_app)
    : M Z :=
  if app_compatible app =? 0 then ret 0
  else
    match lookup_session_by_app usess app with
    | None => ret 0
    | Some ua_sess =>
        (* stop trace has been called for a session that was never
           started: simply indicate that this is a stop error *)
        if s_started ua_sess =? 0 then ret (-1)
        else
          (* This inhibits UST tracing *)
          let* r := extcall (c_ustctl_stop_session (app_sock app)
                               (s_handle ua_sess)) in
          if r <? 0 then ret (-1)
          else
            (* Quiescent wait after stopping trace *)
            let* _ := extcall (c_ustctl_wait_quiescent (app_sock app)) in
            (* Flushing buffers *)
            let* gone := flush_channels app (s_channels ua_sess) in
            if gone then ret 0
            else
              match s_metadata ua_sess with
              | None =>
                  (* [ua_sess->metadata->is_sent] through a NULL pointer *)
                  let* _ := assert false in ret (-1)
              | Some metadata =>
                  let* _ := assert (negb (ch_is_sent metadata =? 0)) in
                  (* Flush all buffers before stopping *)
                  let* r := extcall (c_ustctl_sock_flush_buffer
                                       (app_sock app) (ch_obj metadata)) in
                  if (r <? 0) && negb (r =? - EPIPE)
                     && negb (r =? - LTTNG_UST_ERR_EXITING)
                  then ret (-1)
                  else ret 0
              end
    end.

(** Destroy a specific UST session in apps. *)
Definition destroy_trace (usess : ltt_ust_session) (app : ust_app)
    : M (Z * ust_app) :=
  if app_compatible app =? 0 then ret (0, app)
  else
    match lookup_session_by_app usess app with
    | None => (* Session is being or is deleted. *) ret (0, app)
    | Some ua_sess =>
        let* app := destroy_session app ua_sess in
        (* Quiescent wait after stopping trace *)
        let* _ := extcall (c_ustctl_wait_quiescent (app_sock app)) in
        ret (0, app)
    end.

(** The body of the loop of [ust_app_create_channel_glb] for one
    application; [None] in the first component is [continue] without a
    return code of its own. *)
Definition ust_app_create_channel_one (usess : ltt_ust_session)
    (uchan : ltt_ust_channel) (app : ust_app) : M (Z * ust_app) :=
  if app_compatible app =? 0 then ret (0, app)
  else
    (* Create session on the tracer side and add it to app session HT. *)
    let* (r, created, app) := create_ust_app_session usess app in
    if r <? 0 then ret (r, app)
    else
      match lookup_session_by_app usess app with
      | None => let* _ := assert false in ret (r, app)
      | Some ua_sess =>
          (* Create channel onto application. *)
          let* (r, ua_sess) := create_ust_app_channel ua_sess uchan app
                                 (usess_consumer usess)
                                 LTTNG_UST_CHAN_PER_CPU in
          let app := app_store_session app ua_sess in
          if (r <? 0) && negb (r =? - ENOMEM) && negb (created =? 0) then
            (* Cleanup the created session if it's the case. *)
            let* app := destroy_session app ua_sess in
            ret (r, app)
          else ret (r, app)
      end.

(** The body of the loop of [ust_app_create_event_glb] for one
    application. *)
Definition ust_app_create_event_one (usess : ltt_ust_session)
    (uchan : ltt_ust_channel) (uevent : ltt_ust_event) (app : ust_app)
    : M (Z * ust_app) :=
  if app_compatible app =? 0 then ret (0, app)
  else
    match lookup_session_by_app usess app with
    | None => (* The application has problem or is probably dead. *)
        ret (0, app)
    | Some ua_sess =>
        match lookup_channel (s_channels ua_sess) (uchan_name uchan) with
        | None =>
            (* If the channel is not found, there is a code flow error *)
            let* _ := assert false in ret (0, app)
        | Some ua_chan =>
            let* (r, ua_chan) := create_ust_app_event ua_sess ua_chan uevent
                                   app in
            ret (r, app_store_session app
                      (set_s_channels
                         (store_channel (s_channels ua_sess) ua_chan)
                         ua_sess))
        end
    end.

(** The context loop of [ust_app_global_update]: the code that stopped
    the loop, or 0, and the contexts as the loop leaves them. *)
Fixpoint global_update_ctxs (ua_chan : ust_app_channel) (app : ust_app)
    (ctxs : list ust_app_ctx) : M (Z * list ust_app_ctx) :=
  match ctxs with
  | [] => ret (0, [])
  | ua_ctx :: rest =>
      let* (r, ua_ctx) := create_ust_channel_context ua_chan ua_ctx app in
      if r <? 0 then ret (r, ua_ctx :: rest)
      else
        let* (r, rest) := global_update_ctxs ua_chan app rest in
        ret (r, ua_ctx :: rest)
  end.

(** The event loop of [ust_app_global_update]. *)
Fixpoint global_update_events (app : ust_app) (ua_sess : ust_app_session)
    (ua_chan : ust_app_channel) (events : list ust_app_event)
    : M (Z * list ust_app_event) :=
  match events with
  | [] => ret (0, [])
  | ua_event :: rest =>
      let* (r, ua_event) := create_ust_event app ua_sess ua_chan ua_event in
      if r <? 0 then ret (r, ua_event :: rest)
      else
        let* (r, rest) := global_update_events app ua_sess ua_chan rest in
        ret (r, ua_event :: rest)
  end.

(** The channel loop of [ust_app_global_update]. *)
Fixpoint global_update_channels (usess : ltt_ust_session) (app : ust_app)
    (ua_sess : ust_app_session) (channels : list ust_app_channel)
    : M (Z * list ust_app_channel) :=
  match channels with
  | [] => ret (0, [])
  | ua_chan :: rest =>
      let* (r, ua_chan) := create_ust_channel app ua_sess ua_chan
                              (usess_consumer usess) in
      if r <? 0 then
        (* Stop everything. *)
        ret (r, ua_chan :: rest)
      else
        let* (r, ctx) := global_update_ctxs ua_chan app (ch_ctx ua_chan) in
        let ua_chan := set_ch_ctx ctx ua_chan in
        if r <? 0 then ret (r, ua_chan :: rest)
        else
          (* For each events *)
          let* (r, events) := global_update_events app ua_sess ua_chan
                                (ch_events ua_chan) in
          let ua_chan := set_ch_events events ua_chan in
          if r <? 0 then ret (r, ua_chan :: rest)
          else
            let* (r, rest) := global_update_channels usess app ua_sess
                                rest in
            ret (r, ua_chan :: rest)
  end.

(** Add channels/events from UST global domain to a registered app: the
    body of [ust_app_global_update] once [find_app_by_sock] has found the
    application. *)
Definition ust_app_global_update_one (usess : ltt_ust_session)
    (app : ust_app) : M ust_app :=
  if app_compatible app =? 0 then ret app
  else
    let* (r, _, app) := create_ust_app_session usess app in
    if r <? 0 then
      (* Tracer is probably gone or ENOMEM. *)
      ret app
    else
      match lookup_session_by_app usess app with
      | None => let* _ := assert false in ret app
      | Some ua_sess =>
          let* (r, channels) := global_update_channels usess app ua_sess
                                  (s_channels ua_sess) in
          let ua_sess := set_s_channels channels ua_sess in
          let app := app_store_session app ua_sess in
          if r <? 0 then destroy_session app ua_sess
          else if negb (usess_start_trace usess =? 0) then
            let* (r, app) := ust_app_start_trace usess app in
            if r <? 0 then
              match lookup_session_by_app usess app with
              | None => ret app
              | Some ua_sess => destroy_session app ua_sess
              end
            else ret app
          else ret app
      end.

End Application.
(** ** The application registry *)

Section Registry.
Context `{E : environment}.

(** Using pid and uid (of the app), allocate a new ust_app struct and add
    it to the global traceable app list.  On success, return 0, else
    return malloc -ENOMEM, or -EINVAL if app bitness is not supported. *)
Definition ust_app_register (msg : ust_register_msg) (sock : Z) : M Z :=
  let* w := get_world in
  if ((msg_bits_per_long msg =? 64) && (w_consumerd64_fd w =? - EINVAL))
     || ((msg_bits_per_long msg =? 32) && (w_consumerd32_fd w =? - EINVAL))
  then
    let* _ := extcall (c_close sock) in
    let* _ := lttng_fd_put 1 in
    ret (- EINVAL)
  else if negb (msg_major msg =? LTTNG_UST_COMM_MAJOR) then
    let* _ := extcall (c_close sock) in
    let* _ := lttng_fd_put 1 in
    ret (- EINVAL)
  else
    let* ok := zmalloc in
    if negb ok then ret (- ENOMEM)
    else
      (* the address of the new object: the rank of its allocation *)
      let lta_addr := w_allocs w in
      let lta :=
        {| app_ppid := msg_ppid msg; app_sock := sock;
           app_pid := msg_pid msg; app_uid := msg_uid msg;
           app_gid := msg_gid msg;
           app_bits_per_long := msg_bits_per_long msg;
           (* Not compatible until proven *)
           app_compatible := 0;
           app_v_major := msg_major msg; app_v_minor := msg_minor msg;
           (* [char name[17]], [lta->name[16] = '\0'] *)
           app_name := string_prefix 16 (msg_name msg);
           app_sessions := []; app_teardown_head := [] |} in
      let* w := get_world in
      (* On a re-registration, we want to kick out the previous
         registration of that pid *)
      let by_pid := <[msg_pid msg := lta_addr]> (w_ust_app_ht w) in
      (* The socket _should_ be unique until _we_ call close. So, a
         add_unique for the ust_app_ht_by_sock is used which asserts fail
         if the entry was already in the table. *)
      let* _ := assert (is_null (w_ust_app_ht_by_sock w !! sock)) in
      let by_sock := <[sock := lta_addr]> (w_ust_app_ht_by_sock w) in
      fun w => Some (0, set_w_registry (<[lta_addr := lta]> (w_apps w))
                          by_pid by_sock (w_call_rcu w) w).

(** Unregister app by removing it from the global traceable app list and
    freeing the data struct. *)
Definition ust_app_unregister (sock : Z) : M unit :=
  let* w := get_world in
  match w_ust_app_ht_by_sock w !! sock with
  | None => ret tt
  | Some lta_addr =>
      match w_apps w !! lta_addr with
      | None => let* _ := assert false in ret tt
      | Some lta =>
          (* Remove application from PID hash table *)
          let by_sock := delete sock (w_ust_app_ht_by_sock w) in
          (* The pid node might have been removed before by an add
             replace during app registration. *)
          let by_pid :=
            match w_ust_app_ht w !! app_pid lta with
            | Some a => if Nat.eqb a lta_addr
                        then delete (app_pid lta) (w_ust_app_ht w)
                        else w_ust_app_ht w
            | None => w_ust_app_ht w
            end in
          (* Remove sessions so they are not visible during deletion;
             [cds_list_add] puts each at the head of the teardown list. *)
          let lta :=
            set_app_sessions []
              (rev (app_sessions lta) ++ app_teardown_head lta) lta in
          (* Free memory *)
          fun w => Some (tt, set_w_registry (<[lta_addr := lta]> (w_apps w))
                               by_pid by_sock (w_call_rcu w ++ [lta_addr])
                               w)
      end
  end.

(** Delete a traceable application structure from the global list: the
    body of the [call_rcu] callback, run once the grace period of the
    oldest scheduled application has elapsed. *)
Definition delete_ust_app_rcu : M unit :=
  let* w := get_world in
  match w_call_rcu w with
  | [] => ret tt
  | lta_addr :: pending =>
      match w_apps w !! lta_addr with
      | None => let* _ := assert false in ret tt
      | Some app =>
          let sock := app_sock app in
          (* Wipe sessions *)
          let* _ := for_each (delete_ust_app_session sock)
                      (app_teardown_head app) in
          let* _ := extcall (c_close sock) in
          let* _ := lttng_fd_put 1 in
          fun w => Some (tt, set_w_registry (delete lta_addr (w_apps w))
                               (w_ust_app_ht w) (w_ust_app_ht_by_sock w)
                               pending w)
      end
  end.

(** The applications of [ust_app_ht], in the order of an iteration. *)
Definition registered_apps (w : world) : list ust_app :=
  omap (fun kv => w_apps w !! snd kv) (map_to_list (w_ust_app_ht w)).

(** ** Enumeration *)

(** The inner loop of [ust_app_list_events] on one listing handle.  The
    state is the buffer capacity [nbmem] and the entries collected so far;
    the result is [inl ret] when the listing fails and the buffer has been
    freed. *)
Fixpoint tracepoint_list_get_loop (app : ust_app) (handle : Z)
    (answers : list (Z * lttng_ust_tracepoint_iter))
    (nbmem : Z) (tmp_event : list lttng_event)
    : M (Z + Z * list lttng_event) :=
  let* _ := logcall (c_ustctl_tracepoint_list_get (app_sock app) handle) in
  match answers with
  | [] => (* -LTTNG_UST_ERR_NOENT *) ret (inr (nbmem, tmp_event))
  | (r, uiter) :: answers =>
      if r =? - LTTNG_UST_ERR_NOENT then ret (inr (nbmem, tmp_event))
      else if r <? 0 then
        (* Handle ustctl error: free(tmp_event); goto rcu_error *)
        ret (inl r)
      else
        let* grown :=
          if Z.of_nat (List.length tmp_event) >=? nbmem then
            (* In case the realloc fails, we free the memory *)
            let* ok := zmalloc in
            if negb ok then ret None else ret (Some (2 * nbmem))
          else ret (Some nbmem) in
        match grown with
        | None => ret (inl (- ENOMEM))
        | Some nbmem =>
            tracepoint_list_get_loop app handle answers nbmem
              (tmp_event ++
               [{| le_type := LTTNG_EVENT_TRACEPOINT;
                   le_name := tp_name uiter;
                   le_loglevel := tp_loglevel uiter;
                   le_enabled := -1;
                   le_pid := app_pid app |}])
        end
  end.

(** The loop of [ust_app_list_events] over the registered
    applications. *)
Fixpoint list_events_apps (apps : list ust_app) (nbmem : Z)
    (tmp_event : list lttng_event) : M (Z + Z * list lttng_event) :=
  match apps with
  | [] => ret (inr (nbmem, tmp_event))
  | app :: rest =>
      if app_compatible app =? 0 then list_events_apps rest nbmem tmp_event
      else
        let* w := get_world in
        let* handle := extcall (c_ustctl_tracepoint_list (app_sock app)) in
        if handle <? 0 then
          list_events_apps rest nbmem tmp_event
        else
          let* r := tracepoint_list_get_loop app handle
                      (env_tracepoints (w_log w)) nbmem tmp_event in
          match r with
          | inl e => ret (inl e)
          | inr (nbmem, tmp_event) =>
              list_events_apps rest nbmem tmp_event
          end
  end.

(** Fill events array with all events name of all registered apps.  The
    second component is [*events], set on success only. *)
Definition ust_app_list_events : M (Z * option (list lttng_event)) :=
  let nbmem := UST_APP_EVENT_LIST_SIZE in
  let* ok := zmalloc in
  if negb ok then ret (- ENOMEM, None)
  else
    let* w := get_world in
    let* r := list_events_apps (registered_apps w) nbmem [] in
    match r with
    | inl e => ret (e, None)
    | inr (_, tmp_event) =>
        ret (Z.of_nat (List.length tmp_event), Some tmp_event)
    end.

(** The inner loop of [ust_app_list_event_fields]. *)
Fixpoint tracepoint_field_list_get_loop (app : ust_app) (handle : Z)
    (answers : list (Z * lttng_ust_field_iter))
    (nbmem : Z) (tmp_event : list lttng_event_field)
    : M (Z + Z * list lttng_event_field) :=
  let* _ := logcall (c_ustctl_tracepoint_field_list_get (app_sock app)
                       handle) in
  match answers with
  | [] => ret (inr (nbmem, tmp_event))
  | (r, uiter) :: answers =>
      if r =? - LTTNG_UST_ERR_NOENT then ret (inr (nbmem, tmp_event))
      else if r <? 0 then ret (inl r)
      else
        let* grown :=
          if Z.of_nat (List.length tmp_event) >=? nbmem then
            let* ok := zmalloc in
            if negb ok then ret None else ret (Some (2 * nbmem))
          else ret (Some nbmem) in
        match grown with
        | None => ret (inl (- ENOMEM))
        | Some nbmem =>
            tracepoint_field_list_get_loop app handle answers nbmem
              (tmp_event ++
               [{| lf_field_name := fi_field_name uiter;
                   lf_type := fi_type uiter;
                   lf_nowrite := fi_nowrite uiter;
                   lf_event :=
                     {| le_type := LTTNG_EVENT_TRACEPOINT;
                        le_name := fi_event_name uiter;
                        le_loglevel := fi_loglevel uiter;
                        le_enabled := -1;
                        le_pid := app_pid app |} |}])
        end
  end.

(** The loop of [ust_app_list_event_fields] over the registered
    applications. *)
Fixpoint list_event_fields_apps (apps : list ust_app) (nbmem : Z)
    (tmp_event : list lttng_event_field)
    : M (Z + Z * list lttng_event_field) :=
  match apps with
  | [] => ret (inr (nbmem, tmp_event))
  | app :: rest =>
      if app_compatible app =? 0 then
        list_event_fields_apps rest nbmem tmp_event
      else
        let* w := get_world in
        let* handle := extcall (c_ustctl_tracepoint_field_list
                                  (app_sock app)) in
        if handle <? 0 then
          list_event_fields_apps rest nbmem tmp_event
        else
          let* r := tracepoint_field_list_get_loop app handle
                      (env_fields (w_log w)) nbmem tmp_event in
          match r with
          | inl e => ret (inl e)
          | inr (nbmem, tmp_event) =>
              list_event_fields_apps rest nbmem tmp_event
          end
  end.

(** Fill events array with all events name of all registered apps. *)
Definition ust_app_list_event_fields
    : M (Z * option (list lttng_event_field)) :=
  let nbmem := UST_APP_EVENT_LIST_SIZE in
  let* ok := zmalloc in
  if negb ok then ret (- ENOMEM, None)
  else
    let* w := get_world in
    let* r := list_event_fields_apps (registered_apps w) nbmem [] in
    match r with
    | inl e => ret (e, None)
    | inr (_, tmp_event) =>
        ret (Z.of_nat (List.length tmp_event), Some tmp_event)
    end.

(** ** Consumer handoff of the kernel metadata *)

(** Modelled from the spec: [consumer_init_channel_comm_msg] of
    [consumer.c], which is not among the sources.  It fills "ADD_CHANNEL:
    { cmd, channel_key, session_id, path, uid, gid, net_seq_index, name,
    stream_count, output_mode, channel_type, tracefile_size,
    tracefile_count }" from its arguments, in that order. *)
Definition consumer_init_channel_comm_msg (cmd : lttng_consumer_command)
    (channel_key session_id : Z) (pathname : string) (uid gid relayd_id : Z)
    (name : string) (nb_init_streams output : Z)
    (type : consumer_channel_type) (tracefile_size tracefile_count : Z)
    : lttcomm_consumer_msg :=
  msg_channel cmd
    {| cm_channel_key := channel_key; cm_session_id := session_id;
       cm_pathname := pathname; cm_uid := uid; cm_gid := gid;
       cm_relayd_id := relayd_id; cm_name := name;
       cm_nb_init_streams := nb_init_streams; cm_output := output;
       cm_type := type; cm_tracefile_size := tracefile_size;
       cm_tracefile_count := tracefile_count |}.

(** Modelled from the spec: [consumer_init_stream_comm_msg] of
    [consumer.c].  It fills "ADD_STREAM: { cmd, channel_key, stream_key,
    cpu, no_monitor }" from its arguments; the message is zeroed first, so
    [no_monitor] starts at 0. *)
Definition consumer_init_stream_comm_msg (cmd : lttng_consumer_command)
    (channel_key stream_key cpu : Z) : lttcomm_consumer_msg :=
  msg_stream cmd
    {| sm_channel_key := channel_key; sm_stream_key := stream_key;
       sm_cpu := cpu; sm_no_monitor := 0 |}.

(** [lkm.u.stream.no_monitor = no_monitor;] *)
Definition set_no_monitor (no_monitor : Z) (lkm : lttcomm_consumer_msg)
    : lttcomm_consumer_msg :=
  match lkm with
  | msg_stream cmd m =>
      msg_stream cmd
        {| sm_channel_key := sm_channel_key m;
           sm_stream_key := sm_stream_key m; sm_cpu := sm_cpu m;
           sm_no_monitor := no_monitor |}
  | msg_channel _ _ => lkm
  end.

(** The path-name prologue shared by the kernel consumer functions: the
    return code so far and the path. *)
Definition kernel_consumer_pathname (session : ltt_kernel_session)
    : M (Z * string) :=
  let consumer := ks_consumer session in
  (* Get the right path name destination *)
  match co_type consumer with
  | CONSUMER_DST_LOCAL =>
      (* Set application path to the destination path *)
      let pathname := string_prefix (PATH_MAX - 1)
                        (co_trace_path consumer ++ co_subdir consumer) in
      (* Create directory *)
      let* r := extcall (c_run_as_mkdir_recursive pathname (ks_uid session)
                           (ks_gid session)) in
      ret (r, pathname)
  | CONSUMER_DST_NET =>
      ret (0, string_prefix (PATH_MAX - 1) (co_subdir consumer))
  end.

(** Sending metadata to the consumer with command ADD_CHANNEL and
    ADD_STREAM. *)
Definition kernel_consumer_add_metadata (sock : consumer_socket)
    (session : ltt_kernel_session) (no_monitor : Z) : M Z :=
  let consumer := ks_consumer session in
  let* (r, pathname) := kernel_consumer_pathname session in
  if (r <? 0) && negb (r =? - EEXIST) then ret r
  else
    (* Prep channel message structure *)
    let lkm := consumer_init_channel_comm_msg LTTNG_CONSUMER_ADD_CHANNEL
                 (ks_metadata_fd session) (ks_id session) pathname
                 (ks_uid session) (ks_gid session)
                 (co_net_seq_index consumer) DEFAULT_METADATA_NAME 1
                 DEFAULT_KERNEL_CHANNEL_OUTPUT
                 CONSUMER_CHANNEL_TYPE_METADATA 0 0 in
    let* r := extcall (c_consumer_send_channel (cs_fd sock) lkm) in
    if r <? 0 then ret r
    else
      (* Prep stream message structure *)
      let lkm := consumer_init_stream_comm_msg LTTNG_CONSUMER_ADD_STREAM
                   (ks_metadata_fd session) (ks_metadata_stream_fd session)
                   0 (* CPU: 0 for metadata. *) in
      (* Set the no monitor flag. *)
      let lkm := set_no_monitor no_monitor lkm in
      (* Send stream and file descriptor *)
      extcall (c_consumer_send_stream (cs_fd sock) lkm
                 [ks_metadata_stream_fd session]).

End Registry.

(** ** Concrete environments and states for the examples *)

(** An environment given by the answers to external calls, the outcome of
    each allocation, the stream count of the consumer and the clock
    rendering; object handles are numbered by the length of the log. *)
Definition scripted_environment (answers : list call -> call -> Z)
    (mallocs : nat -> bool) (count : Z) (datetime : Z -> string)
    : environment :=
  {| env_ret := answers;
     env_zmalloc := mallocs;
     env_obj := fun log => Z.of_nat (List.length log);
     env_stream_count := fun _ => count;
     env_streams := fun _ => [];
     env_tracepoints := fun log =>
       [(0, {| tp_name := "ust_tests_hello:tptest";
               tp_loglevel := Z.of_nat (List.length log) |})];
     env_fields := fun log =>
       [(0, {| fi_event_name := "ust_tests_hello:tptest";
               fi_field_name := "intfield"; fi_type := 0;
               fi_loglevel := Z.of_nat (List.length log);
               fi_nowrite := 0 |})];
     env_consumer_find_socket := fun fd _ =>
       if fd <? 0 then None else Some {| cs_fd := fd |};
     env_datetime := datetime;
     env_hash_str := fun s => Z.of_nat (String.length s);
     UST_APP_EVENT_LIST_SIZE := 2;
     DEFAULT_CHANNEL_OVERWRITE := 0;
     DEFAULT_METADATA_SUBBUF_NUM := 2;
     DEFAULT_CHANNEL_SWITCH_TIMER := 0;
     DEFAULT_CHANNEL_READ_TIMER := 200;
     DEFAULT_KERNEL_CHANNEL_OUTPUT := 0;
     LTTNG_UST_MMAP := 0;
     default_get_metadata_subbuf_size := 4096 |}.

(** Every external call succeeds. *)
Definition all_ok : list call -> call -> Z := fun _ _ => 0.

Definition fixed_datetime : Z -> string := fun _ => "20130401-120000"%string.

(** The daemon right after start, with the two consumer descriptors. *)
Definition boot_world (consumerd32_fd consumerd64_fd : Z) : world :=
  {| w_log := []; w_fd_apps := 0; w_allocs := 0; w_next_channel_key := 0;
     w_rawtime := 0;
     w_consumerd32_fd := consumerd32_fd;
     w_consumerd64_fd := consumerd64_fd;
     w_apps := ∅; w_ust_app_ht := ∅; w_ust_app_ht_by_sock := ∅;
     w_call_rcu := [] |}.

(** A 64-bit application on socket 7. *)
Definition app_100 : ust_app :=
  {| app_ppid := 1; app_sock := 7; app_pid := 100; app_uid := 1000;
     app_gid := 1000; app_bits_per_long := 64; app_compatible := 1;
     app_v_major := 2; app_v_minor := 0; app_name := "hello";
     app_sessions := []; app_teardown_head := [] |}.

Definition local_consumer : consumer_output :=
  {| co_enabled := 1; co_type := CONSUMER_DST_LOCAL; co_net_seq_index := -1;
     co_trace_path := "/tmp/trace"; co_subdir := "/ust" |}.

Definition session_1 : ust_app_session :=
  {| s_handle := 3; s_id := 1; s_uid := 1000; s_gid := 1000; s_uuid := 0;
     s_started := 0; s_path := "hello-100-20130401-120000/";
     s_channels := []; s_metadata := None |}.

Definition channel_0 : ust_app_channel :=
  {| ch_enabled := 1; ch_handle := -1; ch_name := "channel0"; ch_key := 1;
     ch_is_sent := 0; ch_expected_stream_count := 0; ch_obj := None;
     ch_attr := {| attr_subbuf_size := 4096; attr_num_subbuf := 4;
                   attr_overwrite := 0; attr_switch_timer_interval := 0;
                   attr_read_timer_interval := 0; attr_output := 0;
                   attr_type := LTTNG_UST_CHAN_PER_CPU |};
     ch_streams := []; ch_ctx := []; ch_events := [] |}.

(** The consumer announces three streams; the get-channel step fails. *)
Definition get_channel_fails : list call -> call -> Z :=
  fun _ c => match c with
             | c_ust_consumer_get_channel _ _ => - EPIPE
             | _ => 0
             end.

Definition env_three_streams : environment :=
  scripted_environment get_channel_fails (fun _ => true) 3 fixed_datetime.

(** The global event "sched_switch", loglevel 5, with a two-byte filter. *)
Definition uevent_sched_switch : ltt_ust_event :=
  {| uevent_enabled := 1;
     uevent_attr := {| attr_instrumentation := 0;
                       attr_name := "sched_switch";
                       attr_loglevel_type := LTTNG_UST_LOGLEVEL_SINGLE;
                       attr_loglevel := 5 |};
     uevent_filter := Some {| f_len := 2; f_data := [x01; x02]%byte |} |}.

(** The tracer refuses the creation of events: the application is gone. *)
Definition create_event_fails : list call -> call -> Z :=
  fun _ c => match c with
             | c_ustctl_create_event _ _ _ => - EPIPE
             | _ => 0
             end.

Definition env_create_event_fails : environment :=
  scripted_environment create_event_fails (fun _ => true) 1 fixed_datetime.

(** Every external call succeeds and memory never runs out. *)
Definition env_quiet : environment :=
  scripted_environment all_ok (fun _ => true) 1 fixed_datetime.

(** A 64-bit application, pid 100, speaking protocol major 2. *)
Definition msg_pid100 : ust_register_msg :=
  {| msg_major := 2; msg_minor := 0; msg_pid := 100; msg_ppid := 1;
     msg_uid := 1000; msg_gid := 1000; msg_bits_per_long := 64;
     msg_name := "hello" |}.

(** The same application announcing protocol major 99. *)
Definition msg_major99 : ust_register_msg :=
  {| msg_major := 99; msg_minor := 0; msg_pid := 100; msg_ppid := 1;
     msg_uid := 1000; msg_gid := 1000; msg_bits_per_long := 64;
     msg_name := "hello" |}.

(** A kernel session writing locally; its metadata channel and stream
    have descriptors 20 and 21. *)
Definition kernel_session_1 : ltt_kernel_session :=
  {| ks_id := 1; ks_uid := 0; ks_gid := 0; ks_metadata_fd := 20;
     ks_metadata_stream_fd := 21;
     ks_consumer := {| co_enabled := 1; co_type := CONSUMER_DST_LOCAL;
                       co_net_seq_index := -1;
                       co_trace_path := "/tmp/trace";
                       co_subdir := "/kernel" |} |}.

(** The trace directory is already there. *)
Definition mkdir_eexist : list call -> call -> Z :=
  fun _ c => match c with
             | c_run_as_mkdir_recursive _ _ _ => - EEXIST
             | _ => 0
             end.

Definition env_mkdir_eexist : environment :=
  scripted_environment mkdir_eexist (fun _ => true) 1 fixed_datetime.

(** A global session, local consumer, no channel of its own. *)
Definition usess_1 : ltt_ust_session :=
  {| usess_id := 1; usess_uid := 1000; usess_gid := 1000;
     usess_start_trace := 1; usess_consumer := local_consumer;
     usess_channels := [] |}.

Definition sent_channel (name : string) (key obj : Z)
    (type : lttng_ust_chan_type) : ust_app_channel :=
  {| ch_enabled := 1; ch_handle := obj; ch_name := name; ch_key := key;
     ch_is_sent := 1; ch_expected_stream_count := 1; ch_obj := Some obj;
     ch_attr := {| attr_subbuf_size := 4096; attr_num_subbuf := 4;
                   attr_overwrite := 0; attr_switch_timer_interval := 0;
                   attr_read_timer_interval := 0; attr_output := 0;
                   attr_type := type |};
     ch_streams := []; ch_ctx := []; ch_events := [] |}.

Definition metadata_sent : ust_app_channel :=
  sent_channel "metadata" 1 10 LTTNG_UST_CHAN_METADATA.

(** A started session: metadata and two data channels, all sent. *)
Definition session_started : ust_app_session :=
  {| s_handle := 3; s_id := 1; s_uid := 1000; s_gid := 1000; s_uuid := 0;
     s_started := 1; s_path := "hello-100-20130401-120000/";
     s_channels := [sent_channel "channel0" 2 11 LTTNG_UST_CHAN_PER_CPU;
                    sent_channel "channel1" 3 12 LTTNG_UST_CHAN_PER_CPU];
     s_metadata := Some metadata_sent |}.

Definition app_started : ust_app :=
  {| app_ppid := 1; app_sock := 7; app_pid := 100; app_uid := 1000;
     app_gid := 1000; app_bits_per_long := 64; app_compatible := 1;
     app_v_major := 2; app_v_minor := 0; app_name := "hello";
     app_sessions := [session_started]; app_teardown_head := [] |}.

(** The tracer answers [stop_session] with -EPIPE. *)
Definition stop_fails : list call -> call -> Z :=
  fun _ c => match c with
             | c_ustctl_stop_session _ _ => - EPIPE
             | _ => 0
             end.

Definition env_stop_fails : environment :=
  scripted_environment stop_fails (fun _ => true) 1 fixed_datetime.

(** The flush of object 11 fails with -EINVAL. *)
Definition flush_fails : list call -> call -> Z :=
  fun _ c => match c with
             | c_ustctl_sock_flush_buffer _ (Some 11) => - EINVAL
             | _ => 0
             end.

Definition env_flush_fails : environment :=
  scripted_environment flush_fails (fun _ => true) 1 fixed_datetime.

(** The flush of object 11 finds the application gone. *)
Definition flush_epipe : list call -> call -> Z :=
  fun _ c => match c with
             | c_ustctl_sock_flush_buffer _ (Some 11) => - EPIPE
             | _ => 0
             end.

Definition env_flush_epipe : environment :=
  scripted_environment flush_epipe (fun _ => true) 1 fixed_datetime.

(** An environment with other listing scripts. *)
Definition with_listings
    (tracepoints : list call -> list (Z * lttng_ust_tracepoint_iter))
    (fields : list call -> list (Z * lttng_ust_field_iter))
    (E : environment) : environment :=
  {| env_ret := env_ret; env_zmalloc := env_zmalloc; env_obj := env_obj;
     env_stream_count := env_stream_count; env_streams := env_streams;
     env_tracepoints := tracepoints; env_fields := fields;
     env_consumer_find_socket := env_consumer_find_socket;
     env_datetime := env_datetime; env_hash_str := env_hash_str;
     UST_APP_EVENT_LIST_SIZE := UST_APP_EVENT_LIST_SIZE;
     DEFAULT_CHANNEL_OVERWRITE := DEFAULT_CHANNEL_OVERWRITE;
     DEFAULT_METADATA_SUBBUF_NUM := DEFAULT_METADATA_SUBBUF_NUM;
     DEFAULT_CHANNEL_SWITCH_TIMER := DEFAULT_CHANNEL_SWITCH_TIMER;
     DEFAULT_CHANNEL_READ_TIMER := DEFAULT_CHANNEL_READ_TIMER;
     DEFAULT_KERNEL_CHANNEL_OUTPUT := DEFAULT_KERNEL_CHANNEL_OUTPUT;
     LTTNG_UST_MMAP := LTTNG_UST_MMAP;
     default_get_metadata_subbuf_size := default_get_metadata_subbuf_size |}.

Definition tptest : lttng_ust_tracepoint_iter :=
  {| tp_name := "ust_tests_hello:tptest"; tp_loglevel := 13 |}.

Definition tptest_field : lttng_ust_field_iter :=
  {| fi_event_name := "ust_tests_hello:tptest"; fi_field_name := "intfield";
     fi_type := 0; fi_loglevel := 13; fi_nowrite := 0 |}.

(** The application vanishes while its tracepoints are being read: every
    other call succeeds, the first entry read fails with -EPIPE. *)
Definition env_list_get_epipe : environment :=
  with_listings (fun _ => [(- EPIPE, tptest)])
    (fun _ => [(- EPIPE, tptest_field)]) env_quiet.

(** The listing handle of socket 7 cannot be obtained: the application is
    gone. *)
Definition list_handle_epipe : list call -> call -> Z :=
  fun _ c => match c with
             | c_ustctl_tracepoint_list 7 => - EPIPE
             | c_ustctl_tracepoint_field_list 7 => - EPIPE
             | _ => 0
             end.

Definition env_list_handle_epipe : environment :=
  scripted_environment list_handle_epipe (fun _ => true) 1 fixed_datetime.

(** A second compatible application, pid 200 on socket 9. *)
Definition app_200 : ust_app :=
  {| app_ppid := 1; app_sock := 9; app_pid := 200; app_uid := 1000;
     app_gid := 1000; app_bits_per_long := 64; app_compatible := 1;
     app_v_major := 2; app_v_minor := 0; app_name := "world";
     app_sessions := []; app_teardown_head := [] |}.

(** The daemon with [app_100] registered. *)
Definition world_one_app : world :=
  set_w_registry {[ 0%nat := app_100 ]} {[ 100 := 0%nat ]}
    {[ 7 := 0%nat ]} [] (boot_world (- EINVAL) 5).

(** A global channel with one context and one event. *)
Definition uchan_0 : ltt_ust_channel :=
  {| uchan_enabled := 1; uchan_name := "chan0";
     uchan_attr := {| uattr_subbuf_size := 4096; uattr_num_subbuf := 4;
                      uattr_overwrite := 0;
                      uattr_switch_timer_interval := 0;
                      uattr_read_timer_interval := 200;
                      uattr_output := 0 |};
     uchan_ctx := [{| uctx_kind := 3 |}];
     uchan_events := [uevent_sched_switch] |}.

(** The global session with that channel. *)
Definition usess_chan0 : ltt_ust_session :=
  {| usess_id := 1; usess_uid := 1000; usess_gid := 1000;
     usess_start_trace := 1; usess_consumer := local_consumer;
     usess_channels := [uchan_0] |}.

(** A session as [alloc_ust_app_session] leaves it. *)
Definition blank_session : ust_app_session :=
  {| s_handle := -1; s_id := 0; s_uid := 0; s_gid := 0; s_uuid := 0;
     s_started := 0; s_path := EmptyString; s_channels := [];
     s_metadata := None |}.

(** A clock rendering that tells second 0 from the later ones. *)
Definition datetime_of_second : Z -> string :=
  fun t => if t =? 0 then "20130401-120000"%string
           else "20130401-120001"%string.

Definition env_clock : environment :=
  scripted_environment all_ok (fun _ => true) 1 datetime_of_second.

(** ** The kernel consumer: data channels, streams and the session *)

(** [struct ltt_kernel_stream], the fields read by the consumer
    functions. *)
Record ltt_kernel_stream := {
  kstream_fd : Z;
  kstream_cpu : Z
}.

(** [struct ltt_kernel_channel], with the fields of [channel->channel]
    ([struct lttng_channel]) read by the consumer functions. *)
Record ltt_kernel_channel := {
  kchan_fd : Z;
  (** [channel->channel->name] *)
  kchan_name : string;
  (** [channel->channel->attr.output] *)
  kchan_output : Z;
  (** [channel->channel->attr.tracefile_size] *)
  kchan_tracefile_size : Z;
  (** [channel->channel->attr.tracefile_count] *)
  kchan_tracefile_count : Z;
  kchan_stream_count : Z;
  (** [channel->stream_list], in the order of the iteration *)
  kchan_stream_list : list ltt_kernel_stream
}.

Section KernelConsumer.
Context `{E : environment}.

(** [LTTNG_OK] of [lttng-error.h], a positive code. *)
Variable LTTNG_OK : Z.

(** Sending a single channel to the consumer with command ADD_CHANNEL. *)
Definition kernel_consumer_add_channel (sock : consumer_socket)
    (channel : ltt_kernel_channel) (session : ltt_kernel_session) : M Z :=
  let consumer := ks_consumer session in
  let* (r, pathname) := kernel_consumer_pathname session in
  if (r <? 0) && negb (r =? - EEXIST) then ret r
  else
    (* Prep channel message structure *)
    let lkm := consumer_init_channel_comm_msg LTTNG_CONSUMER_ADD_CHANNEL
                 (kchan_fd channel) (ks_id session) pathname
                 (ks_uid session) (ks_gid session)
                 (co_net_seq_index consumer) (kchan_name channel)
                 (kchan_stream_count channel) (kchan_output channel)
                 CONSUMER_CHANNEL_TYPE_DATA
                 (kchan_tracefile_size channel)
                 (kchan_tracefile_count channel) in
    extcall (c_consumer_send_channel (cs_fd sock) lkm).

(** Sending a single stream to the consumer with command ADD_STREAM. *)
Definition kernel_consumer_add_stream (sock : consumer_socket)
    (channel : ltt_kernel_channel) (stream : ltt_kernel_stream)
    (session : ltt_kernel_session) : M Z :=
  (* Prep stream consumer message *)
  let lkm := consumer_init_stream_comm_msg LTTNG_CONSUMER_ADD_STREAM
               (kchan_fd channel) (kstream_fd stream)
               (kstream_cpu stream) in
  (* Send stream and file descriptor *)
  extcall (c_consumer_send_stream (cs_fd sock) lkm [kstream_fd stream]).

(** The stream loop of [kernel_consumer_send_channel_stream]; [r] is
    [ret] on entry. *)
Fixpoint send_channel_streams (sock : consumer_socket)
    (channel : ltt_kernel_channel) (session : ltt_kernel_session)
    (streams : list ltt_kernel_stream) (r : Z) : M Z :=
  match streams with
  | [] => ret r
  | stream :: rest =>
      if kstream_fd stream =? 0 then
        send_channel_streams sock channel session rest r
      else
        (* Add stream on the kernel consumer side. *)
        let* r := kernel_consumer_add_stream sock channel stream session in
        if r <? 0 then ret r
        else send_channel_streams sock channel session rest r
  end.

(** Send all stream fds of kernel channel to the consumer. *)
Definition kernel_consumer_send_channel_stream (sock : consumer_socket)
    (channel : ltt_kernel_channel) (session : ltt_kernel_session) : M Z :=
  (* Bail out if consumer is disabled *)
  if co_enabled (ks_consumer session) =? 0 then ret LTTNG_OK
  else
    let* r := kernel_consumer_add_channel sock channel session in
    if r <? 0 then ret r
    else
      (* Send streams *)
      send_channel_streams sock channel session
        (kchan_stream_list channel) r.

(** The channel loop of [kernel_consumer_send_session]; running through
    ends in [return 0]. *)
Fixpoint send_session_channels (sock : consumer_socket)
    (session : ltt_kernel_session) (channels : list ltt_kernel_channel)
    : M Z :=
  match channels with
  | [] => ret 0
  | chan :: rest =>
      let* r := kernel_consumer_send_channel_stream sock chan session in
      if r <? 0 then ret r
      else send_session_channels sock session rest
  end.

(** Send all stream fds of the kernel session to the consumer.  The
    fields [session->channel_list] and [session->consumer_fds_sent] are
    the two last arguments; the result is the return code and
    [consumer_fds_sent] on return. *)
Definition kernel_consumer_send_session (sock : consumer_socket)
    (session : ltt_kernel_session)
    (channel_list : list ltt_kernel_channel) (consumer_fds_sent : Z)
    : M (Z * Z) :=
  (* Bail out if consumer is disabled *)
  if co_enabled (ks_consumer session) =? 0 then
    ret (LTTNG_OK, consumer_fds_sent)
  else if ks_metadata_stream_fd session >=? 0 then
    let* r := kernel_consumer_add_metadata sock session 0 in
    if r <? 0 then ret (r, consumer_fds_sent)
    else
      (* Flag that at least the metadata has been sent to the
         consumer. *)
      let* r := send_session_channels sock session channel_list in
      ret (r, 1)
  else
    let* r := send_session_channels sock session channel_list in
    ret (r, consumer_fds_sent).

End KernelConsumer.

(** ** Channels and contexts of one application *)

(** The table after a write through the pointer that a lookup returned:
    the first node that the lookup accepts is the one written. *)
Fixpoint store_first {A : Type} (p : A -> bool) (new : A) (l : list A)
    : list A :=
  match l with
  | [] => []
  | x :: r => if p x then new :: r else x :: store_first p new r
  end.

Section AppOperations.
Context `{E : environment}.

(** Create a context for the channel on the tracer. *)
Definition create_ust_app_channel_context (ua_sess : ust_app_session)
    (ua_chan : ust_app_channel) (uctx : ltt_ust_context) (app : ust_app)
    : M (Z * ust_app_channel) :=
  match lookup_ctx (ch_ctx ua_chan) (uctx_kind uctx) with
  | Some _ => ret (- EEXIST, ua_chan)
  | None =>
      let* ua_ctx := alloc_ust_app_ctx (Some uctx) in
      match ua_ctx with
      | None => (* malloc failed *) ret (-1, ua_chan)
      | Some ua_ctx =>
          let* ctx := add_unique_ctx (ch_ctx ua_chan) ua_ctx in
          let ua_chan := set_ch_ctx ctx ua_chan in
          let* (r, ua_ctx') := create_ust_channel_context ua_chan ua_ctx
                                  app in
          ret (r, set_ch_ctx
                    (store_first (fun c => ctx_kind c =? ctx_kind ua_ctx)
                       ua_ctx' ctx) ua_chan)
      end
  end.

(** Lookup ust app channel for session and enable it on the tracer
    side. *)
Definition enable_ust_app_channel (ua_sess : ust_app_session)
    (uchan : ltt_ust_channel) (app : ust_app) : M (Z * ust_app_session) :=
  match lookup_channel (s_channels ua_sess) (uchan_name uchan) with
  | None => ret (0, ua_sess)
  | Some ua_chan =>
      let* (r, ua_chan) := enable_ust_channel app ua_sess ua_chan in
      ret (r, set_s_channels (store_channel (s_channels ua_sess) ua_chan)
                ua_sess)
  end.

End AppOperations.

(** ** The registry: lookups and the final clean-up *)

(** Find an ust_app using the sock and return it. *)
Definition find_app_by_sock (sock : Z) (w : world) : option ust_app :=
  match w_ust_app_ht_by_sock w !! sock with
  | None => None
  | Some addr => w_apps w !! addr
  end.

(** Return ust app pointer or NULL if not found. *)
Definition ust_app_find_by_pid (pid : Z) (w : world) : option ust_app :=
  match w_ust_app_ht w !! pid with
  | None => None
  | Some addr => w_apps w !! addr
  end.

(** The nodes of [ust_app_ht] in the order of an iteration, as addresses
    of application objects. *)
Definition registered_addrs (w : world) : list nat :=
  map snd (map_to_list (w_ust_app_ht w)).

(** Free and clean all traceable apps of the global list: every node of
    [ust_app_ht] is deleted and its application handed to [call_rcu];
    every node of [ust_app_ht_by_sock] is deleted. *)
Definition ust_app_clean_list : M unit :=
  fun w => Some (tt, set_w_registry (w_apps w) ∅ ∅
                       (w_call_rcu w ++ registered_addrs w) w).

(** ** Loops over the registered applications *)

(** How the body of a loop over the applications ends: with the next
    application ([continue], or the end of the body), or out of the loop
    ([break], [goto error]). *)
Inductive loop_exit := next_app | leave_loop.

Section AppLoops.
Context `{E : environment}.

(** The writes made through the [app] pointer, seen in the object at
    [addr]. *)
Definition store_app (addr : nat) (app : ust_app) : M unit :=
  fun w => Some (tt, set_w_registry (<[addr := app]> (w_apps w))
                       (w_ust_app_ht w) (w_ust_app_ht_by_sock w)
                       (w_call_rcu w) w).

(** [cds_lfht_for_each_entry(ust_app_ht->ht, &iter.iter, app, pid_n.node)]
    over the nodes [addrs].  [r] is [ret] when the iteration reaches the
    node; the body gives [ret] as it leaves it.  An address that holds
    no application is passed over, as in [registered_apps]. *)
Fixpoint for_each_app (body : ust_app -> Z -> M (loop_exit * Z * ust_app))
    (addrs : list nat) (r : Z) : M Z :=
  match addrs with
  | [] => ret r
  | addr :: rest =>
      let* w := get_world in
      match w_apps w !! addr with
      | None => for_each_app body rest r
      | Some app =>
          let* (exit, r, app) := body app r in
          let* _ := store_app addr app in
          match exit with
          | leave_loop => ret r
          | next_app => for_each_app body rest r
          end
      end
  end.

(** The body of the loop of [ust_app_enable_channel_glb]. *)
Definition ust_app_enable_channel_glb_body (usess : ltt_ust_session)
    (uchan : ltt_ust_channel) (app : ust_app) (r : Z)
    : M (loop_exit * Z * ust_app) :=
  if app_compatible app =? 0 then ret (next_app, r, app)
  else
    match lookup_session_by_app usess app with
    | None => ret (next_app, r, app)
    | Some ua_sess =>
        (* Enable channel onto application *)
        let* (r, ua_sess) := enable_ust_app_channel ua_sess uchan app in
        ret (next_app, r, app_store_session app ua_sess)
    end.

(** For a specific UST session, enable the channel for all registered
    apps.  [None] is a NULL argument. *)
Definition ust_app_enable_channel_glb (usess : option ltt_ust_session)
    (uchan : option ltt_ust_channel) : M Z :=
  match usess, uchan with
  | Some usess, Some uchan =>
      let* w := get_world in
      (* For every registered applications *)
      for_each_app (ust_app_enable_channel_glb_body usess uchan)
        (registered_addrs w) 0
  | _, _ => ret (-1)
  end.

(** The body of the loop of [ust_app_create_event_glb]. *)
Definition ust_app_create_event_glb_body (usess : ltt_ust_session)
    (uchan : ltt_ust_channel) (uevent : ltt_ust_event) (app : ust_app)
    (r : Z) : M (loop_exit * Z * ust_app) :=
  if app_compatible app =? 0 then ret (next_app, r, app)
  else
    match lookup_session_by_app usess app with
    | None =>
        (* The application has problem or is probably dead. *)
        ret (next_app, r, app)
    | Some ua_sess =>
        (* Lookup channel in the ust app session *)
        match lookup_channel (s_channels ua_sess) (uchan_name uchan) with
        | None =>
            (* If the channel is not found, there is a code flow error *)
            let* _ := assert false in ret (next_app, r, app)
        | Some ua_chan =>
            let* (r, ua_chan) := create_ust_app_event ua_sess ua_chan uevent
                                   app in
            let app := app_store_session app
                         (set_s_channels
                            (store_channel (s_channels ua_sess) ua_chan)
                            ua_sess) in
            if (r <? 0) && negb (r =? - LTTNG_UST_ERR_EXIST) then
              (* Possible value at this point: -ENOMEM. If so, we stop! *)
              ret (leave_loop, r, app)
            else ret (next_app, r, app)
        end
    end.

(** For a specific existing UST session and UST channel, creates the
    event for all registered apps. *)
Definition ust_app_create_event_glb (usess : ltt_ust_session)
    (uchan : ltt_ust_channel) (uevent : ltt_ust_event) : M Z :=
  let* w := get_world in
  (* For all registered applications *)
  for_each_app (ust_app_create_event_glb_body usess uchan uevent)
    (registered_addrs w) 0.

(** Destroy app UST session. *)
Definition ust_app_destroy_trace_all (usess : ltt_ust_session) : M Z :=
  let* w := get_world in
  let* _ := for_each_app
              (fun app _ =>
                 let* (r, app) := destroy_trace usess app in
                 (* Continue to next apps even on error *)
                 ret (next_app, r, app))
              (registered_addrs w) 0 in
  ret 0.

(** Add channels/events from UST global domain to registered apps at
    sock.  The application is the one [find_app_by_sock] returns; its
    address is kept for the writes through [app]. *)
Definition ust_app_global_update (usess : ltt_ust_session) (sock : Z)
    : M unit :=
  let* _ := assert (0 <=? sock) in
  let* w := get_world in
  match w_ust_app_ht_by_sock w !! sock with
  | None => ret tt
  | Some addr =>
      match w_apps w !! addr with
      | None => ret tt
      | Some app =>
          let* app := ust_app_global_update_one usess app in
          store_app addr app
      end
  end.

End AppLoops.
(** ** More concrete states for the examples *)

(** [LTTNG_OK] as [lttng-error.h] numbers it. *)
Definition LTTNG_OK_10 : Z := 10.

(** A kernel data channel with three streams, the second without a
    descriptor. *)
Definition kchan_0 : ltt_kernel_channel :=
  {| kchan_fd := 30; kchan_name := "channel0"; kchan_output := 0;
     kchan_tracefile_size := 0; kchan_tracefile_count := 0;
     kchan_stream_count := 3;
     kchan_stream_list :=
       [{| kstream_fd := 31; kstream_cpu := 0 |};
        {| kstream_fd := 0; kstream_cpu := 1 |};
        {| kstream_fd := 33; kstream_cpu := 2 |}] |}.

(** The consumer refuses every stream. *)
Definition send_stream_fails : list call -> call -> Z :=
  fun _ c => match c with
             | c_consumer_send_stream _ _ _ => -1
             | _ => 0
             end.

Definition env_send_stream_fails : environment :=
  scripted_environment send_stream_fails (fun _ => true) 1 fixed_datetime.

(** The tracer refuses contexts: the application is gone. *)
Definition add_context_fails : list call -> call -> Z :=
  fun _ c => match c with
             | c_ustctl_add_context _ _ _ => - EPIPE
             | _ => 0
             end.

Definition env_add_context_fails : environment :=
  scripted_environment add_context_fails (fun _ => true) 1 fixed_datetime.

(** The global channel "channel1", no context, no event. *)
Definition uchan_1 : ltt_ust_channel :=
  {| uchan_enabled := 1; uchan_name := "channel1";
     uchan_attr := {| uattr_subbuf_size := 4096; uattr_num_subbuf := 4;
                      uattr_overwrite := 0;
                      uattr_switch_timer_interval := 0;
                      uattr_read_timer_interval := 0;
                      uattr_output := 0 |};
     uchan_ctx := []; uchan_events := [] |}.

(** The tracer refuses new sessions: the application is gone. *)
Definition create_session_fails : list call -> call -> Z :=
  fun _ c => match c with
             | c_ustctl_create_session _ => - EPIPE
             | _ => 0
             end.

Definition env_create_session_fails : environment :=
  scripted_environment create_session_fails (fun _ => true) 1
    fixed_datetime.

(** No memory is to be had. *)
Definition env_no_memory : environment :=
  scripted_environment all_ok (fun _ => false) 1 fixed_datetime.

(** The daemon with [app_started] registered: pid 100 on socket 7, with
    a started session of two data channels and the metadata. *)
Definition world_app_started : world :=
  set_w_allocs 1
    (set_w_registry {[ 0%nat := app_started ]} {[ 100 := 0%nat ]}
       {[ 7 := 0%nat ]} [] (boot_world (- EINVAL) 5)).

(** [app_100] once the channel of [usess_chan0] was asked for and its
    trace started: the session is started, its metadata is sent, and the
    data channel that the shadow copy made has not been sent to the
    tracer. *)
Definition app_chan0_unsent : ust_app :=
  match ust_app_create_channel_one (E := env_quiet) usess_chan0 uchan_0
          app_100 (boot_world (- EINVAL) 5) with
  | Some ((_, app), w) =>
      match ust_app_start_trace (E := env_quiet) usess_chan0 app w with
      | Some ((_, app), _) => app
      | None => app
      end
  | None => app_100
  end.

(** An application once [ust_app_global_update] brought it up to date
    with a global session: the session is there, with its channels, and
    started. *)
Definition with_session (usess : ltt_ust_session) (app : ust_app) : ust_app :=
  match ust_app_global_update_one (E := env_quiet) usess app
          (boot_world (- EINVAL) 5) with
  | Some (app, _) => app
  | None => app
  end.

(** The daemon with [app_100] and [app_200] registered, both with the
    session of [usess_chan0]. *)
Definition world_two_apps : world :=
  set_w_allocs 2
    (set_w_registry
       {[ 0%nat := with_session usess_chan0 app_100;
          1%nat := with_session usess_chan0 app_200 ]}
       {[ 100 := 0%nat; 200 := 1%nat ]} {[ 7 := 0%nat; 9 := 1%nat ]} []
       (boot_world (- EINVAL) 5)).

(** The application on socket 7 refuses to enable anything. *)
Definition enable_fails_on_7 : list call -> call -> Z :=
  fun _ c => match c with
             | c_ustctl_enable 7 _ => - EPIPE
             | _ => 0
             end.

Definition env_enable_fails_on_7 : environment :=
  scripted_environment enable_fails_on_7 (fun _ => true) 1 fixed_datetime.
(** ** Lemmas on the libc helpers *)

Lemma strncmp_zero_iff s1 s2 n :
  strncmp s1 s2 n = 0 <-> string_prefix n s1 = string_prefix n s2.
Proof.
  revert s1 s2; induction n as [|n IH]; intros s1 s2; simpl.
  - destruct s1, s2; split; reflexivity.
  - destruct s1 as [|c1 r1], s2 as [|c2 r2]; simpl;
      try (split; [reflexivity || discriminate | reflexivity || discriminate]).
    destruct (Ascii.eqb_spec c1 c2) as [->|Hne].
    + rewrite IH. split; [intros ->; reflexivity | intros H; now inversion H].
    + split.
      * destruct (N_of_ascii c1 <? N_of_ascii c2)%N; discriminate.
      * intros H; inversion H; contradiction.
Qed.

Lemma string_prefix_all n s :
  (String.length s <= n)%nat -> string_prefix n s = s.
Proof.
  revert n; induction s as [|c r IH]; intros n Hn.
  - destruct n; reflexivity.
  - destruct n as [|n]; simpl in *; [lia|]. f_equal. apply IH. lia.
Qed.

Lemma memcmp_zero_iff a b n :
  memcmp a b n = 0 <-> firstn n a = firstn n b.
Proof.
  revert a b; induction n as [|n IH]; intros a b; simpl.
  - split; reflexivity.
  - destruct a as [|x a'], b as [|y b']; simpl;
      try (split; [reflexivity || discriminate | reflexivity || discriminate]).
    destruct (Byte.eqb x y) eqn:Hxy.
    + apply Byte.byte_dec_bl in Hxy. subst y. rewrite IH.
      split; [intros ->; reflexivity | intros H; now inversion H].
    + split.
      * destruct (Byte.to_N x <? Byte.to_N y)%N; discriminate.
      * intros H; inversion H; subst y.
        rewrite (Byte.byte_dec_lb eq_refl) in Hxy. discriminate.
Qed.

(** ** Event-key equality (C1) *)

Lemma loglevel_test_spec event loglevel :
  (negb (attr_loglevel (ev_attr event) =? loglevel)
   && negb (loglevel_type_eqb (attr_loglevel_type (ev_attr event))
              LTTNG_UST_LOGLEVEL_ALL
            && (loglevel =? 0)
            && (attr_loglevel (ev_attr event) =? -1))) = false
  <-> loglevel_equal event loglevel.
Proof.
  unfold loglevel_equal.
  destruct (Z.eqb_spec (attr_loglevel (ev_attr event)) loglevel) as [He|He];
    simpl.
  - split; auto.
  - destruct (attr_loglevel_type (ev_attr event)); simpl;
      try (split; [discriminate | intros [?|[? _]]; congruence]).
    destruct (Z.eqb_spec loglevel 0) as [H0|H0];
      destruct (Z.eqb_spec (attr_loglevel (ev_attr event)) (-1)) as [H1|H1];
      simpl; split; try discriminate; try tauto;
      intros [?|(_ & ? & ?)]; congruence.
Qed.

Lemma filter_test_spec (ef kf : option lttng_ust_filter_bytecode) :
  match kf, ef with
  | Some _, None | None, Some _ => false
  | Some k, Some e =>
      if negb (f_len e =? f_len k)
         || negb (memcmp (f_data e) (f_data k) (Z.to_nat (f_len e)) =? 0)
      then false else true
  | None, None => true
  end = true <-> filter_equal ef kf.
Proof.
  destruct kf as [k|], ef as [e|]; simpl;
    try solve [split; [discriminate | contradiction] | split; trivial].
  destruct (Z.eqb_spec (f_len e) (f_len k)) as [Hl|Hl]; simpl.
  - destruct (Z.eqb_spec (memcmp (f_data e) (f_data k) (Z.to_nat (f_len e))) 0)
      as [Hm|Hm]; simpl.
    + split; [intros _|reflexivity]. split; [exact Hl|].
      now apply memcmp_zero_iff.
    + split; [discriminate|]. intros [_ Hd]. apply memcmp_zero_iff in Hd.
      contradiction.
  - split; [discriminate|]. intros [? _]. contradiction.
Qed.

Lemma ht_match_ust_app_event_spec event key :
  name_fits (attr_name (ev_attr event)) ->
  name_fits (key_name key) ->
  ht_match_ust_app_event event key = true <-> same_event_key event key.
Proof.
  intros Hev Hkey. unfold ht_match_ust_app_event, same_event_key.
  destruct (Z.eqb_spec (strncmp (attr_name (ev_attr event)) (key_name key)
                          LTTNG_UST_SYM_NAME_LEN) 0) as [Hn|Hn]; simpl.
  - apply strncmp_zero_iff in Hn.
    rewrite !string_prefix_all in Hn by assumption.
    destruct (negb (attr_loglevel (ev_attr event) =? key_loglevel key)
              && negb (loglevel_type_eqb (attr_loglevel_type (ev_attr event))
                         LTTNG_UST_LOGLEVEL_ALL
                       && (key_loglevel key =? 0)
                       && (attr_loglevel (ev_attr event) =? -1))) eqn:Hl.
    + split; [discriminate|]. intros (_ & Hll & _).
      apply loglevel_test_spec in Hll. congruence.
    + apply loglevel_test_spec in Hl. rewrite filter_test_spec. tauto.
  - split; [discriminate|]. intros (He & _). exfalso. apply Hn.
    apply strncmp_zero_iff. now rewrite He.
Qed.


Definition sched_switch_all : ust_app_event :=
  {| ev_enabled := 1; ev_handle := 0; ev_obj := None;
     ev_attr := {| attr_instrumentation := 0;
                   attr_name := "sched_switch";
                   attr_loglevel_type := LTTNG_UST_LOGLEVEL_ALL;
                   attr_loglevel := -1 |};
     ev_name := "sched_switch";
     ev_filter := None |}.


(** ** Reasoning about computations of the daemon *)

(** A computation only ever appends to the call log. *)
Definition appends {A : Type} (m : M A) : Prop :=
  forall w a w', m w = Some (a, w') ->
    exists rest, w_log w' = w_log w ++ rest.

(** A computation never aborts. *)
Definition total {A : Type} (m : M A) : Prop :=
  forall w, exists a w', m w = Some (a, w').

Lemma bind_Some {A B : Type} (m : M A) (k : A -> M B) w b w' :
  bind m k w = Some (b, w') ->
  exists a w1, m w = Some (a, w1) /\ k a w1 = Some (b, w').
Proof.
  unfold bind. destruct (m w) as [[a w1]|]; [|discriminate].
  intros H. now exists a, w1.
Qed.

Lemma appends_ret {A : Type} (a : A) : appends (ret a).
Proof.
  intros w a' w' H. injection H as _ <-. exists []. now rewrite app_nil_r.
Qed.

Lemma appends_bind {A B : Type} (m : M A) (k : A -> M B) :
  appends m -> (forall a, appends (k a)) -> appends (bind m k).
Proof.
  intros Hm Hk w b w' H. apply bind_Some in H as (a & w1 & H1 & H2).
  apply Hm in H1 as [r1 E1]. apply Hk in H2 as [r2 E2].
  exists (r1 ++ r2). now rewrite E2, E1, app_assoc.
Qed.

Lemma appends_assert b : appends (assert b).
Proof.
  intros w a w' H. unfold assert in H. destruct b; [|discriminate].
  injection H as _ <-. exists []. now rewrite app_nil_r.
Qed.

Lemma appends_get_world : appends get_world.
Proof.
  intros w a w' H. injection H as _ <-. exists []. now rewrite app_nil_r.
Qed.

Lemma total_ret {A : Type} (a : A) : total (ret a).
Proof. intros w. now exists a, w. Qed.

Lemma total_bind {A B : Type} (m : M A) (k : A -> M B) :
  total m -> (forall a, total (k a)) -> total (bind m k).
Proof.
  intros Hm Hk w. destruct (Hm w) as (a & w1 & H1).
  destruct (Hk a w1) as (b & w2 & H2). exists b, w2.
  unfold bind. now rewrite H1.
Qed.

Lemma total_get_world : total get_world.
Proof. intros w. now exists w, w. Qed.

Lemma total_assert_true : total (assert true).
Proof. intros w. now exists tt, w. Qed.

Section Reasoning.
Context `{E : environment}.

Lemma appends_extcall c : appends (extcall c).
Proof. intros w a w' H. injection H as _ <-. now exists [c]. Qed.

Lemma appends_zmalloc : appends zmalloc.
Proof.
  intros w a w' H. injection H as _ <-. exists []. simpl.
  now rewrite app_nil_r.
Qed.

Lemma appends_get_next_channel_key : appends get_next_channel_key.
Proof.
  intros w a w' H. injection H as _ <-. exists []. simpl.
  now rewrite app_nil_r.
Qed.

Lemma appends_lttng_fd_get nr : appends (lttng_fd_get nr).
Proof.
  apply appends_bind; [apply appends_extcall|]. intros r.
  destruct (r <? 0); [apply appends_ret|].
  intros w a w' H. injection H as _ <-. exists []. simpl.
  now rewrite app_nil_r.
Qed.

Lemma appends_lttng_fd_put nr : appends (lttng_fd_put nr).
Proof.
  apply appends_bind; [apply appends_extcall|]. intros r.
  intros w a w' H. injection H as _ <-. exists []. simpl.
  now rewrite app_nil_r.
Qed.

Lemma appends_for_each {A : Type} (f : A -> M unit) l :
  (forall x, appends (f x)) -> appends (for_each f l).
Proof.
  intros Hf. induction l as [|x l IH]; simpl.
  - apply appends_ret.
  - apply appends_bind; [apply Hf | intros _; exact IH].
Qed.

Lemma total_extcall c : total (extcall c).
Proof. intros w. eexists _, _. reflexivity. Qed.

Lemma total_zmalloc : total zmalloc.
Proof. intros w. eexists _, _. reflexivity. Qed.

Lemma total_get_next_channel_key : total get_next_channel_key.
Proof. intros w. eexists _, _. reflexivity. Qed.

Lemma total_lttng_fd_get nr : total (lttng_fd_get nr).
Proof.
  apply total_bind; [apply total_extcall|]. intros r.
  destruct (r <? 0); [apply total_ret|].
  intros w. eexists _, _. reflexivity.
Qed.

Lemma total_lttng_fd_put nr : total (lttng_fd_put nr).
Proof.
  apply total_bind; [apply total_extcall|]. intros r.
  intros w. eexists _, _. reflexivity.
Qed.

Lemma total_for_each {A : Type} (f : A -> M unit) l :
  (forall x, total (f x)) -> total (for_each f l).
Proof.
  intros Hf. induction l as [|x l IH]; simpl.
  - apply total_ret.
  - apply total_bind; [apply Hf | intros _; exact IH].
Qed.

End Reasoning.

Create HintDb daemon discriminated.

#[export] Hint Resolve appends_ret appends_assert appends_get_world
  appends_extcall appends_zmalloc appends_get_next_channel_key
  appends_lttng_fd_get appends_lttng_fd_put : daemon.
#[export] Hint Resolve total_ret total_get_world total_assert_true
  total_extcall total_zmalloc total_get_next_channel_key
  total_lttng_fd_get total_lttng_fd_put : daemon.

(** Break a computation down along its binds and branches. *)
Ltac step_appends :=
  repeat first
    [ solve [auto with daemon]
    | apply appends_for_each; intros ?
    | apply appends_bind; [|intros ?]
    | match goal with
      | |- appends (if ?c then _ else _) => destruct c
      | |- appends (match ?x with _ => _ end) => destruct x
      end ].

Ltac step_total :=
  repeat first
    [ solve [auto with daemon]
    | apply total_for_each; intros ?
    | apply total_bind; [|intros ?]
    | match goal with
      | |- total (if ?c then _ else _) => destruct c
      | |- total (match ?x with _ => _ end) => destruct x
      end ].

(** Invert a hypothesis [m w = Some (a, w')] one step. *)
Ltac minv H :=
  lazymatch type of H with
  | bind _ _ _ = Some _ =>
      let a := fresh "a" in let w := fresh "w" in let H1 := fresh H in
      apply bind_Some in H; destruct H as (a & w & H1 & H)
  | ret _ _ = Some _ => unfold ret in H; injection H as H; subst
  | (if ?c then _ else _) _ = Some _ =>
      let Hc := fresh "Hc" in destruct c eqn:Hc
  | (match ?x with _ => _ end) _ = Some _ =>
      let Hx := fresh "Hx" in destruct x eqn:Hx
  end.

Section TracerFacts.
Context `{E : environment}.

Lemma appends_delete_ust_app_stream sock stream :
  appends (delete_ust_app_stream sock stream).
Proof. unfold delete_ust_app_stream. step_appends. Qed.

Lemma total_delete_ust_app_stream sock stream :
  total (delete_ust_app_stream sock stream).
Proof. unfold delete_ust_app_stream. step_total. Qed.

Lemma appends_delete_ust_app_channel sock ua_chan :
  appends (delete_ust_app_channel sock ua_chan).
Proof.
  unfold delete_ust_app_channel, delete_ust_app_stream, delete_ust_app_ctx,
    delete_ust_app_event.
  step_appends.
Qed.

Lemma total_delete_ust_app_channel sock ua_chan :
  total (delete_ust_app_channel sock ua_chan).
Proof.
  unfold delete_ust_app_channel, delete_ust_app_stream, delete_ust_app_ctx,
    delete_ust_app_event.
  step_total.
Qed.

Lemma appends_send_streams_to_ust app ua_chan streams :
  appends (send_streams_to_ust app ua_chan streams).
Proof.
  induction streams as [|s l IH]; simpl; [apply appends_ret|].
  pose proof (appends_delete_ust_app_stream (-1) s).
  step_appends; assumption.
Qed.

Lemma total_send_streams_to_ust app ua_chan streams :
  total (send_streams_to_ust app ua_chan streams).
Proof.
  induction streams as [|s l IH]; simpl; [apply total_ret|].
  pose proof (total_delete_ust_app_stream (-1) s).
  step_total; assumption.
Qed.

End TracerFacts.

#[export] Hint Resolve appends_delete_ust_app_stream
  total_delete_ust_app_stream appends_delete_ust_app_channel
  total_delete_ust_app_channel appends_send_streams_to_ust
  total_send_streams_to_ust : daemon.

(** Running a computation forward. *)
Lemma bind_eq {A B : Type} (m : M A) (k : A -> M B) w a w1 :
  m w = Some (a, w1) -> bind m k w = k a w1.
Proof. intros H. unfold bind. now rewrite H. Qed.

Ltac run :=
  cbv beta iota zeta delta
    [bind ret extcall logcall get_world assert zmalloc
     get_next_channel_key
     lttng_fd_get lttng_fd_put];
  cbn [w_log w_fd_apps w_allocs w_next_channel_key w_rawtime
       w_consumerd32_fd w_consumerd64_fd w_apps w_ust_app_ht
       w_ust_app_ht_by_sock w_call_rcu
       set_w_log set_w_fd_apps set_w_allocs set_w_next_channel_key
       set_w_registry].

Ltac run_with H := repeat (rewrite H; run).

Tactic Notation "run" "in" hyp(H) :=
  cbv beta iota zeta delta
    [bind ret extcall logcall get_world assert zmalloc
     get_next_channel_key
     lttng_fd_get lttng_fd_put] in H;
  cbn [w_log w_fd_apps w_allocs w_next_channel_key w_rawtime
       w_consumerd32_fd w_consumerd64_fd w_apps w_ust_app_ht
       w_ust_app_ht_by_sock w_call_rcu
       set_w_log set_w_fd_apps set_w_allocs set_w_next_channel_key
       set_w_registry] in H.

(** ** Consumer handoff: descriptor accounting (C7) *)

Section Handoff.
Context `{E : environment}.

(** C7.  Once the consumer has answered the ask-channel step with a stream
    count, the next step of [create_ust_channel] reserves exactly
    [DEFAULT_UST_STREAM_FD_NUM] (2) times that count; when the reservation
    is granted and the get-channel step then fails, exactly that number is
    released, the consumer is asked to destroy the channel, and the error
    of the get-channel step is what is returned, the quota being back
    where it was. *)
Theorem create_ust_channel_fd_accounting
    (app : ust_app) (ua_sess : ust_app_session) (ua_chan : ust_app_channel)
    (consumer : consumer_output) (socket : consumer_socket) (w : world) :
  let ask := c_ust_consumer_ask_channel (cs_fd socket) (s_id ua_sess)
               (ch_key ua_chan) in
  let count := env_stream_count (w_log w) mod 2 ^ 32 in
  let nb_fd := DEFAULT_UST_STREAM_FD_NUM * count in
  let log_ask := w_log w ++ [ask] in
  let get := c_ust_consumer_get_channel (cs_fd socket) (ch_key ua_chan) in
  let destroy := c_ust_consumer_destroy_channel (cs_fd socket)
                   (ch_key ua_chan) in
  find_consumer_socket_by_bitness (app_bits_per_long app) consumer w
  = Some (Some socket, w) ->
  0 <= env_ret (w_log w) ask ->
  count < 2 ^ 31 ->
  exists r ua_chan' w',
    create_ust_channel app ua_sess ua_chan consumer w
    = Some ((r, ua_chan'), w') /\
    (exists rest, w_log w' = log_ask ++ c_lttng_fd_get nb_fd :: rest) /\
    (0 <= env_ret log_ask (c_lttng_fd_get nb_fd) ->
     env_ret (log_ask ++ [c_lttng_fd_get nb_fd]) get < 0 ->
     r = env_ret (log_ask ++ [c_lttng_fd_get nb_fd]) get /\
     w_log w' = log_ask ++ [c_lttng_fd_get nb_fd; get;
                            c_lttng_fd_put nb_fd; destroy] /\
     w_fd_apps w' = w_fd_apps w).
Proof.
  intros ask count nb_fd log_ask get destroy Hsock Hask Hcount.
  assert (Hnb : (DEFAULT_UST_STREAM_FD_NUM * count) mod 2 ^ 32 = nb_fd).
  { subst nb_fd. unfold DEFAULT_UST_STREAM_FD_NUM.
    assert (0 <= count) by (subst count; apply Z.mod_pos_bound; lia).
    apply Z.mod_small. lia. }
  unfold create_ust_channel. rewrite (bind_eq _ _ _ _ _ Hsock).
  unfold ust_consumer_ask_channel. run. fold ask.
  assert (Hlt : (env_ret (w_log w) ask <? 0) = false)
    by (apply Z.ltb_ge; lia).
  run_with Hlt.
  cbn [ch_expected_stream_count set_ch_expected_stream_count ch_key].
  fold count. rewrite Hnb. fold log_ask.
  destruct (env_ret log_ask (c_lttng_fd_get nb_fd) <? 0) eqn:Hg;
    run; run_with Hg.
  - eexists _, _, _. split; [reflexivity|]. cbn [w_log set_w_log]. split.
    + rewrite <- app_assoc. eexists. reflexivity.
    + apply Z.ltb_lt in Hg. intros; lia.
  - unfold ust_consumer_get_channel. run.
    cbn [ch_key set_ch_expected_stream_count]. fold get.
    destruct (env_ret (log_ask ++ [c_lttng_fd_get nb_fd]) get <? 0) eqn:Hc;
      run; run_with Hc.
    + eexists _, _, _. split; [reflexivity|].
      cbn [w_log set_w_log set_w_fd_apps w_fd_apps ch_key set_ch_streams
           set_ch_obj set_ch_expected_stream_count].
      repeat rewrite <- app_assoc. cbn [List.app].
      split; [eexists; reflexivity|].
      intros _ _. repeat split. lia.
    + apply Z.ltb_ge in Hc. clear Hlt Hg.
      assert (Hvac : forall P : Prop,
                 env_ret (log_ask ++ [c_lttng_fd_get nb_fd]) get < 0 -> P)
        by (intros; lia).
      match goal with
      | |- context [send_streams_to_ust ?a ?c ?l] =>
          pose proof (total_send_streams_to_ust a c l) as Ht;
          pose proof (appends_send_streams_to_ust a c l) as Ha
      end.
      destruct (_ <? 0); run.
      { eexists _, _, _. split; [reflexivity|]. cbn [w_log set_w_log].
        repeat rewrite <- app_assoc. cbn [List.app].
        split; [eexists; reflexivity|]. intros _. apply Hvac. }
      match goal with
      | |- context [send_streams_to_ust ?a ?c ?l ?w3] =>
          destruct (Ht w3) as ([r3 streams] & w4 & Hs);
          specialize (Ha _ _ _ Hs) as [rest Hlog]; rewrite Hs
      end.
      cbn [w_log set_w_log set_w_fd_apps] in Hlog.
      unfold disable_ust_channel.
      destruct (r3 <? 0); [|destruct (_ =? 0); [run; destruct (_ <? 0)|]];
        run;
        (eexists _, _, _; split; [reflexivity|]; cbn [w_log set_w_log];
         rewrite Hlog; repeat rewrite <- app_assoc; cbn [List.app];
         split; [eexists; reflexivity|]; intros _; apply Hvac).
Qed.

End Handoff.

Lemma create_ust_channel_fd_accounting_witness :
  exists r ua_chan' w',
    create_ust_channel (E := env_three_streams) app_100 session_1 channel_0
      local_consumer (boot_world (- EINVAL) 5) = Some ((r, ua_chan'), w') /\
    r = - EPIPE /\
    w_log w' = [c_ust_consumer_ask_channel 5 1 1; c_lttng_fd_get 6;
                c_ust_consumer_get_channel 5 1; c_lttng_fd_put 6;
                c_ust_consumer_destroy_channel 5 1] /\
    w_fd_apps w' = 0.
Proof.
  destruct (create_ust_channel_fd_accounting (E := env_three_streams)
              app_100 session_1 channel_0 local_consumer {| cs_fd := 5 |}
              (boot_world (- EINVAL) 5))
    as (r & c & w' & Hrun & _ & Hfail);
    [reflexivity | vm_compute; discriminate | vm_compute; reflexivity |].
  exists r, c, w'. split; [exact Hrun|].
  destruct Hfail as (Hr & Hlog & Hfd);
    [vm_compute; discriminate | vm_compute; reflexivity |].
  split; [exact Hr|]. split; [exact Hlog | exact Hfd].
Defined.

(** ** Per-application event creation (C10) *)

Section EventCreation.
Context `{E : environment}.

Lemma alloc_ust_app_event_inv name attr w a w' :
  alloc_ust_app_event name attr w = Some (a, w') ->
  w_log w' = w_log w /\
  forall ev, a = Some ev ->
    ev_obj ev = None /\ ev_filter ev = None /\
    ev_attr ev = match attr with Some x => x | None => zero_lttng_ust_event end.
Proof.
  unfold alloc_ust_app_event. intros H. run in H.
  destruct (env_zmalloc _); simpl in H; injection H as <- <-;
    (split; [reflexivity|]); intros ev Hev; [|discriminate].
  injection Hev as <-. auto.
Qed.

Lemma shadow_copy_event_inv ua_event uevent w ev w' :
  shadow_copy_event ua_event uevent w = Some (ev, w') ->
  w_log w' = w_log w /\
  ev_obj ev = ev_obj ua_event /\
  ev_attr ev = uevent_attr uevent /\
  ev_enabled ev = uevent_enabled uevent /\
  ev_name ev = strncpy_term (attr_name (uevent_attr uevent)) LTTNG_UST_SYM_NAME_LEN.
Proof.
  unfold shadow_copy_event, alloc_copy_ust_app_filter. intros H.
  destruct (uevent_filter uevent); run in H.
  - destruct (env_zmalloc _); simpl in H; injection H as <- <-; auto.
  - injection H as <- <-; auto.
Qed.

Lemma create_ust_event_inv app ua_sess ua_chan ua_event w r ev w' :
  create_ust_event app ua_sess ua_chan ua_event w = Some ((r, ev), w') ->
  0 <= r ->
  0 <= env_ret (w_log w)
         (c_ustctl_create_event (app_sock app) (ev_attr ua_event)
            (ch_obj ua_chan)) /\
  ev_obj ev <> None.
Proof.
  unfold create_ust_event, set_ust_event_filter, disable_ust_event.
  intros H Hr. run in H.
  destruct (Z.ltb_spec (env_ret (w_log w)
             (c_ustctl_create_event (app_sock app) (ev_attr ua_event)
                (ch_obj ua_chan))) 0) as [Hc|Hc].
  { injection H as <- <- <-. lia. }
  split; [exact Hc|].
  cbn [ev_filter ev_enabled] in H.
  destruct (ev_filter ua_event); run in H;
    repeat match type of H with
           | (if ?c then _ else _) _ = Some _ => destruct c
           | (if ?c then _ else _) = Some _ => destruct c
           end;
    try discriminate; injection H as <- <- <-; discriminate.
Qed.

(** C10.  [create_ust_app_event] either fails and hands the channel back
    exactly as it was, events included, or succeeds; only in the latter
    case has the event been inserted, and then the tracer-side creation had
    succeeded and the inserted event carries its tracer object.  (On a
    tracer failure the fresh event is passed to [delete_ust_app_event] and
    dropped.) *)
Theorem create_ust_app_event_atomic
    (ua_sess : ust_app_session) (ua_chan : ust_app_channel)
    (uevent : ltt_ust_event) (app : ust_app) (w : world)
    (r : Z) (ua_chan' : ust_app_channel) (w' : world) :
  create_ust_app_event ua_sess ua_chan uevent app w
  = Some ((r, ua_chan'), w') ->
  (r < 0 /\ ua_chan' = ua_chan) \/
  (0 <= r /\
   0 <= env_ret (w_log w)
          (c_ustctl_create_event (app_sock app) (uevent_attr uevent)
             (ch_obj ua_chan)) /\
   exists ua_event,
     ev_obj ua_event <> None /\
     ua_chan' = set_ch_events (ua_event :: ch_events ua_chan) ua_chan).
Proof.
  intros H. unfold create_ust_app_event in H.
  destruct (find_ust_app_event _ _ _ _ _).
  { minv H. left. split; [unfold EEXIST; lia | reflexivity]. }
  minv H. apply alloc_ust_app_event_inv in H0 as [Hlog0 Hev0].
  destruct a as [ua_event|].
  2:{ minv H. left. split; [unfold ENOMEM; lia | reflexivity]. }
  destruct (Hev0 _ eq_refl) as (_ & _ & _).
  minv H. apply shadow_copy_event_inv in H0 as (Hlog1 & _ & Hattr & _).
  minv H. destruct a0 as [r1 ev1].
  destruct (Z.ltb_spec r1 0) as [Hneg|Hpos].
  - minv H. minv H. unfold delete_ust_app_event in H2.
    left. minv H. split; [exact Hneg | reflexivity].
  - right. apply create_ust_event_inv in H0 as [Hcall Hobj]; [|exact Hpos].
    minv H. unfold add_unique_event, add_unique_ust_app_event in H0.
    destruct (cds_lfht_lookup_event _ _ _ _); [discriminate|].
    injection H0 as <- <-. minv H.
    split; [exact Hpos|]. split.
    + rewrite <- Hlog0, <- Hlog1, <- Hattr. exact Hcall.
    + exists ev1. split; [exact Hobj | reflexivity].
Qed.
End EventCreation.

Lemma create_ust_app_event_atomic_witness :
  exists w',
    create_ust_app_event (E := env_create_event_fails) session_1 channel_0
      uevent_sched_switch app_100 (boot_world (- EINVAL) 5)
    = Some ((- EPIPE, channel_0), w') /\
    - EPIPE < 0 /\ channel_0 = channel_0.
Proof.
  eexists. split; [reflexivity|].
  destruct (create_ust_app_event_atomic (E := env_create_event_fails)
              session_1 channel_0 uevent_sched_switch app_100
              (boot_world (- EINVAL) 5) (- EPIPE) channel_0 _ eq_refl)
    as [Hfail|[Hpos _]].
  - exact Hfail.
  - vm_compute in Hpos. now contradiction Hpos.
Defined.

(** ** Registration (C4, C5) *)

(** The consumer cell that matches the bitness holds the sentinel
    [-EINVAL]: no consumer of that bitness is available. *)
Definition no_consumer_for (bits : Z) (w : world) : Prop :=
  (bits = 64 /\ w_consumerd64_fd w = - EINVAL) \/
  (bits = 32 /\ w_consumerd32_fd w = - EINVAL).

(** Every live application object lies below the allocation counter, so
    that a new allocation is a new object. *)
Definition heap_fresh (w : world) : Prop :=
  forall a, is_Some (w_apps w !! a) -> (a < w_allocs w)%nat.

(** The re-registration sentence of the specification, as written: once
    the same pid registers again, the application it displaces is
    scheduled for teardown. *)
Definition register_initiates_teardown : Prop :=
  forall (E : environment) (w w1 w2 : world) (msg1 msg2 : ust_register_msg)
         (sock1 sock2 : Z) (displaced : nat),
    ust_app_register msg1 sock1 w = Some (0, w1) ->
    w_ust_app_ht w1 !! msg_pid msg1 = Some displaced ->
    msg_pid msg2 = msg_pid msg1 ->
    ust_app_register msg2 sock2 w1 = Some (0, w2) ->
    In displaced (w_call_rcu w2).

Ltac wrong_ret H := injection H as H _; vm_compute in H; discriminate.

Section Registration.
Context `{E : environment}.

(** C4.  A registration whose bitness has no available consumer, or whose
    major version is not the supported one, closes the socket, releases
    one unit of the FD quota, returns [-EINVAL] and leaves the registry
    (both indices, the objects, the teardown queue) as it was. *)
Theorem ust_app_register_invalid
    (msg : ust_register_msg) (sock : Z) (w : world) :
  no_consumer_for (msg_bits_per_long msg) w \/
  msg_major msg <> LTTNG_UST_COMM_MAJOR ->
  exists w',
    ust_app_register msg sock w = Some (- EINVAL, w') /\
    w_log w' = w_log w ++ [c_close sock; c_lttng_fd_put 1] /\
    w_fd_apps w' = w_fd_apps w - 1 /\
    w_ust_app_ht w' = w_ust_app_ht w /\
    w_ust_app_ht_by_sock w' = w_ust_app_ht_by_sock w /\
    w_apps w' = w_apps w /\
    w_call_rcu w' = w_call_rcu w.
Proof.
  intros H. unfold ust_app_register. run.
  destruct ((msg_bits_per_long msg =? 64)
            && (w_consumerd64_fd w =? - EINVAL)
            || (msg_bits_per_long msg =? 32)
               && (w_consumerd32_fd w =? - EINVAL)) eqn:Hb.
  - run. eexists. split; [reflexivity|]. cbn. rewrite <- app_assoc. auto 10.
  - destruct (negb (msg_major msg =? LTTNG_UST_COMM_MAJOR)) eqn:Hm.
    + run. eexists. split; [reflexivity|]. cbn. rewrite <- app_assoc.
      auto 10.
    + exfalso. apply negb_false_iff, Z.eqb_eq in Hm.
      apply orb_false_iff in Hb as [H64 H32].
      destruct H as [[[Hbits Hfd]|[Hbits Hfd]]|Hmaj]; [| |contradiction].
      * rewrite Hbits, Hfd, !Z.eqb_refl in H64. discriminate.
      * rewrite Hbits, Hfd, !Z.eqb_refl in H32. discriminate.
Qed.

Lemma ust_app_register_success
    (msg : ust_register_msg) (sock : Z) (w w' : world) :
  ust_app_register msg sock w = Some (0, w') ->
  heap_fresh w ->
  exists lta_addr lta,
    w_ust_app_ht w' !! msg_pid msg = Some lta_addr /\
    w_ust_app_ht_by_sock w' !! sock = Some lta_addr /\
    w_apps w' !! lta_addr = Some lta /\
    app_pid lta = msg_pid msg /\ app_sock lta = sock /\
    app_compatible lta = 0 /\
    w_ust_app_ht_by_sock w !! sock = None /\
    w_apps w !! lta_addr = None /\
    (forall s, s <> sock ->
       w_ust_app_ht_by_sock w' !! s = w_ust_app_ht_by_sock w !! s) /\
    (forall p, p <> msg_pid msg ->
       w_ust_app_ht w' !! p = w_ust_app_ht w !! p) /\
    (forall a, a <> lta_addr -> w_apps w' !! a = w_apps w !! a) /\
    w_call_rcu w' = w_call_rcu w.
Proof.
  intros H Hfresh. unfold ust_app_register in H. run in H.
  destruct (_ || _); [run in H; wrong_ret H|].
  destruct (negb (msg_major msg =? _)); [run in H; wrong_ret H|].
  destruct (env_zmalloc (w_allocs w)); cbn [negb] in H; [|wrong_ret H].
  run in H.
  destruct (w_ust_app_ht_by_sock w !! sock) eqn:Hs; cbn [is_null] in H;
    [discriminate|].
  injection H as <-. cbn.
  eexists _, _. rewrite !lookup_insert_eq.
  repeat split; try reflexivity.
  - destruct (w_apps w !! w_allocs w) eqn:Ha; [|reflexivity].
    specialize (Hfresh (w_allocs w)). rewrite Ha in Hfresh.
    specialize (Hfresh (mk_is_Some _ _ eq_refl)). lia.
  - intros s Hne. now rewrite lookup_insert_ne.
  - intros p Hne. now rewrite lookup_insert_ne.
  - intros a Hne. now rewrite lookup_insert_ne.
Qed.

Lemma ust_app_register_heap_fresh
    (msg : ust_register_msg) (sock : Z) (w w' : world) (r : Z) :
  heap_fresh w ->
  ust_app_register msg sock w = Some (r, w') ->
  heap_fresh w'.
Proof.
  intros Hfresh H. unfold ust_app_register in H. run in H.
  destruct (_ || _); [run in H; injection H as _ <-; exact Hfresh|].
  destruct (negb (msg_major msg =? _));
    [run in H; injection H as _ <-; exact Hfresh|].
  destruct (env_zmalloc (w_allocs w)); cbn [negb] in H.
  - run in H.
    destruct (w_ust_app_ht_by_sock w !! sock); cbn [is_null] in H;
      [discriminate|].
    injection H as _ <-. intros a Ha. cbn in *.
    destruct (Nat.eq_dec a (w_allocs w)) as [->|Hne]; [lia|].
    rewrite lookup_insert_ne in Ha by congruence.
    specialize (Hfresh a Ha). lia.
  - injection H as _ <-. intros a Ha. cbn in *.
    specialize (Hfresh a Ha). lia.
Qed.

Lemma heap_fresh_boot_world c32 c64 : heap_fresh (boot_world c32 c64).
Proof. intros a [x Hx]. cbn in Hx. now rewrite lookup_empty in Hx. Qed.

Lemma ust_app_register_duplicate_socket
    (msg : ust_register_msg) (sock : Z) (w : world) :
  ~ no_consumer_for (msg_bits_per_long msg) w ->
  msg_major msg = LTTNG_UST_COMM_MAJOR ->
  env_zmalloc (w_allocs w) = true ->
  is_Some (w_ust_app_ht_by_sock w !! sock) ->
  ust_app_register msg sock w = None.
Proof.
  intros Hc Hm Hz [a Ha]. unfold ust_app_register. run.
  destruct (_ || _) eqn:Hb.
  { exfalso. apply Hc. unfold no_consumer_for.
    apply orb_true_iff in Hb as [Hb|Hb];
      apply andb_true_iff in Hb as [H1 H2];
      apply Z.eqb_eq in H1, H2; auto. }
  rewrite Hm, Z.eqb_refl. cbn [negb]. rewrite Hz. cbn [negb]. run.
  rewrite Ha. reflexivity.
Qed.

Lemma ust_app_unregister_schedules
    (sock : Z) (w : world) (addr : nat) (lta : ust_app) :
  w_ust_app_ht_by_sock w !! sock = Some addr ->
  w_apps w !! addr = Some lta ->
  exists w',
    ust_app_unregister sock w = Some (tt, w') /\
    w_call_rcu w' = w_call_rcu w ++ [addr] /\
    w_ust_app_ht_by_sock w' !! sock = None /\
    (forall s, s <> sock ->
       w_ust_app_ht_by_sock w' !! s = w_ust_app_ht_by_sock w !! s) /\
    (forall p a, w_ust_app_ht w !! p = Some a -> a <> addr ->
       w_ust_app_ht w' !! p = Some a) /\
    (w_ust_app_ht w !! app_pid lta = Some addr ->
       w_ust_app_ht w' !! app_pid lta = None).
Proof.
  intros Hs Ha. unfold ust_app_unregister. run. rewrite Hs, Ha.
  eexists. split; [reflexivity|]. cbn.
  split; [reflexivity|]. split; [apply lookup_delete_eq|].
  split; [intros s Hne; now rewrite lookup_delete_ne|].
  split.
  - intros p a Hp Hne.
    destruct (w_ust_app_ht w !! app_pid lta) as [b|] eqn:Hb; [|exact Hp].
    destruct (Nat.eqb_spec b addr) as [->|Hba]; [|exact Hp].
    rewrite lookup_delete_ne; [exact Hp|]. intros <-. congruence.
  - intros Hp. rewrite Hp, Nat.eqb_refl. apply lookup_delete_eq.
Qed.

(** C5, as amended.  A successful registration allocates a new
    application, not yet compatible, and makes [ust_app_ht] map the pid to
    it, replacing whatever was there, and [ust_app_ht_by_sock] map the
    socket to it; the socket was not in that index before, a registration
    on a socket that is still there (and that passes validation and
    allocation) being a fatal assertion.  Nothing is scheduled for
    teardown by the registration, and every other socket, the socket of an
    application displaced from the pid index included, still leads to its
    application.  The teardown of such an application is initiated by
    [ust_app_unregister] on its own socket, which hands it to [call_rcu],
    removes its socket, and leaves the pid index mapping the pid to the
    new application. *)
Theorem ust_app_register_displaces
    (msg : ust_register_msg) (sock : Z) (w w' : world) :
  ust_app_register msg sock w = Some (0, w') ->
  heap_fresh w ->
  exists lta_addr lta,
    (* the new application in both indices *)
    (w_ust_app_ht w' !! msg_pid msg = Some lta_addr /\
     w_ust_app_ht_by_sock w' !! sock = Some lta_addr /\
     w_apps w' !! lta_addr = Some lta /\
     app_pid lta = msg_pid msg /\ app_sock lta = sock /\
     app_compatible lta = 0 /\ w_apps w !! lta_addr = None) /\
    (* the socket was fresh, and had to be *)
    (w_ust_app_ht_by_sock w !! sock = None /\
     forall msg2 w2,
       ~ no_consumer_for (msg_bits_per_long msg2) w2 ->
       msg_major msg2 = LTTNG_UST_COMM_MAJOR ->
       env_zmalloc (w_allocs w2) = true ->
       is_Some (w_ust_app_ht_by_sock w2 !! sock) ->
       ust_app_register msg2 sock w2 = None) /\
    (* no teardown is initiated; other applications stay reachable *)
    (w_call_rcu w' = w_call_rcu w /\
     (forall s, s <> sock ->
        w_ust_app_ht_by_sock w' !! s = w_ust_app_ht_by_sock w !! s) /\
     (forall a, a <> lta_addr -> w_apps w' !! a = w_apps w !! a)) /\
    (* unregistering a displaced application schedules its teardown *)
    (forall old_sock displaced old,
       w_ust_app_ht_by_sock w !! old_sock = Some displaced ->
       w_apps w !! displaced = Some old ->
       app_pid old = msg_pid msg ->
       exists w'',
         ust_app_unregister old_sock w' = Some (tt, w'') /\
         w_call_rcu w'' = w_call_rcu w' ++ [displaced] /\
         w_ust_app_ht_by_sock w'' !! old_sock = None /\
         w_ust_app_ht_by_sock w'' !! sock = Some lta_addr /\
         w_ust_app_ht w'' !! msg_pid msg = Some lta_addr).
Proof.
  intros H Hfresh.
  destruct (ust_app_register_success _ _ _ _ H Hfresh)
    as (lta_addr & lta & Hpid & Hsock & Happ & Hp & Hs & Hc & Hnew & Hnone
        & Hsocks & Hpids & Happs & Hrcu).
  exists lta_addr, lta. split; [auto 10|].
  split; [split; [exact Hnew|];
          intros; now apply ust_app_register_duplicate_socket|].
  split; [auto|].
  intros old_sock displaced old Hold Hobj Hsame.
  assert (Hne_sock : old_sock <> sock) by (intros ->; congruence).
  assert (Hne_addr : displaced <> lta_addr) by (intros ->; congruence).
  destruct (ust_app_unregister_schedules old_sock w' displaced old)
    as (w'' & Hrun & Hq & Hgone & Hkeep & Hpidkeep & _).
  { rewrite Hsocks by exact Hne_sock. exact Hold. }
  { rewrite Happs by exact Hne_addr. exact Hobj. }
  exists w''. split; [exact Hrun|]. split; [exact Hq|].
  split; [exact Hgone|]. split.
  - rewrite Hkeep by congruence. exact Hsock.
  - apply Hpidkeep; [exact Hpid | congruence].
Qed.

End Registration.

Lemma ust_app_register_invalid_witness :
  exists w',
    ust_app_register (E := env_quiet) msg_major99 7 (boot_world (- EINVAL) 5)
    = Some (- EINVAL, w') /\
    w_log w' = [c_close 7; c_lttng_fd_put 1] /\
    w_fd_apps w' = -1 /\
    w_ust_app_ht w' !! 100 = None.
Proof.
  destruct (ust_app_register_invalid (E := env_quiet) msg_major99 7
              (boot_world (- EINVAL) 5))
    as (w' & Hrun & Hlog & Hfd & Hpid & _).
  - right. vm_compute. discriminate.
  - exists w'. split; [exact Hrun|]. split; [exact Hlog|].
    split; [exact Hfd|]. now rewrite Hpid.
Defined.

(** Counterexample to C5 as written: pid 100 registers on socket 7 and
    again on socket 8; the application of socket 7 is displaced from the
    pid index, and nothing has been handed to [call_rcu]. *)
Lemma register_initiates_teardown_counterexample :
  ~ register_initiates_teardown.
Proof.
  intros H.
  pose (w0 := boot_world (- EINVAL) 5).
  destruct (ust_app_register (E := env_quiet) msg_pid100 7 w0)
    as [[r1 w1]|] eqn:H1; [|discriminate H1].
  destruct (ust_app_register (E := env_quiet) msg_pid100 8 w1)
    as [[r2 w2]|] eqn:H2.
  2:{ vm_compute in H1. injection H1 as <- <-. discriminate H2. }
  assert (Hr1 : r1 = 0) by (vm_compute in H1; congruence).
  subst r1.
  assert (Hr2 : r2 = 0).
  { vm_compute in H1. injection H1 as <-. vm_compute in H2. congruence. }
  subst r2.
  specialize (H env_quiet w0 w1 w2 msg_pid100 msg_pid100 7 8 0%nat H1).
  assert (Hq : w_call_rcu w2 = []).
  { vm_compute in H1. injection H1 as <-. vm_compute in H2.
    injection H2 as <-. reflexivity. }
  rewrite Hq in H. apply H.
  - vm_compute in H1. injection H1 as <-. reflexivity.
  - reflexivity.
  - exact H2.
Qed.

Lemma ust_app_register_displaces_witness :
  exists w1 w2 w3,
    ust_app_register (E := env_quiet) msg_pid100 7 (boot_world (- EINVAL) 5)
    = Some (0, w1) /\
    ust_app_register (E := env_quiet) msg_pid100 8 w1 = Some (0, w2) /\
    w_call_rcu w2 = [] /\
    ust_app_unregister 7 w2 = Some (tt, w3) /\
    w_call_rcu w3 = [0%nat] /\
    w_ust_app_ht_by_sock w3 !! 7 = None /\
    w_ust_app_ht w3 !! 100 = Some 1%nat.
Proof.
  pose (w0 := boot_world (- EINVAL) 5).
  destruct (ust_app_register (E := env_quiet) msg_pid100 7 w0)
    as [[r1 w1]|] eqn:H1; [|discriminate H1].
  assert (Hr1 : r1 = 0) by (vm_compute in H1; congruence). subst r1.
  assert (Hw1 : heap_fresh w1)
    by exact (ust_app_register_heap_fresh (E := env_quiet) _ _ _ _ _
                (heap_fresh_boot_world _ _) H1).
  assert (Hs1 : w_ust_app_ht_by_sock w1 !! 7 = Some 0%nat)
    by (vm_compute in H1; injection H1 as <-; reflexivity).
  assert (Ha1 : w_apps w1 !! 0%nat <> None)
    by (vm_compute in H1; injection H1 as <-; discriminate).
  destruct (w_apps w1 !! 0%nat) as [old|] eqn:Hold; [|congruence].
  assert (Hpid_old : app_pid old = 100).
  { vm_compute in H1. injection H1 as <-. vm_compute in Hold.
    injection Hold as <-. reflexivity. }
  destruct (ust_app_register (E := env_quiet) msg_pid100 8 w1)
    as [[r2 w2]|] eqn:H2.
  2:{ vm_compute in H1. injection H1 as <-. discriminate H2. }
  assert (Hr2 : r2 = 0).
  { vm_compute in H1. injection H1 as <-. vm_compute in H2. congruence. }
  subst r2.
  destruct (ust_app_register_displaces (E := env_quiet) msg_pid100 8 w1 w2
              H2 Hw1)
    as (addr & lta & (Hpid & _) & _ & (Hrcu & _) & Hun).
  destruct (Hun 7 0%nat old Hs1 Hold Hpid_old)
    as (w3 & Hrun & Hq & Hgone & _ & Hkeep).
  assert (Haddr : addr = 1%nat).
  { vm_compute in H1. injection H1 as <-. vm_compute in H2.
    injection H2 as <-. vm_compute in Hpid. congruence. }
  assert (Hq1 : w_call_rcu w1 = [])
    by (vm_compute in H1; injection H1 as <-; reflexivity).
  exists w1, w2, w3. split; [exact H1|]. split; [exact H2|].
  split; [congruence|]. split; [exact Hrun|].
  split; [rewrite Hq, Hrcu, Hq1; reflexivity|].
  split; [exact Hgone|]. rewrite <- Haddr. exact Hkeep.
Defined.

(** ** Kernel metadata handoff (C9) *)

Section KernelMetadata.
Context `{E : environment}.

(** The path sent to the consumer. *)
Definition metadata_pathname (session : ltt_kernel_session) : string :=
  match co_type (ks_consumer session) with
  | CONSUMER_DST_LOCAL =>
      string_prefix (PATH_MAX - 1)
        (co_trace_path (ks_consumer session) ++ co_subdir (ks_consumer session))
  | CONSUMER_DST_NET =>
      string_prefix (PATH_MAX - 1) (co_subdir (ks_consumer session))
  end.

(** The calls made to set the path up, before any message. *)
Definition metadata_setup_calls (session : ltt_kernel_session) : list call :=
  match co_type (ks_consumer session) with
  | CONSUMER_DST_LOCAL =>
      [c_run_as_mkdir_recursive (metadata_pathname session)
         (ks_uid session) (ks_gid session)]
  | CONSUMER_DST_NET => []
  end.

(** The ADD_CHANNEL message of the metadata. *)
Definition metadata_add_channel (sock : consumer_socket)
    (session : ltt_kernel_session) : call :=
  c_consumer_send_channel (cs_fd sock)
    (msg_channel LTTNG_CONSUMER_ADD_CHANNEL
       {| cm_channel_key := ks_metadata_fd session;
          cm_session_id := ks_id session;
          cm_pathname := metadata_pathname session;
          cm_uid := ks_uid session; cm_gid := ks_gid session;
          cm_relayd_id := co_net_seq_index (ks_consumer session);
          cm_name := "metadata"; cm_nb_init_streams := 1;
          cm_output := DEFAULT_KERNEL_CHANNEL_OUTPUT;
          cm_type := CONSUMER_CHANNEL_TYPE_METADATA;
          cm_tracefile_size := 0; cm_tracefile_count := 0 |}).

(** The ADD_STREAM message of the metadata, with its descriptor. *)
Definition metadata_add_stream (sock : consumer_socket)
    (session : ltt_kernel_session) (no_monitor : Z) : call :=
  c_consumer_send_stream (cs_fd sock)
    (msg_stream LTTNG_CONSUMER_ADD_STREAM
       {| sm_channel_key := ks_metadata_fd session;
          sm_stream_key := ks_metadata_stream_fd session;
          sm_cpu := 0; sm_no_monitor := no_monitor |})
    [ks_metadata_stream_fd session].

(** The directory could be made, or was there. *)
Definition metadata_setup_ok (session : ltt_kernel_session) (w : world) : Prop :=
  match co_type (ks_consumer session) with
  | CONSUMER_DST_LOCAL =>
      let r := env_ret (w_log w)
                 (c_run_as_mkdir_recursive (metadata_pathname session)
                    (ks_uid session) (ks_gid session)) in
      0 <= r \/ r = - EEXIST
  | CONSUMER_DST_NET => True
  end.

(** C9.  [kernel_consumer_add_metadata] sends at most one ADD_CHANNEL and
    then at most one ADD_STREAM, in this order and nothing else to the
    consumer; when the path set-up succeeds and the consumer accepts the
    ADD_CHANNEL, it sends exactly one ADD_CHANNEL with channel type
    METADATA, name "metadata" and stream count 1, followed by exactly one
    ADD_STREAM with cpu 0, the caller's [no_monitor] and one descriptor,
    the metadata stream's, and returns what that last send returned. *)
Theorem kernel_consumer_add_metadata_messages
    (sock : consumer_socket) (session : ltt_kernel_session)
    (no_monitor : Z) (w : world) :
  let setup := metadata_setup_calls session in
  let add_channel := metadata_add_channel sock session in
  let add_stream := metadata_add_stream sock session no_monitor in
  exists r w',
    kernel_consumer_add_metadata sock session no_monitor w = Some (r, w') /\
    (w_log w' = w_log w ++ setup \/
     w_log w' = w_log w ++ setup ++ [add_channel] \/
     w_log w' = w_log w ++ setup ++ [add_channel; add_stream]) /\
    (metadata_setup_ok session w ->
     0 <= env_ret (w_log w ++ setup) add_channel ->
     w_log w' = w_log w ++ setup ++ [add_channel; add_stream] /\
     r = env_ret (w_log w ++ setup ++ [add_channel]) add_stream).
Proof.
  intros setup add_channel add_stream.
  unfold kernel_consumer_add_metadata, kernel_consumer_pathname.
  subst setup add_channel add_stream.
  unfold metadata_setup_ok, metadata_setup_calls, metadata_add_channel,
    metadata_add_stream, metadata_pathname, consumer_init_channel_comm_msg,
    consumer_init_stream_comm_msg, set_no_monitor, DEFAULT_METADATA_NAME.
  destruct (co_type (ks_consumer session)); run.
  - match goal with |- context [env_ret (w_log w) ?c] =>
      set (mkdir := c) in *; set (r0 := env_ret (w_log w) mkdir) in * end.
    destruct ((r0 <? 0) && negb (r0 =? - EEXIST)) eqn:Hr0; run.
    + eexists _, _. split; [reflexivity|]. split; [left; reflexivity|].
      intros Hok. exfalso.
      apply andb_true_iff in Hr0 as [H1 H2].
      apply Z.ltb_lt in H1. apply negb_true_iff, Z.eqb_neq in H2. lia.
    + cbn [sm_channel_key sm_stream_key sm_cpu].
      match goal with |- context [env_ret (w_log w ++ [mkdir]) ?c] =>
        set (chan := c) in *; set (r1 := env_ret (w_log w ++ [mkdir]) chan) in * end.
      destruct (Z.ltb_spec r1 0) as [Hr1|Hr1]; run.
      * eexists _, _. split; [reflexivity|]. cbn [w_log set_w_log].
        rewrite <- app_assoc. split; [right; left; reflexivity|].
        intros _ ?. lia.
      * eexists _, _. split; [reflexivity|]. cbn [w_log set_w_log].
        repeat rewrite <- app_assoc. split; [right; right; reflexivity|].
        intros _ _. split; reflexivity.
  - rewrite !app_nil_r. cbn [Z.ltb Z.compare andb]. run.
    cbn [sm_channel_key sm_stream_key sm_cpu].
    match goal with |- context [env_ret (w_log w) ?c] =>
      set (chan := c) in *; set (r1 := env_ret (w_log w) chan) in * end.
    destruct (Z.ltb_spec r1 0) as [Hr1|Hr1]; run.
    + eexists _, _. split; [reflexivity|]. cbn [w_log set_w_log].
      split; [right; left; reflexivity|]. intros _ ?. lia.
    + eexists _, _. split; [reflexivity|]. cbn [w_log set_w_log].
      repeat rewrite <- app_assoc. split; [right; right; reflexivity|].
      intros _ _. split; reflexivity.
Qed.
End KernelMetadata.

Lemma kernel_consumer_add_metadata_messages_witness :
  exists r w',
    kernel_consumer_add_metadata (E := env_mkdir_eexist) {| cs_fd := 5 |}
      kernel_session_1 1 (boot_world (- EINVAL) 5) = Some (r, w') /\
    w_log w' =
      [c_run_as_mkdir_recursive "/tmp/trace/kernel" 0 0;
       c_consumer_send_channel 5
         (msg_channel LTTNG_CONSUMER_ADD_CHANNEL
            {| cm_channel_key := 20; cm_session_id := 1;
               cm_pathname := "/tmp/trace/kernel"; cm_uid := 0; cm_gid := 0;
               cm_relayd_id := -1; cm_name := "metadata";
               cm_nb_init_streams := 1; cm_output := 0;
               cm_type := CONSUMER_CHANNEL_TYPE_METADATA;
               cm_tracefile_size := 0; cm_tracefile_count := 0 |});
       c_consumer_send_stream 5
         (msg_stream LTTNG_CONSUMER_ADD_STREAM
            {| sm_channel_key := 20; sm_stream_key := 21; sm_cpu := 0;
               sm_no_monitor := 1 |}) [21]].
Proof.
  destruct (kernel_consumer_add_metadata_messages (E := env_mkdir_eexist)
              {| cs_fd := 5 |} kernel_session_1 1 (boot_world (- EINVAL) 5))
    as (r & w' & Hrun & _ & Hok).
  exists r, w'. split; [exact Hrun|].
  destruct Hok as [Hlog _];
    [right; reflexivity | vm_compute; discriminate | exact Hlog].
Defined.

(** ** Stopping a trace (C6) *)

(** The stop sentence of the specification, as written: whenever the
    session of a compatible application has been started,
    [ust_app_stop_trace] calls [stop_session], then [wait_quiescent], and
    goes on from there. *)
Definition stop_trace_then_quiescent : Prop :=
  forall (E : environment) (usess : ltt_ust_session) (app : ust_app)
         (ua_sess : ust_app_session) (w w' : world) (r : Z),
    app_compatible app <> 0 ->
    lookup_session_by_app usess app = Some ua_sess ->
    s_started ua_sess <> 0 ->
    ust_app_stop_trace usess app w = Some (r, w') ->
    exists rest,
      w_log w' = w_log w
                 ++ [c_ustctl_stop_session (app_sock app) (s_handle ua_sess);
                     c_ustctl_wait_quiescent (app_sock app)] ++ rest.

Section StopTrace.
Context `{E : environment}.

(** The flush phase in the words of the specification: the buffers are
    flushed in order; a flush that fails because the application vanished
    is the last one; any other outcome goes on to the next buffer.  The
    result is the calls made and whether the application vanished. *)
Fixpoint flush_trace (sock : Z) (log : list call) (objs : list (option Z))
    : list call * bool :=
  match objs with
  | [] => ([], false)
  | obj :: rest =>
      let flush := c_ustctl_sock_flush_buffer sock obj in
      if app_vanished (env_ret log flush) then ([flush], true)
      else
        let (calls, gone) := flush_trace sock (log ++ [flush]) rest in
        (flush :: calls, gone)
  end.

Lemma app_vanished_negative r : app_vanished r = true -> r < 0.
Proof.
  unfold app_vanished, EPIPE, LTTNG_UST_ERR_EXITING.
  intros H. apply orb_true_iff in H as [H|H]; apply Z.eqb_eq in H; lia.
Qed.

Lemma flush_channels_run app channels w :
  Forall (fun c => ch_is_sent c <> 0) channels ->
  flush_channels app channels w
  = Some (snd (flush_trace (app_sock app) (w_log w) (map ch_obj channels)),
          set_w_log (w_log w ++ fst (flush_trace (app_sock app) (w_log w)
                                       (map ch_obj channels))) w).
Proof.
  intros Hsent. revert w. induction Hsent as [|c l Hc Hl IH]; intros w.
  - cbn. rewrite app_nil_r. now destruct w.
  - cbn [flush_channels map flush_trace]. run.
    apply Z.eqb_neq in Hc. rewrite Hc. cbn [negb].
    set (flush := c_ustctl_sock_flush_buffer (app_sock app) (ch_obj c)).
    unfold app_vanished.
    destruct (env_ret (w_log w) flush =? - EPIPE) eqn:H1;
      [|destruct (env_ret (w_log w) flush =? - LTTNG_UST_ERR_EXITING) eqn:H2];
      cbn [negb andb orb].
    + apply Z.eqb_eq in H1. rewrite H1. reflexivity.
    + apply Z.eqb_eq in H2. rewrite H2. reflexivity.
    + assert (Hgo : (if env_ret (w_log w) flush <? 0
                     then flush_channels app l else flush_channels app l)
                    = flush_channels app l) by now destruct (_ <? 0).
      rewrite Hgo, IH. cbn [w_log set_w_log].
      destruct (flush_trace (app_sock app) (w_log w ++ [flush]) (map ch_obj l))
        as [calls gone]. cbn [fst snd]. rewrite <- app_assoc. reflexivity.
Qed.

Lemma flush_channels_app app pre rest w :
  Forall (fun c => ch_is_sent c <> 0) pre ->
  flush_channels app (pre ++ rest) w
  = let data := flush_trace (app_sock app) (w_log w) (map ch_obj pre) in
    if snd data then Some (true, set_w_log (w_log w ++ fst data) w)
    else flush_channels app rest (set_w_log (w_log w ++ fst data) w).
Proof.
  intros Hsent. revert w. induction Hsent as [|c l Hc Hl IH]; intros w.
  - cbn. rewrite app_nil_r. now destruct w.
  - cbn [List.app flush_channels map flush_trace]. run.
    apply Z.eqb_neq in Hc. rewrite Hc. cbn [negb].
    set (flush := c_ustctl_sock_flush_buffer (app_sock app) (ch_obj c)).
    unfold app_vanished.
    destruct (env_ret (w_log w) flush =? - EPIPE) eqn:H1;
      [|destruct (env_ret (w_log w) flush =? - LTTNG_UST_ERR_EXITING) eqn:H2];
      cbn [negb andb orb].
    + apply Z.eqb_eq in H1. rewrite H1. reflexivity.
    + apply Z.eqb_eq in H2. rewrite H2. reflexivity.
    + assert (Hgo : (if env_ret (w_log w) flush <? 0
                     then flush_channels app (l ++ rest)
                     else flush_channels app (l ++ rest))
                    = flush_channels app (l ++ rest)) by now destruct (_ <? 0).
      rewrite Hgo, IH. cbn [w_log set_w_log].
      destruct (flush_trace (app_sock app) (w_log w ++ [flush]) (map ch_obj l))
        as [calls gone]. cbn [fst snd]. rewrite <- app_assoc.
      reflexivity.
Qed.

Lemma flush_channels_unsent app c post w :
  ch_is_sent c = 0 -> flush_channels app (c :: post) w = None.
Proof. intros H. cbn [flush_channels]. now rewrite H. Qed.

(** C6, as amended.  For a compatible application with a session:
    when the session was never started, [ust_app_stop_trace] fails with -1
    and does nothing.  Otherwise it calls [stop_session]; when that call
    fails (the application having vanished or not) it fails with -1 and
    makes no other call; when it succeeds, it calls [wait_quiescent], then
    flushes the data channels in order and finally the metadata channel.  A
    flush that fails because the application vanished is the last call and
    the result is success; any other flush failure of a data channel goes
    on to the next buffer; any other flush failure of the metadata channel
    gives -1.  Each buffer is flushed under the assertion that its channel
    has been sent to the tracer: when the flushing reaches a data channel
    that was not sent, or, the data channels done, a metadata channel
    that is missing or was not sent, the daemon stops there. *)
Theorem ust_app_stop_trace_sequence
    (usess : ltt_ust_session) (app : ust_app) (ua_sess : ust_app_session)
    (w : world) :
  app_compatible app <> 0 ->
  lookup_session_by_app usess app = Some ua_sess ->
  let sock := app_sock app in
  let stop := c_ustctl_stop_session sock (s_handle ua_sess) in
  let wait := c_ustctl_wait_quiescent sock in
  (* never started: a stop error, and nothing is done *)
  (s_started ua_sess = 0 ->
   ust_app_stop_trace usess app w = Some (-1, w)) /\
  (s_started ua_sess <> 0 ->
   (* the tracer refuses to stop: a stop error after this one call *)
   (env_ret (w_log w) stop < 0 ->
    ust_app_stop_trace usess app w
    = Some (-1, set_w_log (w_log w ++ [stop]) w)) /\
   (* the tracer stops *)
   (0 <= env_ret (w_log w) stop ->
    let log0 := w_log w ++ [stop; wait] in
    (* every channel has been sent to the tracer *)
    (Forall (fun c => ch_is_sent c <> 0) (s_channels ua_sess) ->
     forall metadata,
       s_metadata ua_sess = Some metadata ->
       ch_is_sent metadata <> 0 ->
       let data := flush_trace sock log0 (map ch_obj (s_channels ua_sess)) in
       let meta := c_ustctl_sock_flush_buffer sock (ch_obj metadata) in
       let r_meta := env_ret (log0 ++ fst data) meta in
       ust_app_stop_trace usess app w
       = if snd data then
           Some (0, set_w_log (log0 ++ fst data) w)
         else
           Some (if (r_meta <? 0) && negb (app_vanished r_meta)
                 then -1 else 0,
                 set_w_log (log0 ++ fst data ++ [meta]) w)) /\
    (* the application vanishes before a channel that was not sent is
       reached *)
    (forall pre post,
        s_channels ua_sess = pre ++ post ->
        Forall (fun c => ch_is_sent c <> 0) pre ->
        let data := flush_trace sock log0 (map ch_obj pre) in
        snd data = true ->
        ust_app_stop_trace usess app w
        = Some (0, set_w_log (log0 ++ fst data) w)) /\
    (* the flushing reaches a data channel that was not sent *)
    (forall pre c post,
        s_channels ua_sess = pre ++ c :: post ->
        Forall (fun c => ch_is_sent c <> 0) pre ->
        snd (flush_trace sock log0 (map ch_obj pre)) = false ->
        ch_is_sent c = 0 ->
        ust_app_stop_trace usess app w = None) /\
    (* the data channels are flushed; the metadata channel is missing or
       was not sent *)
    (Forall (fun c => ch_is_sent c <> 0) (s_channels ua_sess) ->
     snd (flush_trace sock log0 (map ch_obj (s_channels ua_sess))) = false ->
     (s_metadata ua_sess = None \/
      exists metadata, s_metadata ua_sess = Some metadata /\
                       ch_is_sent metadata = 0) ->
     ust_app_stop_trace usess app w = None))).
Proof.
  intros Hcompat Hsess sock stop wait.
  unfold ust_app_stop_trace. rewrite Hsess.
  apply Z.eqb_neq in Hcompat. rewrite Hcompat.
  split.
  - intros ->. reflexivity.
  - intros Hstarted. apply Z.eqb_neq in Hstarted. rewrite Hstarted.
    fold sock stop wait. split.
    + intros Hneg. apply Z.ltb_lt in Hneg. run. now rewrite Hneg.
    + intros Hpos. set (log0 := w_log w ++ [stop; wait]).
      apply Z.ltb_ge in Hpos. run. rewrite Hpos. run.
      assert (Hlog : forall l, w_log w ++ stop :: wait :: l = log0 ++ l)
        by (intros l; subst log0; now rewrite <- app_assoc).
      assert (Hlog0 : (w_log w ++ [stop]) ++ [wait] = log0)
        by (subst log0; now rewrite <- app_assoc).
      rewrite Hlog0.
      split; [|split; [|split]].
      * intros Hsent metadata Hmeta Hmsent.
        set (data := flush_trace sock log0
                       (map ch_obj (s_channels ua_sess))).
        set (meta := c_ustctl_sock_flush_buffer sock (ch_obj metadata)).
        set (r_meta := env_ret (log0 ++ fst data) meta).
        rewrite (flush_channels_run app _ _ Hsent).
        cbn [w_log set_w_log]. fold sock. fold data.
        destruct (snd data); [now destruct w|].
        rewrite Hmeta. apply Z.eqb_neq in Hmsent. rewrite Hmsent.
        cbn [negb]. run.
        fold meta. fold r_meta. rewrite <- ?app_assoc.
        unfold app_vanished. rewrite negb_orb, andb_assoc.
        destruct (_ && _); now destruct w.
      * intros pre post Hch Hsent Hgone. rewrite Hch.
        rewrite (flush_channels_app app pre post _ Hsent).
        cbn [w_log set_w_log]. fold sock. rewrite Hgone.
        now destruct w.
      * intros pre c post Hch Hsent Hgo Hc. rewrite Hch.
        rewrite (flush_channels_app app pre (c :: post) _ Hsent).
        cbn [w_log set_w_log]. fold sock. rewrite Hgo.
        now rewrite (flush_channels_unsent app c post _ Hc).
      * intros Hsent Hgo Hmeta.
        rewrite (flush_channels_run app _ _ Hsent).
        cbn [w_log set_w_log]. fold sock. rewrite Hgo.
        destruct Hmeta as [->|(metadata & -> & ->)]; reflexivity.
Qed.
End StopTrace.

(** Counterexample to C6 as written: the session is started, the tracer
    answers [stop_session] with -EPIPE, and [wait_quiescent] is never
    called. *)
Lemma stop_trace_then_quiescent_counterexample :
  ~ stop_trace_then_quiescent.
Proof.
  intros H.
  destruct (H env_stop_fails usess_1 app_started session_started
              (boot_world (- EINVAL) 5)
              (set_w_log [c_ustctl_stop_session 7 3]
                 (boot_world (- EINVAL) 5)) (-1))
    as [rest Hrest]; try reflexivity; try discriminate.
Qed.

Lemma ust_app_stop_trace_sequence_witness :
  ust_app_stop_trace (E := env_flush_fails) usess_1 app_started
    (boot_world (- EINVAL) 5)
  = Some (0, set_w_log [c_ustctl_stop_session 7 3;
                        c_ustctl_wait_quiescent 7;
                        c_ustctl_sock_flush_buffer 7 (Some 11);
                        c_ustctl_sock_flush_buffer 7 (Some 12);
                        c_ustctl_sock_flush_buffer 7 (Some 10)]
                (boot_world (- EINVAL) 5)) /\
  ust_app_stop_trace (E := env_quiet) usess_chan0 app_chan0_unsent
    (boot_world (- EINVAL) 5)
  = None.
Proof.
  split.
  - destruct (ust_app_stop_trace_sequence (E := env_flush_fails) usess_1
                app_started session_started (boot_world (- EINVAL) 5))
      as [_ Hstarted]; [discriminate | reflexivity |].
    destruct Hstarted as [_ Hrun]; [discriminate|].
    destruct (Hrun ltac:(vm_compute; discriminate)) as [Hsent _].
    rewrite (Hsent ltac:(repeat constructor; discriminate)
               metadata_sent eq_refl ltac:(discriminate)).
    reflexivity.
  - set (s := hd blank_session (app_sessions app_chan0_unsent)).
    destruct (ust_app_stop_trace_sequence (E := env_quiet) usess_chan0
                app_chan0_unsent s (boot_world (- EINVAL) 5))
      as [_ Hstarted];
      [vm_compute; discriminate | vm_compute; reflexivity |].
    destruct Hstarted as [_ Hrun]; [vm_compute; discriminate|].
    destruct (Hrun ltac:(vm_compute; discriminate)) as (_ & _ & Habort & _).
    apply (Habort [] (hd channel_0 (s_channels s)) (tl (s_channels s)));
      [vm_compute; reflexivity | constructor | vm_compute; reflexivity
      | vm_compute; reflexivity].
Defined.

(** The first data flush finds the application gone: one flush, success. *)
Example ust_app_stop_trace_app_vanished :
  ust_app_stop_trace (E := env_flush_epipe) usess_1 app_started
    (boot_world (- EINVAL) 5)
  = Some (0, set_w_log [c_ustctl_stop_session 7 3;
                        c_ustctl_wait_quiescent 7;
                        c_ustctl_sock_flush_buffer 7 (Some 11)]
                (boot_world (- EINVAL) 5)).
Proof. reflexivity. Qed.

(** ** Enumeration (C8) *)

(** The tolerance sentence of the specification, as written, for
    [ust_app_list_events]: when memory never runs out and every failure of
    a tracer call is of the app-vanished class, the listing as a whole
    does not fail. *)
Definition list_events_tolerates_app_vanished : Prop :=
  forall (E : environment) (w w' : world) (r : Z)
         (out : option (list lttng_event)),
    (forall n, env_zmalloc n = true) ->
    (forall log c, env_ret log c < 0 ->
                   app_vanished (env_ret log c) = true) ->
    (forall log r uiter, In (r, uiter) (env_tracepoints log) -> r < 0 ->
                         app_vanished r = true) ->
    ust_app_list_events w = Some ((r, out), w') ->
    0 <= r.

(** The entry recorded for a tracepoint of an application. *)
Definition event_of_tracepoint (app : ust_app)
    (uiter : lttng_ust_tracepoint_iter) : lttng_event :=
  {| le_type := LTTNG_EVENT_TRACEPOINT; le_name := tp_name uiter;
     le_loglevel := tp_loglevel uiter; le_enabled := -1;
     le_pid := app_pid app |}.

(** The entry recorded for a field of an application. *)
Definition field_of_iter (app : ust_app) (uiter : lttng_ust_field_iter)
    : lttng_event_field :=
  {| lf_field_name := fi_field_name uiter; lf_type := fi_type uiter;
     lf_nowrite := fi_nowrite uiter;
     lf_event := {| le_type := LTTNG_EVENT_TRACEPOINT;
                    le_name := fi_event_name uiter;
                    le_loglevel := fi_loglevel uiter; le_enabled := -1;
                    le_pid := app_pid app |} |}.

(** How [ust_app_list_events] ends, from the outcome of its loop. *)
Definition list_events_outcome
    (r : option ((Z + Z * list lttng_event) * world))
    : option ((Z * option (list lttng_event)) * world) :=
  match r with
  | Some (inl e, w') => Some ((e, None), w')
  | Some (inr (_, events), w') =>
      Some ((Z.of_nat (List.length events), Some events), w')
  | None => None
  end.

(** How [ust_app_list_event_fields] ends, from the outcome of its loop. *)
Definition list_event_fields_outcome
    (r : option ((Z + Z * list lttng_event_field) * world))
    : option ((Z * option (list lttng_event_field)) * world) :=
  match r with
  | Some (inl e, w') => Some ((e, None), w')
  | Some (inr (_, events), w') =>
      Some ((Z.of_nat (List.length events), Some events), w')
  | None => None
  end.

Section Enumeration.
Context `{E : environment}.

Lemma tracepoint_list_get_loop_negative
    app handle answers nbmem buf w e w' :
  tracepoint_list_get_loop app handle answers nbmem buf w
  = Some (inl e, w') ->
  e < 0.
Proof.
  revert nbmem buf w.
  induction answers as [|[r uiter] answers IH]; intros nbmem buf w H.
  - cbn in H. run in H. discriminate.
  - cbn [tracepoint_list_get_loop] in H. run in H.
    destruct (r =? - LTTNG_UST_ERR_NOENT); [discriminate|].
    destruct (Z.ltb_spec r 0) as [Hr|Hr].
    + injection H as <- _. exact Hr.
    + destruct (_ >=? _); run in H.
      * destruct (env_zmalloc _); cbn [negb] in H.
        -- eapply IH. exact H.
        -- injection H as <- _. unfold ENOMEM. lia.
      * eapply IH. exact H.
Qed.

Lemma list_events_apps_negative apps nbmem buf w e w' :
  list_events_apps apps nbmem buf w = Some (inl e, w') -> e < 0.
Proof.
  revert nbmem buf w.
  induction apps as [|app rest IH]; intros nbmem buf w H.
  - cbn in H. discriminate.
  - cbn [list_events_apps] in H.
    destruct (app_compatible app =? 0); [eapply IH; exact H|].
    minv H. minv H.
    unfold get_world in H0. injection H0 as <- <-.
    unfold extcall in H1. injection H1 as <- <-.
    destruct (_ <? 0); [eapply IH; exact H|].
    minv H. destruct a as [e1|[nb1 buf1]].
    + minv H. eapply tracepoint_list_get_loop_negative. exact H0.
    + eapply IH. exact H.
Qed.

Lemma tracepoint_field_list_get_loop_negative
    app handle answers nbmem buf w e w' :
  tracepoint_field_list_get_loop app handle answers nbmem buf w
  = Some (inl e, w') ->
  e < 0.
Proof.
  revert nbmem buf w.
  induction answers as [|[r uiter] answers IH]; intros nbmem buf w H.
  - cbn in H. run in H. discriminate.
  - cbn [tracepoint_field_list_get_loop] in H. run in H.
    destruct (r =? - LTTNG_UST_ERR_NOENT); [discriminate|].
    destruct (Z.ltb_spec r 0) as [Hr|Hr].
    + injection H as <- _. exact Hr.
    + destruct (_ >=? _); run in H.
      * destruct (env_zmalloc _); cbn [negb] in H.
        -- eapply IH. exact H.
        -- injection H as <- _. unfold ENOMEM. lia.
      * eapply IH. exact H.
Qed.

Lemma list_event_fields_apps_negative apps nbmem buf w e w' :
  list_event_fields_apps apps nbmem buf w = Some (inl e, w') -> e < 0.
Proof.
  revert nbmem buf w.
  induction apps as [|app rest IH]; intros nbmem buf w H.
  - cbn in H. discriminate.
  - cbn [list_event_fields_apps] in H.
    destruct (app_compatible app =? 0); [eapply IH; exact H|].
    minv H. minv H.
    unfold get_world in H0. injection H0 as <- <-.
    unfold extcall in H1. injection H1 as <- <-.
    destruct (_ <? 0); [eapply IH; exact H|].
    minv H. destruct a as [e1|[nb1 buf1]].
    + minv H. eapply tracepoint_field_list_get_loop_negative. exact H0.
    + eapply IH. exact H.
Qed.

Lemma ust_app_list_events_outcome w :
  env_zmalloc (w_allocs w) = true ->
  ust_app_list_events w
  = list_events_outcome
      (list_events_apps (registered_apps w) UST_APP_EVENT_LIST_SIZE []
         (set_w_allocs (S (w_allocs w)) w)).
Proof.
  intros Hm. unfold ust_app_list_events, list_events_outcome. run.
  rewrite Hm. cbn [negb]. run.
  change (registered_apps (set_w_allocs (S (w_allocs w)) w))
    with (registered_apps w).
  destruct (list_events_apps _ _ _ _) as [[[e|[nb events]] w1]|];
    reflexivity.
Qed.

(** The loop over the applications, cut in two: a failure in the first
    part is the outcome, the second part not being run. *)
Lemma list_events_apps_app pre rest nbmem buf w :
  list_events_apps (pre ++ rest) nbmem buf w
  = match list_events_apps pre nbmem buf w with
    | Some (inr (nb1, buf1), w1) => list_events_apps rest nb1 buf1 w1
    | Some (inl e, w1) => Some (inl e, w1)
    | None => None
    end.
Proof.
  revert nbmem buf w. induction pre as [|app pre IH]; intros nbmem buf w.
  - reflexivity.
  - cbn [List.app list_events_apps].
    destruct (app_compatible app =? 0); [apply IH|]. run.
    destruct (_ <? 0); [apply IH|].
    destruct (tracepoint_list_get_loop _ _ _ _ _ _)
      as [[[e|[nb1 buf1]] w1]|]; [reflexivity|apply IH|reflexivity].
Qed.

(** The entries of one application: those before the first one that
    cannot be read are recorded, memory permitting, and the loop ends
    there with the code of that one. *)
Lemma tracepoint_list_get_loop_fails app handle good r uiter more nbmem
    buf w :
  (forall n, env_zmalloc n = true) ->
  Forall (fun a => 0 <= fst a) good ->
  r < 0 -> r <> - LTTNG_UST_ERR_NOENT ->
  exists w',
    tracepoint_list_get_loop app handle (good ++ (r, uiter) :: more) nbmem
      buf w = Some (inl r, w') /\
    w_log w'
    = w_log w ++ repeat (c_ustctl_tracepoint_list_get (app_sock app) handle)
                   (S (List.length good)).
Proof.
  intros Hm Hgood Hneg Hne. revert nbmem buf w.
  induction Hgood as [|[r0 u0] good Hr0 _ IH]; intros nbmem buf w.
  - cbn [List.app tracepoint_list_get_loop]. run.
    apply Z.eqb_neq in Hne. rewrite Hne.
    apply Z.ltb_lt in Hneg. rewrite Hneg.
    eexists. split; reflexivity.
  - cbn [List.app tracepoint_list_get_loop]. run. cbn [fst] in Hr0.
    assert (Hn0 : (r0 =? - LTTNG_UST_ERR_NOENT) = false)
      by (apply Z.eqb_neq; unfold LTTNG_UST_ERR_NOENT; lia).
    rewrite Hn0. apply Z.ltb_ge in Hr0. rewrite Hr0.
    destruct (_ >=? _); run; rewrite ?Hm; cbn [negb];
      match goal with
      | |- context [tracepoint_list_get_loop app handle _ ?nb ?b ?w0] =>
          destruct (IH nb b w0) as (w' & Hrun & Hlog)
      end;
      exists w'; (split; [exact Hrun|]); rewrite Hlog; cbn;
      now rewrite <- app_assoc.
Qed.

(** Where a failure of the loops comes from: an allocation that failed,
    or an entry that could not be read and was not the end of the
    list. *)
Lemma tracepoint_list_get_loop_cause app handle answers nbmem buf w e w' :
  tracepoint_list_get_loop app handle answers nbmem buf w
  = Some (inl e, w') ->
  (e = - ENOMEM /\ exists n, env_zmalloc n = false) \/
  (e <> - LTTNG_UST_ERR_NOENT /\ exists uiter, In (e, uiter) answers).
Proof.
  revert nbmem buf w.
  induction answers as [|[r uiter] answers IH]; intros nbmem buf w H.
  - cbn in H. run in H. discriminate.
  - cbn [tracepoint_list_get_loop] in H. run in H.
    destruct (Z.eqb_spec r (- LTTNG_UST_ERR_NOENT)) as [|Hne];
      [discriminate|].
    destruct (r <? 0).
    + injection H as <- _. right. split; [exact Hne|].
      exists uiter. now left.
    + assert (Hrest : forall nb b w0,
                 tracepoint_list_get_loop app handle answers nb b w0
                 = Some (inl e, w') ->
                 (e = - ENOMEM /\ exists n, env_zmalloc n = false) \/
                 (e <> - LTTNG_UST_ERR_NOENT /\
                  exists u, In (e, u) ((r, uiter) :: answers))).
      { intros nb b w0 H0. destruct (IH _ _ _ H0) as [Hmem|[Hn [u Hu]]];
          [now left|right]. split; [exact Hn|]. exists u. now right. }
      destruct (_ >=? _); run in H.
      * destruct (env_zmalloc (w_allocs w)) eqn:Hm; cbn [negb] in H.
        -- eapply Hrest. exact H.
        -- injection H as <- _. left. eauto.
      * eapply Hrest. exact H.
Qed.

Lemma list_events_apps_cause apps nbmem buf w e w' :
  list_events_apps apps nbmem buf w = Some (inl e, w') ->
  (e = - ENOMEM /\ exists n, env_zmalloc n = false) \/
  (e <> - LTTNG_UST_ERR_NOENT /\
   exists log uiter, In (e, uiter) (env_tracepoints log)).
Proof.
  revert nbmem buf w.
  induction apps as [|app rest IH]; intros nbmem buf w H.
  - cbn in H. discriminate.
  - cbn [list_events_apps] in H.
    destruct (app_compatible app =? 0); [eapply IH; exact H|].
    run in H.
    destruct (_ <? 0); [eapply IH; exact H|].
    destruct (tracepoint_list_get_loop _ _ _ _ _ _)
      as [[[e1|[nb1 buf1]] w1]|] eqn:Hloop; [| |discriminate].
    + injection H as <- <-.
      destruct (tracepoint_list_get_loop_cause _ _ _ _ _ _ _ _ Hloop)
        as [Hmem|[Hn [u Hu]]]; [now left|right]. eauto.
    + eapply IH. exact H.
Qed.

(** The whole listing, at an application whose listing handle cannot be
    obtained: it goes on with the next application, from the buffer as it
    is. *)
Lemma ust_app_list_events_handle w pre app rest nb1 buf1 w1 :
  env_zmalloc (w_allocs w) = true ->
  registered_apps w = pre ++ app :: rest ->
  list_events_apps pre UST_APP_EVENT_LIST_SIZE []
    (set_w_allocs (S (w_allocs w)) w) = Some (inr (nb1, buf1), w1) ->
  app_compatible app <> 0 ->
  env_ret (w_log w1) (c_ustctl_tracepoint_list (app_sock app)) < 0 ->
  ust_app_list_events w
  = list_events_outcome
      (list_events_apps rest nb1 buf1
         (set_w_log (w_log w1 ++ [c_ustctl_tracepoint_list (app_sock app)])
            w1)).
Proof.
  intros Hm Hreg Hpre Hc Hneg.
  rewrite (ust_app_list_events_outcome _ Hm), Hreg, list_events_apps_app,
    Hpre.
  cbn [list_events_apps]. apply Z.eqb_neq in Hc. rewrite Hc. run.
  apply Z.ltb_lt in Hneg. now rewrite Hneg.
Qed.

(** The whole listing, at an application whose entries fail: the listing
    fails with that code, hands out nothing and asks no later
    application. *)
Lemma ust_app_list_events_entries w pre app rest nb1 buf1 w1 e w2 :
  env_zmalloc (w_allocs w) = true ->
  registered_apps w = pre ++ app :: rest ->
  list_events_apps pre UST_APP_EVENT_LIST_SIZE []
    (set_w_allocs (S (w_allocs w)) w) = Some (inr (nb1, buf1), w1) ->
  app_compatible app <> 0 ->
  0 <= env_ret (w_log w1) (c_ustctl_tracepoint_list (app_sock app)) ->
  tracepoint_list_get_loop app
    (env_ret (w_log w1) (c_ustctl_tracepoint_list (app_sock app)))
    (env_tracepoints (w_log w1)) nb1 buf1
    (set_w_log (w_log w1 ++ [c_ustctl_tracepoint_list (app_sock app)]) w1)
  = Some (inl e, w2) ->
  ust_app_list_events w = Some ((e, None), w2).
Proof.
  intros Hm Hreg Hpre Hc Hpos Hloop.
  rewrite (ust_app_list_events_outcome _ Hm), Hreg, list_events_apps_app,
    Hpre.
  cbn [list_events_apps]. apply Z.eqb_neq in Hc. rewrite Hc. run.
  apply Z.ltb_ge in Hpos. rewrite Hpos, Hloop. reflexivity.
Qed.

Lemma ust_app_list_event_fields_outcome w :
  env_zmalloc (w_allocs w) = true ->
  ust_app_list_event_fields w
  = list_event_fields_outcome
      (list_event_fields_apps (registered_apps w) UST_APP_EVENT_LIST_SIZE []
         (set_w_allocs (S (w_allocs w)) w)).
Proof.
  intros Hm. unfold ust_app_list_event_fields, list_event_fields_outcome. run.
  rewrite Hm. cbn [negb]. run.
  change (registered_apps (set_w_allocs (S (w_allocs w)) w))
    with (registered_apps w).
  destruct (list_event_fields_apps _ _ _ _) as [[[e|[nb events]] w1]|];
    reflexivity.
Qed.

(** The loop over the applications, cut in two: a failure in the first
    part is the outcome, the second part not being run. *)
Lemma list_event_fields_apps_app pre rest nbmem buf w :
  list_event_fields_apps (pre ++ rest) nbmem buf w
  = match list_event_fields_apps pre nbmem buf w with
    | Some (inr (nb1, buf1), w1) => list_event_fields_apps rest nb1 buf1 w1
    | Some (inl e, w1) => Some (inl e, w1)
    | None => None
    end.
Proof.
  revert nbmem buf w. induction pre as [|app pre IH]; intros nbmem buf w.
  - reflexivity.
  - cbn [List.app list_event_fields_apps].
    destruct (app_compatible app =? 0); [apply IH|]. run.
    destruct (_ <? 0); [apply IH|].
    destruct (tracepoint_field_list_get_loop _ _ _ _ _ _)
      as [[[e|[nb1 buf1]] w1]|]; [reflexivity|apply IH|reflexivity].
Qed.

(** The entries of one application: those before the first one that
    cannot be read are recorded, memory permitting, and the loop ends
    there with the code of that one. *)
Lemma tracepoint_field_list_get_loop_fails app handle good r uiter more nbmem
    buf w :
  (forall n, env_zmalloc n = true) ->
  Forall (fun a => 0 <= fst a) good ->
  r < 0 -> r <> - LTTNG_UST_ERR_NOENT ->
  exists w',
    tracepoint_field_list_get_loop app handle (good ++ (r, uiter) :: more) nbmem
      buf w = Some (inl r, w') /\
    w_log w'
    = w_log w ++ repeat (c_ustctl_tracepoint_field_list_get (app_sock app) handle)
                   (S (List.length good)).
Proof.
  intros Hm Hgood Hneg Hne. revert nbmem buf w.
  induction Hgood as [|[r0 u0] good Hr0 _ IH]; intros nbmem buf w.
  - cbn [List.app tracepoint_field_list_get_loop]. run.
    apply Z.eqb_neq in Hne. rewrite Hne.
    apply Z.ltb_lt in Hneg. rewrite Hneg.
    eexists. split; reflexivity.
  - cbn [List.app tracepoint_field_list_get_loop]. run. cbn [fst] in Hr0.
    assert (Hn0 : (r0 =? - LTTNG_UST_ERR_NOENT) = false)
      by (apply Z.eqb_neq; unfold LTTNG_UST_ERR_NOENT; lia).
    rewrite Hn0. apply Z.ltb_ge in Hr0. rewrite Hr0.
    destruct (_ >=? _); run; rewrite ?Hm; cbn [negb];
      match goal with
      | |- context [tracepoint_field_list_get_loop app handle _ ?nb ?b ?w0] =>
          destruct (IH nb b w0) as (w' & Hrun & Hlog)
      end;
      exists w'; (split; [exact Hrun|]); rewrite Hlog; cbn;
      now rewrite <- app_assoc.
Qed.

(** Where a failure of the loops comes from: an allocation that failed,
    or an entry that could not be read and was not the end of the
    list. *)
Lemma tracepoint_field_list_get_loop_cause app handle answers nbmem buf w e w' :
  tracepoint_field_list_get_loop app handle answers nbmem buf w
  = Some (inl e, w') ->
  (e = - ENOMEM /\ exists n, env_zmalloc n = false) \/
  (e <> - LTTNG_UST_ERR_NOENT /\ exists uiter, In (e, uiter) answers).
Proof.
  revert nbmem buf w.
  induction answers as [|[r uiter] answers IH]; intros nbmem buf w H.
  - cbn in H. run in H. discriminate.
  - cbn [tracepoint_field_list_get_loop] in H. run in H.
    destruct (Z.eqb_spec r (- LTTNG_UST_ERR_NOENT)) as [|Hne];
      [discriminate|].
    destruct (r <? 0).
    + injection H as <- _. right. split; [exact Hne|].
      exists uiter. now left.
    + assert (Hrest : forall nb b w0,
                 tracepoint_field_list_get_loop app handle answers nb b w0
                 = Some (inl e, w') ->
                 (e = - ENOMEM /\ exists n, env_zmalloc n = false) \/
                 (e <> - LTTNG_UST_ERR_NOENT /\
                  exists u, In (e, u) ((r, uiter) :: answers))).
      { intros nb b w0 H0. destruct (IH _ _ _ H0) as [Hmem|[Hn [u Hu]]];
          [now left|right]. split; [exact Hn|]. exists u. now right. }
      destruct (_ >=? _); run in H.
      * destruct (env_zmalloc (w_allocs w)) eqn:Hm; cbn [negb] in H.
        -- eapply Hrest. exact H.
        -- injection H as <- _. left. eauto.
      * eapply Hrest. exact H.
Qed.

Lemma list_event_fields_apps_cause apps nbmem buf w e w' :
  list_event_fields_apps apps nbmem buf w = Some (inl e, w') ->
  (e = - ENOMEM /\ exists n, env_zmalloc n = false) \/
  (e <> - LTTNG_UST_ERR_NOENT /\
   exists log uiter, In (e, uiter) (env_fields log)).
Proof.
  revert nbmem buf w.
  induction apps as [|app rest IH]; intros nbmem buf w H.
  - cbn in H. discriminate.
  - cbn [list_event_fields_apps] in H.
    destruct (app_compatible app =? 0); [eapply IH; exact H|].
    run in H.
    destruct (_ <? 0); [eapply IH; exact H|].
    destruct (tracepoint_field_list_get_loop _ _ _ _ _ _)
      as [[[e1|[nb1 buf1]] w1]|] eqn:Hloop; [| |discriminate].
    + injection H as <- <-.
      destruct (tracepoint_field_list_get_loop_cause _ _ _ _ _ _ _ _ Hloop)
        as [Hmem|[Hn [u Hu]]]; [now left|right]. eauto.
    + eapply IH. exact H.
Qed.

(** The whole listing, at an application whose listing handle cannot be
    obtained: it goes on with the next application, from the buffer as it
    is. *)
Lemma ust_app_list_event_fields_handle w pre app rest nb1 buf1 w1 :
  env_zmalloc (w_allocs w) = true ->
  registered_apps w = pre ++ app :: rest ->
  list_event_fields_apps pre UST_APP_EVENT_LIST_SIZE []
    (set_w_allocs (S (w_allocs w)) w) = Some (inr (nb1, buf1), w1) ->
  app_compatible app <> 0 ->
  env_ret (w_log w1) (c_ustctl_tracepoint_field_list (app_sock app)) < 0 ->
  ust_app_list_event_fields w
  = list_event_fields_outcome
      (list_event_fields_apps rest nb1 buf1
         (set_w_log (w_log w1 ++ [c_ustctl_tracepoint_field_list (app_sock app)])
            w1)).
Proof.
  intros Hm Hreg Hpre Hc Hneg.
  rewrite (ust_app_list_event_fields_outcome _ Hm), Hreg, list_event_fields_apps_app,
    Hpre.
  cbn [list_event_fields_apps]. apply Z.eqb_neq in Hc. rewrite Hc. run.
  apply Z.ltb_lt in Hneg. now rewrite Hneg.
Qed.

(** The whole listing, at an application whose entries fail: the listing
    fails with that code, hands out nothing and asks no later
    application. *)
Lemma ust_app_list_event_fields_entries w pre app rest nb1 buf1 w1 e w2 :
  env_zmalloc (w_allocs w) = true ->
  registered_apps w = pre ++ app :: rest ->
  list_event_fields_apps pre UST_APP_EVENT_LIST_SIZE []
    (set_w_allocs (S (w_allocs w)) w) = Some (inr (nb1, buf1), w1) ->
  app_compatible app <> 0 ->
  0 <= env_ret (w_log w1) (c_ustctl_tracepoint_field_list (app_sock app)) ->
  tracepoint_field_list_get_loop app
    (env_ret (w_log w1) (c_ustctl_tracepoint_field_list (app_sock app)))
    (env_fields (w_log w1)) nb1 buf1
    (set_w_log (w_log w1 ++ [c_ustctl_tracepoint_field_list (app_sock app)]) w1)
  = Some (inl e, w2) ->
  ust_app_list_event_fields w = Some ((e, None), w2).
Proof.
  intros Hm Hreg Hpre Hc Hpos Hloop.
  rewrite (ust_app_list_event_fields_outcome _ Hm), Hreg, list_event_fields_apps_app,
    Hpre.
  cbn [list_event_fields_apps]. apply Z.eqb_neq in Hc. rewrite Hc. run.
  apply Z.ltb_ge in Hpos. rewrite Hpos, Hloop. reflexivity.
Qed.

(** What [ust_app_list_events] does about errors. *)
Definition list_events_error_handling : Prop :=
  (* a listing handle that cannot be obtained: on to the next app *)
  (forall app rest nbmem buf w,
      app_compatible app <> 0 ->
      env_ret (w_log w) (c_ustctl_tracepoint_list (app_sock app)) < 0 ->
      list_events_apps (app :: rest) nbmem buf w
      = list_events_apps rest nbmem buf
          (set_w_log (w_log w ++ [c_ustctl_tracepoint_list (app_sock app)])
             w)) /\
  (* an entry that cannot be read: the listing fails with that code *)
  (forall app handle r uiter answers nbmem buf w,
      r < 0 -> r <> - LTTNG_UST_ERR_NOENT ->
      tracepoint_list_get_loop app handle ((r, uiter) :: answers) nbmem buf
        w
      = Some (inl r,
              set_w_log (w_log w ++ [c_ustctl_tracepoint_list_get
                                       (app_sock app) handle]) w)) /\
  (* a full buffer doubles, or the listing fails with -ENOMEM *)
  (forall app handle r uiter answers nbmem buf w,
      0 <= r -> nbmem <= Z.of_nat (List.length buf) ->
      let w1 := set_w_allocs (S (w_allocs w))
                  (set_w_log (w_log w ++ [c_ustctl_tracepoint_list_get
                                            (app_sock app) handle]) w) in
      tracepoint_list_get_loop app handle ((r, uiter) :: answers) nbmem buf
        w
      = if env_zmalloc (w_allocs w)
        then tracepoint_list_get_loop app handle answers (2 * nbmem)
               (buf ++ [event_of_tracepoint app uiter]) w1
        else Some (inl (- ENOMEM), w1)) /\
  (* the whole listing, when the first allocation fails *)
  (forall w,
      env_zmalloc (w_allocs w) = false ->
      ust_app_list_events w
      = Some ((- ENOMEM, None), set_w_allocs (S (w_allocs w)) w)) /\
  (* the whole listing, at an application whose listing handle cannot be
     obtained, the applications before it having been listed: it goes on
     with the next application, from the buffer as it is *)
  (forall w pre app rest nb1 buf1 w1,
      env_zmalloc (w_allocs w) = true ->
      registered_apps w = pre ++ app :: rest ->
      list_events_apps pre UST_APP_EVENT_LIST_SIZE []
        (set_w_allocs (S (w_allocs w)) w) = Some (inr (nb1, buf1), w1) ->
      app_compatible app <> 0 ->
      env_ret (w_log w1) (c_ustctl_tracepoint_list (app_sock app)) < 0 ->
      ust_app_list_events w
      = list_events_outcome
          (list_events_apps rest nb1 buf1
             (set_w_log
                (w_log w1 ++ [c_ustctl_tracepoint_list (app_sock app)])
                w1))) /\
  (* the whole listing, at an application whose entries cannot all be
     read or recorded: it fails with the code of the inner loop, hands
     out no buffer, and asks nothing of the applications after it *)
  (forall w pre app rest nb1 buf1 w1 e w2,
      env_zmalloc (w_allocs w) = true ->
      registered_apps w = pre ++ app :: rest ->
      list_events_apps pre UST_APP_EVENT_LIST_SIZE []
        (set_w_allocs (S (w_allocs w)) w) = Some (inr (nb1, buf1), w1) ->
      app_compatible app <> 0 ->
      0 <= env_ret (w_log w1) (c_ustctl_tracepoint_list (app_sock app)) ->
      tracepoint_list_get_loop app
        (env_ret (w_log w1) (c_ustctl_tracepoint_list (app_sock app)))
        (env_tracepoints (w_log w1)) nb1 buf1
        (set_w_log (w_log w1 ++ [c_ustctl_tracepoint_list (app_sock app)])
           w1)
      = Some (inl e, w2) ->
      ust_app_list_events w = Some ((e, None), w2)) /\
  (* the whole listing, memory never running out, at an application one
     of whose entries cannot be read, the ones before it having been
     read: it fails with the code of that entry after that read *)
  (forall w pre app rest nb1 buf1 w1 good r uiter more,
      (forall n, env_zmalloc n = true) ->
      registered_apps w = pre ++ app :: rest ->
      list_events_apps pre UST_APP_EVENT_LIST_SIZE []
        (set_w_allocs (S (w_allocs w)) w) = Some (inr (nb1, buf1), w1) ->
      app_compatible app <> 0 ->
      0 <= env_ret (w_log w1) (c_ustctl_tracepoint_list (app_sock app)) ->
      env_tracepoints (w_log w1) = good ++ (r, uiter) :: more ->
      Forall (fun a => 0 <= fst a) good ->
      r < 0 -> r <> - LTTNG_UST_ERR_NOENT ->
      exists w',
        ust_app_list_events w = Some ((r, None), w') /\
        w_log w'
        = w_log w1
          ++ c_ustctl_tracepoint_list (app_sock app)
             :: repeat (c_ustctl_tracepoint_list_get (app_sock app)
                          (env_ret (w_log w1)
                             (c_ustctl_tracepoint_list (app_sock app))))
                  (S (List.length good))) /\
  (* the whole listing fails for these reasons only: an allocation that
     failed, or an entry that could not be read; never for a listing
     handle *)
  (forall w r out w',
      ust_app_list_events w = Some ((r, out), w') -> r < 0 ->
      out = None /\
      ((r = - ENOMEM /\ exists n, env_zmalloc n = false) \/
       (r <> - LTTNG_UST_ERR_NOENT /\
        exists log uiter, In (r, uiter) (env_tracepoints log)))) /\
  (* a failure leaves no buffer behind; a success hands out the entries
     and returns their number *)
  (forall w r out w',
      ust_app_list_events w = Some ((r, out), w') ->
      (r < 0 /\ out = None) \/
      (exists events, out = Some events /\
                      r = Z.of_nat (List.length events))).

(** What [ust_app_list_event_fields] does about errors. *)
Definition list_event_fields_error_handling : Prop :=
  (forall app rest nbmem buf w,
      app_compatible app <> 0 ->
      env_ret (w_log w) (c_ustctl_tracepoint_field_list (app_sock app)) < 0 ->
      list_event_fields_apps (app :: rest) nbmem buf w
      = list_event_fields_apps rest nbmem buf
          (set_w_log (w_log w ++ [c_ustctl_tracepoint_field_list
                                    (app_sock app)]) w)) /\
  (forall app handle r uiter answers nbmem buf w,
      r < 0 -> r <> - LTTNG_UST_ERR_NOENT ->
      tracepoint_field_list_get_loop app handle ((r, uiter) :: answers)
        nbmem buf w
      = Some (inl r,
              set_w_log (w_log w ++ [c_ustctl_tracepoint_field_list_get
                                       (app_sock app) handle]) w)) /\
  (forall app handle r uiter answers nbmem buf w,
      0 <= r -> nbmem <= Z.of_nat (List.length buf) ->
      let w1 := set_w_allocs (S (w_allocs w))
                  (set_w_log (w_log w ++ [c_ustctl_tracepoint_field_list_get
                                            (app_sock app) handle]) w) in
      tracepoint_field_list_get_loop app handle ((r, uiter) :: answers)
        nbmem buf w
      = if env_zmalloc (w_allocs w)
        then tracepoint_field_list_get_loop app handle answers (2 * nbmem)
               (buf ++ [field_of_iter app uiter]) w1
        else Some (inl (- ENOMEM), w1)) /\
  (* the whole listing, when the first allocation fails *)
  (forall w,
      env_zmalloc (w_allocs w) = false ->
      ust_app_list_event_fields w
      = Some ((- ENOMEM, None), set_w_allocs (S (w_allocs w)) w)) /\
  (* the whole listing, at an application whose listing handle cannot be
     obtained, the applications before it having been listed: it goes on
     with the next application, from the buffer as it is *)
  (forall w pre app rest nb1 buf1 w1,
      env_zmalloc (w_allocs w) = true ->
      registered_apps w = pre ++ app :: rest ->
      list_event_fields_apps pre UST_APP_EVENT_LIST_SIZE []
        (set_w_allocs (S (w_allocs w)) w) = Some (inr (nb1, buf1), w1) ->
      app_compatible app <> 0 ->
      env_ret (w_log w1) (c_ustctl_tracepoint_field_list (app_sock app)) < 0 ->
      ust_app_list_event_fields w
      = list_event_fields_outcome
          (list_event_fields_apps rest nb1 buf1
             (set_w_log
                (w_log w1 ++ [c_ustctl_tracepoint_field_list (app_sock app)])
                w1))) /\
  (* the whole listing, at an application whose entries cannot all be
     read or recorded: it fails with the code of the inner loop, hands
     out no buffer, and asks nothing of the applications after it *)
  (forall w pre app rest nb1 buf1 w1 e w2,
      env_zmalloc (w_allocs w) = true ->
      registered_apps w = pre ++ app :: rest ->
      list_event_fields_apps pre UST_APP_EVENT_LIST_SIZE []
        (set_w_allocs (S (w_allocs w)) w) = Some (inr (nb1, buf1), w1) ->
      app_compatible app <> 0 ->
      0 <= env_ret (w_log w1) (c_ustctl_tracepoint_field_list (app_sock app)) ->
      tracepoint_field_list_get_loop app
        (env_ret (w_log w1) (c_ustctl_tracepoint_field_list (app_sock app)))
        (env_fields (w_log w1)) nb1 buf1
        (set_w_log (w_log w1 ++ [c_ustctl_tracepoint_field_list (app_sock app)])
           w1)
      = Some (inl e, w2) ->
      ust_app_list_event_fields w = Some ((e, None), w2)) /\
  (* the whole listing, memory never running out, at an application one
     of whose entries cannot be read, the ones before it having been
     read: it fails with the code of that entry after that read *)
  (forall w pre app rest nb1 buf1 w1 good r uiter more,
      (forall n, env_zmalloc n = true) ->
      registered_apps w = pre ++ app :: rest ->
      list_event_fields_apps pre UST_APP_EVENT_LIST_SIZE []
        (set_w_allocs (S (w_allocs w)) w) = Some (inr (nb1, buf1), w1) ->
      app_compatible app <> 0 ->
      0 <= env_ret (w_log w1) (c_ustctl_tracepoint_field_list (app_sock app)) ->
      env_fields (w_log w1) = good ++ (r, uiter) :: more ->
      Forall (fun a => 0 <= fst a) good ->
      r < 0 -> r <> - LTTNG_UST_ERR_NOENT ->
      exists w',
        ust_app_list_event_fields w = Some ((r, None), w') /\
        w_log w'
        = w_log w1
          ++ c_ustctl_tracepoint_field_list (app_sock app)
             :: repeat (c_ustctl_tracepoint_field_list_get (app_sock app)
                          (env_ret (w_log w1)
                             (c_ustctl_tracepoint_field_list (app_sock app))))
                  (S (List.length good))) /\
  (* the whole listing fails for these reasons only: an allocation that
     failed, or an entry that could not be read; never for a listing
     handle *)
  (forall w r out w',
      ust_app_list_event_fields w = Some ((r, out), w') -> r < 0 ->
      out = None /\
      ((r = - ENOMEM /\ exists n, env_zmalloc n = false) \/
       (r <> - LTTNG_UST_ERR_NOENT /\
        exists log uiter, In (r, uiter) (env_fields log)))) /\
  (forall w r out w',
      ust_app_list_event_fields w = Some ((r, out), w') ->
      (r < 0 /\ out = None) \/
      (exists fields, out = Some fields /\
                      r = Z.of_nat (List.length fields))).

Lemma list_events_error_handling_holds : list_events_error_handling.
Proof.
  cbv delta [list_events_error_handling].
  repeat match goal with |- _ /\ _ => split end.
  - intros app rest nbmem buf w Hc Hneg.
    cbn [list_events_apps]. apply Z.eqb_neq in Hc. rewrite Hc. run.
    apply Z.ltb_lt in Hneg. now rewrite Hneg.
  - intros app handle r uiter answers nbmem buf w Hneg Hne.
    cbn [tracepoint_list_get_loop]. run.
    apply Z.eqb_neq in Hne. rewrite Hne.
    apply Z.ltb_lt in Hneg. now rewrite Hneg.
  - intros app handle r uiter answers nbmem buf w Hpos Hfull w1.
    cbn [tracepoint_list_get_loop]. run.
    assert (Hne : (r =? - LTTNG_UST_ERR_NOENT) = false)
      by (apply Z.eqb_neq; unfold LTTNG_UST_ERR_NOENT; lia).
    rewrite Hne. apply Z.ltb_ge in Hpos. rewrite Hpos.
    assert (Hge : (Z.of_nat (List.length buf) >=? nbmem) = true)
      by (apply Z.geb_le; lia).
    rewrite Hge. run.
    destruct (env_zmalloc (w_allocs w)); reflexivity.
  - intros w Hm. unfold ust_app_list_events. run. now rewrite Hm.
  - exact ust_app_list_events_handle.
  - exact ust_app_list_events_entries.
  - intros w pre app rest nb1 buf1 w1 good r uiter more Hm Hreg Hpre Hc
      Hpos Hans Hgood Hneg Hne.
    destruct (tracepoint_list_get_loop_fails app
                (env_ret (w_log w1) (c_ustctl_tracepoint_list (app_sock app)))
                good r uiter more nb1 buf1
                (set_w_log
                   (w_log w1 ++ [c_ustctl_tracepoint_list (app_sock app)])
                   w1) Hm Hgood Hneg Hne) as (w' & Hloop & Hlog).
    exists w'. split.
    + eapply ust_app_list_events_entries; eauto. now rewrite Hans.
    + rewrite Hlog. cbn [w_log set_w_log]. now rewrite <- app_assoc.
  - intros w r out w' H Hneg. unfold ust_app_list_events in H. run in H.
    destruct (env_zmalloc (w_allocs w)) eqn:Hm; cbn [negb] in H.
    + destruct (list_events_apps _ _ _ _) as [[[e|[nb events]] w1]|] eqn:Hl;
        [| |discriminate]; injection H as <- <- <-.
      * split; [reflexivity|]. eapply list_events_apps_cause. exact Hl.
      * lia.
    + injection H as <- <- <-. split; [reflexivity|]. left. eauto.
  - intros w r out w' H. unfold ust_app_list_events in H. run in H.
    destruct (env_zmalloc (w_allocs w)); cbn [negb] in H.
    + destruct (list_events_apps _ _ _ _) as [[[e|[nb events]] w1]|] eqn:Hl;
        [| |discriminate]; injection H as <- <- <-.
      * left. split; [|reflexivity].
        eapply list_events_apps_negative. exact Hl.
      * right. now exists events.
    + injection H as <- <- <-. left. split; [unfold ENOMEM; lia|reflexivity].
Qed.

Lemma list_event_fields_error_handling_holds :
  list_event_fields_error_handling.
Proof.
  cbv delta [list_event_fields_error_handling].
  repeat match goal with |- _ /\ _ => split end.
  - intros app rest nbmem buf w Hc Hneg.
    cbn [list_event_fields_apps]. apply Z.eqb_neq in Hc. rewrite Hc. run.
    apply Z.ltb_lt in Hneg. now rewrite Hneg.
  - intros app handle r uiter answers nbmem buf w Hneg Hne.
    cbn [tracepoint_field_list_get_loop]. run.
    apply Z.eqb_neq in Hne. rewrite Hne.
    apply Z.ltb_lt in Hneg. now rewrite Hneg.
  - intros app handle r uiter answers nbmem buf w Hpos Hfull w1.
    cbn [tracepoint_field_list_get_loop]. run.
    assert (Hne : (r =? - LTTNG_UST_ERR_NOENT) = false)
      by (apply Z.eqb_neq; unfold LTTNG_UST_ERR_NOENT; lia).
    rewrite Hne. apply Z.ltb_ge in Hpos. rewrite Hpos.
    assert (Hge : (Z.of_nat (List.length buf) >=? nbmem) = true)
      by (apply Z.geb_le; lia).
    rewrite Hge. run.
    destruct (env_zmalloc (w_allocs w)); reflexivity.
  - intros w Hm. unfold ust_app_list_event_fields. run. now rewrite Hm.
  - exact ust_app_list_event_fields_handle.
  - exact ust_app_list_event_fields_entries.
  - intros w pre app rest nb1 buf1 w1 good r uiter more Hm Hreg Hpre Hc
      Hpos Hans Hgood Hneg Hne.
    destruct (tracepoint_field_list_get_loop_fails app
                (env_ret (w_log w1) (c_ustctl_tracepoint_field_list (app_sock app)))
                good r uiter more nb1 buf1
                (set_w_log
                   (w_log w1 ++ [c_ustctl_tracepoint_field_list (app_sock app)])
                   w1) Hm Hgood Hneg Hne) as (w' & Hloop & Hlog).
    exists w'. split.
    + eapply ust_app_list_event_fields_entries; eauto. now rewrite Hans.
    + rewrite Hlog. cbn [w_log set_w_log]. now rewrite <- app_assoc.
  - intros w r out w' H Hneg. unfold ust_app_list_event_fields in H. run in H.
    destruct (env_zmalloc (w_allocs w)) eqn:Hm; cbn [negb] in H.
    + destruct (list_event_fields_apps _ _ _ _) as [[[e|[nb events]] w1]|] eqn:Hl;
        [| |discriminate]; injection H as <- <- <-.
      * split; [reflexivity|]. eapply list_event_fields_apps_cause. exact Hl.
      * lia.
    + injection H as <- <- <-. split; [reflexivity|]. left. eauto.
  - intros w r out w' H. unfold ust_app_list_event_fields in H. run in H.
    destruct (env_zmalloc (w_allocs w)); cbn [negb] in H.
    + destruct (list_event_fields_apps _ _ _ _)
        as [[[e|[nb fields]] w1]|] eqn:Hl;
        [| |discriminate]; injection H as <- <- <-.
      * left. split; [|reflexivity].
        eapply list_event_fields_apps_negative. exact Hl.
      * right. now exists fields.
    + injection H as <- <- <-. left. split; [unfold ENOMEM; lia|reflexivity].
Qed.

(** C8, as amended.  Both enumeration operations tolerate a failure of the
    per-application listing-handle call, app-vanished or other, by
    continuing with the next application; a failure of the per-entry call
    other than NOENT, app-vanished included, fails the whole listing with
    that code; when the buffer is full it is doubled, and when that
    allocation fails the listing fails with -ENOMEM; a listing that fails
    hands out no buffer.  For the loops, and for the two operations as a
    whole: at an application whose handle cannot be obtained the listing
    goes on with the next one from the same buffer; at an application
    whose entries fail it returns the code of that failure, no buffer,
    and asks nothing of the applications after it; and a failure of the
    whole listing never has another cause than an allocation or an
    entry. *)
Theorem enumeration_error_handling :
  list_events_error_handling /\ list_event_fields_error_handling.
Proof.
  split.
  - exact list_events_error_handling_holds.
  - exact list_event_fields_error_handling_holds.
Qed.

End Enumeration.

(** Counterexample to C8 as written: one compatible application, no
    shortage of memory, and the application vanishes while its first
    tracepoint is read; the whole listing fails with -EPIPE. *)
Lemma list_events_tolerates_app_vanished_counterexample :
  ~ list_events_tolerates_app_vanished.
Proof.
  intros H.
  destruct (ust_app_list_events (E := env_list_get_epipe) world_one_app)
    as [[[r out] w']|] eqn:Hrun; [|vm_compute in Hrun; discriminate].
  assert (Hr : r = - EPIPE).
  { pose proof Hrun as Hc. vm_compute in Hc. now injection Hc as <- _ _. }
  specialize (H env_list_get_epipe world_one_app w' r out).
  assert (Hpos : 0 <= r).
  { apply H.
    - reflexivity.
    - intros log c Hneg. cbn in Hneg. unfold all_ok in Hneg. lia.
    - intros log r0 uiter [Hin|[]] _. injection Hin as <- _. reflexivity.
    - exact Hrun. }
  subst r. vm_compute in Hpos. now apply Hpos.
Qed.

Lemma enumeration_error_handling_witness :
  (exists w',
      ust_app_list_events (E := env_list_handle_epipe) world_one_app
      = Some ((0, Some []), w') /\
      w_log w' = [c_ustctl_tracepoint_list 7]) /\
  (exists w',
      ust_app_list_events (E := env_list_get_epipe) world_one_app
      = Some ((- EPIPE, None), w') /\
      w_log w' = [c_ustctl_tracepoint_list 7;
                  c_ustctl_tracepoint_list_get 7 0]).
Proof.
  split.
  - destruct (enumeration_error_handling (E := env_list_handle_epipe))
      as [(_ & _ & _ & _ & Hhandle & _) _].
    eexists. split.
    + apply (Hhandle world_one_app [] app_100 [] 2 []
               (set_w_allocs 1 world_one_app)).
      * reflexivity.
      * vm_compute. reflexivity.
      * reflexivity.
      * discriminate.
      * vm_compute. reflexivity.
    + reflexivity.
  - destruct (enumeration_error_handling (E := env_list_get_epipe))
      as [(_ & _ & _ & _ & _ & _ & Hentry & _) _].
    destruct (Hentry world_one_app [] app_100 [] 2 []
                (set_w_allocs 1 world_one_app) [] (- EPIPE) tptest [])
      as (w' & Hrun & Hlog).
    + reflexivity.
    + vm_compute. reflexivity.
    + reflexivity.
    + discriminate.
    + vm_compute. discriminate.
    + reflexivity.
    + constructor.
    + vm_compute. reflexivity.
    + vm_compute. discriminate.
    + exists w'. split; [exact Hrun|]. rewrite Hlog. reflexivity.
Defined.

(** ** The shadow copy of a session, run twice (C2) *)

(** A name held, with its terminator, by a
    [char[LTTNG_UST_SYM_NAME_LEN]] array. *)
Definition name_terminated (s : string) : Prop :=
  (String.length s < LTTNG_UST_SYM_NAME_LEN)%nat.

(** The idempotence sentence of the specification, as written: a second
    run of [shadow_copy_session] over the result of the first, whatever
    the clock reads by then, yields the session of the first run, trace
    path included.  Allocations are taken to succeed and channel names to
    be terminated within their arrays. *)
Definition shadow_copy_session_idempotent : Prop :=
  forall (E : environment) (usess : ltt_ust_session) (app : ust_app)
         (ua_sess ua1 ua2 : ust_app_session) (w w1 w2 : world) (t : Z),
    (forall n, env_zmalloc n = true) ->
    Forall (fun u => name_terminated (uchan_name u))
      (usess_channels usess) ->
    shadow_copy_session ua_sess usess app w = Some (ua1, w1) ->
    shadow_copy_session ua1 usess app (set_w_rawtime t w1)
    = Some (ua2, w2) ->
    ua2 = ua1.

(** The session with another trace path. *)
Definition set_s_path (path : string) (s : ust_app_session)
    : ust_app_session :=
  set_s_ids (s_id s) (s_uid s) (s_gid s) path s.

Section ShadowTwice.
Context `{E : environment}.

Lemma strncpy_term_terminated name :
  name_terminated name -> strncpy_term name LTTNG_UST_SYM_NAME_LEN = name.
Proof.
  unfold name_terminated, strncpy_term. intros H.
  apply string_prefix_all. lia.
Qed.

Lemma shadow_copy_channel_name ua_chan uchan w c w' :
  shadow_copy_channel ua_chan uchan w = Some (c, w') ->
  ch_name c = strncpy_term (uchan_name uchan) LTTNG_UST_SYM_NAME_LEN.
Proof.
  unfold shadow_copy_channel. intros H.
  minv H. minv H. minv H. reflexivity.
Qed.

(** Once a name is in the table it stays there. *)
Lemma shadow_copy_channels_keeps channels uchans w channels' w' name :
  shadow_copy_channels channels uchans w = Some (channels', w') ->
  lookup_channel channels name <> None ->
  lookup_channel channels' name <> None.
Proof.
  revert channels w.
  induction uchans as [|uchan rest IH]; intros channels w H Hin.
  - cbn in H. injection H as <- _. exact Hin.
  - cbn [shadow_copy_channels] in H.
    destruct (lookup_channel channels (uchan_name uchan)) eqn:Hl.
    + eapply IH; eassumption.
    + minv H. destruct a as [ua_chan|]; [|eapply IH; eassumption].
      minv H. minv H. unfold add_unique_channel in H2. minv H2.
      minv H2. eapply IH; [exact H|].
      unfold lookup_channel. cbn [find].
      destruct (String.eqb _ name); [discriminate|exact Hin].
Qed.

(** With memory to spare, every channel of the global session has its
    shadow after the loop. *)
Lemma shadow_copy_channels_covers channels uchans w channels' w' :
  (forall n, env_zmalloc n = true) ->
  Forall (fun u => name_terminated (uchan_name u)) uchans ->
  shadow_copy_channels channels uchans w = Some (channels', w') ->
  Forall (fun u => lookup_channel channels' (uchan_name u) <> None) uchans.
Proof.
  intros Hmem Hnames. revert channels w.
  induction Hnames as [|uchan rest Hname Hrest IH]; intros channels w H.
  - constructor.
  - cbn [shadow_copy_channels] in H.
    destruct (lookup_channel channels (uchan_name uchan)) eqn:Hl.
    + constructor; [|eapply IH; exact H].
      eapply shadow_copy_channels_keeps; [exact H|]. now rewrite Hl.
    + minv H. unfold alloc_ust_app_channel in H0. run in H0.
      rewrite Hmem in H0. cbn [negb] in H0. injection H0 as <- <-.
      minv H. minv H. apply shadow_copy_channel_name in H0.
      rewrite (strncpy_term_terminated _ Hname) in H0.
      unfold add_unique_channel in H1. minv H1. minv H1.
      constructor; [|eapply IH; exact H].
      eapply shadow_copy_channels_keeps; [exact H|].
      unfold lookup_channel. cbn [find].
      cbn [set_ch_attr_type set_ch_shadow ch_name]. rewrite H0.
      now rewrite String.eqb_refl.
Qed.

(** Over a table that has them all, the loop does nothing. *)
Lemma shadow_copy_channels_present channels uchans w :
  Forall (fun u => lookup_channel channels (uchan_name u) <> None) uchans ->
  shadow_copy_channels channels uchans w = Some (channels, w).
Proof.
  induction 1 as [|uchan rest Hin Hrest IH]; [reflexivity|].
  cbn [shadow_copy_channels].
  destruct (lookup_channel channels (uchan_name uchan));
    [exact IH|contradiction].
Qed.

(** C2, as amended.  When the first run of [shadow_copy_session] had
    memory for every channel, a second run over its result changes
    nothing in the daemon and yields the same session, channels with their
    attributes, contexts and events included, but for the trace path,
    which is stamped again with the time of the second run; the result is
    the very same session when the clock renders both times alike. *)
Theorem shadow_copy_session_twice
    (usess : ltt_ust_session) (app : ust_app)
    (ua_sess ua1 : ust_app_session) (w w1 w2 : world) :
  (forall n, env_zmalloc n = true) ->
  Forall (fun u => name_terminated (uchan_name u)) (usess_channels usess) ->
  shadow_copy_session ua_sess usess app w = Some (ua1, w1) ->
  shadow_copy_session ua1 usess app w2
  = Some (set_s_path (snprintf_path (app_name app) (app_pid app)
                        (env_datetime (w_rawtime w2))) ua1, w2) /\
  (env_datetime (w_rawtime w2) = env_datetime (w_rawtime w) ->
   shadow_copy_session ua1 usess app w2 = Some (ua1, w2)).
Proof.
  intros Hmem Hnames H1.
  unfold shadow_copy_session in H1. run in H1.
  cbn [set_s_ids s_channels] in H1.
  destruct (shadow_copy_channels _ _ _) as [[channels w1']|] eqn:Hrun;
    [|discriminate].
  injection H1 as <- <-.
  pose proof (shadow_copy_channels_covers _ _ _ _ _ Hmem Hnames Hrun)
    as Hall.
  assert (Hsecond :
    shadow_copy_session
      (set_s_channels channels
         (set_s_ids (usess_id usess) (usess_uid usess) (usess_gid usess)
            (snprintf_path (app_name app) (app_pid app)
               (env_datetime (w_rawtime w))) ua_sess)) usess app w2
    = Some (set_s_path (snprintf_path (app_name app) (app_pid app)
                          (env_datetime (w_rawtime w2)))
              (set_s_channels channels
                 (set_s_ids (usess_id usess) (usess_uid usess)
                    (usess_gid usess)
                    (snprintf_path (app_name app) (app_pid app)
                       (env_datetime (w_rawtime w))) ua_sess)), w2)).
  { unfold shadow_copy_session. run.
    cbn [set_s_ids set_s_channels s_channels].
    rewrite (shadow_copy_channels_present _ _ _ Hall). reflexivity. }
  split; [exact Hsecond|].
  intros Htime. rewrite Hsecond. unfold set_s_path. rewrite Htime.
  reflexivity.
Qed.

End ShadowTwice.

(** Counterexample to C2 as written: the shadow of [usess_chan0] is made
    at second 0 and made again at second 1; the trace path of the second
    result carries the later time. *)
Lemma shadow_copy_session_idempotent_counterexample :
  ~ shadow_copy_session_idempotent.
Proof.
  intros H.
  destruct (shadow_copy_session (E := env_clock) blank_session usess_chan0
              app_100 (boot_world (- EINVAL) 5))
    as [[ua1 w1]|] eqn:H1; [|vm_compute in H1; discriminate].
  destruct (shadow_copy_session (E := env_clock) ua1 usess_chan0 app_100
              (set_w_rawtime 1 w1))
    as [[ua2 w2]|] eqn:H2.
  - assert (Heq : ua2 = ua1).
    { apply (H env_clock usess_chan0 app_100 blank_session ua1 ua2
               (boot_world (- EINVAL) 5) w1 w2 1); try assumption.
      - reflexivity.
      - repeat constructor. }
    subst ua2. vm_compute in H1. injection H1 as <- <-.
    vm_compute in H2. discriminate.
  - vm_compute in H1. injection H1 as <- <-. vm_compute in H2.
    discriminate.
Qed.

Lemma shadow_copy_session_twice_witness :
  exists ua1 w1,
    shadow_copy_session (E := env_clock) blank_session usess_chan0 app_100
      (boot_world (- EINVAL) 5) = Some (ua1, w1) /\
    List.length (s_channels ua1) = 1%nat /\
    shadow_copy_session (E := env_clock) ua1 usess_chan0 app_100
      (set_w_rawtime 1 w1)
    = Some (set_s_path "hello-100-20130401-120001/" ua1,
            set_w_rawtime 1 w1).
Proof.
  destruct (shadow_copy_session (E := env_clock) blank_session usess_chan0
              app_100 (boot_world (- EINVAL) 5))
    as [[ua1 w1]|] eqn:H1; [|vm_compute in H1; discriminate].
  exists ua1, w1. split; [reflexivity|]. split.
  - vm_compute in H1. now injection H1 as <- <-.
  - apply (shadow_copy_session_twice (E := env_clock) usess_chan0 app_100
             blank_session ua1 (boot_world (- EINVAL) 5) w1
             (set_w_rawtime 1 w1)).
    + reflexivity.
    + repeat constructor.
    + exact H1.
Defined.

(** ** A started session has its metadata channel, sent (C3) *)

(** What every operation keeps true of a session: a metadata channel is
    recorded only once it has been sent, and a session is started only
    once its metadata channel is recorded. *)
Definition session_ok (s : ust_app_session) : Prop :=
  (forall m, s_metadata s = Some m -> ch_is_sent m <> 0) /\
  (s_started s <> 0 -> s_metadata s <> None).

(** The sessions of an application, those waiting for teardown
    included. *)
Definition app_ok (app : ust_app) : Prop :=
  Forall session_ok (app_sessions app) /\
  Forall session_ok (app_teardown_head app).

(** Invert a computation down to its returns. *)
Ltac minv_all H := repeat (minv H; try discriminate).

(** A return code known to be negative and non-negative at once. *)
Ltac negative :=
  exfalso;
  repeat match goal with
         | H : (_ <? 0) = true |- _ => apply Z.ltb_lt in H
         | H : (_ <? 0) = false |- _ => apply Z.ltb_ge in H
         end;
  unfold ENOMEM, ENOTCONN in *; lia.

Ltac nonneg :=
  match goal with
  | H : (?x <? 0) = false |- 0 <= ?x => now apply Z.ltb_ge
  end.

Lemma store_session_ok l s :
  Forall session_ok l -> session_ok s -> Forall session_ok (store_session l s).
Proof.
  intros Hl Hs. induction Hl as [|x r Hx Hr IH]; cbn; [constructor|].
  destruct (s_id x =? s_id s); constructor; assumption.
Qed.

Lemma del_session_ok l id :
  Forall session_ok l -> Forall session_ok (del_session l id).
Proof.
  intros Hl. induction Hl as [|x r Hx Hr IH]; cbn; [constructor|].
  destruct (s_id x =? id); [assumption|constructor; assumption].
Qed.

Lemma lookup_session_ok l id s :
  Forall session_ok l -> lookup_session l id = Some s -> session_ok s.
Proof.
  intros Hl H. apply find_some in H as [Hin _].
  rewrite List.Forall_forall in Hl. now apply Hl.
Qed.

Lemma lookup_store_session l s x :
  lookup_session l (s_id s) = Some x ->
  lookup_session (store_session l s) (s_id s) = Some s.
Proof.
  unfold lookup_session. induction l as [|y r IH]; cbn; [discriminate|].
  destruct (s_id y =? s_id s) eqn:Hy; cbn.
  - intros _. now rewrite Z.eqb_refl.
  - rewrite Hy. exact IH.
Qed.

Section StartedInvariant.
Context `{E : environment}.

Lemma create_ust_channel_sent app ua_sess ua_chan consumer w r c w' :
  create_ust_channel app ua_sess ua_chan consumer w = Some ((r, c), w') ->
  0 <= r -> ch_is_sent c = 1.
Proof.
  unfold create_ust_channel.
  intros H Hr. minv_all H; try reflexivity; negative.
Qed.

Lemma create_ust_app_metadata_sent ua_sess app consumer w r s w' :
  create_ust_app_metadata ua_sess app consumer w = Some ((r, s), w') ->
  s_started s = s_started ua_sess /\
  s_id s = s_id ua_sess /\
  (r < 0 -> s = ua_sess) /\
  (0 <= r -> s_metadata s <> None) /\
  (s_metadata ua_sess = None ->
   forall m, s_metadata s = Some m -> 0 <= r /\ ch_is_sent m = 1) /\
  (s_metadata ua_sess <> None -> s = ua_sess).
Proof.
  unfold create_ust_app_metadata. intros H.
  destruct (s_metadata ua_sess) as [m0|] eqn:Hm.
  - minv H. rewrite Hm. repeat split; try congruence.
  - minv_all H.
    + repeat split; intros; try congruence; try negative.
    + cbn [set_s_metadata s_metadata s_started s_id].
      apply create_ust_channel_sent in H1; [|nonneg].
      repeat split; try congruence; try lia.
    + repeat split; intros; try congruence; try negative.
Qed.

Lemma session_ok_metadata ua_sess app consumer w r s w' :
  create_ust_app_metadata ua_sess app consumer w = Some ((r, s), w') ->
  session_ok ua_sess -> session_ok s.
Proof.
  intros H [Hsent Hstarted].
  apply create_ust_app_metadata_sent in H
    as (Hst & _ & _ & _ & Hnew & Hold).
  destruct (s_metadata ua_sess) as [m0|] eqn:Hm.
  - rewrite Hold by discriminate. rewrite <- Hm in *. now split.
  - split.
    + intros m Hs. destruct (Hnew eq_refl m Hs) as [_ ->]. discriminate.
    + rewrite Hst. intros Hne. now destruct (Hstarted Hne).
Qed.

Lemma session_ok_fields s s' :
  s_started s' = s_started s -> s_metadata s' = s_metadata s ->
  session_ok s -> session_ok s'.
Proof. unfold session_ok. intros -> ->. trivial. Qed.

Lemma alloc_ust_app_session_ok w s w' :
  alloc_ust_app_session w = Some (Some s, w') -> session_ok s.
Proof.
  unfold alloc_ust_app_session. intros H. minv_all H.
  split; [discriminate|]. intros Hs. now elim Hs.
Qed.

Lemma shadow_copy_session_ok ua_sess usess app w s w' :
  shadow_copy_session ua_sess usess app w = Some (s, w') ->
  session_ok ua_sess -> session_ok s.
Proof.
  unfold shadow_copy_session. intros H. minv_all H.
  now apply session_ok_fields.
Qed.

Lemma destroy_session_ok app ua_sess w app' w' :
  destroy_session app ua_sess w = Some (app', w') ->
  app_ok app -> app_ok app'.
Proof.
  unfold destroy_session. intros H [Hs Ht]. minv_all H; [|now split].
  split; [now apply del_session_ok|exact Ht].
Qed.

Lemma app_store_session_ok app s :
  app_ok app -> session_ok s -> app_ok (app_store_session app s).
Proof.
  intros [Hs Ht] H. split; [now apply store_session_ok|exact Ht].
Qed.

Lemma lookup_session_by_app_ok usess app s :
  app_ok app -> lookup_session_by_app usess app = Some s -> session_ok s.
Proof. intros [Hs _]. apply lookup_session_ok, Hs. Qed.

Lemma create_ust_app_session_ok usess app w r created app' w' :
  create_ust_app_session usess app w = Some ((r, created, app'), w') ->
  app_ok app -> app_ok app'.
Proof.
  unfold create_ust_app_session. intros H Hok.
  minv H. destruct a as [[ua_sess c]|]; [|now minv H].
  assert (Hsess : session_ok ua_sess).
  { destruct (lookup_session_by_app usess app) eqn:Hl.
    - minv H0. eapply lookup_session_by_app_ok; eassumption.
    - minv_all H0.
      eapply shadow_copy_session_ok; [eassumption|].
      eapply alloc_ust_app_session_ok; eassumption. }
  minv_all H; try assumption.
  unfold add_unique_session in H2. minv_all H2.
  destruct Hok as [Hs Ht]. split; [|exact Ht].
  constructor; [|exact Hs]. now apply (session_ok_fields ua_sess).
Qed.

Lemma create_ust_app_channel_ok ua_sess uchan app consumer type w r s w' :
  create_ust_app_channel ua_sess uchan app consumer type w
  = Some ((r, s), w') ->
  session_ok ua_sess -> session_ok s.
Proof.
  unfold create_ust_app_channel. intros H Hok.
  minv_all H; assumption.
Qed.

Lemma ust_app_start_trace_ok usess app w r app' w' :
  ust_app_start_trace usess app w = Some ((r, app'), w') ->
  app_ok app -> app_ok app'.
Proof.
  unfold ust_app_start_trace. intros H Hok.
  minv H; [now minv H|]. minv H; [|now minv H].
  pose proof (lookup_session_by_app_ok _ _ _ Hok Hx) as Hsess.
  minv H. destruct a as [r0 ua_sess].
  assert (Hsetup : session_ok ua_sess /\
                   (0 <= r0 -> s_metadata ua_sess <> None)).
  { minv H0.
    - minv H0. split; [exact Hsess|]. intros _.
      apply Hsess. now apply Z.eqb_neq, negb_true_iff.
    - minv H0. minv H0.
      + minv H0. split; [exact Hsess|]. intros Hr. exfalso.
        apply andb_prop in Hc1 as [Hlt _]. apply Z.ltb_lt in Hlt. lia.
      + split; [eapply session_ok_metadata; eassumption|].
        now apply create_ust_app_metadata_sent in H0
          as (_ & _ & _ & Hrec & _). }
  destruct Hsetup as [Hs Hmeta].
  minv_all H; try assumption.
  - now apply app_store_session_ok.
  - apply app_store_session_ok; [now apply app_store_session_ok|].
    destruct Hs as [Hsent _]. split; [exact Hsent|].
    intros _. apply Hmeta. nonneg.
Qed.

Lemma ust_app_create_channel_one_ok usess uchan app w r app' w' :
  ust_app_create_channel_one usess uchan app w = Some ((r, app'), w') ->
  app_ok app -> app_ok app'.
Proof.
  unfold ust_app_create_channel_one. intros H Hok.
  minv H; [now minv H|]. minv H. destruct a as [[r0 created] app0].
  apply create_ust_app_session_ok in H0; [|exact Hok].
  minv H; [now minv H|]. minv H; [|minv_all H].
  pose proof (lookup_session_by_app_ok _ _ _ H0 Hx) as Hsess.
  minv H. destruct a as [r1 ua_sess].
  apply create_ust_app_channel_ok in H1; [|exact Hsess].
  pose proof (app_store_session_ok _ _ H0 H1) as Hstored.
  minv_all H; [|exact Hstored].
  eapply destroy_session_ok; eassumption.
Qed.

Lemma ust_app_create_event_one_ok usess uchan uevent app w r app' w' :
  ust_app_create_event_one usess uchan uevent app w
  = Some ((r, app'), w') ->
  app_ok app -> app_ok app'.
Proof.
  unfold ust_app_create_event_one. intros H Hok.
  minv H; [now minv H|]. minv H; [|now minv H].
  pose proof (lookup_session_by_app_ok _ _ _ Hok Hx) as Hsess.
  minv_all H. apply app_store_session_ok; [exact Hok|].
  now apply (session_ok_fields u).
Qed.

Lemma destroy_trace_ok usess app w r app' w' :
  destroy_trace usess app w = Some ((r, app'), w') ->
  app_ok app -> app_ok app'.
Proof.
  unfold destroy_trace. intros H Hok.
  minv_all H; try assumption.
  eapply destroy_session_ok; eassumption.
Qed.

Lemma ust_app_global_update_one_ok usess app w app' w' :
  ust_app_global_update_one usess app w = Some (app', w') ->
  app_ok app -> app_ok app'.
Proof.
  unfold ust_app_global_update_one. intros H Hok.
  minv H; [now minv H|]. minv H. destruct a as [[r0 created] app0].
  apply create_ust_app_session_ok in H0; [|exact Hok].
  minv H; [now minv H|]. minv H; [|minv_all H].
  pose proof (lookup_session_by_app_ok _ _ _ H0 Hx) as Hsess.
  minv H. destruct a as [r1 channels].
  assert (Hstored : app_ok (app_store_session app0
                              (set_s_channels channels u))).
  { apply app_store_session_ok; [exact H0|].
    now apply (session_ok_fields u). }
  minv H; [eapply destroy_session_ok; eassumption|].
  minv H; [|now minv H].
  minv H. destruct a as [r2 app1].
  apply ust_app_start_trace_ok in H2; [|exact Hstored].
  minv_all H; try assumption.
  eapply destroy_session_ok; eassumption.
Qed.

Lemma ust_app_unregister_ok sock w w' addr app app' :
  ust_app_unregister sock w = Some (tt, w') ->
  w_apps w !! addr = Some app ->
  w_apps w' !! addr = Some app' ->
  app_ok app -> app_ok app'.
Proof.
  unfold ust_app_unregister. intros H Hbefore Hafter Hok. run in H.
  destruct (w_ust_app_ht_by_sock w !! sock) as [lta_addr|];
    [|injection H as <-; congruence].
  destruct (w_apps w !! lta_addr) as [lta|] eqn:Hlta; [|discriminate].
  injection H as <-. cbn [set_w_registry w_apps] in Hafter.
  destruct (decide (lta_addr = addr)) as [->|Hne].
  - rewrite lookup_insert_eq in Hafter. injection Hafter as <-.
    assert (lta = app) as -> by congruence.
    destruct Hok as [Hs Ht]. split; [constructor|].
    cbn [set_app_sessions app_teardown_head].
    apply Forall_app. split; [|exact Ht]. now apply Forall_rev.
  - rewrite lookup_insert_ne in Hafter by exact Hne. congruence.
Qed.

Lemma lookup_session_id l id s :
  lookup_session l id = Some s -> s_id s = id.
Proof.
  intros H. apply find_some in H as [_ H]. now apply Z.eqb_eq.
Qed.

Lemma lookup_app_store_session usess app s x :
  lookup_session_by_app usess app = Some x ->
  s_id s = usess_id usess ->
  lookup_session_by_app usess (app_store_session app s) = Some s.
Proof.
  unfold lookup_session_by_app, app_store_session.
  cbn [set_app_sessions app_sessions]. intros H Hid. rewrite <- Hid in *.
  eapply lookup_store_session. exact H.
Qed.

(** [ust_app_start_trace] turns a session that was not started into a
    started one only through a successful [create_ust_app_metadata]. *)
Lemma ust_app_start_trace_after_metadata usess app w r app' w' s s' :
  ust_app_start_trace usess app w = Some ((r, app'), w') ->
  lookup_session_by_app usess app = Some s -> s_started s = 0 ->
  lookup_session_by_app usess app' = Some s' -> s_started s' <> 0 ->
  exists w0 w1 r1 s1,
    create_ust_app_metadata s app (usess_consumer usess) w0
    = Some ((r1, s1), w1) /\
    0 <= r1 /\ s' = set_s_started 1 s1.
Proof.
  unfold ust_app_start_trace. intros H Hs Hzero Hs' Hone.
  rewrite Hs in H.
  minv H; [minv H; congruence|].
  rewrite Hzero in H. cbn [Z.eqb negb] in H.
  minv H. destruct a as [r0 s1].
  minv H; [minv H; congruence|].
  minv H0.
  minv H0; [minv H0; apply andb_prop in Hc1 as [Hlt _]; congruence|].
  pose proof H0 as Hmeta.
  apply create_ust_app_metadata_sent in Hmeta as (Hst & Hid & _).
  pose proof (lookup_session_id _ _ _ Hs) as Hsid.
  assert (Hl1 : lookup_session_by_app usess (app_store_session app s1)
                = Some s1).
  { eapply lookup_app_store_session; [exact Hs|congruence]. }
  minv_all H.
  - rewrite Hl1 in Hs'. injection Hs' as <-. congruence.
  - erewrite lookup_app_store_session in Hs'; [|exact Hl1|cbn; congruence].
    injection Hs' as <-. exists w1, w0, r0, s1.
    repeat split; [exact H0|nonneg].
Qed.

(** The operations on one application. *)
Inductive app_step : ust_app -> ust_app -> Prop :=
| step_create_channel usess uchan app w r app' w' :
    ust_app_create_channel_one usess uchan app w = Some ((r, app'), w') ->
    app_step app app'
| step_create_event usess uchan uevent app w r app' w' :
    ust_app_create_event_one usess uchan uevent app w
    = Some ((r, app'), w') ->
    app_step app app'
| step_global_update usess app w app' w' :
    ust_app_global_update_one usess app w = Some (app', w') ->
    app_step app app'
| step_start_trace usess app w r app' w' :
    ust_app_start_trace usess app w = Some ((r, app'), w') ->
    app_step app app'
| step_stop_trace usess app w r w' :
    ust_app_stop_trace usess app w = Some (r, w') ->
    app_step app app
| step_destroy_trace usess app w r app' w' :
    destroy_trace usess app w = Some ((r, app'), w') ->
    app_step app app'
| step_unregister sock w w' addr app app' :
    ust_app_unregister sock w = Some (tt, w') ->
    w_apps w !! addr = Some app ->
    w_apps w' !! addr = Some app' ->
    app_step app app'.

(** The states of an application: without a session, as
    [ust_app_register] makes it, then after any number of operations. *)
Inductive reachable : ust_app -> Prop :=
| reachable_registered app :
    app_sessions app = [] -> app_teardown_head app = [] -> reachable app
| reachable_step app app' :
    reachable app -> app_step app app' -> reachable app'.

Lemma app_step_ok app app' : app_step app app' -> app_ok app -> app_ok app'.
Proof.
  destruct 1; intros Hok;
    eauto using ust_app_create_channel_one_ok, ust_app_create_event_one_ok,
      ust_app_global_update_one_ok, ust_app_start_trace_ok,
      destroy_trace_ok, ust_app_unregister_ok.
Qed.

Lemma reachable_ok app : reachable app -> app_ok app.
Proof.
  induction 1 as [app Hs Ht|app app' _ IH Hstep].
  - unfold app_ok. rewrite Hs, Ht. split; constructor.
  - eapply app_step_ok; eassumption.
Qed.

(** C3.  In every state that an application reaches, each of its
    sessions, live or waiting for teardown, that is started has a
    metadata channel, and that channel is flagged as sent.  On the way
    there: a successful [create_ust_channel] hands back the channel with
    [is_sent] at 1; [create_ust_app_metadata] records in the session only
    a channel that [create_ust_channel] accepted, [is_sent] at 1; and
    [ust_app_start_trace] makes a session started only after a successful
    [create_ust_app_metadata]. *)
Theorem started_session_has_sent_metadata :
  (forall app ua_sess,
      reachable app ->
      In ua_sess (app_sessions app ++ app_teardown_head app) ->
      s_started ua_sess <> 0 ->
      exists metadata,
        s_metadata ua_sess = Some metadata /\ ch_is_sent metadata <> 0) /\
  (forall app ua_sess ua_chan consumer w r ua_chan' w',
      create_ust_channel app ua_sess ua_chan consumer w
      = Some ((r, ua_chan'), w') ->
      0 <= r -> ch_is_sent ua_chan' = 1) /\
  (forall ua_sess app consumer w r ua_sess' w' metadata,
      create_ust_app_metadata ua_sess app consumer w
      = Some ((r, ua_sess'), w') ->
      s_metadata ua_sess = None ->
      s_metadata ua_sess' = Some metadata ->
      0 <= r /\ ch_is_sent metadata = 1) /\
  (forall usess app w r app' w' ua_sess ua_sess',
      ust_app_start_trace usess app w = Some ((r, app'), w') ->
      lookup_session_by_app usess app = Some ua_sess ->
      s_started ua_sess = 0 ->
      lookup_session_by_app usess app' = Some ua_sess' ->
      s_started ua_sess' <> 0 ->
      exists w0 w1 r1 s1,
        create_ust_app_metadata ua_sess app (usess_consumer usess) w0
        = Some ((r1, s1), w1) /\
        0 <= r1 /\ ua_sess' = set_s_started 1 s1).
Proof.
  split; [|split; [|split]].
  - intros app ua_sess Hreach Hin Hstarted.
    apply reachable_ok in Hreach as [Hs Ht].
    assert (Hok : session_ok ua_sess).
    { apply in_app_or in Hin as [Hin|Hin];
        [rewrite List.Forall_forall in Hs; now apply Hs
        |rewrite List.Forall_forall in Ht; now apply Ht]. }
    destruct Hok as [Hsent Hmeta].
    destruct (s_metadata ua_sess) as [metadata|] eqn:Hm.
    + exists metadata. split; [reflexivity|]. now apply Hsent.
    + now elim (Hmeta Hstarted).
  - exact create_ust_channel_sent.
  - intros ua_sess app consumer w r ua_sess' w' metadata H Hnone Hsome.
    apply create_ust_app_metadata_sent in H as (_ & _ & _ & _ & Hnew & _).
    now apply Hnew.
  - exact ust_app_start_trace_after_metadata.
Qed.

End StartedInvariant.

Lemma started_session_has_sent_metadata_witness :
  exists app ua_sess,
    reachable (E := env_quiet) app /\
    head (app_sessions app) = Some ua_sess /\
    s_started ua_sess = 1 /\
    exists metadata,
      s_metadata ua_sess = Some metadata /\ ch_is_sent metadata <> 0.
Proof.
  destruct (ust_app_create_channel_one (E := env_quiet) usess_chan0 uchan_0
              app_100 (boot_world (- EINVAL) 5))
    as [[[r1 app1] w1]|] eqn:H1; [|vm_compute in H1; discriminate].
  destruct (ust_app_start_trace (E := env_quiet) usess_chan0 app1 w1)
    as [[[r2 app2] w2]|] eqn:H2;
    [|vm_compute in H1; injection H1 as <- <- <-; vm_compute in H2;
      discriminate].
  assert (Hreach : reachable (E := env_quiet) app2).
  { eapply reachable_step; [eapply reachable_step|].
    - apply (reachable_registered app_100); reflexivity.
    - eapply step_create_channel. exact H1.
    - eapply step_start_trace. exact H2. }
  pose proof H1 as C1. vm_compute in C1. injection C1 as <- <- <-.
  pose proof H2 as C2. vm_compute in C2. injection C2 as <- <- <-.
  eexists. eexists. split; [exact Hreach|].
  split; [reflexivity|]. split; [reflexivity|].
  apply (proj1 (started_session_has_sent_metadata (E := env_quiet)) _ _
           Hreach); [left; reflexivity|discriminate].
Defined.

(** * Further properties of the two files *)

(** ** What a computation sends out *)

(** Every call that a computation makes satisfies [P]. *)
Definition emits (P : call -> Prop) {A : Type} (m : M A) : Prop :=
  forall w a w', m w = Some (a, w') ->
    exists calls, w_log w' = w_log w ++ calls /\ Forall P calls.

Lemma emits_ret P {A : Type} (a : A) : emits P (ret a).
Proof.
  intros w a' w' H. injection H as _ <-. exists [].
  now rewrite app_nil_r.
Qed.

Lemma emits_bind P {A B : Type} (m : M A) (k : A -> M B) :
  emits P m -> (forall a, emits P (k a)) -> emits P (bind m k).
Proof.
  intros Hm Hk w b w' H. apply bind_Some in H as (a & w1 & H1 & H2).
  apply Hm in H1 as (c1 & E1 & F1). apply Hk in H2 as (c2 & E2 & F2).
  exists (c1 ++ c2). split; [now rewrite E2, E1, app_assoc|].
  apply Forall_app. now split.
Qed.

Lemma emits_assert P b : emits P (assert b).
Proof.
  intros w a w' H. unfold assert in H. destruct b; [|discriminate].
  injection H as _ <-. exists []. now rewrite app_nil_r.
Qed.

Lemma emits_get_world P : emits P get_world.
Proof.
  intros w a w' H. injection H as _ <-. exists []. now rewrite app_nil_r.
Qed.

Lemma emits_weaken (P Q : call -> Prop) {A : Type} (m : M A) :
  (forall c, P c -> Q c) -> emits P m -> emits Q m.
Proof.
  intros HPQ Hm w a w' H. apply Hm in H as (calls & Hlog & Hall).
  exists calls. split; [exact Hlog|].
  eapply List.Forall_impl; [exact HPQ|exact Hall].
Qed.

Lemma emits_for_each P {A : Type} (f : A -> M unit) l :
  (forall x, emits P (f x)) -> emits P (for_each f l).
Proof.
  intros Hf. induction l as [|x l IH]; simpl.
  - apply emits_ret.
  - apply emits_bind; [apply Hf | intros _; exact IH].
Qed.

Section Emission.
Context `{E : environment}.

Lemma emits_extcall (P : call -> Prop) c : P c -> emits P (extcall c).
Proof.
  intros HP w a w' H. injection H as _ <-. exists [c].
  split; [reflexivity|]. now constructor.
Qed.

Lemma emits_zmalloc P : emits P zmalloc.
Proof.
  intros w a w' H. injection H as _ <-. exists []. simpl.
  now rewrite app_nil_r.
Qed.

Lemma emits_get_next_channel_key P : emits P get_next_channel_key.
Proof.
  intros w a w' H. injection H as _ <-. exists []. simpl.
  now rewrite app_nil_r.
Qed.

Lemma emits_lttng_fd_get (P : call -> Prop) nr :
  P (c_lttng_fd_get nr) -> emits P (lttng_fd_get nr).
Proof.
  intros HP. apply emits_bind; [now apply emits_extcall|]. intros r.
  destruct (r <? 0); [apply emits_ret|].
  intros w a w' H. injection H as _ <-. exists []. simpl.
  now rewrite app_nil_r.
Qed.

Lemma emits_lttng_fd_put (P : call -> Prop) nr :
  P (c_lttng_fd_put nr) -> emits P (lttng_fd_put nr).
Proof.
  intros HP. apply emits_bind; [now apply emits_extcall|]. intros r.
  intros w a w' H. injection H as _ <-. exists []. simpl.
  now rewrite app_nil_r.
Qed.

End Emission.

(** Break a computation down along its binds and branches; what is left
    is to show [P] of each call. *)
Ltac step_emits :=
  repeat first
    [ apply emits_ret | apply emits_assert | apply emits_get_world
    | apply emits_zmalloc | apply emits_get_next_channel_key
    | apply emits_lttng_fd_put | apply emits_lttng_fd_get
    | apply emits_extcall
    | apply emits_for_each; intros ?
    | apply emits_bind; [|intros ?]
    | match goal with
      | |- emits _ (if ?c then _ else _) => destruct c
      | |- emits _ (match ?x with _ => _ end) => destruct x
      | |- emits _ (let (_, _) := ?x in _) => destruct x
      end ].

(** ** The kernel consumer: data channels and the session *)

Section KernelChannels.
Context `{E : environment}.
Variable LTTNG_OK : Z.

(** The ADD_CHANNEL message of a data channel. *)
Definition add_channel_call (sock : consumer_socket)
    (channel : ltt_kernel_channel) (session : ltt_kernel_session) : call :=
  c_consumer_send_channel (cs_fd sock)
    (msg_channel LTTNG_CONSUMER_ADD_CHANNEL
       {| cm_channel_key := kchan_fd channel;
          cm_session_id := ks_id session;
          cm_pathname := metadata_pathname session;
          cm_uid := ks_uid session; cm_gid := ks_gid session;
          cm_relayd_id := co_net_seq_index (ks_consumer session);
          cm_name := kchan_name channel;
          cm_nb_init_streams := kchan_stream_count channel;
          cm_output := kchan_output channel;
          cm_type := CONSUMER_CHANNEL_TYPE_DATA;
          cm_tracefile_size := kchan_tracefile_size channel;
          cm_tracefile_count := kchan_tracefile_count channel |}).

(** The ADD_STREAM message of a stream of a data channel, with its
    descriptor. *)
Definition add_stream_call (sock : consumer_socket)
    (channel : ltt_kernel_channel) (stream : ltt_kernel_stream) : call :=
  c_consumer_send_stream (cs_fd sock)
    (msg_stream LTTNG_CONSUMER_ADD_STREAM
       {| sm_channel_key := kchan_fd channel;
          sm_stream_key := kstream_fd stream;
          sm_cpu := kstream_cpu stream; sm_no_monitor := 0 |})
    [kstream_fd stream].

(** The streams that have a descriptor, as messages. *)
Definition stream_calls (sock : consumer_socket)
    (channel : ltt_kernel_channel) (streams : list ltt_kernel_stream)
    : list call :=
  map (add_stream_call sock channel)
    (List.filter (fun s => negb (kstream_fd s =? 0)) streams).


Lemma kernel_consumer_add_channel_run sock channel session w :
  exists r w',
    kernel_consumer_add_channel sock channel session w = Some (r, w') /\
    (metadata_setup_ok session w ->
     w_log w' = w_log w ++ metadata_setup_calls session
                ++ [add_channel_call sock channel session] /\
     r = env_ret (w_log w ++ metadata_setup_calls session)
           (add_channel_call sock channel session)) /\
    (~ metadata_setup_ok session w ->
     w_log w' = w_log w ++ metadata_setup_calls session /\ r < 0).
Proof.
  unfold kernel_consumer_add_channel, kernel_consumer_pathname,
    metadata_setup_ok, metadata_setup_calls, add_channel_call,
    metadata_pathname, consumer_init_channel_comm_msg.
  destruct (co_type (ks_consumer session)); run.
  - match goal with |- context [env_ret (w_log w) ?c] =>
      set (mkdir := c) in *; set (r0 := env_ret (w_log w) mkdir) in * end.
    destruct ((r0 <? 0) && negb (r0 =? - EEXIST)) eqn:Hr0; run.
    + apply andb_true_iff in Hr0 as [H1 H2].
      apply Z.ltb_lt in H1. apply negb_true_iff, Z.eqb_neq in H2.
      eexists _, _. split; [reflexivity|]. split.
      * intros Hok. exfalso. lia.
      * intros _. cbn [w_log set_w_log]. auto.
    + eexists _, _. split; [reflexivity|]. cbn [w_log set_w_log].
      rewrite <- app_assoc. split; [intros _; split; reflexivity|].
      intros Hbad. exfalso. apply Hbad.
      apply andb_false_iff in Hr0 as [H1|H2].
      * left. now apply Z.ltb_ge.
      * right. now apply negb_false_iff, Z.eqb_eq in H2.
  - rewrite !app_nil_r. cbn [Z.ltb Z.compare andb]. run.
    eexists _, _. split; [reflexivity|]. cbn [w_log set_w_log].
    split; [intros _; split; reflexivity|]. intros Hbad. now elim Hbad.
Qed.

Lemma metadata_setup_ok_dec session w :
  metadata_setup_ok session w \/ ~ metadata_setup_ok session w.
Proof.
  unfold metadata_setup_ok. destruct (co_type (ks_consumer session));
    [|now left].
  cbv zeta.
  destruct (Z.ltb_spec
              (env_ret (w_log w)
                 (c_run_as_mkdir_recursive (metadata_pathname session)
                    (ks_uid session) (ks_gid session))) 0) as [Hneg|Hpos];
    [|left; now left].
  destruct (Z.eq_dec
              (env_ret (w_log w)
                 (c_run_as_mkdir_recursive (metadata_pathname session)
                    (ks_uid session) (ks_gid session))) (- EEXIST))
    as [Heq|Hne]; [left; now right|].
  right. intros [H|H]; [lia|contradiction].
Qed.

(** The stream loop sends the messages of the streams one after the
    other: [n] of them go out, each but the last one sent was accepted,
    the result is the answer to the last one sent ([r0] when none was),
    and a result that is not negative means that all went out. *)
Lemma send_channel_streams_first_failure sock channel session streams r0 w :
  let calls := stream_calls sock channel streams in
  exists r w' n,
    send_channel_streams sock channel session streams r0 w = Some (r, w') /\
    w_log w' = w_log w ++ firstn n calls /\
    (n <= List.length calls)%nat /\
    (forall k c, (S k < n)%nat -> nth_error calls k = Some c ->
                 0 <= env_ret (w_log w ++ firstn k calls) c) /\
    (n = 0%nat -> r = r0) /\
    (forall c, nth_error calls (n - 1) = Some c -> (1 <= n)%nat ->
               r = env_ret (w_log w ++ firstn (n - 1) calls) c) /\
    (0 <= r -> n = List.length calls).
Proof.
  intros calls. subst calls. revert r0 w.
  induction streams as [|s rest IH]; intros r0 w.
  - exists r0, w, 0%nat. cbn. rewrite app_nil_r.
    split; [reflexivity|]. split; [reflexivity|]. split; [lia|].
    split; [intros; lia|]. split; [reflexivity|]. split; [intros; lia|].
    reflexivity.
  - cbn [send_channel_streams]. unfold stream_calls. cbn [List.filter].
    destruct (kstream_fd s =? 0) eqn:Hfd; cbn [negb]; [apply IH|].
    unfold kernel_consumer_add_stream, consumer_init_stream_comm_msg. run.
    fold (add_stream_call sock channel s). cbn [map].
    fold (stream_calls sock channel rest).
    set (c1 := add_stream_call sock channel s).
    set (r1 := env_ret (w_log w) c1).
    destruct (Z.ltb_spec r1 0) as [Hr1|Hr1].
    + eexists r1, _, 1%nat. split; [reflexivity|]. cbn [w_log set_w_log].
      split; [reflexivity|]. split; [cbn; lia|].
      split; [intros; lia|]. split; [intros; lia|]. split.
      * intros c Hc _. cbn in Hc. injection Hc as <-. cbn [firstn].
        now rewrite app_nil_r.
      * intros Hr. lia.
    + destruct (IH r1 (set_w_log (w_log w ++ [c1]) w))
        as (r & w' & n & Hrun & Hlog & Hle & Hacc & Hzero & Hlast & Hall).
      cbn [w_log set_w_log] in Hlog, Hacc, Hlast.
      exists r, w', (S n). split; [exact Hrun|]. split.
      { rewrite Hlog. cbn [firstn]. now rewrite <- app_assoc. }
      split; [cbn [List.length]; lia|]. split.
      { intros [|k] c Hk Hc.
        - cbn in Hc. injection Hc as <-. cbn [firstn].
          rewrite app_nil_r. exact Hr1.
        - cbn [nth_error] in Hc. cbn [firstn].
          replace (w_log w ++ c1 :: firstn k (stream_calls sock channel rest))
            with ((w_log w ++ [c1])
                  ++ firstn k (stream_calls sock channel rest))
            by now rewrite <- app_assoc.
          apply Hacc; [lia|exact Hc]. }
      split; [intros; lia|]. split.
      { intros c Hc _. destruct n as [|n'].
        - cbn in Hc. injection Hc as <-. cbn [firstn].
          rewrite app_nil_r. now apply Hzero.
        - replace (S (S n') - 1)%nat with (S n') in * by lia.
          cbn [nth_error] in Hc. cbn [firstn].
          replace (w_log w
                   ++ c1 :: firstn n' (stream_calls sock channel rest))
            with ((w_log w ++ [c1])
                  ++ firstn n' (stream_calls sock channel rest))
            by now rewrite <- app_assoc.
          replace n' with (S n' - 1)%nat by lia.
          apply Hlast; [|lia].
          now replace (S n' - 1)%nat with n' by lia. }
      intros Hr. cbn [List.length]. f_equal. now apply Hall.
Qed.

(** The whole handoff of one channel, in the same terms. *)
Lemma kernel_consumer_send_channel_stream_run sock channel session w :
  co_enabled (ks_consumer session) <> 0 ->
  let setup := metadata_setup_calls session in
  let messages := add_channel_call sock channel session
                  :: stream_calls sock channel (kchan_stream_list channel) in
  exists r w' n,
    kernel_consumer_send_channel_stream LTTNG_OK sock channel session w
    = Some (r, w') /\
    w_log w' = w_log w ++ setup ++ firstn n messages /\
    (n <= List.length messages)%nat /\
    (forall k c, (S k < n)%nat -> nth_error messages k = Some c ->
                 0 <= env_ret (w_log w ++ setup ++ firstn k messages) c) /\
    (~ metadata_setup_ok session w -> n = 0%nat /\ r < 0) /\
    (metadata_setup_ok session w ->
     (1 <= n)%nat /\
     forall c, nth_error messages (n - 1) = Some c ->
               r = env_ret (w_log w ++ setup ++ firstn (n - 1) messages) c) /\
    (0 <= r -> n = List.length messages).
Proof.
  intros Henabled setup messages. subst setup messages.
  unfold kernel_consumer_send_channel_stream.
  apply Z.eqb_neq in Henabled. rewrite Henabled.
  destruct (kernel_consumer_add_channel_run sock channel session w)
    as (r0 & w0 & Hrun & Hok & Hbad).
  rewrite (bind_eq _ _ _ _ _ Hrun).
  set (setup := metadata_setup_calls session) in *.
  set (c0 := add_channel_call sock channel session) in *.
  set (calls := stream_calls sock channel (kchan_stream_list channel)).
  destruct (metadata_setup_ok_dec session w) as [Hsetup|Hsetup].
  2:{ destruct (Hbad Hsetup) as [Hlog Hneg].
      apply Z.ltb_lt in Hneg as Hlt. rewrite Hlt.
      exists r0, w0, 0%nat. split; [reflexivity|]. cbn [firstn].
      rewrite app_nil_r. split; [exact Hlog|]. split; [lia|].
      split; [intros; lia|]. split; [auto|].
      split; [intros; contradiction|]. intros; lia. }
  destruct (Hok Hsetup) as [Hlog Hr0]. clear Hok Hbad.
  destruct (Z.ltb_spec r0 0) as [Hneg|Hpos].
  - exists r0, w0, 1%nat. split; [reflexivity|]. cbn [firstn].
    split; [exact Hlog|]. split; [cbn; lia|]. split; [intros; lia|].
    split; [intros; contradiction|]. split.
    + intros _. split; [lia|]. intros c Hc. cbn in Hc.
      injection Hc as <-. now rewrite app_nil_r.
    + intros; lia.
  - destruct (send_channel_streams_first_failure sock channel session
                (kchan_stream_list channel) r0 w0)
      as (r & w' & n & Hloop & Hlog' & Hle & Hacc & Hzero & Hlast & Hall).
    fold calls in Hlog', Hle, Hacc, Hlast, Hall.
    assert (Hshift : forall l, w_log w0 ++ l = w_log w ++ setup ++ c0 :: l).
    { intros l. rewrite Hlog, <- !app_assoc. reflexivity. }
    exists r, w', (S n). split; [exact Hloop|]. split.
    { rewrite Hlog'. cbn [firstn]. apply Hshift. }
    split; [cbn [List.length]; lia|]. split.
    { intros [|k] c Hk Hc.
      - cbn in Hc. injection Hc as <-. cbn [firstn].
        rewrite app_nil_r, <- Hr0. exact Hpos.
      - cbn [nth_error] in Hc. cbn [firstn]. rewrite <- Hshift.
        apply Hacc; [lia|exact Hc]. }
    split; [intros; contradiction|]. split.
    { intros _. split; [lia|]. intros c Hc. destruct n as [|n'].
      - cbn in Hc. injection Hc as <-. cbn [firstn].
        rewrite app_nil_r, <- Hr0. now apply Hzero.
      - replace (S (S n') - 1)%nat with (S n') in * by lia.
        cbn [nth_error] in Hc. cbn [firstn]. rewrite <- Hshift.
        replace n' with (S n' - 1)%nat by lia.
        apply Hlast; [|lia].
        now replace (S n' - 1)%nat with n' by lia. }
    intros Hr. cbn [List.length]. f_equal. now apply Hall.
Qed.

(** [kernel_consumer_send_channel_stream] with an enabled consumer: the
    ADD_CHANNEL message goes first, then one ADD_STREAM message for each
    stream that has a descriptor, in the order of the stream list; a
    stream whose descriptor is 0 is never sent.  The first send that
    fails ends the handoff: of the messages, [n] go out, every one but
    the last one sent was accepted, and the result is the answer to the
    last one sent, so that a negative result is the answer to the first
    message refused and nothing follows it; a result that is not
    negative means that every message went out.  When the directory
    cannot be made nothing is sent at all. *)
Theorem kernel_consumer_send_channel_stream_order
    (sock : consumer_socket) (channel : ltt_kernel_channel)
    (session : ltt_kernel_session) (w : world) :
  co_enabled (ks_consumer session) <> 0 ->
  let setup := metadata_setup_calls session in
  let messages := add_channel_call sock channel session
                  :: stream_calls sock channel (kchan_stream_list channel) in
  exists r w' n,
    kernel_consumer_send_channel_stream LTTNG_OK sock channel session w
    = Some (r, w') /\
    w_log w' = w_log w ++ setup ++ firstn n messages /\
    (n <= List.length messages)%nat /\
    (forall k c, (S k < n)%nat -> nth_error messages k = Some c ->
                 0 <= env_ret (w_log w ++ setup ++ firstn k messages) c) /\
    (~ metadata_setup_ok session w -> n = 0%nat /\ r < 0) /\
    (metadata_setup_ok session w ->
     (1 <= n)%nat /\
     forall c, nth_error messages (n - 1) = Some c ->
               r = env_ret (w_log w ++ setup ++ firstn (n - 1) messages) c) /\
    (0 <= r -> n = List.length messages).
Proof.
  intros Henabled setup messages.
  destruct (kernel_consumer_send_channel_stream_run sock channel session w
              Henabled)
    as (r & w' & n & Hrun & Hlog & Hle & Hacc & Hbad & Hok & Hall).
  exists r, w', n. auto 10.
Qed.

Lemma kernel_consumer_add_metadata_run sock session w :
  exists r w', kernel_consumer_add_metadata sock session 0 w = Some (r, w').
Proof.
  unfold kernel_consumer_add_metadata, kernel_consumer_pathname.
  apply total_bind; [|intros [r pathname]]; step_total.
Qed.

Lemma send_session_channels_result sock session channels w :
  co_enabled (ks_consumer session) <> 0 ->
  exists r w',
    send_session_channels LTTNG_OK sock session channels w = Some (r, w') /\
    (r = 0 \/ r < 0).
Proof.
  intros Henabled. revert w.
  induction channels as [|chan rest IH]; intros w.
  - exists 0, w. split; [reflexivity|]. now left.
  - cbn [send_session_channels].
    destruct (kernel_consumer_send_channel_stream_run sock chan session w
                Henabled) as (r & w' & n & Hrun & _).
    rewrite (bind_eq _ _ _ _ _ Hrun).
    destruct (Z.ltb_spec r 0) as [Hneg|Hpos]; [|apply IH].
    exists r, w'. split; [reflexivity|]. now right.
Qed.

(** [kernel_consumer_send_session]: with a disabled consumer nothing is
    sent and the result is [LTTNG_OK]; otherwise the result is 0 or a
    negative code, the metadata goes first when the session has a
    metadata stream, a failure there leaves [consumer_fds_sent] as it
    was, and once the metadata went through [consumer_fds_sent] is 1
    whatever happens to the channels. *)
Theorem kernel_consumer_send_session_result
    (sock : consumer_socket) (session : ltt_kernel_session)
    (channel_list : list ltt_kernel_channel) (consumer_fds_sent : Z)
    (w : world) :
  exists r sent w',
    kernel_consumer_send_session LTTNG_OK sock session channel_list
      consumer_fds_sent w = Some ((r, sent), w') /\
    (co_enabled (ks_consumer session) = 0 ->
     r = LTTNG_OK /\ sent = consumer_fds_sent /\ w' = w) /\
    (co_enabled (ks_consumer session) <> 0 ->
     (r = 0 \/ r < 0) /\
     (ks_metadata_stream_fd session < 0 -> sent = consumer_fds_sent) /\
     (0 <= ks_metadata_stream_fd session ->
      forall r0 w0,
        kernel_consumer_add_metadata sock session 0 w = Some (r0, w0) ->
        (r0 < 0 -> r = r0 /\ sent = consumer_fds_sent /\ w' = w0) /\
        (0 <= r0 -> sent = 1))).
Proof.
  unfold kernel_consumer_send_session.
  destruct (Z.eqb_spec (co_enabled (ks_consumer session)) 0)
    as [Hoff|Hon].
  { exists LTTNG_OK, consumer_fds_sent, w. split; [reflexivity|].
    split; [auto|]. intros Hne. now elim Hne. }
  destruct (Z.geb_spec (ks_metadata_stream_fd session) 0) as [Hfd|Hfd].
  - destruct (kernel_consumer_add_metadata_run sock session w)
      as (r0 & w0 & Hmeta).
    rewrite (bind_eq _ _ _ _ _ Hmeta).
    destruct (Z.ltb_spec r0 0) as [Hneg|Hpos].
    + exists r0, consumer_fds_sent, w0. split; [reflexivity|].
      split; [intros Hoff; now elim Hon|]. intros _.
      split; [now right|]. split; [intros; lia|].
      intros _ r1 w1 Hrun. rewrite Hmeta in Hrun.
      injection Hrun as <- <-. split; [auto|]. intros; lia.
    + destruct (send_session_channels_result sock session channel_list w0
                  Hon) as (r & w' & Hrun & Hr).
      rewrite (bind_eq _ _ _ _ _ Hrun).
      exists r, 1, w'. split; [reflexivity|].
      split; [intros Hoff; now elim Hon|]. intros _.
      split; [exact Hr|]. split; [intros; lia|].
      intros _ r1 w1 Hrun1. rewrite Hmeta in Hrun1.
      injection Hrun1 as <- <-. split; [intros; lia|reflexivity].
  - destruct (send_session_channels_result sock session channel_list w Hon)
      as (r & w' & Hrun & Hr).
    rewrite (bind_eq _ _ _ _ _ Hrun).
    exists r, consumer_fds_sent, w'. split; [reflexivity|].
    split; [intros Hoff; now elim Hon|]. intros _.
    split; [exact Hr|]. split; [reflexivity|]. intros; lia.
Qed.

End KernelChannels.


Lemma kernel_consumer_send_channel_stream_order_witness :
  exists w',
    kernel_consumer_send_channel_stream (E := env_send_stream_fails)
      LTTNG_OK_10 {| cs_fd := 5 |} kchan_0 kernel_session_1
      (boot_world (- EINVAL) 5)
    = Some (-1, w') /\
    w_log w' =
      [c_run_as_mkdir_recursive "/tmp/trace/kernel" 0 0;
       add_channel_call {| cs_fd := 5 |} kchan_0 kernel_session_1;
       add_stream_call {| cs_fd := 5 |} kchan_0
         {| kstream_fd := 31; kstream_cpu := 0 |}].
Proof.
  destruct (kernel_consumer_send_channel_stream_order
              (E := env_send_stream_fails) LTTNG_OK_10 {| cs_fd := 5 |}
              kchan_0 kernel_session_1 (boot_world (- EINVAL) 5))
    as (r & w' & n & Hrun & Hlog & Hle & Hacc & _ & Hok & Hall);
    [discriminate|].
  destruct Hok as [Hn Hlast]; [left; vm_compute; discriminate|].
  assert (Hr : r = -1 /\ n = 2%nat).
  { destruct n as [|[|[|[|n]]]].
    - lia.
    - specialize (Hlast _ eq_refl). vm_compute in Hlast. subst r.
      specialize (Hall ltac:(discriminate)). discriminate.
    - specialize (Hlast _ eq_refl). vm_compute in Hlast. auto.
    - specialize (Hacc 1%nat _ ltac:(lia) eq_refl). vm_compute in Hacc.
      now elim Hacc.
    - cbn in Hle. lia. }
  destruct Hr as [-> ->]. exists w'. split; [exact Hrun|].
  rewrite Hlog. reflexivity.
Defined.

Lemma kernel_consumer_send_session_result_witness :
  exists w',
    kernel_consumer_send_session (E := env_send_stream_fails) LTTNG_OK_10
      {| cs_fd := 5 |} kernel_session_1 [kchan_0] 0
      (boot_world (- EINVAL) 5) = Some ((-1, 0), w').
Proof.
  destruct (kernel_consumer_send_session_result
              (E := env_send_stream_fails) LTTNG_OK_10 {| cs_fd := 5 |}
              kernel_session_1 [kchan_0] 0 (boot_world (- EINVAL) 5))
    as (r & sent & w' & Hrun & _ & Hon).
  destruct Hon as (_ & _ & Hmeta); [discriminate|].
  destruct (kernel_consumer_add_metadata (E := env_send_stream_fails)
              {| cs_fd := 5 |} kernel_session_1 0 (boot_world (- EINVAL) 5))
    as [[r0 w0]|] eqn:Hadd; [|vm_compute in Hadd; discriminate].
  destruct (Hmeta ltac:(discriminate) r0 w0 eq_refl) as [Hfail _].
  assert (Hr0 : r0 = -1)
    by (pose proof Hadd as C; vm_compute in C; now injection C as <- _).
  destruct Hfail as (-> & -> & ->); [lia|].
  exists w0. rewrite Hrun. now rewrite Hr0.
Defined.

(** ** Contexts, enabling and disabling on one application *)

Section AppOperationFacts.
Context `{E : environment}.

(** [create_ust_app_channel_context] refuses a kind that the channel
    already has with -EEXIST, touching nothing.  A new kind is put in the
    table of the channel before the tracer is asked and stays there when
    the tracer refuses: the result is the tracer's answer, and asking
    again gets -EEXIST without a call. *)
Theorem create_ust_app_channel_context_retry
    (ua_sess : ust_app_session) (ua_chan : ust_app_channel)
    (uctx : ltt_ust_context) (app : ust_app) (w : world) :
  (lookup_ctx (ch_ctx ua_chan) (uctx_kind uctx) <> None ->
   create_ust_app_channel_context ua_sess ua_chan uctx app w
   = Some ((- EEXIST, ua_chan), w)) /\
  (lookup_ctx (ch_ctx ua_chan) (uctx_kind uctx) = None ->
   env_zmalloc (w_allocs w) = true ->
   exists c w',
     create_ust_app_channel_context ua_sess ua_chan uctx app w
     = Some ((env_ret (w_log w)
                (c_ustctl_add_context (app_sock app) (uctx_kind uctx)
                   (ch_obj ua_chan)), c), w') /\
     w_log w' = w_log w ++ [c_ustctl_add_context (app_sock app)
                              (uctx_kind uctx) (ch_obj ua_chan)] /\
     forall w2,
       create_ust_app_channel_context ua_sess c uctx app w2
       = Some ((- EEXIST, c), w2)).
Proof.
  unfold create_ust_app_channel_context. split.
  - intros Hin. destruct (lookup_ctx _ _); [reflexivity|congruence].
  - intros Hnew Hmem. rewrite Hnew.
    unfold alloc_ust_app_ctx, add_unique_ctx, create_ust_channel_context.
    run. rewrite Hmem. cbn [negb]. run. cbn [ctx_kind].
    rewrite Hnew. cbn [is_null]. run.
    cbn [set_ch_ctx ch_obj ch_ctx store_first ctx_kind].
    rewrite Z.eqb_refl.
    set (r := env_ret (w_log w) _).
    destruct (r <? 0); run; eexists _, _;
      (split; [reflexivity|]); (split; [reflexivity|]); intros w2;
      cbn [ch_ctx set_ch_ctx lookup_ctx find ctx_kind];
      now rewrite Z.eqb_refl.
Qed.

Lemma lookup_channel_name l name c :
  lookup_channel l name = Some c -> ch_name c = name.
Proof.
  intros H. apply find_some in H as [_ H]. now apply String.eqb_eq.
Qed.

Lemma store_channel_same l c :
  lookup_channel l (ch_name c) = Some c -> store_channel l c = l.
Proof.
  unfold lookup_channel. induction l as [|x r IH]; cbn; [reflexivity|].
  destruct (String.eqb (ch_name x) (ch_name c)).
  - now intros [= ->].
  - intros H. now rewrite IH.
Qed.

Lemma lookup_store_channel l c x :
  lookup_channel l (ch_name c) = Some x ->
  lookup_channel (store_channel l c) (ch_name c) = Some c.
Proof.
  unfold lookup_channel. induction l as [|y r IH]; cbn; [discriminate|].
  destruct (String.eqb (ch_name y) (ch_name c)) eqn:Hy; cbn.
  - intros _. now rewrite String.eqb_refl.
  - rewrite Hy. exact IH.
Qed.

Lemma lookup_store_channel_ne l c name :
  name <> ch_name c ->
  lookup_channel (store_channel l c) name = lookup_channel l name.
Proof.
  intros Hne. unfold lookup_channel.
  induction l as [|y r IH]; cbn; [reflexivity|].
  destruct (String.eqb (ch_name y) (ch_name c)) eqn:Hy; cbn.
  - apply String.eqb_eq in Hy.
    assert (Hc : String.eqb (ch_name c) name = false)
      by (apply String.eqb_neq; congruence).
    assert (Hyn : String.eqb (ch_name y) name = false)
      by (apply String.eqb_neq; congruence).
    now rewrite Hc, Hyn.
  - destruct (String.eqb (ch_name y) name); [reflexivity|exact IH].
Qed.

(** [enable_ust_app_channel] on a channel that the session does not have
    reports success, 0, without a word to the tracer.  On a channel that
    it has, the tracer is asked once; a refusal leaves the session as it
    was, an acceptance flags that channel as enabled, and the other
    channels of the session are as before in both cases. *)
Theorem enable_ust_app_channel_lookup
    (ua_sess : ust_app_session) (uchan : ltt_ust_channel) (app : ust_app)
    (w : world) :
  (lookup_channel (s_channels ua_sess) (uchan_name uchan) = None ->
   enable_ust_app_channel ua_sess uchan app w = Some ((0, ua_sess), w)) /\
  (forall ua_chan,
      lookup_channel (s_channels ua_sess) (uchan_name uchan)
      = Some ua_chan ->
      let enable := c_ustctl_enable (app_sock app) (ch_obj ua_chan) in
      let r := env_ret (w_log w) enable in
      exists s,
        enable_ust_app_channel ua_sess uchan app w
        = Some ((r, s), set_w_log (w_log w ++ [enable]) w) /\
        (r < 0 -> s = ua_sess) /\
        (0 <= r ->
         lookup_channel (s_channels s) (uchan_name uchan)
         = Some (set_ch_enabled 1 ua_chan)) /\
        (forall name, name <> uchan_name uchan ->
                      lookup_channel (s_channels s) name
                      = lookup_channel (s_channels ua_sess) name)).
Proof.
  unfold enable_ust_app_channel. split.
  - intros ->. reflexivity.
  - intros ua_chan Hl. rewrite Hl.
    pose proof (lookup_channel_name _ _ _ Hl) as Hname.
    unfold enable_ust_channel. run.
    set (r := env_ret (w_log w) _).
    destruct (Z.ltb_spec r 0) as [Hneg|Hpos]; run; eexists;
      (split; [reflexivity|]); cbn [s_channels set_s_channels].
    + rewrite store_channel_same by (now rewrite Hname).
      split; [now destruct ua_sess|]. split; [intros; lia|]. reflexivity.
    + split; [intros; lia|]. split.
      * intros _. rewrite <- Hname.
        apply (lookup_store_channel _ (set_ch_enabled 1 ua_chan) ua_chan).
        cbn [set_ch_enabled set_ch_shadow ch_name]. rewrite Hname.
        exact Hl.
      * intros name Hne. apply lookup_store_channel_ne.
        cbn [set_ch_enabled set_ch_shadow ch_name]. congruence.
Qed.

End AppOperationFacts.

Lemma create_ust_app_channel_context_retry_witness :
  exists c w',
    create_ust_app_channel_context (E := env_add_context_fails) session_1
      channel_0 {| uctx_kind := 3 |} app_100 (boot_world (- EINVAL) 5)
    = Some ((- EPIPE, c), w') /\
    create_ust_app_channel_context (E := env_add_context_fails) session_1
      c {| uctx_kind := 3 |} app_100 w'
    = Some ((- EEXIST, c), w').
Proof.
  destruct (create_ust_app_channel_context_retry
              (E := env_add_context_fails) session_1 channel_0
              {| uctx_kind := 3 |} app_100 (boot_world (- EINVAL) 5))
    as [_ Hnew].
  destruct Hnew as (c & w' & Hrun & _ & Hagain); [reflexivity..|].
  exists c, w'. split; [exact Hrun|apply Hagain].
Defined.

Lemma enable_ust_app_channel_lookup_witness :
  exists s w',
    enable_ust_app_channel (E := env_quiet) session_started uchan_1 app_100
      (boot_world (- EINVAL) 5) = Some ((0, s), w') /\
    lookup_channel (s_channels s) "channel1"
    = Some (set_ch_enabled 1
              (sent_channel "channel1" 3 12 LTTNG_UST_CHAN_PER_CPU)) /\
    lookup_channel (s_channels s) "channel0"
    = Some (sent_channel "channel0" 2 11 LTTNG_UST_CHAN_PER_CPU).
Proof.
  destruct (enable_ust_app_channel_lookup (E := env_quiet) session_started
              uchan_1 app_100 (boot_world (- EINVAL) 5)) as [_ Hfound].
  destruct (Hfound (sent_channel "channel1" 3 12 LTTNG_UST_CHAN_PER_CPU)
              eq_refl) as (s & Hrun & _ & Hon & Hothers).
  eexists s, _. split; [exact Hrun|]. split.
  - apply Hon. discriminate.
  - rewrite Hothers by discriminate. reflexivity.
Defined.

(** ** Sessions, channels and metadata of one application *)

(** Invert every computation at hand down to its returns. *)
Ltac minv_deep :=
  repeat match goal with
         | H : _ = Some _ |- _ => minv H; try discriminate
         end.

Section SessionFacts.
Context `{E : environment}.

Lemma shadow_copy_session_ids ua_sess usess app w s w' :
  shadow_copy_session ua_sess usess app w = Some (s, w') ->
  s_id s = usess_id usess /\ s_handle s = s_handle ua_sess.
Proof.
  unfold shadow_copy_session. intros H. minv_all H. split; reflexivity.
Qed.

Lemma alloc_ust_app_session_handle w s w' :
  alloc_ust_app_session w = Some (Some s, w') -> s_handle s = -1.
Proof.
  unfold alloc_ust_app_session. intros H. minv_all H. reflexivity.
Qed.

(** [create_ust_app_session] returns 0, -ENOMEM or -ENOTCONN and nothing
    else, whatever the tracer answered.  On an error the application is
    as it was.  On success the session of the global session is in the
    table of the application, with a tracer handle; it is reported as
    created only when it was not there before. *)
Theorem create_ust_app_session_codes
    (usess : ltt_ust_session) (app : ust_app) (w : world)
    (r created : Z) (app' : ust_app) (w' : world) :
  create_ust_app_session usess app w = Some ((r, created, app'), w') ->
  (r = 0 \/ r = - ENOMEM \/ r = - ENOTCONN) /\
  (r < 0 -> app' = app) /\
  (r = 0 ->
   exists ua_sess,
     lookup_session_by_app usess app' = Some ua_sess /\
     s_handle ua_sess <> -1 /\
     (created <> 0 -> lookup_session_by_app usess app = None)).
Proof.
  unfold create_ust_app_session. intros H.
  minv H. destruct a as [[ua_sess c]|].
  2:{ minv H. unfold ENOMEM. split; [auto|]. split; [reflexivity|].
      intros; lia. }
  assert (Hid : s_id ua_sess = usess_id usess /\
                (c <> 0 -> lookup_session_by_app usess app = None) /\
                (lookup_session_by_app usess app <> None ->
                 lookup_session_by_app usess app = Some ua_sess)).
  { destruct (lookup_session_by_app usess app) as [s0|] eqn:Hl.
    - minv H0. split; [|split; [intros Hc; now elim Hc|reflexivity]].
      eapply lookup_session_id. exact Hl.
    - minv_all H0. apply shadow_copy_session_ids in H2 as [Hsid _].
      split; [exact Hsid|]. split; [reflexivity|congruence]. }
  destruct Hid as (Hid & Hcreated & Hfound).
  minv H.
  - minv H. minv H.
    + minv_all H. split.
      * destruct (a =? - ENOMEM) eqn:Hcode; cbn [negb]; [|auto].
        apply Z.eqb_eq in Hcode. auto.
      * split; [reflexivity|]. intros Hzero. exfalso.
        destruct (a =? - ENOMEM) eqn:Hcode; cbn [negb] in Hzero.
        -- apply Z.eqb_eq in Hcode. unfold ENOMEM in *. lia.
        -- unfold ENOTCONN in *. lia.
    + minv H. unfold add_unique_session in H2. minv_all H2. minv H.
      split; [auto|]. split; [intros; lia|]. intros _.
      exists (set_s_handle a ua_sess).
      unfold lookup_session_by_app, lookup_session.
      cbn [set_app_sessions app_sessions find set_s_handle s_id s_handle].
      rewrite Hid, Z.eqb_refl. split; [reflexivity|].
      split; [|exact Hcreated].
      match goal with
      | Hge : (a <? 0) = false |- _ => apply Z.ltb_ge in Hge; lia
      end.
  - minv H. split; [auto|]. split; [intros; lia|]. intros _.
    exists ua_sess. split; [|split].
    + apply Hfound. intros Hnone.
      rewrite Hnone in H0.
      minv_all H0. apply shadow_copy_session_ids in H2 as [_ Hh].
      apply alloc_ust_app_session_handle in H1.
      match goal with
      | Hh1 : (s_handle _ =? -1) = false |- _ =>
          apply Z.eqb_neq in Hh1; congruence
      end.
    + now apply Z.eqb_neq.
    + exact Hcreated.
Qed.

Lemma create_ust_channel_keeps app ua_sess ua_chan consumer w r c w' :
  create_ust_channel app ua_sess ua_chan consumer w = Some ((r, c), w') ->
  ch_name c = ch_name ua_chan /\ ch_attr c = ch_attr ua_chan /\
  ch_enabled c = ch_enabled ua_chan /\ ch_key c = ch_key ua_chan /\
  ch_ctx c = ch_ctx ua_chan /\ ch_events c = ch_events ua_chan.
Proof.
  unfold create_ust_channel, ust_consumer_ask_channel,
    ust_consumer_get_channel.
  intros H. minv_deep; repeat split; reflexivity.
Qed.

(** [create_ust_app_channel]: a channel that the session has is success
    at once, nothing being done; a failure of the creation hands the
    session back as it was; a success puts exactly one new channel in
    front of the table, named after the global channel, of the type asked
    for, and flagged as sent. *)
Theorem create_ust_app_channel_atomic
    (ua_sess : ust_app_session) (uchan : ltt_ust_channel) (app : ust_app)
    (consumer : consumer_output) (type : lttng_ust_chan_type)
    (w : world) (r : Z) (s : ust_app_session) (w' : world) :
  create_ust_app_channel ua_sess uchan app consumer type w
  = Some ((r, s), w') ->
  (lookup_channel (s_channels ua_sess) (uchan_name uchan) <> None ->
   r = 0 /\ s = ua_sess /\ w' = w) /\
  (r < 0 -> s = ua_sess) /\
  (lookup_channel (s_channels ua_sess) (uchan_name uchan) = None ->
   0 <= r ->
   r = 0 /\
   exists ua_chan,
     s = set_s_channels (ua_chan :: s_channels ua_sess) ua_sess /\
     ch_name ua_chan
     = strncpy_term (uchan_name uchan) LTTNG_UST_SYM_NAME_LEN /\
     attr_type (ch_attr ua_chan) = type /\
     ch_is_sent ua_chan = 1).
Proof.
  unfold create_ust_app_channel. intros H.
  destruct (lookup_channel (s_channels ua_sess) (uchan_name uchan))
    as [found|] eqn:Hl.
  - minv H. split; [auto|]. split; [reflexivity|]. intros; congruence.
  - split; [congruence|].
    minv H. destruct a as [ua_chan|]; [|minv_all H].
    minv H. minv H. destruct a0 as [r1 c1].
    apply shadow_copy_channel_name in H1 as Hname.
    pose proof (create_ust_channel_keeps _ _ _ _ _ _ _ _ H2)
      as (Hn & Ha & _).
    minv H.
    + minv_all H. split; [reflexivity|]. intros _ Hr. negative.
    + minv H. unfold add_unique_channel in H3. minv_all H3. minv H.
      split; [intros; lia|]. intros _ _. split; [reflexivity|].
      exists c1. split; [reflexivity|].
      split; [rewrite Hn; exact Hname|].
      split; [rewrite Ha; reflexivity|].
      eapply create_ust_channel_sent; [exact H2|nonneg].
Qed.

(** Once [create_ust_app_metadata] has succeeded, calling it again does
    nothing and returns 0; the channel that a first success records is
    named "metadata", of type METADATA, and flagged as sent. *)
Theorem create_ust_app_metadata_once
    (ua_sess : ust_app_session) (app : ust_app)
    (consumer : consumer_output) (w : world) (r : Z)
    (s : ust_app_session) (w' : world) :
  create_ust_app_metadata ua_sess app consumer w = Some ((r, s), w') ->
  0 <= r ->
  r = 0 /\
  (forall app2 consumer2 w2,
      create_ust_app_metadata s app2 consumer2 w2 = Some ((0, s), w2)) /\
  (s_metadata ua_sess = None ->
   exists metadata,
     s = set_s_metadata (Some metadata) ua_sess /\
     ch_name metadata = DEFAULT_METADATA_NAME /\
     attr_type (ch_attr metadata) = LTTNG_UST_CHAN_METADATA /\
     ch_is_sent metadata = 1).
Proof.
  unfold create_ust_app_metadata at 1. intros H Hr.
  destruct (s_metadata ua_sess) as [m0|] eqn:Hm.
  - minv H. split; [reflexivity|]. split; [|discriminate].
    intros app2 consumer2 w2. unfold create_ust_app_metadata.
    now rewrite Hm.
  - minv H. destruct a as [metadata|]; [|minv H; negative].
    minv H. destruct a as [r1 c1].
    pose proof (create_ust_channel_keeps _ _ _ _ _ _ _ _ H1)
      as (Hn & Ha & _).
    minv H; [minv_all H; negative|]. minv H.
    split; [reflexivity|]. split.
    + intros app2 consumer2 w2. reflexivity.
    + intros _. exists c1. split; [reflexivity|].
      unfold alloc_ust_app_channel in H0. minv_all H0.
      cbn [set_ch_shadow ch_name ch_attr attr_type] in Hn, Ha.
      split; [rewrite Hn; reflexivity|].
      split; [rewrite Ha; reflexivity|].
      eapply create_ust_channel_sent; [exact H1|nonneg].
Qed.

Lemma store_session_same l s :
  lookup_session l (s_id s) = Some s -> store_session l s = l.
Proof.
  unfold lookup_session. induction l as [|x r IH]; cbn; [reflexivity|].
  destruct (s_id x =? s_id s).
  - now intros [= ->].
  - intros H. now rewrite IH.
Qed.

Lemma app_store_session_same usess app s :
  lookup_session_by_app usess app = Some s -> app_store_session app s = app.
Proof.
  unfold lookup_session_by_app, app_store_session. intros H.
  pose proof (lookup_session_id _ _ _ H) as Hid.
  rewrite store_session_same by (now rewrite Hid).
  now destruct app.
Qed.

(** [ust_app_start_trace] on a session that was started before skips the
    set-up: no directory is made and no metadata created, the tracer is
    asked to start and, if it does, to wait for quiescence.  On a first
    start with a local trace path, a directory that cannot be made, for
    another reason than its being there, ends the start with -1 before
    anything is asked of the tracer, the application being as it was. *)
Theorem ust_app_start_trace_setup
    (usess : ltt_ust_session) (app : ust_app) (ua_sess : ust_app_session)
    (w : world) :
  app_compatible app <> 0 ->
  lookup_session_by_app usess app = Some ua_sess ->
  let start := c_ustctl_start_session (app_sock app) (s_handle ua_sess) in
  let wait := c_ustctl_wait_quiescent (app_sock app) in
  let mkdir := c_run_as_mkdir_recursive
                 (co_trace_path (usess_consumer usess))
                 (usess_uid usess) (usess_gid usess) in
  (s_started ua_sess <> 0 ->
   ust_app_start_trace usess app w
   = if env_ret (w_log w) start <? 0
     then Some ((-1, app), set_w_log (w_log w ++ [start]) w)
     else Some ((0, app_store_session app (set_s_started 1 ua_sess)),
                set_w_log (w_log w ++ [start; wait]) w)) /\
  (s_started ua_sess = 0 ->
   co_type (usess_consumer usess) = CONSUMER_DST_LOCAL ->
   co_trace_path (usess_consumer usess) <> EmptyString ->
   env_ret (w_log w) mkdir < 0 ->
   env_ret (w_log w) mkdir <> - EEXIST ->
   ust_app_start_trace usess app w
   = Some ((-1, app), set_w_log (w_log w ++ [mkdir]) w)).
Proof.
  intros Hcompat Hsess start wait mkdir.
  unfold ust_app_start_trace. apply Z.eqb_neq in Hcompat.
  rewrite Hcompat, Hsess.
  pose proof (app_store_session_same _ _ _ Hsess) as Hsame.
  split.
  - intros Hstarted. apply Z.eqb_neq in Hstarted. rewrite Hstarted.
    cbn [negb]. run. rewrite Hsame. fold start.
    cbn [Z.ltb Z.compare]. run.
    destruct (env_ret (w_log w) start <? 0); run; [reflexivity|].
    cbn [app_sock app_store_session set_app_sessions].
    rewrite <- app_assoc. reflexivity.
  - intros Hzero Hlocal Hpath Hneg Hne. rewrite Hzero, Hlocal.
    cbn [Z.eqb negb].
    assert (Hlen : (0 <? String.length
                           (co_trace_path (usess_consumer usess)))%nat
                   = true).
    { apply Nat.ltb_lt.
      destruct (co_trace_path (usess_consumer usess)); [congruence|].
      cbn. lia. }
    rewrite Hlen. run. fold mkdir.
    apply Z.ltb_lt in Hneg. apply Z.eqb_neq in Hne.
    rewrite Hneg, Hne. cbn [negb andb]. run.
    rewrite Hneg. reflexivity.
Qed.

End SessionFacts.

Lemma create_ust_app_session_codes_witness :
  exists created w',
    create_ust_app_session (E := env_create_session_fails) usess_chan0
      app_100 (boot_world (- EINVAL) 5)
    = Some ((- ENOTCONN, created, app_100), w').
Proof.
  destruct (create_ust_app_session (E := env_create_session_fails)
              usess_chan0 app_100 (boot_world (- EINVAL) 5))
    as [[[[r created] app'] w']|] eqn:H; [|vm_compute in H; discriminate].
  destruct (create_ust_app_session_codes _ _ _ _ _ _ _ H)
    as (_ & Herr & _).
  assert (Hr : r = - ENOTCONN)
    by (pose proof H as C; vm_compute in C; now injection C as <- _ _ _).
  rewrite Herr by (rewrite Hr; reflexivity). rewrite Hr. eauto.
Defined.

Lemma create_ust_app_channel_atomic_witness :
  exists ua_chan w',
    create_ust_app_channel (E := env_quiet) session_1 uchan_0 app_100
      local_consumer LTTNG_UST_CHAN_PER_CPU (boot_world (- EINVAL) 5)
    = Some ((0, set_s_channels [ua_chan] session_1), w') /\
    ch_name ua_chan = "chan0"%string /\ ch_is_sent ua_chan = 1.
Proof.
  destruct (create_ust_app_channel (E := env_quiet) session_1 uchan_0
              app_100 local_consumer LTTNG_UST_CHAN_PER_CPU
              (boot_world (- EINVAL) 5))
    as [[[r s] w']|] eqn:H; [|vm_compute in H; discriminate].
  destruct (create_ust_app_channel_atomic _ _ _ _ _ _ _ _ _ H)
    as (_ & _ & Hok).
  destruct Hok as (-> & ua_chan & -> & Hname & _ & Hsent);
    [reflexivity
    |pose proof H as C; vm_compute in C; injection C as <- _ _; discriminate
    |].
  exists ua_chan, w'. split; [reflexivity|]. split; [exact Hname|exact Hsent].
Defined.

Lemma create_ust_app_metadata_once_witness :
  exists s w',
    create_ust_app_metadata (E := env_quiet) session_1 app_100
      local_consumer (boot_world (- EINVAL) 5) = Some ((0, s), w') /\
    create_ust_app_metadata (E := env_quiet) s app_100 local_consumer w'
    = Some ((0, s), w').
Proof.
  destruct (create_ust_app_metadata (E := env_quiet) session_1 app_100
              local_consumer (boot_world (- EINVAL) 5))
    as [[[r s] w']|] eqn:H; [|vm_compute in H; discriminate].
  destruct (create_ust_app_metadata_once _ _ _ _ _ _ _ H)
    as (-> & Hagain & _);
    [pose proof H as C; vm_compute in C; injection C as <- _ _; discriminate|].
  exists s, w'. split; [reflexivity|apply Hagain].
Defined.

Lemma ust_app_start_trace_setup_witness :
  ust_app_start_trace (E := env_quiet) usess_1 app_started
    (boot_world (- EINVAL) 5)
  = Some ((0, app_store_session app_started
                (set_s_started 1 session_started)),
          set_w_log [c_ustctl_start_session 7 3; c_ustctl_wait_quiescent 7]
            (boot_world (- EINVAL) 5)).
Proof.
  destruct (ust_app_start_trace_setup (E := env_quiet) usess_1 app_started
              session_started (boot_world (- EINVAL) 5))
    as [Hrestart _]; [discriminate|reflexivity|].
  rewrite Hrestart by discriminate. reflexivity.
Defined.

(** ** What the shadow copy and the deletions do to the outside *)

(** A computation that makes no external call and leaves the descriptor
    count and the registry alone. *)
Definition silent {A : Type} (m : M A) : Prop :=
  forall w a w', m w = Some (a, w') ->
    w_log w' = w_log w /\ w_fd_apps w' = w_fd_apps w /\
    w_apps w' = w_apps w /\ w_ust_app_ht w' = w_ust_app_ht w /\
    w_ust_app_ht_by_sock w' = w_ust_app_ht_by_sock w /\
    w_call_rcu w' = w_call_rcu w.

Lemma silent_ret {A : Type} (a : A) : silent (ret a).
Proof. intros w a' w' H. injection H as _ <-. auto 10. Qed.

Lemma silent_bind {A B : Type} (m : M A) (k : A -> M B) :
  silent m -> (forall a, silent (k a)) -> silent (bind m k).
Proof.
  intros Hm Hk w b w' H. apply bind_Some in H as (a & w1 & H1 & H2).
  apply Hm in H1 as (A1 & A2 & A3 & A4 & A5 & A6).
  apply Hk in H2 as (B1 & B2 & B3 & B4 & B5 & B6).
  repeat split; congruence.
Qed.

Lemma silent_assert b : silent (assert b).
Proof.
  intros w a w' H. unfold assert in H. destruct b; [|discriminate].
  injection H as _ <-. auto 10.
Qed.

Lemma silent_get_world : silent get_world.
Proof. intros w a w' H. injection H as _ <-. auto 10. Qed.

(** A computation that gives [d] descriptors back to the quota. *)
Definition gives_back (d : Z) {A : Type} (m : M A) : Prop :=
  forall w a w', m w = Some (a, w') -> w_fd_apps w' = w_fd_apps w - d.

Lemma gives_back_ret {A : Type} (a : A) : gives_back 0 (ret a).
Proof. intros w a' w' H. injection H as _ <-. lia. Qed.

Lemma gives_back_bind d1 d2 {A B : Type} (m : M A) (k : A -> M B) :
  gives_back d1 m -> (forall a, gives_back d2 (k a)) ->
  gives_back (d1 + d2) (bind m k).
Proof.
  intros Hm Hk w b w' H. apply bind_Some in H as (a & w1 & H1 & H2).
  apply Hm in H1. apply Hk in H2. lia.
Qed.

Lemma gives_back_eq d d' {A : Type} (m : M A) :
  d = d' -> gives_back d m -> gives_back d' m.
Proof. now intros ->. Qed.

Lemma gives_back_for_each {A : Type} (f : A -> M unit) (d : A -> Z) l :
  (forall x, gives_back (d x) (f x)) ->
  gives_back (fold_right (fun x acc => d x + acc) 0 l) (for_each f l).
Proof.
  intros Hf. induction l as [|x l IH]; cbn [for_each fold_right].
  - apply gives_back_ret.
  - apply gives_back_bind; [apply Hf|intros _; exact IH].
Qed.

Section Outside.
Context `{E : environment}.

Lemma silent_zmalloc : silent zmalloc.
Proof. intros w a w' H. injection H as _ <-. cbn. auto 10. Qed.

Lemma silent_get_next_channel_key : silent get_next_channel_key.
Proof. intros w a w' H. injection H as _ <-. cbn. auto 10. Qed.

Lemma silent_add_unique_event ht event : silent (add_unique_event ht event).
Proof.
  intros w a w' H. unfold add_unique_event in H.
  destruct (add_unique_ust_app_event _ _ _); [|discriminate].
  injection H as _ <-. auto 10.
Qed.

Ltac step_silent :=
  repeat first
    [ apply silent_ret | apply silent_assert | apply silent_get_world
    | apply silent_zmalloc | apply silent_get_next_channel_key
    | apply silent_add_unique_event
    | apply silent_bind; [|intros ?]
    | match goal with
      | |- silent (if ?c then _ else _) => destruct c
      | |- silent (match ?x with _ => _ end) => destruct x
      end ].

Lemma silent_shadow_copy_ctxs ctx uctxs : silent (shadow_copy_ctxs ctx uctxs).
Proof.
  revert ctx. induction uctxs as [|u rest IH]; intros ctx;
    cbn [shadow_copy_ctxs]; [apply silent_ret|].
  unfold alloc_ust_app_ctx, add_unique_ctx.
  apply silent_bind; [step_silent|]. intros [c|]; [|apply IH].
  apply silent_bind; [step_silent|]. intros ctx'. apply IH.
Qed.

Lemma silent_shadow_copy_events events uevents :
  silent (shadow_copy_events events uevents).
Proof.
  revert events. induction uevents as [|u rest IH]; intros events;
    cbn [shadow_copy_events]; [apply silent_ret|].
  destruct (find_ust_app_event _ _ _ _ _); [apply IH|].
  unfold alloc_ust_app_event, shadow_copy_event, alloc_copy_ust_app_filter.
  apply silent_bind; [step_silent|]. intros [e|]; [|apply IH].
  apply silent_bind; [step_silent|]. intros e'.
  apply silent_bind; [apply silent_add_unique_event|]. intros ev. apply IH.
Qed.

Lemma silent_shadow_copy_channels channels uchans :
  silent (shadow_copy_channels channels uchans).
Proof.
  revert channels. induction uchans as [|u rest IH]; intros channels;
    cbn [shadow_copy_channels]; [apply silent_ret|].
  destruct (lookup_channel _ _); [apply IH|].
  unfold alloc_ust_app_channel, shadow_copy_channel, add_unique_channel.
  apply silent_bind; [step_silent|]. intros [c|]; [|apply IH].
  apply silent_bind.
  { apply silent_bind; [apply silent_shadow_copy_ctxs|]. intros ctx.
    apply silent_bind; [apply silent_shadow_copy_events|]. intros ev.
    apply silent_ret. }
  intros c'. apply silent_bind; [step_silent|]. intros chs. apply IH.
Qed.

(** [shadow_copy_session] asks nothing of the tracer or the consumer: it
    makes none of the calls that the daemon addresses to them, makes no
    directory and closes no descriptor, takes and gives back no
    descriptor of the quota, and leaves the registry alone.  What it
    takes from outside is the clock, read for the path of the session:
    the name of the application, its pid and the date and time of the
    call, cut to [PATH_MAX - 1] characters.  The session it returns has
    the identity of the global session and the tracer handle, the
    started flag and the metadata that it had. *)
Theorem shadow_copy_session_no_tracer_call
    (ua_sess : ust_app_session) (usess : ltt_ust_session) (app : ust_app)
    (w : world) (s : ust_app_session) (w' : world) :
  shadow_copy_session ua_sess usess app w = Some (s, w') ->
  (w_log w' = w_log w /\ w_fd_apps w' = w_fd_apps w /\
   w_apps w' = w_apps w /\ w_ust_app_ht w' = w_ust_app_ht w /\
   w_ust_app_ht_by_sock w' = w_ust_app_ht_by_sock w /\
   w_call_rcu w' = w_call_rcu w) /\
  s_path s = snprintf_path (app_name app) (app_pid app)
               (env_datetime (w_rawtime w)) /\
  s_id s = usess_id usess /\ s_uid s = usess_uid usess /\
  s_gid s = usess_gid usess /\
  s_handle s = s_handle ua_sess /\ s_started s = s_started ua_sess /\
  s_metadata s = s_metadata ua_sess.
Proof.
  intros H. split.
  - revert H. apply (silent_bind get_world); [apply silent_get_world|].
    intros w0. apply silent_bind; [apply silent_shadow_copy_channels|].
    intros chs. apply silent_ret.
  - unfold shadow_copy_session in H. minv_all H.
    unfold get_world in H0. injection H0 as <- <-. repeat split.
Qed.

(** The descriptors accounted to a stream, a channel, a session: two for
    each stream and each channel that has a tracer object. *)
Definition stream_units (s : ust_app_stream) : Z :=
  if is_null (stream_obj s) then 0 else 2.

Definition channel_units (c : ust_app_channel) : Z :=
  fold_right (fun s acc => stream_units s + acc) 0 (ch_streams c)
  + (if is_null (ch_obj c) then 0 else 2).

Definition session_units (s : ust_app_session) : Z :=
  match s_metadata s with
  | Some metadata => channel_units metadata
  | None => 0
  end
  + fold_right (fun c acc => channel_units c + acc) 0 (s_channels s).

(** A release addressed to socket [sock], or a return of descriptors. *)
Definition release_on (sock : Z) (c : call) : Prop :=
  match c with
  | c_ustctl_release_object s _ | c_ustctl_release_handle s _ => s = sock
  | c_lttng_fd_put _ => True
  | _ => False
  end.

Lemma gives_back_extcall c : gives_back 0 (extcall c).
Proof. intros w a w' H. injection H as _ <-. cbn. lia. Qed.

Lemma gives_back_lttng_fd_put nr : gives_back nr (lttng_fd_put nr).
Proof.
  intros w a w' H. unfold lttng_fd_put in H. run in H.
  injection H as _ <-. cbn. lia.
Qed.

Lemma gives_back_delete_ust_app_stream sock stream :
  gives_back (stream_units stream) (delete_ust_app_stream sock stream).
Proof.
  unfold delete_ust_app_stream, stream_units.
  destruct (stream_obj stream); cbn [is_null]; [|apply gives_back_ret].
  apply (gives_back_bind 0 2); [apply gives_back_extcall|].
  intros _. apply gives_back_lttng_fd_put.
Qed.

Lemma gives_back_delete_ust_app_ctx sock ctx :
  gives_back 0 (delete_ust_app_ctx sock ctx).
Proof.
  unfold delete_ust_app_ctx. destruct (ctx_obj ctx); [|apply gives_back_ret].
  apply (gives_back_bind 0 0); [apply gives_back_extcall|].
  intros _. apply gives_back_ret.
Qed.

Lemma gives_back_delete_ust_app_event sock ev :
  gives_back 0 (delete_ust_app_event sock ev).
Proof.
  unfold delete_ust_app_event. destruct (ev_obj ev); [|apply gives_back_ret].
  apply (gives_back_bind 0 0); [apply gives_back_extcall|].
  intros _. apply gives_back_ret.
Qed.

Lemma fold_right_zero {A : Type} (l : list A) :
  fold_right (fun (_ : A) acc => 0 + acc) 0 l = 0.
Proof. induction l as [|x l IH]; cbn; [reflexivity|exact IH]. Qed.

Lemma gives_back_delete_ust_app_channel sock c :
  gives_back (channel_units c) (delete_ust_app_channel sock c).
Proof.
  unfold delete_ust_app_channel, channel_units.
  apply gives_back_bind.
  { apply gives_back_for_each. intros s.
    apply gives_back_delete_ust_app_stream. }
  intros _.
  eapply gives_back_eq; [|apply (gives_back_bind 0)].
  - apply Z.add_0_l.
  - eapply gives_back_eq; [|apply (gives_back_for_each _ (fun _ => 0))].
    + apply fold_right_zero.
    + intros x. apply gives_back_delete_ust_app_ctx.
  - intros _. eapply gives_back_eq; [|apply (gives_back_bind 0)].
    + apply Z.add_0_l.
    + eapply gives_back_eq; [|apply (gives_back_for_each _ (fun _ => 0))].
      * apply fold_right_zero.
      * intros x. apply gives_back_delete_ust_app_event.
    + intros _. destruct (ch_obj c); cbn [is_null]; [|apply gives_back_ret].
      apply (gives_back_bind 0 2); [apply gives_back_extcall|].
      intros _. apply gives_back_lttng_fd_put.
Qed.

Lemma emits_delete_ust_app_channel sock c :
  emits (release_on sock) (delete_ust_app_channel sock c).
Proof.
  unfold delete_ust_app_channel, delete_ust_app_stream, delete_ust_app_ctx,
    delete_ust_app_event.
  step_emits; first [reflexivity | exact I].
Qed.

Lemma total_delete_ust_app_session sock s :
  total (delete_ust_app_session sock s).
Proof. unfold delete_ust_app_session. step_total. Qed.

Lemma emits_delete_ust_app_session sock ua_sess :
  emits (release_on sock) (delete_ust_app_session sock ua_sess).
Proof.
  unfold delete_ust_app_session.
  apply emits_bind.
  { destruct (s_metadata ua_sess);
      [apply emits_delete_ust_app_channel|apply emits_ret]. }
  intros _. apply emits_bind.
  { apply emits_for_each. intros c. apply emits_delete_ust_app_channel. }
  intros _. destruct (negb _); [|apply emits_ret].
  apply emits_bind; [apply emits_extcall; reflexivity|].
  intros _. apply emits_ret.
Qed.

Lemma gives_back_delete_ust_app_session sock ua_sess :
  gives_back (session_units ua_sess) (delete_ust_app_session sock ua_sess).
Proof.
  unfold delete_ust_app_session, session_units.
  apply gives_back_bind.
  { destruct (s_metadata ua_sess);
      [apply gives_back_delete_ust_app_channel|apply gives_back_ret]. }
  intros _. eapply gives_back_eq; [|eapply (gives_back_bind _ 0)].
  - apply Z.add_0_r.
  - apply gives_back_for_each. intros c.
    apply gives_back_delete_ust_app_channel.
  - intros _. destruct (negb _); [|apply gives_back_ret].
    apply (gives_back_bind 0 0); [apply gives_back_extcall|].
    intros _. apply gives_back_ret.
Qed.

(** [delete_ust_app_session] always runs through; it only releases tracer
    objects and the session handle, on the socket it was given, and gives
    descriptors back; what it gives back is two descriptors for each
    stream and each channel of the session, metadata included, that has a
    tracer object. *)
Theorem delete_ust_app_session_releases
    (sock : Z) (ua_sess : ust_app_session) (w : world) :
  exists w' calls,
    delete_ust_app_session sock ua_sess w = Some (tt, w') /\
    w_log w' = w_log w ++ calls /\
    Forall (release_on sock) calls /\
    w_fd_apps w' = w_fd_apps w - session_units ua_sess.
Proof.
  destruct (total_delete_ust_app_session sock ua_sess w) as ([] & w' & H).
  destruct (emits_delete_ust_app_session sock ua_sess _ _ _ H)
    as (calls & Hlog & Hall).
  exists w', calls. split; [exact H|]. split; [exact Hlog|].
  split; [exact Hall|].
  exact (gives_back_delete_ust_app_session sock ua_sess _ _ _ H).
Qed.

End Outside.

Lemma shadow_copy_session_no_tracer_call_witness :
  exists s w',
    shadow_copy_session (E := env_quiet) blank_session usess_chan0 app_100
      (boot_world (- EINVAL) 5) = Some (s, w') /\
    w_log w' = [] /\ w_fd_apps w' = 0 /\
    s_path s = "hello-100-20130401-120000/"%string /\ s_id s = 1.
Proof.
  destruct (shadow_copy_session (E := env_quiet) blank_session usess_chan0
              app_100 (boot_world (- EINVAL) 5))
    as [[s w']|] eqn:H; [|vm_compute in H; discriminate].
  destruct (shadow_copy_session_no_tracer_call _ _ _ _ _ _ H)
    as ((Hlog & Hfd & _) & Hpath & Hid & _).
  exists s, w'. split; [reflexivity|]. split; [exact Hlog|].
  split; [exact Hfd|]. split; [|exact Hid].
  rewrite Hpath. vm_compute. reflexivity.
Defined.

(** ** The registry as a whole *)

(** What the registry operations keep true: application objects lie below
    the allocation counter; a socket leads to a live application that has
    this socket; a pid leads to a live application that has this pid and
    that its own socket leads to; an application handed to [call_rcu] is
    live, no socket leads to it, and it was handed over once. *)
Definition registry_ok (w : world) : Prop :=
  heap_fresh w /\
  (forall s a, w_ust_app_ht_by_sock w !! s = Some a ->
     exists app, w_apps w !! a = Some app /\ app_sock app = s) /\
  (forall p a, w_ust_app_ht w !! p = Some a ->
     exists app, w_apps w !! a = Some app /\ app_pid app = p /\
                 w_ust_app_ht_by_sock w !! app_sock app = Some a) /\
  (forall a, In a (w_call_rcu w) ->
     is_Some (w_apps w !! a) /\
     forall s, w_ust_app_ht_by_sock w !! s <> Some a) /\
  NoDup (w_call_rcu w).

(** A computation that leaves the registry and the allocation counter
    alone. *)
Definition keeps_registry {A : Type} (m : M A) : Prop :=
  forall w a w', m w = Some (a, w') ->
    w_apps w' = w_apps w /\ w_ust_app_ht w' = w_ust_app_ht w /\
    w_ust_app_ht_by_sock w' = w_ust_app_ht_by_sock w /\
    w_call_rcu w' = w_call_rcu w /\ w_allocs w' = w_allocs w.

Lemma keeps_registry_ret {A : Type} (a : A) : keeps_registry (ret a).
Proof. intros w a' w' H. injection H as _ <-. auto. Qed.

Lemma keeps_registry_bind {A B : Type} (m : M A) (k : A -> M B) :
  keeps_registry m -> (forall a, keeps_registry (k a)) ->
  keeps_registry (bind m k).
Proof.
  intros Hm Hk w b w' H. apply bind_Some in H as (a & w1 & H1 & H2).
  apply Hm in H1 as (A1 & A2 & A3 & A4 & A5).
  apply Hk in H2 as (B1 & B2 & B3 & B4 & B5).
  repeat split; congruence.
Qed.

Lemma keeps_registry_for_each {A : Type} (f : A -> M unit) l :
  (forall x, keeps_registry (f x)) -> keeps_registry (for_each f l).
Proof.
  intros Hf. induction l as [|x l IH]; simpl.
  - apply keeps_registry_ret.
  - apply keeps_registry_bind; [apply Hf | intros _; exact IH].
Qed.

Section RegistryFacts.
Context `{E : environment}.

Lemma keeps_registry_extcall c : keeps_registry (extcall c).
Proof. intros w a w' H. injection H as _ <-. cbn. auto. Qed.

Lemma keeps_registry_lttng_fd_put nr : keeps_registry (lttng_fd_put nr).
Proof.
  intros w a w' H. unfold lttng_fd_put in H. run in H.
  injection H as _ <-. cbn. auto.
Qed.

Ltac step_keeps :=
  repeat first
    [ apply keeps_registry_ret | apply keeps_registry_extcall
    | apply keeps_registry_lttng_fd_put
    | apply keeps_registry_for_each; intros ?
    | apply keeps_registry_bind; [|intros ?]
    | match goal with
      | |- keeps_registry (if ?c then _ else _) => destruct c
      | |- keeps_registry (match ?x with _ => _ end) => destruct x
      end ].

Lemma keeps_registry_delete_ust_app_session sock s :
  keeps_registry (delete_ust_app_session sock s).
Proof.
  unfold delete_ust_app_session, delete_ust_app_channel,
    delete_ust_app_stream, delete_ust_app_ctx, delete_ust_app_event.
  step_keeps.
Qed.

Lemma registry_ok_boot_world c32 c64 : registry_ok (boot_world c32 c64).
Proof.
  split; [apply heap_fresh_boot_world|]. cbn.
  split; [intros s a H; now rewrite lookup_empty in H|].
  split; [intros s a H; now rewrite lookup_empty in H|].
  split; [intros a []|constructor].
Qed.

Lemma registry_ok_register msg sock w r w' :
  ust_app_register msg sock w = Some (r, w') ->
  registry_ok w -> registry_ok w'.
Proof.
  intros H (Hfresh & Hsock & Hpid & Hrcu & Hnodup).
  pose proof (ust_app_register_heap_fresh _ _ _ _ _ Hfresh H) as Hfresh'.
  split; [exact Hfresh'|]. clear Hfresh'.
  unfold ust_app_register in H. run in H.
  destruct (_ || _); [run in H; injection H as _ <-; cbn; auto|].
  destruct (negb (msg_major msg =? _));
    [run in H; injection H as _ <-; cbn; auto|].
  destruct (env_zmalloc (w_allocs w)); cbn [negb] in H;
    [|injection H as _ <-; cbn; auto].
  run in H.
  destruct (w_ust_app_ht_by_sock w !! sock) eqn:Hs; cbn [is_null] in H;
    [discriminate|].
  injection H as _ <-. cbn.
  assert (Hnew : w_apps w !! w_allocs w = None).
  { destruct (w_apps w !! w_allocs w) eqn:Ha; [|reflexivity].
    specialize (Hfresh (w_allocs w) (mk_is_Some _ _ Ha)). lia. }
  assert (Hlive : forall a app, w_apps w !! a = Some app ->
                    a <> w_allocs w) by (intros a app Ha ->; congruence).
  split; [|split; [|split; [|exact Hnodup]]].
  - intros s a Hsa. destruct (decide (s = sock)) as [->|Hne].
    + rewrite lookup_insert_eq in Hsa. injection Hsa as <-.
      rewrite lookup_insert_eq. eauto.
    + rewrite lookup_insert_ne in Hsa by congruence.
      destruct (Hsock s a Hsa) as (app & Ha & Happ).
      exists app. rewrite lookup_insert_ne by (symmetry; eauto). auto.
  - intros p a Hpa. destruct (decide (p = msg_pid msg)) as [->|Hne].
    + rewrite lookup_insert_eq in Hpa. injection Hpa as <-.
      rewrite lookup_insert_eq. eexists. split; [reflexivity|].
      cbn. split; [reflexivity|]. apply lookup_insert_eq.
    + rewrite lookup_insert_ne in Hpa by congruence.
      destruct (Hpid p a Hpa) as (app & Ha & Happ & Hback).
      exists app. rewrite lookup_insert_ne by (symmetry; eauto).
      split; [exact Ha|]. split; [exact Happ|].
      rewrite lookup_insert_ne; [exact Hback|].
      intros Heq. rewrite <- Heq in Hback. congruence.
  - intros a Hin. destruct (Hrcu a Hin) as ([app Ha] & Hnot).
    split.
    + rewrite lookup_insert_ne by (symmetry; eauto). eauto.
    + intros s Hsa. destruct (decide (s = sock)) as [->|Hne].
      * rewrite lookup_insert_eq in Hsa. injection Hsa as <-.
        congruence.
      * rewrite lookup_insert_ne in Hsa by congruence. now apply (Hnot s).
Qed.

Lemma registry_ok_unregister sock w w' :
  ust_app_unregister sock w = Some (tt, w') ->
  registry_ok w -> registry_ok w'.
Proof.
  intros H Hok. pose proof Hok as (Hfresh & Hsock & Hpid & Hrcu & Hnodup).
  unfold ust_app_unregister in H. run in H.
  destruct (w_ust_app_ht_by_sock w !! sock) as [addr|] eqn:Hs;
    [|injection H as <-; exact Hok].
  destruct (w_apps w !! addr) as [lta|] eqn:Ha; [|discriminate].
  injection H as <-.
  destruct (Hsock sock addr Hs) as (lta0 & Ha0 & Hlta).
  assert (lta0 = lta) as -> by congruence. clear Ha0.
  set (by_pid := match w_ust_app_ht w !! app_pid lta with
                 | Some a => if Nat.eqb a addr
                             then delete (app_pid lta) (w_ust_app_ht w)
                             else w_ust_app_ht w
                 | None => w_ust_app_ht w
                 end).
  assert (Hby_pid : forall p a, by_pid !! p = Some a ->
                      w_ust_app_ht w !! p = Some a /\ a <> addr).
  { intros p a Hp. subst by_pid.
    destruct (w_ust_app_ht w !! app_pid lta) as [b|] eqn:Hb.
    - destruct (Nat.eqb_spec b addr) as [->|Hba].
      + destruct (decide (p = app_pid lta)) as [->|Hne].
        * now rewrite lookup_delete_eq in Hp.
        * rewrite lookup_delete_ne in Hp by congruence.
          split; [exact Hp|]. intros ->.
          destruct (Hpid p addr Hp) as (app & Happ & Hp' & _).
          congruence.
      + split; [exact Hp|]. intros ->.
        destruct (Hpid p addr Hp) as (app & Happ & Hp' & _).
        assert (app = lta) as -> by congruence. congruence.
    - split; [exact Hp|]. intros ->.
      destruct (Hpid p addr Hp) as (app & Happ & Hp' & _).
      assert (app = lta) as -> by congruence. congruence. }
  unfold registry_ok.
  cbn [w_apps w_ust_app_ht w_ust_app_ht_by_sock w_call_rcu set_w_registry].
  fold by_pid.
  split; [|split; [|split; [|split]]].
  - intros a [x Hx]. cbn in Hx. apply Hfresh.
    destruct (decide (a = addr)) as [->|Hne]; [eauto|].
    rewrite lookup_insert_ne in Hx by congruence. eauto.
  - intros s a Hsa. destruct (decide (s = sock)) as [->|Hne];
      [now rewrite lookup_delete_eq in Hsa|].
    rewrite lookup_delete_ne in Hsa by congruence.
    destruct (Hsock s a Hsa) as (app & Happ & Hsk).
    assert (a <> addr) by (intros ->; congruence).
    exists app. rewrite lookup_insert_ne by congruence. auto.
  - intros p a Hp. destruct (Hby_pid p a Hp) as [Hp0 Hne].
    destruct (Hpid p a Hp0) as (app & Happ & Hpp & Hback).
    exists app. rewrite lookup_insert_ne by congruence.
    split; [exact Happ|]. split; [exact Hpp|].
    rewrite lookup_delete_ne; [exact Hback|].
    intros Heq. rewrite <- Heq in Hback. congruence.
  - intros a Hin. apply in_app_or in Hin as [Hin|[<-|[]]].
    + destruct (Hrcu a Hin) as ([app Happ] & Hnot).
      assert (a <> addr) by (intros ->; now apply (Hnot sock)).
      split; [rewrite lookup_insert_ne by congruence; eauto|].
      intros s Hsa. destruct (decide (s = sock)) as [->|Hne];
        [now rewrite lookup_delete_eq in Hsa|].
      rewrite lookup_delete_ne in Hsa by congruence. now apply (Hnot s).
    + split; [rewrite lookup_insert_eq; eauto|].
      intros s Hsa. destruct (decide (s = sock)) as [->|Hne];
        [now rewrite lookup_delete_eq in Hsa|].
      rewrite lookup_delete_ne in Hsa by congruence.
      destruct (Hsock s addr Hsa) as (app & Happ & Hsk). congruence.
  - apply NoDup_app. split; [exact Hnodup|]. split.
    + intros a Hin Hin'. apply list_elem_of_singleton in Hin'. subst a.
      apply list_elem_of_In in Hin.
      destruct (Hrcu addr Hin) as [_ Hnot]. now apply (Hnot sock).
    + apply NoDup_singleton.
Qed.

Lemma registry_ok_delete_ust_app_rcu w w' :
  delete_ust_app_rcu w = Some (tt, w') ->
  registry_ok w -> registry_ok w'.
Proof.
  intros H Hok. pose proof Hok as (Hfresh & Hsock & Hpid & Hrcu & Hnodup).
  unfold delete_ust_app_rcu in H.
  apply bind_Some in H as (w0 & w1 & Hw & H). injection Hw as <- <-.
  destruct (w_call_rcu w) as [|addr pending] eqn:Hq;
    [injection H as <-; exact Hok|].
  destruct (w_apps w !! addr) as [app|] eqn:Ha; [|discriminate].
  assert (Hframe : keeps_registry
            (let* _ := for_each (delete_ust_app_session (app_sock app))
                         (app_teardown_head app) in
             let* _ := extcall (c_close (app_sock app)) in
             lttng_fd_put 1)).
  { apply keeps_registry_bind.
    - apply keeps_registry_for_each. intros s.
      apply keeps_registry_delete_ust_app_session.
    - intros _. apply keeps_registry_bind;
        [apply keeps_registry_extcall|].
      intros _. apply keeps_registry_lttng_fd_put. }
  apply bind_Some in H as ([] & w2 & H1 & H).
  apply bind_Some in H as (r & w3 & H2 & H).
  apply bind_Some in H as ([] & w4 & H3 & H).
  injection H as <-.
  assert (Hrun : (let* _ := for_each (delete_ust_app_session (app_sock app))
                              (app_teardown_head app) in
                  let* _ := extcall (c_close (app_sock app)) in
                  lttng_fd_put 1) w = Some (tt, w4)).
  { rewrite (bind_eq _ _ _ _ _ H1), (bind_eq _ _ _ _ _ H2). exact H3. }
  apply Hframe in Hrun as (E1 & E2 & E3 & E4 & E5).
  destruct (Hrcu addr (or_introl eq_refl)) as [_ Hnot].
  apply NoDup_cons in Hnodup as [Hnotin Hnodup].
  unfold registry_ok.
  cbn [w_apps w_ust_app_ht w_ust_app_ht_by_sock w_call_rcu set_w_registry].
  rewrite E1, E2, E3.
  split; [|split; [|split; [|split; [|exact Hnodup]]]].
  - intros a [x Hx]. cbn in Hx |- *. rewrite E5.
    apply lookup_delete_Some in Hx as [_ Hx]. apply Hfresh. eauto.
  - intros s a Hsa. destruct (Hsock s a Hsa) as (app' & Happ & Hsk).
    exists app'. rewrite lookup_delete_ne; [auto|].
    intros ->. now apply (Hnot s).
  - intros p a Hp. destruct (Hpid p a Hp) as (app' & Happ & Hpp & Hback).
    exists app'. rewrite lookup_delete_ne; [auto|].
    intros ->. now apply (Hnot (app_sock app')).
  - intros a Hin. destruct (Hrcu a (or_intror Hin)) as ([x Hx] & Hnot').
    split; [|exact Hnot'].
    rewrite lookup_delete_ne; [eauto|].
    intros ->. apply Hnotin. now apply list_elem_of_In.
Qed.

Lemma registered_addrs_spec w a :
  In a (registered_addrs w) <-> exists p, w_ust_app_ht w !! p = Some a.
Proof.
  unfold registered_addrs. rewrite in_map_iff. split.
  - intros ([p a'] & <- & Hin). exists p.
    apply list_elem_of_In, elem_of_map_to_list in Hin. exact Hin.
  - intros [p Hp]. exists (p, a). split; [reflexivity|].
    apply list_elem_of_In, elem_of_map_to_list. exact Hp.
Qed.

Lemma registry_ok_clean_list w w' :
  ust_app_clean_list w = Some (tt, w') ->
  registry_ok w -> registry_ok w'.
Proof.
  intros H (Hfresh & Hsock & Hpid & Hrcu & Hnodup).
  injection H as <-. unfold registry_ok.
  cbn [w_apps w_ust_app_ht w_ust_app_ht_by_sock w_call_rcu set_w_registry].
  split; [exact Hfresh|].
  split; [intros s a Hsa; now rewrite lookup_empty in Hsa|].
  split; [intros p a Hp; now rewrite lookup_empty in Hp|].
  split.
  - intros a Hin. split; [|intros s; now rewrite lookup_empty].
    apply in_app_or in Hin as [Hin|Hin]; [now apply Hrcu|].
    apply registered_addrs_spec in Hin as [p Hp].
    destruct (Hpid p a Hp) as (app & Happ & _). eauto.
  - apply NoDup_app. split; [exact Hnodup|]. split.
    + intros a Hin Hin'. apply list_elem_of_In in Hin, Hin'.
      apply registered_addrs_spec in Hin' as [p Hp].
      destruct (Hpid p a Hp) as (app & _ & _ & Hback).
      destruct (Hrcu a Hin) as [_ Hnot]. now apply (Hnot (app_sock app)).
    + unfold registered_addrs.
      change (NoDup (snd <$> map_to_list (w_ust_app_ht w))).
      apply NoDup_fmap_2_strong; [|apply NoDup_map_to_list].
      intros [p1 a1] [p2 a2] H1 H2 Heq. cbn in Heq. subst a2.
      apply elem_of_map_to_list in H1, H2.
      destruct (Hpid p1 a1 H1) as (app1 & Happ1 & Hp1 & _).
      destruct (Hpid p2 a1 H2) as (app2 & Happ2 & Hp2 & _).
      f_equal. congruence.
Qed.

(** The registry operations. *)
Inductive registry_step : world -> world -> Prop :=
| step_register msg sock w r w' :
    ust_app_register msg sock w = Some (r, w') -> registry_step w w'
| step_app_unregister sock w w' :
    ust_app_unregister sock w = Some (tt, w') -> registry_step w w'
| step_delete_rcu w w' :
    delete_ust_app_rcu w = Some (tt, w') -> registry_step w w'
| step_clean_list w w' :
    ust_app_clean_list w = Some (tt, w') -> registry_step w w'.

(** The states of the registry: empty at the start of the daemon, then
    after any number of operations. *)
Inductive registry_reachable : world -> Prop :=
| registry_boot c32 c64 : registry_reachable (boot_world c32 c64)
| registry_next w w' :
    registry_reachable w -> registry_step w w' -> registry_reachable w'.

(** In every state of the registry that registrations, unregistrations,
    deferred deletions and the final clean-up lead to: a socket of the
    socket index leads to a live application that has this socket, a pid
    of the pid index to a live application that has this pid and is in
    the socket index; an application handed to [call_rcu] is still live,
    no socket leads to it any more, and it was handed over only once, so
    that its socket is closed once. *)
Theorem registry_indices_consistent (w : world) :
  registry_reachable w ->
  (forall sock app, find_app_by_sock sock w = Some app ->
                    app_sock app = sock) /\
  (forall sock, is_Some (w_ust_app_ht_by_sock w !! sock) ->
                is_Some (find_app_by_sock sock w)) /\
  (forall pid app, ust_app_find_by_pid pid w = Some app ->
                   app_pid app = pid /\
                   find_app_by_sock (app_sock app) w = Some app) /\
  (forall pid, is_Some (w_ust_app_ht w !! pid) ->
               is_Some (ust_app_find_by_pid pid w)) /\
  (forall a, In a (w_call_rcu w) ->
             is_Some (w_apps w !! a) /\
             forall sock, w_ust_app_ht_by_sock w !! sock <> Some a) /\
  NoDup (w_call_rcu w).
Proof.
  intros Hreach.
  assert (Hok : registry_ok w).
  { induction Hreach as [c32 c64|w w' _ IH Hstep];
      [apply registry_ok_boot_world|].
    destruct Hstep;
      eauto using registry_ok_register, registry_ok_unregister,
        registry_ok_delete_ust_app_rcu, registry_ok_clean_list. }
  destruct Hok as (_ & Hsock & Hpid & Hrcu & Hnodup).
  unfold find_app_by_sock, ust_app_find_by_pid.
  split; [|split; [|split; [|split; [|split; [exact Hrcu|exact Hnodup]]]]].
  - intros sock app H.
    destruct (w_ust_app_ht_by_sock w !! sock) as [a|] eqn:Hs;
      [|discriminate].
    destruct (Hsock sock a Hs) as (app' & Ha & Hsk). congruence.
  - intros sock [a Hs]. rewrite Hs.
    destruct (Hsock sock a Hs) as (app & Ha & _). eauto.
  - intros pid app H.
    destruct (w_ust_app_ht w !! pid) as [a|] eqn:Hp; [|discriminate].
    destruct (Hpid pid a Hp) as (app' & Ha & Hpp & Hback).
    assert (app' = app) as -> by congruence.
    split; [exact Hpp|]. now rewrite Hback.
  - intros pid [a Hp]. rewrite Hp.
    destruct (Hpid pid a Hp) as (app & Ha & _). eauto.
Qed.

Lemma registry_reachable_ok w : registry_reachable w -> registry_ok w.
Proof.
  induction 1 as [c32 c64|w w' _ IH Hstep];
    [apply registry_ok_boot_world|].
  destruct Hstep;
    eauto using registry_ok_register, registry_ok_unregister,
      registry_ok_delete_ust_app_rcu, registry_ok_clean_list.
Qed.


(** [ust_app_register] when the allocation of the application fails:
    -ENOMEM, and apart from the attempt nothing has happened; unlike on
    the two rejections, the socket is not closed and no descriptor is
    given back. *)
Theorem ust_app_register_enomem
    (msg : ust_register_msg) (sock : Z) (w : world) :
  ~ no_consumer_for (msg_bits_per_long msg) w ->
  msg_major msg = LTTNG_UST_COMM_MAJOR ->
  env_zmalloc (w_allocs w) = false ->
  ust_app_register msg sock w
  = Some (- ENOMEM, set_w_allocs (S (w_allocs w)) w).
Proof.
  intros Hc Hm Hz. unfold ust_app_register. run.
  assert (Hcond : ((msg_bits_per_long msg =? 64)
                   && (w_consumerd64_fd w =? - EINVAL)
                   || (msg_bits_per_long msg =? 32)
                      && (w_consumerd32_fd w =? - EINVAL)) = false).
  { apply orb_false_iff. split; apply andb_false_iff.
    - destruct (Z.eqb_spec (msg_bits_per_long msg) 64) as [H1|]; [|auto].
      right. apply Z.eqb_neq. intros H2. apply Hc. left. auto.
    - destruct (Z.eqb_spec (msg_bits_per_long msg) 32) as [H1|]; [|auto].
      right. apply Z.eqb_neq. intros H2. apply Hc. right. auto. }
  rewrite Hcond, Hm, Z.eqb_refl. cbn [negb]. rewrite Hz. reflexivity.
Qed.

(** [ust_app_unregister] never fails.  Afterwards the socket leads
    nowhere and every other socket leads where it led; a socket that led
    nowhere leaves everything as it was.  The pid of the application is
    removed from the pid index when it still led to this application, and
    only then: a pid taken over by a later registration keeps leading to
    the later application.  The application is handed to [call_rcu]. *)
Theorem ust_app_unregister_then_find (sock : Z) (w : world) :
  registry_reachable w ->
  exists w',
    ust_app_unregister sock w = Some (tt, w') /\
    find_app_by_sock sock w' = None /\
    (forall s, s <> sock ->
               find_app_by_sock s w' = find_app_by_sock s w) /\
    (find_app_by_sock sock w = None -> w' = w) /\
    (forall addr,
        w_ust_app_ht_by_sock w !! sock = Some addr ->
        w_call_rcu w' = w_call_rcu w ++ [addr] /\
        forall p,
          ust_app_find_by_pid p w'
          = if decide (w_ust_app_ht w !! p = Some addr) then None
            else ust_app_find_by_pid p w).
Proof.
  intros Hreach.
  destruct (registry_reachable_ok w Hreach)
    as (Hfresh & Hsock & Hpid & _ & _).
  unfold ust_app_unregister. run.
  unfold find_app_by_sock at 3.
  destruct (w_ust_app_ht_by_sock w !! sock) as [addr|] eqn:Hs.
  2:{ exists w. split; [reflexivity|]. unfold find_app_by_sock.
      rewrite Hs. split; [reflexivity|]. split; [reflexivity|].
      split; [reflexivity|]. intros a Ha. discriminate. }
  destruct (Hsock sock addr Hs) as (lta & Ha & Hlta). rewrite Ha.
  eexists. split; [reflexivity|].
  unfold find_app_by_sock, ust_app_find_by_pid.
  cbn [w_apps w_ust_app_ht w_ust_app_ht_by_sock w_call_rcu set_w_registry].
  rewrite lookup_delete_eq. split; [reflexivity|]. split; [|split].
  - intros s Hne. rewrite lookup_delete_ne by congruence.
    destruct (w_ust_app_ht_by_sock w !! s) as [a|] eqn:Hsa; [|reflexivity].
    destruct (Hsock s a Hsa) as (app & Happ & Hsk).
    rewrite lookup_insert_ne; [reflexivity|]. intros <-. congruence.
  - intros Hnone. rewrite ?Hs in Hnone. congruence.
  - intros a [= <-]. split; [reflexivity|]. intros p.
    assert (Hown : forall q, w_ust_app_ht w !! q = Some addr ->
                     q = app_pid lta).
    { intros q Hq. destruct (Hpid q addr Hq) as (app & Happ & Hq' & _).
      congruence. }
    destruct (decide (w_ust_app_ht w !! p = Some addr)) as [Hp|Hp].
    + rewrite <- (Hown p Hp), Hp, Nat.eqb_refl, lookup_delete_eq.
      reflexivity.
    + assert (Hsame :
        match w_ust_app_ht w !! app_pid lta with
        | Some a => if Nat.eqb a addr
                    then delete (app_pid lta) (w_ust_app_ht w)
                    else w_ust_app_ht w
        | None => w_ust_app_ht w
        end !! p = w_ust_app_ht w !! p).
      { destruct (w_ust_app_ht w !! app_pid lta) as [b|] eqn:Hb;
          [|reflexivity].
        destruct (Nat.eqb_spec b addr) as [->|Hba]; [|reflexivity].
        apply lookup_delete_ne. intros <-. congruence. }
      rewrite Hsame.
      destruct (w_ust_app_ht w !! p) as [b|] eqn:Hb; [|reflexivity].
      rewrite lookup_insert_ne; [reflexivity|]. intros <-. congruence.
Qed.

Lemma teardown_sessions_run sock sessions w :
  exists w' calls,
    for_each (delete_ust_app_session sock) sessions w = Some (tt, w') /\
    w_log w' = w_log w ++ calls /\
    Forall (release_on sock) calls /\
    w_fd_apps w'
    = w_fd_apps w - fold_right (fun s acc => session_units s + acc) 0
                      sessions /\
    w_apps w' = w_apps w /\ w_ust_app_ht w' = w_ust_app_ht w /\
    w_ust_app_ht_by_sock w' = w_ust_app_ht_by_sock w /\
    w_call_rcu w' = w_call_rcu w.
Proof.
  destruct (total_for_each (delete_ust_app_session sock) sessions
              (total_delete_ust_app_session sock) w) as ([] & w' & H).
  destruct (emits_for_each (release_on sock) _ sessions
              (emits_delete_ust_app_session sock) _ _ _ H)
    as (calls & Hlog & Hall).
  pose proof (gives_back_for_each _ session_units sessions
                (gives_back_delete_ust_app_session sock) _ _ _ H) as Hfd.
  destruct (keeps_registry_for_each _ sessions
              (keeps_registry_delete_ust_app_session sock) _ _ _ H)
    as (K1 & K2 & K3 & K4 & _).
  exists w', calls. auto 10.
Qed.

(** Writing through the pointer to an application keeps the registry in
    order as long as the application keeps its pid and its socket: the
    operations on sessions, channels and events are of this kind. *)
Lemma registry_ok_stored addr app app' w :
  registry_ok w ->
  w_apps w !! addr = Some app ->
  app_pid app' = app_pid app -> app_sock app' = app_sock app ->
  registry_ok
    (set_w_registry (<[addr := app']> (w_apps w)) (w_ust_app_ht w)
       (w_ust_app_ht_by_sock w) (w_call_rcu w) w).
Proof.
  intros (Hfresh & Hsock & Hpid & Hrcu & Hnodup) Ha Hp Hs.
  unfold registry_ok, heap_fresh.
  cbn [w_apps w_ust_app_ht w_ust_app_ht_by_sock w_call_rcu w_allocs
       set_w_registry].
  split; [|split; [|split; [|split; [|exact Hnodup]]]].
  - intros a Hsome. destruct (decide (a = addr)) as [->|Hne].
    + apply Hfresh. now rewrite Ha.
    + rewrite lookup_insert_ne in Hsome by congruence. now apply Hfresh.
  - intros s a Hsa. destruct (Hsock s a Hsa) as (x & Hx & Hxs).
    destruct (decide (a = addr)) as [->|Hne].
    + rewrite lookup_insert_eq. exists app'. split; [reflexivity|].
      congruence.
    + rewrite lookup_insert_ne by congruence. eauto.
  - intros p a Hpa. destruct (Hpid p a Hpa) as (x & Hx & Hxp & Hxs).
    destruct (decide (a = addr)) as [->|Hne].
    + rewrite lookup_insert_eq. exists app'.
      assert (x = app) as -> by congruence.
      split; [reflexivity|]. split; congruence.
    + rewrite lookup_insert_ne by congruence. eauto.
  - intros a Hin. destruct (Hrcu a Hin) as [Hlive Hno]. split; [|exact Hno].
    destruct (decide (a = addr)) as [->|Hne].
    + rewrite lookup_insert_eq. eauto.
    + now rewrite lookup_insert_ne by congruence.
Qed.

(** The teardown of an application, when the registry is in order and
    nothing else is waiting for a grace period: [ust_app_unregister]
    makes no call at all, and [delete_ust_app_rcu] then releases what
    the sessions of the application hold, on its socket, closes the
    socket, once, and gives back its descriptor and two for each tracer
    object of the sessions.  Afterwards the application is gone, the
    socket leads nowhere, and the other sockets lead where they led. *)
Theorem ust_app_teardown_closes_once
    (sock : Z) (w : world) (app : ust_app) :
  registry_ok w ->
  w_call_rcu w = [] ->
  find_app_by_sock sock w = Some app ->
  exists w1 w2 calls,
    ust_app_unregister sock w = Some (tt, w1) /\
    w_log w1 = w_log w /\
    delete_ust_app_rcu w1 = Some (tt, w2) /\
    w_log w2 = w_log w ++ calls ++ [c_close sock; c_lttng_fd_put 1] /\
    Forall (release_on sock) calls /\
    w_fd_apps w2
    = w_fd_apps w
      - fold_right (fun s acc => session_units s + acc) 0
          (rev (app_sessions app) ++ app_teardown_head app) - 1 /\
    w_call_rcu w2 = [] /\
    find_app_by_sock sock w2 = None /\
    (forall s, s <> sock -> find_app_by_sock s w2 = find_app_by_sock s w).
Proof.
  intros Hok Hq Hfind.
  destruct Hok as (Hfresh & Hsock & Hpid & _ & _).
  unfold find_app_by_sock in Hfind.
  destruct (w_ust_app_ht_by_sock w !! sock) as [addr|] eqn:Hs;
    [|discriminate].
  destruct (Hsock sock addr Hs) as (lta & Ha & Hlta).
  assert (lta = app) as -> by congruence.
  assert (Hun : exists w1,
            ust_app_unregister sock w = Some (tt, w1) /\
            w_log w1 = w_log w /\ w_fd_apps w1 = w_fd_apps w /\
            w_call_rcu w1 = [addr] /\
            w_apps w1
            = <[addr := set_app_sessions []
                          (rev (app_sessions app) ++ app_teardown_head app)
                          app]> (w_apps w) /\
            w_ust_app_ht_by_sock w1 = delete sock (w_ust_app_ht_by_sock w)).
  { unfold ust_app_unregister. run. rewrite Hs, Ha.
    eexists. split; [reflexivity|]. cbn. rewrite Hq. auto. }
  destruct Hun as (w1 & Hrun1 & L1 & F1 & Q1 & A1 & S1).
  exists w1. rewrite Hrun1.
  unfold delete_ust_app_rcu. run. rewrite Q1, A1, lookup_insert_eq.
  cbn [app_sock set_app_sessions app_teardown_head]. rewrite Hlta.
  destruct (teardown_sessions_run sock
              (rev (app_sessions app) ++ app_teardown_head app) w1)
    as (w' & calls & Hrun & Hlog & Hall & Hfd & K1 & K2 & K3 & K4).
  rewrite Hrun. run.
  eexists _, calls. split; [reflexivity|]. split; [exact L1|].
  split; [reflexivity|].
  unfold find_app_by_sock.
  cbn [w_log w_fd_apps w_apps w_ust_app_ht w_ust_app_ht_by_sock
       w_call_rcu set_w_registry set_w_log set_w_fd_apps].
  rewrite Hlog, Hfd, K1, K3, L1, F1, A1, S1.
  split; [now rewrite <- !app_assoc|].
  split; [exact Hall|]. split; [lia|]. split; [reflexivity|].
  rewrite lookup_delete_eq. split; [reflexivity|].
  intros s Hne. rewrite lookup_delete_ne by congruence.
  destruct (w_ust_app_ht_by_sock w !! s) as [a|] eqn:Hsa; [|reflexivity].
  destruct (Hsock s a Hsa) as (app' & Happ & Hsk).
  assert (a <> addr) by (intros ->; congruence).
  rewrite lookup_delete_ne by congruence.
  now rewrite lookup_insert_ne by congruence.
Qed.


End RegistryFacts.

Lemma registry_indices_consistent_witness :
  exists w app,
    registry_reachable (E := env_quiet) w /\
    ust_app_find_by_pid 100 w = Some app /\
    app_pid app = 100 /\
    find_app_by_sock (app_sock app) w = Some app.
Proof.
  destruct (ust_app_register (E := env_quiet) msg_pid100 7
              (boot_world (- EINVAL) 5))
    as [[r w]|] eqn:H; [|vm_compute in H; discriminate].
  assert (Hreach : registry_reachable (E := env_quiet) w).
  { eapply registry_next; [apply (registry_boot (- EINVAL) 5)|].
    eapply step_register. exact H. }
  destruct (registry_indices_consistent w Hreach)
    as (_ & _ & Hpid & Hsome & _).
  destruct (Hsome 100) as [app Happ].
  { pose proof H as C. vm_compute in C. injection C as _ <-.
    apply mk_is_Some with 0%nat. reflexivity. }
  exists w, app. split; [exact Hreach|]. split; [exact Happ|].
  now apply Hpid.
Defined.


Lemma ust_app_register_enomem_witness :
  ust_app_register (E := env_no_memory) msg_pid100 7
    (boot_world (- EINVAL) 5)
  = Some (- ENOMEM, set_w_allocs 1 (boot_world (- EINVAL) 5)).
Proof.
  apply (ust_app_register_enomem (E := env_no_memory) msg_pid100 7
           (boot_world (- EINVAL) 5)).
  - intros [[_ H]|[H _]]; discriminate.
  - reflexivity.
  - reflexivity.
Defined.

Lemma ust_app_unregister_then_find_witness :
  exists w w',
    ust_app_register (E := env_quiet) msg_pid100 7 (boot_world (- EINVAL) 5)
    = Some (0, w) /\
    ust_app_unregister 7 w = Some (tt, w') /\
    find_app_by_sock 7 w' = None.
Proof.
  destruct (ust_app_register (E := env_quiet) msg_pid100 7
              (boot_world (- EINVAL) 5))
    as [[r w]|] eqn:H; [|vm_compute in H; discriminate].
  assert (r = 0) as ->
    by (pose proof H as C; vm_compute in C; now injection C as <- _).
  assert (Hreach : registry_reachable (E := env_quiet) w).
  { eapply registry_next; [apply (registry_boot (- EINVAL) 5)|].
    eapply step_register. exact H. }
  destruct (ust_app_unregister_then_find (E := env_quiet) 7 w Hreach)
    as (w' & Hrun & Hgone & _).
  exists w, w'. split; [reflexivity|]. split; [exact Hrun|exact Hgone].
Defined.

Lemma registry_ok_world_app_started : registry_ok world_app_started.
Proof.
  unfold registry_ok, heap_fresh, world_app_started.
  cbn [w_apps w_ust_app_ht w_ust_app_ht_by_sock w_call_rcu w_allocs
       set_w_registry set_w_allocs boot_world].
  split; [|split; [|split; [|split]]].
  - intros a [x Hx]. apply lookup_singleton_Some in Hx as [<- _]. lia.
  - intros s a Hsa. apply lookup_singleton_Some in Hsa as [<- <-].
    exists app_started. split; [apply lookup_singleton_eq|reflexivity].
  - intros p a Hpa. apply lookup_singleton_Some in Hpa as [<- <-].
    exists app_started. split; [apply lookup_singleton_eq|].
    split; [reflexivity|]. apply lookup_singleton_eq.
  - intros a [].
  - apply NoDup_nil. exact I.
Qed.

Lemma ust_app_teardown_closes_once_witness :
  exists w1 w2,
    ust_app_unregister 7 world_app_started = Some (tt, w1) /\
    delete_ust_app_rcu (E := env_quiet) w1 = Some (tt, w2) /\
    w_log w2
    = [c_ustctl_release_object 7 10; c_lttng_fd_put 2;
       c_ustctl_release_object 7 11; c_lttng_fd_put 2;
       c_ustctl_release_object 7 12; c_lttng_fd_put 2;
       c_ustctl_release_handle 7 3;
       c_close 7; c_lttng_fd_put 1] /\
    w_fd_apps w2 = -7 /\
    find_app_by_sock 7 w2 = None.
Proof.
  destruct (ust_app_teardown_closes_once (E := env_quiet) 7
              world_app_started app_started registry_ok_world_app_started
              eq_refl eq_refl)
    as (w1 & w2 & calls & Hun & _ & Hdel & Hlog2 & Hall & Hfd & _ & Hgone
        & _).
  exists w1, w2. split; [exact Hun|]. split; [exact Hdel|].
  split; [|split; [rewrite Hfd; reflexivity|exact Hgone]].
  pose proof Hun as C1. vm_compute in C1. injection C1 as <-.
  pose proof Hdel as C2. vm_compute in C2. injection C2 as <-.
  reflexivity.
Defined.

(** ** Loops over the registered applications *)

(** The state after the writes through the [app] pointer of an
    iteration. *)
Definition stored (addr : nat) (app : ust_app) (w : world) : world :=
  set_w_registry (<[addr := app]> (w_apps w)) (w_ust_app_ht w)
    (w_ust_app_ht_by_sock w) (w_call_rcu w) w.

Section LoopFacts.
Context `{E : environment}.

Lemma for_each_app_skip body addr rest r w :
  w_apps w !! addr = None ->
  for_each_app body (addr :: rest) r w = for_each_app body rest r w.
Proof. intros H. cbn [for_each_app]. run. now rewrite H. Qed.

Lemma for_each_app_next body addr rest r w app r1 app1 w1 :
  w_apps w !! addr = Some app ->
  body app r w = Some ((next_app, r1, app1), w1) ->
  for_each_app body (addr :: rest) r w
  = for_each_app body rest r1 (stored addr app1 w1).
Proof.
  intros H Hb. cbn [for_each_app]. run. rewrite H, Hb. reflexivity.
Qed.

Lemma for_each_app_leave body addr rest r w app r1 app1 w1 :
  w_apps w !! addr = Some app ->
  body app r w = Some ((leave_loop, r1, app1), w1) ->
  for_each_app body (addr :: rest) r w = Some (r1, stored addr app1 w1).
Proof.
  intros H Hb. cbn [for_each_app]. run. rewrite H, Hb. reflexivity.
Qed.

(** One iteration, inverted. *)
Lemma for_each_app_inv body addr rest r w r' w' :
  for_each_app body (addr :: rest) r w = Some (r', w') ->
  (w_apps w !! addr = None /\
   for_each_app body rest r w = Some (r', w')) \/
  exists app exit r1 app1 w1,
    w_apps w !! addr = Some app /\
    body app r w = Some ((exit, r1, app1), w1) /\
    match exit with
    | leave_loop => r' = r1 /\ w' = stored addr app1 w1
    | next_app =>
        for_each_app body rest r1 (stored addr app1 w1) = Some (r', w')
    end.
Proof.
  cbn [for_each_app]. run. intros H.
  destruct (w_apps w !! addr) as [app|] eqn:Ha; [right|left; now split].
  destruct (body app r w) as [[[[exit r1] app1] w1]|] eqn:Hb;
    [|discriminate].
  exists app, exit, r1, app1, w1.
  split; [reflexivity|]. split; [exact Hb|].
  unfold store_app in H. destruct exit; [exact H|].
  injection H as <- <-. now split.
Qed.

End LoopFacts.

(** ** Computations that leave the registry alone *)

(** The application objects, the two indices and the [call_rcu] queue
    are as before. *)
Definition keeps_apps {A : Type} (m : M A) : Prop :=
  forall w a w', m w = Some (a, w') ->
    w_apps w' = w_apps w /\ w_ust_app_ht w' = w_ust_app_ht w /\
    w_ust_app_ht_by_sock w' = w_ust_app_ht_by_sock w /\
    w_call_rcu w' = w_call_rcu w.

Lemma keeps_apps_ret {A : Type} (a : A) : keeps_apps (ret a).
Proof. intros w a' w' H. injection H as _ <-. auto. Qed.

Lemma keeps_apps_bind {A B : Type} (m : M A) (k : A -> M B) :
  keeps_apps m -> (forall a, keeps_apps (k a)) -> keeps_apps (bind m k).
Proof.
  intros Hm Hk w b w' H. apply bind_Some in H as (a & w1 & H1 & H2).
  apply Hm in H1 as (A1 & A2 & A3 & A4).
  apply Hk in H2 as (B1 & B2 & B3 & B4).
  repeat split; congruence.
Qed.

Lemma keeps_apps_assert b : keeps_apps (assert b).
Proof.
  intros w a w' H. unfold assert in H. destruct b; [|discriminate].
  injection H as _ <-. auto.
Qed.

Lemma keeps_apps_get_world : keeps_apps get_world.
Proof. intros w a w' H. injection H as _ <-. auto. Qed.

Lemma keeps_apps_for_each {A : Type} (f : A -> M unit) l :
  (forall x, keeps_apps (f x)) -> keeps_apps (for_each f l).
Proof.
  intros Hf. induction l as [|x l IH]; simpl.
  - apply keeps_apps_ret.
  - apply keeps_apps_bind; [apply Hf | intros _; exact IH].
Qed.

Lemma keeps_apps_silent {A : Type} (m : M A) : silent m -> keeps_apps m.
Proof.
  intros Hs w a w' H. destruct (Hs _ _ _ H) as (_ & _ & S1 & S2 & S3 & S4).
  auto.
Qed.

Lemma keeps_apps_registry {A : Type} (m : M A) :
  keeps_registry m -> keeps_apps m.
Proof.
  intros Hk w a w' H. destruct (Hk _ _ _ H) as (K1 & K2 & K3 & K4 & _).
  auto.
Qed.

Create HintDb keeps discriminated.

#[export] Hint Resolve keeps_apps_ret keeps_apps_assert keeps_apps_get_world
  : keeps.

Ltac step_keeps_apps :=
  repeat first
    [ solve [auto with keeps]
    | apply keeps_apps_for_each; intros ?
    | apply keeps_apps_bind; [|intros ?]
    | match goal with
      | |- keeps_apps (if ?c then _ else _) => destruct c
      | |- keeps_apps (match ?x with _ => _ end) => destruct x
      | |- keeps_apps (let (_, _) := ?x in _) => destruct x
      end ].

Section KeepsApps.
Context `{E : environment}.

Lemma keeps_apps_extcall c : keeps_apps (extcall c).
Proof. intros w a w' H. injection H as _ <-. cbn. auto. Qed.

Lemma keeps_apps_zmalloc : keeps_apps zmalloc.
Proof. intros w a w' H. injection H as _ <-. cbn. auto. Qed.

Lemma keeps_apps_get_next_channel_key : keeps_apps get_next_channel_key.
Proof. intros w a w' H. injection H as _ <-. cbn. auto. Qed.

Lemma keeps_apps_lttng_fd_get nr : keeps_apps (lttng_fd_get nr).
Proof.
  intros w a w' H. unfold lttng_fd_get in H. run in H.
  destruct (_ <? 0); injection H as _ <-; cbn; auto.
Qed.

Lemma keeps_apps_lttng_fd_put nr : keeps_apps (lttng_fd_put nr).
Proof.
  intros w a w' H. unfold lttng_fd_put in H. run in H.
  injection H as _ <-. cbn. auto.
Qed.

#[local] Hint Resolve keeps_apps_extcall keeps_apps_zmalloc
  keeps_apps_get_next_channel_key keeps_apps_lttng_fd_get
  keeps_apps_lttng_fd_put : keeps.

Lemma keeps_apps_delete_ust_app_session sock s :
  keeps_apps (delete_ust_app_session sock s).
Proof. apply keeps_apps_registry, keeps_registry_delete_ust_app_session. Qed.

Lemma keeps_apps_delete_ust_app_channel sock c :
  keeps_apps (delete_ust_app_channel sock c).
Proof.
  unfold delete_ust_app_channel, delete_ust_app_stream, delete_ust_app_ctx,
    delete_ust_app_event.
  step_keeps_apps.
Qed.

Lemma keeps_apps_shadow_copy_session ua_sess usess app :
  keeps_apps (shadow_copy_session ua_sess usess app).
Proof.
  apply keeps_apps_silent. unfold shadow_copy_session.
  apply silent_bind; [apply silent_get_world|]. intros w0.
  apply silent_bind; [apply silent_shadow_copy_channels|].
  intros chs. apply silent_ret.
Qed.

#[local] Hint Resolve keeps_apps_delete_ust_app_session
  keeps_apps_delete_ust_app_channel keeps_apps_shadow_copy_session : keeps.

Lemma keeps_apps_send_streams_to_ust app ua_chan streams :
  keeps_apps (send_streams_to_ust app ua_chan streams).
Proof.
  induction streams as [|s l IH]; cbn [send_streams_to_ust];
    [apply keeps_apps_ret|].
  unfold delete_ust_app_stream. step_keeps_apps; exact IH.
Qed.

#[local] Hint Resolve keeps_apps_send_streams_to_ust : keeps.

Lemma keeps_apps_create_ust_channel app ua_sess ua_chan consumer :
  keeps_apps (create_ust_channel app ua_sess ua_chan consumer).
Proof.
  unfold create_ust_channel, find_consumer_socket_by_bitness,
    ust_consumer_ask_channel, ust_consumer_get_channel, disable_ust_channel.
  step_keeps_apps.
Qed.

#[local] Hint Resolve keeps_apps_create_ust_channel : keeps.

Lemma keeps_apps_create_ust_app_session usess app :
  keeps_apps (create_ust_app_session usess app).
Proof.
  unfold create_ust_app_session, alloc_ust_app_session, add_unique_session.
  step_keeps_apps.
Qed.

Lemma keeps_apps_destroy_session app ua_sess :
  keeps_apps (destroy_session app ua_sess).
Proof. unfold destroy_session. step_keeps_apps. Qed.

Lemma keeps_apps_create_ust_app_metadata ua_sess app consumer :
  keeps_apps (create_ust_app_metadata ua_sess app consumer).
Proof.
  unfold create_ust_app_metadata, alloc_ust_app_channel. step_keeps_apps.
Qed.

#[local] Hint Resolve keeps_apps_create_ust_app_session
  keeps_apps_destroy_session keeps_apps_create_ust_app_metadata : keeps.

Lemma keeps_apps_ust_app_start_trace usess app :
  keeps_apps (ust_app_start_trace usess app).
Proof. unfold ust_app_start_trace. step_keeps_apps. Qed.

Lemma keeps_apps_global_update_ctxs ua_chan app ctxs :
  keeps_apps (global_update_ctxs ua_chan app ctxs).
Proof.
  induction ctxs as [|c l IH]; cbn [global_update_ctxs];
    [apply keeps_apps_ret|].
  unfold create_ust_channel_context. step_keeps_apps; exact IH.
Qed.

Lemma keeps_apps_global_update_events app ua_sess ua_chan events :
  keeps_apps (global_update_events app ua_sess ua_chan events).
Proof.
  induction events as [|e l IH]; cbn [global_update_events];
    [apply keeps_apps_ret|].
  unfold create_ust_event, set_ust_event_filter, disable_ust_event.
  step_keeps_apps; exact IH.
Qed.

#[local] Hint Resolve keeps_apps_ust_app_start_trace
  keeps_apps_global_update_ctxs keeps_apps_global_update_events : keeps.

Lemma keeps_apps_global_update_channels usess app ua_sess channels :
  keeps_apps (global_update_channels usess app ua_sess channels).
Proof.
  induction channels as [|c l IH]; cbn [global_update_channels];
    [apply keeps_apps_ret|].
  step_keeps_apps; exact IH.
Qed.

#[local] Hint Resolve keeps_apps_global_update_channels : keeps.

Lemma keeps_apps_ust_app_global_update_one usess app :
  keeps_apps (ust_app_global_update_one usess app).
Proof. unfold ust_app_global_update_one. step_keeps_apps. Qed.

End KeepsApps.

#[export] Hint Resolve keeps_apps_extcall keeps_apps_zmalloc
  keeps_apps_get_next_channel_key keeps_apps_lttng_fd_get
  keeps_apps_lttng_fd_put keeps_apps_delete_ust_app_session
  keeps_apps_delete_ust_app_channel keeps_apps_shadow_copy_session
  keeps_apps_send_streams_to_ust keeps_apps_create_ust_channel
  keeps_apps_create_ust_app_session keeps_apps_destroy_session
  keeps_apps_create_ust_app_metadata keeps_apps_ust_app_start_trace
  keeps_apps_global_update_ctxs keeps_apps_global_update_events
  keeps_apps_global_update_channels keeps_apps_ust_app_global_update_one
  : keeps.

(** ** What a loop over the applications keeps *)

Section LoopInvariant.
Context `{E : environment}.

(** The body of the loop, a property [Inv] that every application object
    has and keeps, a relation [Rel] between an application before and
    after the body, a property [Post] that the body establishes and that
    [Rel] preserves, and the codes [Leave] with which the body leaves the
    loop. *)
Variable body : ust_app -> Z -> M (loop_exit * Z * ust_app).
Variables Inv Post : ust_app -> Prop.
Variable Rel : ust_app -> ust_app -> Prop.
Variable Leave : Z -> Prop.

Hypothesis Rel_refl : forall a, Rel a a.
Hypothesis Rel_trans : forall a b c, Rel a b -> Rel b c -> Rel a c.
Hypothesis Post_Rel : forall a b, Post a -> Rel a b -> Post b.
Hypothesis body_ok :
  forall app r w exit r1 app1 w1,
    Inv app -> ~ Leave r ->
    body app r w = Some ((exit, r1, app1), w1) ->
    keeps_apps (body app r) /\ Rel app app1 /\ Inv app1 /\
    match exit with
    | next_app => ~ Leave r1 /\ Post app1
    | leave_loop => Leave r1
    end.

Lemma for_each_app_invariant addrs r w r' w' :
  (forall a app, w_apps w !! a = Some app -> Inv app) ->
  ~ Leave r ->
  for_each_app body addrs r w = Some (r', w') ->
  w_ust_app_ht w' = w_ust_app_ht w /\
  w_ust_app_ht_by_sock w' = w_ust_app_ht_by_sock w /\
  w_call_rcu w' = w_call_rcu w /\
  (forall a, w_apps w !! a = None -> w_apps w' !! a = None) /\
  (forall a app, w_apps w !! a = Some app ->
     exists app', w_apps w' !! a = Some app' /\ Rel app app' /\ Inv app') /\
  (~ Leave r' ->
   forall a app', In a addrs -> w_apps w' !! a = Some app' -> Post app').
Proof.
  revert r w. induction addrs as [|a rest IH]; intros r w HI HL H.
  - injection H as <- <-. repeat (split; [reflexivity|]).
    split; [auto|]. split; [eauto|]. intros _ a app' [].
  - apply for_each_app_inv in H
      as [[Ha H]|(app & exit & r1 & app1 & w1 & Ha & Hb & H)].
    + destruct (IH _ _ HI HL H) as (A1 & A2 & A3 & A4 & A5 & A6).
      repeat (split; [assumption|]).
      intros HL' b app' [<-|Hin] Hb; [|eauto].
      rewrite (A4 _ Ha) in Hb. discriminate.
    + destruct (body_ok _ _ _ _ _ _ _ (HI _ _ Ha) HL Hb)
        as (Hkeep & HR & HI1 & Hexit).
      destruct (Hkeep _ _ _ Hb) as (K1 & K2 & K3 & K4).
      assert (HI' : forall b x, w_apps (stored a app1 w1) !! b = Some x ->
                                Inv x).
      { intros b x. unfold stored. cbn [w_apps set_w_registry].
        destruct (decide (b = a)) as [->|Hne].
        - rewrite lookup_insert_eq. now intros [= <-].
        - rewrite lookup_insert_ne, K1 by congruence. apply HI. }
      assert (Hstep :
        w_ust_app_ht (stored a app1 w1) = w_ust_app_ht w /\
        w_ust_app_ht_by_sock (stored a app1 w1) = w_ust_app_ht_by_sock w /\
        w_call_rcu (stored a app1 w1) = w_call_rcu w /\
        (forall b, w_apps w !! b = None ->
                   w_apps (stored a app1 w1) !! b = None) /\
        (forall b x, w_apps w !! b = Some x ->
           exists x', w_apps (stored a app1 w1) !! b = Some x' /\
                      Rel x x' /\ Inv x')).
      { unfold stored. cbn [w_apps w_ust_app_ht w_ust_app_ht_by_sock
                              w_call_rcu set_w_registry].
        repeat (split; [assumption|]). split.
        - intros b Hb'. rewrite lookup_insert_ne, K1 by congruence.
          exact Hb'.
        - intros b x Hx. destruct (decide (b = a)) as [->|Hne].
          + rewrite lookup_insert_eq. exists app1.
            assert (x = app) as -> by congruence. auto.
          + rewrite lookup_insert_ne, K1 by congruence.
            exists x. eauto. }
      destruct Hstep as (S1 & S2 & S3 & S4 & S5).
      destruct exit.
      * destruct Hexit as [HL1 HQ].
        destruct (IH _ _ HI' HL1 H) as (A1 & A2 & A3 & A4 & A5 & A6).
        split; [congruence|]. split; [congruence|]. split; [congruence|].
        split; [auto|]. split.
        -- intros b x Hx. destruct (S5 _ _ Hx) as (x' & Hx' & HR' & _).
           destruct (A5 _ _ Hx') as (x'' & Hx'' & HR'' & HI'').
           exists x''. eauto.
        -- intros HL' b app' [<-|Hin] Hb'; [|eauto].
           assert (Hs : w_apps (stored a app1 w1) !! a = Some app1)
             by (unfold stored; cbn; apply lookup_insert_eq).
           destruct (A5 _ _ Hs) as (x'' & Hx'' & HR'' & _).
           assert (x'' = app') as -> by congruence. eauto.
      * destruct H as [-> ->].
        repeat (split; [assumption|]). intros HL'. contradiction.
Qed.

End LoopInvariant.

Section EventLoop.
Context `{E : environment}.

(** [create_ust_app_event] never answers that the event exists on the
    tracer: it stops the daemon instead. *)
Lemma create_ust_app_event_not_exist ua_sess ua_chan uevent app w r c w' :
  create_ust_app_event ua_sess ua_chan uevent app w = Some ((r, c), w') ->
  r <> - LTTNG_UST_ERR_EXIST.
Proof.
  unfold create_ust_app_event. intros H. minv_all H.
  - unfold assert in H3.
    destruct (negb (r =? - LTTNG_UST_ERR_EXIST)) eqn:Hn; [|discriminate].
    apply negb_true_iff, Z.eqb_neq in Hn. exact Hn.
  - apply Z.ltb_ge in Hc0. unfold LTTNG_UST_ERR_EXIST. lia.
Qed.

Lemma create_event_body_next usess uchan uevent app r0 w r1 app1 w1 :
  ust_app_create_event_glb_body usess uchan uevent app r0 w
  = Some ((next_app, r1, app1), w1) ->
  0 <= r0 -> 0 <= r1.
Proof.
  unfold ust_app_create_event_glb_body. intros H Hr0.
  minv_all H; try assumption.
  apply create_ust_app_event_not_exist in H0.
  apply andb_false_iff in Hc0 as [Hc0|Hc0].
  - now apply Z.ltb_ge.
  - apply negb_false_iff, Z.eqb_eq in Hc0. contradiction.
Qed.

Lemma create_event_loop_stops usess uchan uevent addrs r0 w r w' :
  for_each_app (ust_app_create_event_glb_body usess uchan uevent)
    addrs r0 w = Some (r, w') ->
  0 <= r0 -> r < 0 ->
  exists pre addr post r1 w1 app app1 w2,
    addrs = pre ++ addr :: post /\
    for_each_app (ust_app_create_event_glb_body usess uchan uevent)
      pre r0 w = Some (r1, w1) /\
    0 <= r1 /\
    w_apps w1 !! addr = Some app /\
    ust_app_create_event_glb_body usess uchan uevent app r1 w1
    = Some ((leave_loop, r, app1), w2) /\
    w' = stored addr app1 w2.
Proof.
  revert r0 w. induction addrs as [|a rest IH]; intros r0 w H Hr0 Hr.
  - injection H as <- _. lia.
  - apply for_each_app_inv in H
      as [[Ha H]|(app & exit & r1 & app1 & w1 & Ha & Hb & H)].
    + destruct (IH _ _ H Hr0 Hr)
        as (pre & addr & post & r2 & w2 & app2 & app3 & w3
            & -> & Hpre & Hr2 & Hin & Hbody & ->).
      exists (a :: pre), addr, post, r2, w2, app2, app3, w3.
      rewrite for_each_app_skip by exact Ha. auto 10.
    + destruct exit.
      * pose proof (create_event_body_next _ _ _ _ _ _ _ _ _ Hb Hr0) as Hr1.
        destruct (IH _ _ H Hr1 Hr)
          as (pre & addr & post & r2 & w2 & app2 & app3 & w3
              & -> & Hpre & Hr2 & Hin & Hbody & ->).
        exists (a :: pre), addr, post, r2, w2, app2, app3, w3.
        rewrite (for_each_app_next _ _ _ _ _ _ _ _ _ Ha Hb). auto 10.
      * destruct H as [-> ->].
        exists [], a, rest, r0, w, app, app1, w1. auto 10.
Qed.

End EventLoop.

Lemma stored_same addr app w :
  w_apps w !! addr = Some app -> stored addr app w = w.
Proof.
  intros H. unfold stored. rewrite insert_id by exact H. now destruct w.
Qed.

Section EventLoop2.
Context `{E : environment}.

Lemma create_event_body_leave usess uchan uevent app r0 w r1 app1 w1 :
  ust_app_create_event_glb_body usess uchan uevent app r0 w
  = Some ((leave_loop, r1, app1), w1) ->
  r1 < 0.
Proof.
  unfold ust_app_create_event_glb_body. intros H.
  minv_all H.
  apply andb_true_iff in Hc0 as [Hc0 _]. now apply Z.ltb_lt.
Qed.

(** A loop that came to its end with a code that is not negative went
    through all the applications, and goes on from there. *)
Lemma create_event_loop_app usess uchan uevent pre rest r0 w r1 w1 :
  for_each_app (ust_app_create_event_glb_body usess uchan uevent)
    pre r0 w = Some (r1, w1) ->
  0 <= r1 ->
  for_each_app (ust_app_create_event_glb_body usess uchan uevent)
    (pre ++ rest) r0 w
  = for_each_app (ust_app_create_event_glb_body usess uchan uevent)
      rest r1 w1.
Proof.
  revert r0 w. induction pre as [|a pre IH]; intros r0 w H Hr1.
  - now injection H as <- <-.
  - rewrite <- app_comm_cons.
    apply for_each_app_inv in H
      as [[Ha H]|(app & exit & r2 & app1 & w2 & Ha & Hb & H)].
    + rewrite for_each_app_skip by exact Ha. now apply IH.
    + destruct exit.
      * rewrite (for_each_app_next _ _ _ _ _ _ _ _ _ Ha Hb). now apply IH.
      * destruct H as [-> ->].
        apply create_event_body_leave in Hb. lia.
Qed.

(** The body on an application that has the event already. *)
Lemma create_event_body_exists usess uchan uevent app ua_sess ua_chan r0 w :
  app_compatible app <> 0 ->
  lookup_session_by_app usess app = Some ua_sess ->
  lookup_channel (s_channels ua_sess) (uchan_name uchan) = Some ua_chan ->
  find_ust_app_event env_hash_str (ch_events ua_chan)
    (attr_name (uevent_attr uevent)) (uevent_filter uevent)
    (attr_loglevel (uevent_attr uevent)) <> None ->
  ust_app_create_event_glb_body usess uchan uevent app r0 w
  = Some ((leave_loop, - EEXIST, app), w).
Proof.
  intros Hcompat Hs Hc Hev.
  unfold ust_app_create_event_glb_body, create_ust_app_event.
  apply Z.eqb_neq in Hcompat. rewrite Hcompat, Hs, Hc.
  destruct (find_ust_app_event _ _ _ _ _) as [ev|]; [|contradiction].
  run. cbn.
  pose proof (lookup_channel_name _ _ _ Hc) as Hn.
  rewrite store_channel_same by (now rewrite Hn).
  replace (set_s_channels (s_channels ua_sess) ua_sess) with ua_sess
    by (now destruct ua_sess).
  now rewrite (app_store_session_same _ _ _ Hs).
Qed.

(** [ust_app_create_event_glb] leaves its loop at the first
    application on which the creation fails, and an application that has
    the event already counts as a failure, with -EEXIST: when the
    iteration reaches such an application without an earlier failure, the
    function returns -EEXIST in the state it had there, and the
    applications after it are not visited.  A negative result always
    comes from one application at which the loop stopped, the state being
    the one this application's creation left. *)
Theorem ust_app_create_event_glb_stops
    (usess : ltt_ust_session) (uchan : ltt_ust_channel)
    (uevent : ltt_ust_event) (w : world) :
  let body := ust_app_create_event_glb_body usess uchan uevent in
  (forall pre addr post r1 w1 app ua_sess ua_chan,
      registered_addrs w = pre ++ addr :: post ->
      for_each_app body pre 0 w = Some (r1, w1) -> 0 <= r1 ->
      w_apps w1 !! addr = Some app ->
      app_compatible app <> 0 ->
      lookup_session_by_app usess app = Some ua_sess ->
      lookup_channel (s_channels ua_sess) (uchan_name uchan)
      = Some ua_chan ->
      find_ust_app_event env_hash_str (ch_events ua_chan)
        (attr_name (uevent_attr uevent)) (uevent_filter uevent)
        (attr_loglevel (uevent_attr uevent)) <> None ->
      ust_app_create_event_glb usess uchan uevent w
      = Some (- EEXIST, w1)) /\
  (forall r w',
      ust_app_create_event_glb usess uchan uevent w = Some (r, w') ->
      r < 0 ->
      exists pre addr post r1 w1 app ua_sess ua_chan ua_chan' w2,
        registered_addrs w = pre ++ addr :: post /\
        for_each_app body pre 0 w = Some (r1, w1) /\ 0 <= r1 /\
        w_apps w1 !! addr = Some app /\
        lookup_session_by_app usess app = Some ua_sess /\
        lookup_channel (s_channels ua_sess) (uchan_name uchan)
        = Some ua_chan /\
        create_ust_app_event ua_sess ua_chan uevent app w1
        = Some ((r, ua_chan'), w2) /\
        w' = stored addr
               (app_store_session app
                  (set_s_channels
                     (store_channel (s_channels ua_sess) ua_chan')
                     ua_sess)) w2).
Proof.
  intros body. split.
  - intros pre addr post r1 w1 app ua_sess ua_chan Hreg Hpre Hr1 Ha
      Hcompat Hs Hc Hev.
    unfold ust_app_create_event_glb. run. rewrite Hreg.
    fold body. unfold body.
    rewrite (create_event_loop_app _ _ _ _ _ _ _ _ _ Hpre Hr1).
    rewrite (for_each_app_leave _ _ _ _ _ _ _ _ _ Ha
               (create_event_body_exists _ _ _ _ _ _ _ _ Hcompat Hs Hc Hev)).
    now rewrite stored_same.
  - intros r w' H Hr. unfold ust_app_create_event_glb in H. run in H.
    apply create_event_loop_stops in H; [|lia|exact Hr].
    destruct H as (pre & addr & post & r1 & w1 & app & app1 & w2
                   & Hreg & Hpre & Hr1 & Ha & Hb & ->).
    unfold ust_app_create_event_glb_body in Hb. minv_all Hb.
    exists pre, addr, post, r1, w1, app, u, u0, u1, w2. auto 12.
Qed.

End EventLoop2.

(** ** Enabling a channel for all the applications *)

Section EnableChannelLoop.
Context `{E : environment}.

(** The call that [ust_app_enable_channel_glb] makes for an application:
    none unless the application is compatible and has the session and
    the channel. *)
Definition enable_channel_call (usess : ltt_ust_session)
    (uchan : ltt_ust_channel) (app : ust_app) : list call :=
  if app_compatible app =? 0 then []
  else
    match lookup_session_by_app usess app with
    | None => []
    | Some ua_sess =>
        match lookup_channel (s_channels ua_sess) (uchan_name uchan) with
        | None => []
        | Some ua_chan => [c_ustctl_enable (app_sock app) (ch_obj ua_chan)]
        end
    end.

(** The calls for the applications at [addrs], in this order. *)
Definition enable_channel_calls (usess : ltt_ust_session)
    (uchan : ltt_ust_channel) (w : world) (addrs : list nat) : list call :=
  flat_map (fun addr => match w_apps w !! addr with
                        | None => []
                        | Some app => enable_channel_call usess uchan app
                        end) addrs.

(** [ret] after the body for one application, from [ret] and the log
    before it. *)
Definition enable_channel_code (usess : ltt_ust_session)
    (uchan : ltt_ust_channel) (app : ust_app) (log : list call) (r : Z)
    : Z :=
  if app_compatible app =? 0 then r
  else
    match lookup_session_by_app usess app with
    | None => r
    | Some ua_sess =>
        match lookup_channel (s_channels ua_sess) (uchan_name uchan) with
        | None => 0
        | Some ua_chan =>
            env_ret log (c_ustctl_enable (app_sock app) (ch_obj ua_chan))
        end
    end.

(** [ret] after the applications at [addrs]. *)
Fixpoint enable_channel_codes (usess : ltt_ust_session)
    (uchan : ltt_ust_channel) (w : world) (addrs : list nat)
    (log : list call) (r : Z) : Z :=
  match addrs with
  | [] => r
  | addr :: rest =>
      match w_apps w !! addr with
      | None => enable_channel_codes usess uchan w rest log r
      | Some app =>
          enable_channel_codes usess uchan w rest
            (log ++ enable_channel_call usess uchan app)
            (enable_channel_code usess uchan app log r)
      end
  end.

(** One application: the call is made, its answer is the code, and the
    application makes the same call the next time. *)
Lemma enable_channel_body_run usess uchan app r0 w :
  exists app1,
    ust_app_enable_channel_glb_body usess uchan app r0 w
    = Some ((next_app, enable_channel_code usess uchan app (w_log w) r0,
             app1),
            set_w_log (w_log w ++ enable_channel_call usess uchan app) w) /\
    (forall log r, enable_channel_code usess uchan app1 log r
                   = enable_channel_code usess uchan app log r) /\
    enable_channel_call usess uchan app1
    = enable_channel_call usess uchan app.
Proof.
  unfold ust_app_enable_channel_glb_body, enable_channel_call,
    enable_channel_code.
  destruct (app_compatible app =? 0) eqn:Hcompat.
  { exists app. rewrite Hcompat, app_nil_r. split; [now destruct w|].
    split; reflexivity. }
  destruct (lookup_session_by_app usess app) as [ua_sess|] eqn:Hs.
  2:{ exists app. rewrite Hcompat, Hs, app_nil_r.
      split; [now destruct w|split; reflexivity]. }
  pose proof (lookup_session_id _ _ _ Hs) as Hid.
  unfold enable_ust_app_channel.
  destruct (lookup_channel (s_channels ua_sess) (uchan_name uchan))
    as [ua_chan|] eqn:Hc.
  2:{ exists app. run. rewrite (app_store_session_same _ _ _ Hs).
      rewrite Hcompat, Hs, Hc, app_nil_r.
      split; [now destruct w|split; reflexivity]. }
  pose proof (lookup_channel_name _ _ _ Hc) as Hname.
  unfold enable_ust_channel. run.
  set (r := env_ret (w_log w) _).
  assert (Hkeep : forall c,
             ch_name c = uchan_name uchan -> ch_obj c = ch_obj ua_chan ->
             let app1 := app_store_session app
                           (set_s_channels
                              (store_channel (s_channels ua_sess) c)
                              ua_sess) in
             app_compatible app1 = app_compatible app /\
             app_sock app1 = app_sock app /\
             exists s1 c1,
               lookup_session_by_app usess app1 = Some s1 /\
               lookup_channel (s_channels s1) (uchan_name uchan) = Some c1 /\
               ch_obj c1 = ch_obj ua_chan).
  { intros c Hn Ho app1. split; [reflexivity|]. split; [reflexivity|].
    eexists _, c. split; [|split; [|exact Ho]].
    - subst app1. eapply lookup_app_store_session; [exact Hs|exact Hid].
    - cbn [set_s_channels s_channels]. rewrite <- Hn.
      eapply lookup_store_channel. rewrite Hn. exact Hc. }
  destruct (r <? 0); run; eexists; (split; [reflexivity|]).
  - destruct (Hkeep ua_chan Hname eq_refl)
      as (-> & -> & s1 & c1 & -> & -> & ->).
    rewrite Hcompat. split; reflexivity.
  - destruct (Hkeep (set_ch_enabled 1 ua_chan) Hname eq_refl)
      as (-> & -> & s1 & c1 & -> & -> & ->).
    rewrite Hcompat. split; reflexivity.
Qed.

Lemma enable_channel_stored usess uchan addr app app1 w w1 :
  w_apps w !! addr = Some app ->
  (forall log r, enable_channel_code usess uchan app1 log r
                 = enable_channel_code usess uchan app log r) ->
  enable_channel_call usess uchan app1 = enable_channel_call usess uchan app ->
  w_apps w1 = w_apps w ->
  forall addrs,
    enable_channel_calls usess uchan (stored addr app1 w1) addrs
    = enable_channel_calls usess uchan w addrs /\
    forall log r,
      enable_channel_codes usess uchan (stored addr app1 w1) addrs log r
      = enable_channel_codes usess uchan w addrs log r.
Proof.
  intros Ha Hcode Hcall Hw addrs.
  assert (Hlook : forall b,
             match w_apps (stored addr app1 w1) !! b with
             | None => w_apps w !! b = None
             | Some x =>
                 exists y, w_apps w !! b = Some y /\
                   enable_channel_call usess uchan x
                   = enable_channel_call usess uchan y /\
                   forall log r, enable_channel_code usess uchan x log r
                                 = enable_channel_code usess uchan y log r
             end).
  { intros b. unfold stored. cbn [w_apps set_w_registry]. rewrite Hw.
    destruct (decide (b = addr)) as [->|Hne].
    - rewrite lookup_insert_eq. eauto.
    - rewrite lookup_insert_ne by congruence.
      destruct (w_apps w !! b); eauto. }
  split.
  - unfold enable_channel_calls. apply flat_map_ext. intros b.
    specialize (Hlook b).
    destruct (w_apps (stored addr app1 w1) !! b).
    + destruct Hlook as (y & -> & Hy & _). exact Hy.
    + now rewrite Hlook.
  - induction addrs as [|b rest IH]; intros log r;
      cbn [enable_channel_codes]; [reflexivity|].
    specialize (Hlook b).
    destruct (w_apps (stored addr app1 w1) !! b).
    + destruct Hlook as (y & -> & Hy1 & Hy2). rewrite Hy1, Hy2. apply IH.
    + rewrite Hlook. apply IH.
Qed.

Lemma enable_channel_loop_run usess uchan addrs r0 w :
  exists w',
    for_each_app (ust_app_enable_channel_glb_body usess uchan) addrs r0 w
    = Some (enable_channel_codes usess uchan w addrs (w_log w) r0, w') /\
    w_log w' = w_log w ++ enable_channel_calls usess uchan w addrs /\
    w_ust_app_ht w' = w_ust_app_ht w /\
    w_ust_app_ht_by_sock w' = w_ust_app_ht_by_sock w /\
    w_call_rcu w' = w_call_rcu w /\ w_fd_apps w' = w_fd_apps w.
Proof.
  revert r0 w. induction addrs as [|a rest IH]; intros r0 w.
  - exists w. cbn. rewrite app_nil_r. auto 10.
  - destruct (w_apps w !! a) as [app|] eqn:Ha.
    + destruct (enable_channel_body_run usess uchan app r0 w)
        as (app1 & Hb & Hcode & Hcall).
      rewrite (for_each_app_next _ _ _ _ _ _ _ _ _ Ha Hb).
      set (w1 := stored a app1 _).
      destruct (IH (enable_channel_code usess uchan app (w_log w) r0) w1)
        as (w' & Hrun & Hlog & Hpid & Hsock & Hrcu & Hfd).
      destruct (enable_channel_stored usess uchan a app app1 w
                  (set_w_log (w_log w ++ enable_channel_call usess uchan app)
                     w) Ha Hcode Hcall eq_refl rest) as [Hcalls Hcodes].
      fold w1 in Hcalls, Hcodes.
      rewrite Hcalls in Hlog. rewrite Hcodes in Hrun.
      exists w'. unfold enable_channel_calls. cbn [flat_map enable_channel_codes].
      rewrite Ha. fold (enable_channel_calls usess uchan w rest).
      split; [exact Hrun|].
      split; [rewrite Hlog; subst w1; cbn; now rewrite <- app_assoc|].
      subst w1. cbn in Hpid, Hsock, Hrcu, Hfd. auto.
    + rewrite for_each_app_skip by exact Ha.
      destruct (IH r0 w) as (w' & Hrun & Hrest).
      exists w'. unfold enable_channel_calls.
      cbn [flat_map enable_channel_codes].
      rewrite Ha. cbn [List.app]. split; [exact Hrun|exact Hrest].
Qed.

End EnableChannelLoop.

Section EnableChannelGlb.
Context `{E : environment}.

Lemma enable_channel_codes_last usess uchan w pre addr app c log r :
  w_apps w !! addr = Some app ->
  enable_channel_call usess uchan app = [c] ->
  enable_channel_codes usess uchan w (pre ++ [addr]) log r
  = env_ret (log ++ enable_channel_calls usess uchan w pre) c.
Proof.
  intros Ha Hc. revert log r.
  induction pre as [|b pre IH]; intros log r.
  - cbn [List.app enable_channel_codes enable_channel_calls flat_map].
    rewrite Ha, app_nil_r. cbn [enable_channel_codes].
    unfold enable_channel_call in Hc. unfold enable_channel_code.
    destruct (app_compatible app =? 0); [discriminate|].
    destruct (lookup_session_by_app usess app); [|discriminate].
    destruct (lookup_channel _ _); [|discriminate].
    now injection Hc as <-.
  - rewrite <- app_comm_cons. unfold enable_channel_calls.
    cbn [enable_channel_codes flat_map].
    fold (enable_channel_calls usess uchan w pre).
    destruct (w_apps w !! b).
    + rewrite IH, <- app_assoc. reflexivity.
    + apply IH.
Qed.

(** [ust_app_enable_channel_glb] answers -1 to a NULL session or
    channel and does nothing.  Otherwise it always comes to its end,
    having made one [ustctl_enable] call for every registered application
    that is compatible and has the session and the channel, in the order
    of the iteration and whatever the tracers answer; it leaves the
    indices, the [call_rcu] queue and the FD accounting alone.  Its
    result is the code of the last application only: when the last
    application of the iteration has the channel, the result is the
    answer to that last call, whatever the earlier ones were. *)
Theorem ust_app_enable_channel_glb_calls
    (usess : ltt_ust_session) (uchan : ltt_ust_channel) (w : world) :
  (forall uchan', ust_app_enable_channel_glb None uchan' w = Some (-1, w)) /\
  (forall usess', ust_app_enable_channel_glb usess' None w = Some (-1, w)) /\
  exists r w',
    ust_app_enable_channel_glb (Some usess) (Some uchan) w = Some (r, w') /\
    w_log w'
    = w_log w ++ enable_channel_calls usess uchan w (registered_addrs w) /\
    w_ust_app_ht w' = w_ust_app_ht w /\
    w_ust_app_ht_by_sock w' = w_ust_app_ht_by_sock w /\
    w_call_rcu w' = w_call_rcu w /\ w_fd_apps w' = w_fd_apps w /\
    forall pre addr app c,
      registered_addrs w = pre ++ [addr] ->
      w_apps w !! addr = Some app ->
      enable_channel_call usess uchan app = [c] ->
      r = env_ret (removelast (w_log w')) c.
Proof.
  split; [reflexivity|]. split; [now intros [u|]|].
  destruct (enable_channel_loop_run usess uchan (registered_addrs w) 0 w)
    as (w' & Hrun & Hlog & Hpid & Hsock & Hrcu & Hfd).
  eexists _, w'. split; [exact Hrun|].
  repeat (split; [assumption|]).
  intros pre addr app c Hreg Ha Hc. rewrite Hlog, Hreg.
  rewrite (enable_channel_codes_last _ _ _ _ _ _ _ _ _ Ha Hc).
  unfold enable_channel_calls at 2. rewrite flat_map_app.
  cbn [flat_map]. rewrite Ha, Hc, app_nil_r.
  fold (enable_channel_calls usess uchan w pre).
  now rewrite app_assoc, removelast_last.
Qed.

End EnableChannelGlb.

(** ** Destroying a session in all the applications *)

Lemma lookup_del_session_ne l id id' :
  id' <> id ->
  lookup_session (del_session l id) id' = lookup_session l id'.
Proof.
  intros Hne. unfold lookup_session.
  induction l as [|x r IH]; cbn; [reflexivity|].
  destruct (s_id x =? id) eqn:Hx; cbn.
  - apply Z.eqb_eq in Hx.
    assert (Hx' : (s_id x =? id') = false) by (apply Z.eqb_neq; congruence).
    now rewrite Hx'.
  - destruct (s_id x =? id'); [reflexivity|exact IH].
Qed.

Lemma lookup_session_None l id :
  lookup_session l id = None <-> ~ In id (map s_id l).
Proof.
  unfold lookup_session. induction l as [|x r IH]; cbn; [tauto|].
  destruct (s_id x =? id) eqn:Hx.
  - apply Z.eqb_eq in Hx. split; [discriminate|]. intros H. elim H. auto.
  - apply Z.eqb_neq in Hx. rewrite IH. tauto.
Qed.

Lemma lookup_del_session l id :
  NoDup (map s_id l) -> lookup_session (del_session l id) id = None.
Proof.
  induction l as [|x r IH]; cbn; [reflexivity|].
  intros Hnd. apply NoDup_cons in Hnd as [Hx Hr].
  destruct (s_id x =? id) eqn:Hid.
  - apply Z.eqb_eq in Hid. subst id. apply lookup_session_None.
    intros Hin. apply Hx, list_elem_of_In. exact Hin.
  - unfold lookup_session. cbn. rewrite Hid. now apply IH.
Qed.

Lemma del_session_incl l id x :
  In x (map s_id (del_session l id)) -> In x (map s_id l).
Proof.
  induction l as [|y r IH]; cbn; [tauto|].
  destruct (s_id y =? id); cbn; [auto|]. intros [H|H]; auto.
Qed.

Lemma NoDup_del_session l id :
  NoDup (map s_id l) -> NoDup (map s_id (del_session l id)).
Proof.
  induction l as [|x r IH]; cbn; [trivial|].
  intros Hnd. apply NoDup_cons in Hnd as [Hx Hr].
  destruct (s_id x =? id); [exact Hr|]. cbn. apply NoDup_cons. split.
  - intros Hin. apply Hx. apply list_elem_of_In.
    apply list_elem_of_In in Hin. eapply del_session_incl. exact Hin.
  - now apply IH.
Qed.

Lemma total_for_each_app `{E : environment} body addrs r :
  (forall app r, total (body app r)) -> total (for_each_app body addrs r).
Proof.
  intros Hb. revert r. induction addrs as [|a rest IH]; intros r w.
  - now exists r, w.
  - cbn [for_each_app]. run.
    destruct (w_apps w !! a) as [app|]; [|apply IH].
    destruct (Hb app r w) as ([[exit r1] app1] & w1 & ->).
    unfold store_app. destruct exit; [apply IH|eauto].
Qed.

Section DestroyAll.
Context `{E : environment}.
Variable usess : ltt_ust_session.

(** An application after the loop, against the same one before: it is
    the same process, and its other sessions are as they were. *)
Definition same_but_session (app app' : ust_app) : Prop :=
  app_compatible app' = app_compatible app /\
  app_pid app' = app_pid app /\ app_sock app' = app_sock app /\
  (forall id, id <> usess_id usess ->
              lookup_session (app_sessions app') id
              = lookup_session (app_sessions app) id) /\
  (lookup_session_by_app usess app = None ->
   lookup_session_by_app usess app' = None).

Definition unique_sessions (app : ust_app) : Prop :=
  NoDup (map s_id (app_sessions app)).

Definition session_gone (app : ust_app) : Prop :=
  app_compatible app <> 0 -> lookup_session_by_app usess app = None.

Lemma same_but_session_refl app : same_but_session app app.
Proof. unfold same_but_session. auto. Qed.

Lemma same_but_session_trans a b c :
  same_but_session a b -> same_but_session b c -> same_but_session a c.
Proof.
  intros (A1 & A2 & A3 & A4 & A5) (B1 & B2 & B3 & B4 & B5).
  unfold same_but_session. repeat split; try congruence; auto.
  intros id Hid. rewrite B4, A4; auto.
Qed.

Lemma session_gone_same a b :
  session_gone a -> same_but_session a b -> session_gone b.
Proof.
  intros Ha (B1 & _ & _ & _ & B5) Hb. apply B5, Ha. congruence.
Qed.

Lemma total_destroy_trace app : total (destroy_trace usess app).
Proof.
  unfold destroy_trace, destroy_session.
  pose proof total_delete_ust_app_session. step_total.
Qed.

Lemma destroy_trace_gone app w r app' w' :
  unique_sessions app ->
  destroy_trace usess app w = Some ((r, app'), w') ->
  r = 0 /\ same_but_session app app' /\ unique_sessions app' /\
  session_gone app'.
Proof.
  unfold destroy_trace, unique_sessions, session_gone. intros Hnd H.
  destruct (app_compatible app =? 0) eqn:Hcompat.
  { minv H. apply Z.eqb_eq in Hcompat.
    repeat split; try assumption; try apply same_but_session_refl.
    congruence. }
  destruct (lookup_session_by_app usess app) as [s|] eqn:Hs.
  2:{ minv H. repeat split; try assumption; try apply same_but_session_refl.
      auto. }
  pose proof (lookup_session_id _ _ _ Hs) as Hid.
  unfold destroy_session in H. unfold lookup_session_by_app in Hs.
  rewrite Hid, Hs in H. minv_all H. minv_all H0.
  unfold same_but_session, lookup_session_by_app.
  cbn [set_app_sessions app_sessions app_compatible app_pid app_sock].
  split; [reflexivity|]. split; [|split].
  - repeat split; [apply lookup_del_session_ne|].
    intros _. now apply lookup_del_session.
  - now apply NoDup_del_session.
  - intros _. now apply lookup_del_session.
Qed.

(** When the session table of every application has unique ids,
    [ust_app_destroy_trace_all] always returns 0, and afterwards no
    compatible registered application has a session for the global
    session; every registered application is the same process as
    before, its other sessions are as they were, and the indices and
    the [call_rcu] queue are unchanged. *)
Theorem ust_app_destroy_trace_all_clears (w : world) :
  (forall a app, w_apps w !! a = Some app ->
                 NoDup (map s_id (app_sessions app))) ->
  exists w',
    ust_app_destroy_trace_all usess w = Some (0, w') /\
    w_ust_app_ht w' = w_ust_app_ht w /\
    w_ust_app_ht_by_sock w' = w_ust_app_ht_by_sock w /\
    w_call_rcu w' = w_call_rcu w /\
    (forall pid, ust_app_find_by_pid pid w = None ->
                 ust_app_find_by_pid pid w' = None) /\
    (forall pid app,
        ust_app_find_by_pid pid w = Some app ->
        exists app',
          ust_app_find_by_pid pid w' = Some app' /\
          (app_compatible app' <> 0 ->
           lookup_session_by_app usess app' = None) /\
          app_pid app' = app_pid app /\ app_sock app' = app_sock app /\
          forall id, id <> usess_id usess ->
                     lookup_session (app_sessions app') id
                     = lookup_session (app_sessions app) id).
Proof.
  intros Hnd. unfold ust_app_destroy_trace_all.
  set (body := fun (app : ust_app) (_ : Z) =>
                 let* (r, app) := destroy_trace usess app in
                 ret (next_app, r, app)).
  rewrite (bind_eq get_world _ w w w eq_refl).
  assert (Htot : forall app r, total (body app r)).
  { intros app r. unfold body. apply total_bind; [apply total_destroy_trace|].
    intros [r1 app1]. apply total_ret. }
  destruct (total_for_each_app body (registered_addrs w) 0 Htot w)
    as (r' & w' & Hrun).
  rewrite (bind_eq _ _ _ _ _ Hrun). exists w'. split; [reflexivity|].
  assert (Hbody : forall app r w0 exit r1 app1 w1,
             unique_sessions app -> ~ False ->
             body app r w0 = Some ((exit, r1, app1), w1) ->
             keeps_apps (body app r) /\ same_but_session app app1 /\
             unique_sessions app1 /\
             match exit with
             | next_app => ~ False /\ session_gone app1
             | leave_loop => False
             end).
  { intros app r w0 exit r1 app1 w1 Hu _ Hb. split.
    - unfold body, destroy_trace. step_keeps_apps.
    - unfold body in Hb. minv Hb. destruct a as [r2 app2]. minv Hb.
      apply destroy_trace_gone in Hb0 as (_ & HR & HU & HG); [|exact Hu].
      auto. }
  destruct (for_each_app_invariant body unique_sessions session_gone
              same_but_session (fun _ => False) same_but_session_refl
              same_but_session_trans session_gone_same Hbody
              (registered_addrs w) 0 w r' w' Hnd (fun x => x) Hrun)
    as (A1 & A2 & A3 & A4 & A5 & A6).
  repeat (split; [assumption|]).
  unfold ust_app_find_by_pid. rewrite A1. split.
  - intros pid. destruct (w_ust_app_ht w !! pid); [apply A4|reflexivity].
  - intros pid app. destruct (w_ust_app_ht w !! pid) as [a|] eqn:Hp;
      [|discriminate].
    intros Ha. destruct (A5 _ _ Ha) as (app' & Ha' & HR & _).
    exists app'. split; [exact Ha'|].
    destruct HR as (R1 & R2 & R3 & R4 & R5).
    split; [|auto].
    apply (A6 (fun x => x) a app'); [|exact Ha'].
    apply registered_addrs_spec. eauto.
Qed.

End DestroyAll.

(** ** Bringing a new application up to date *)

Section GlobalUpdate.
Context `{E : environment}.

Lemma alloc_ust_app_session_blank w s w' :
  alloc_ust_app_session w = Some (Some s, w') ->
  s_handle s = -1 /\ s_started s = 0 /\ s_metadata s = None.
Proof.
  unfold alloc_ust_app_session. intros H. minv_all H. repeat split.
Qed.

Lemma shadow_copy_session_frame ua_sess usess app w s w' :
  shadow_copy_session ua_sess usess app w = Some (s, w') ->
  s_id s = usess_id usess /\ s_handle s = s_handle ua_sess /\
  s_started s = s_started ua_sess /\ s_metadata s = s_metadata ua_sess.
Proof.
  unfold shadow_copy_session. intros H. minv_all H. repeat split.
Qed.

(** [create_ust_app_session] for an application that does not have the
    session: it fails and leaves the application as it was, or puts a new
    session in front of the table, with a tracer handle, not started and
    without metadata. *)
Lemma create_ust_app_session_fresh usess app w r created app' w' :
  lookup_session_by_app usess app = None ->
  create_ust_app_session usess app w = Some ((r, created, app'), w') ->
  (r < 0 /\ app' = app) \/
  (r = 0 /\
   exists s,
     app' = set_app_sessions (s :: app_sessions app) (app_teardown_head app)
              app /\
     s_id s = usess_id usess /\ s_handle s <> -1 /\
     s_started s = 0 /\ s_metadata s = None).
Proof.
  unfold create_ust_app_session. intros Hnone H. rewrite Hnone in H.
  minv H. minv H0. destruct a0 as [s0|].
  2:{ minv H0. minv H. left. unfold ENOMEM. split; [lia|reflexivity]. }
  minv H0. minv H0.
  apply alloc_ust_app_session_blank in H1 as (Hh & Hst & Hm).
  apply shadow_copy_session_frame in H2 as (Hid & Hh' & Hst' & Hm').
  assert (Hminus : (s_handle a0 =? -1) = true)
    by (apply Z.eqb_eq; congruence).
  rewrite Hminus in H. minv H. minv H.
  - minv_all H. left. split; [|reflexivity].
    destruct (a =? - ENOMEM) eqn:Hcode; cbn [negb].
    + apply Z.eqb_eq in Hcode. unfold ENOMEM in *. lia.
    + unfold ENOTCONN. lia.
  - minv H. unfold add_unique_session in H1. minv_all H1. minv H.
    right. split; [reflexivity|]. exists (set_s_handle a a0).
    cbn [set_s_handle s_id s_handle s_started s_metadata].
    split; [reflexivity|]. split; [exact Hid|].
    split; [|split; congruence].
    apply Z.ltb_ge in Hc. lia.
Qed.

Lemma global_update_channels_sent usess app ua_sess channels w r channels'
    w' :
  global_update_channels usess app ua_sess channels w
  = Some ((r, channels'), w') ->
  0 <= r -> Forall (fun c => ch_is_sent c = 1) channels'.
Proof.
  revert w r channels' w'.
  induction channels as [|c rest IH]; intros w r channels' w' H Hr.
  - cbn in H. minv H. constructor.
  - cbn [global_update_channels] in H.
    minv H. destruct a as [r1 c1]. minv H; [minv H; negative|].
    apply create_ust_channel_sent in H0; [|nonneg].
    minv H. destruct a as [r2 ctx]. minv H; [minv H; negative|].
    minv H. destruct a as [r3 events]. minv H; [minv H; negative|].
    minv H. destruct a as [r4 rest']. minv H.
    constructor; [exact H0|]. eapply IH; eauto.
Qed.

End GlobalUpdate.

Section GlobalUpdate2.
Context `{E : environment}.

Lemma create_ust_app_metadata_frame ua_sess app consumer w r s w' :
  create_ust_app_metadata ua_sess app consumer w = Some ((r, s), w') ->
  s_channels s = s_channels ua_sess /\ s_handle s = s_handle ua_sess.
Proof.
  unfold create_ust_app_metadata. intros H. minv_all H; split; reflexivity.
Qed.

(** The application whose first session is [s], the others being those
    of [app]. *)
Definition with_first_session (s : ust_app_session) (app : ust_app)
    : ust_app :=
  set_app_sessions (s :: app_sessions app) (app_teardown_head app) app.

Lemma lookup_first_session usess s app :
  s_id s = usess_id usess ->
  lookup_session_by_app usess (with_first_session s app) = Some s.
Proof.
  intros Hid. unfold lookup_session_by_app, lookup_session,
    with_first_session.
  cbn [set_app_sessions app_sessions find]. now rewrite Hid, Z.eqb_refl.
Qed.

Lemma store_first_session s s' app :
  s_id s' = s_id s ->
  app_store_session (with_first_session s app) s'
  = with_first_session s' app.
Proof.
  intros Hid. unfold app_store_session, with_first_session.
  cbn [set_app_sessions app_sessions app_teardown_head store_session].
  rewrite Hid, Z.eqb_refl. now destruct app.
Qed.

Lemma destroy_first_session s app w app' w' :
  destroy_session (with_first_session s app) s w = Some (app', w') ->
  app' = app.
Proof.
  unfold destroy_session, with_first_session, lookup_session.
  cbn [set_app_sessions app_sessions app_teardown_head app_sock find
       del_session].
  rewrite Z.eqb_refl. intros H. minv_all H. now destruct app.
Qed.

(** [ust_app_start_trace] on the new session of an application. *)
Lemma ust_app_start_trace_first usess s app w r app' w' :
  app_compatible app <> 0 ->
  s_id s = usess_id usess -> s_started s = 0 -> s_metadata s = None ->
  ust_app_start_trace usess (with_first_session s app) w
  = Some ((r, app'), w') ->
  exists s',
    app' = with_first_session s' app /\ s_id s' = usess_id usess /\
    s_channels s' = s_channels s /\ s_handle s' = s_handle s /\
    (0 <= r ->
     s_started s' = 1 /\
     exists m, s_metadata s' = Some m /\ ch_is_sent m = 1).
Proof.
  intros Hcompat Hid Hst Hm H. unfold ust_app_start_trace in H.
  rewrite (lookup_first_session _ _ _ Hid) in H.
  assert (Hc : (app_compatible (with_first_session s app) =? 0) = false)
    by (now apply Z.eqb_neq).
  rewrite Hc, Hst in H. cbn [Z.eqb negb] in H.
  assert (Hself : exists s', with_first_session s app
                             = with_first_session s' app /\
                             s_id s' = usess_id usess /\
                             s_channels s' = s_channels s /\
                             s_handle s' = s_handle s /\
                             (0 <= -1 ->
                              s_started s' = 1 /\
                              exists m, s_metadata s' = Some m /\
                                        ch_is_sent m = 1)).
  { exists s. repeat split; try assumption; lia. }
  minv H. destruct a as [r0 s1].
  assert (Hs1 : s_id s1 = s_id s /\ s_channels s1 = s_channels s /\
                s_handle s1 = s_handle s /\
                (0 <= r0 -> exists m, s_metadata s1 = Some m /\
                                      ch_is_sent m = 1)).
  { minv H0. minv H0.
    - minv H0. repeat split. intros Hr0.
      apply andb_prop in Hc0 as [Hlt _]. apply Z.ltb_lt in Hlt. lia.
    - pose proof H0 as Hmeta.
      apply create_ust_app_metadata_sent in Hmeta
        as (_ & Hid1 & _ & Hsome & Hnew & _).
      apply create_ust_app_metadata_frame in H0 as [Hch Hh].
      repeat split; try assumption. intros Hr0.
      destruct (s_metadata s1) as [m|] eqn:Hm1;
        [|now elim (Hsome Hr0)].
      exists m. split; [reflexivity|]. now destruct (Hnew Hm m eq_refl). }
  destruct Hs1 as (Hid1 & Hch1 & Hh1 & Hmeta1).
  minv H; [minv H; exact Hself|].
  rewrite (store_first_session s s1 app Hid1) in H.
  minv H. minv H.
  - minv H. exists s1. split; [reflexivity|].
    split; [congruence|]. split; [exact Hch1|]. split; [exact Hh1|].
    intros; lia.
  - rewrite (store_first_session s1 (set_s_started 1 s1) app eq_refl) in H.
    minv_all H. exists (set_s_started 1 s1).
    cbn [set_s_started s_id s_channels s_handle s_started s_metadata].
    split; [reflexivity|]. split; [congruence|].
    split; [exact Hch1|]. split; [exact Hh1|]. intros _.
    split; [reflexivity|]. apply Hmeta1. nonneg.
Qed.

(** [ust_app_global_update] for one application that does not have the
    session: all of it or nothing. *)
Lemma ust_app_global_update_one_fresh usess app w app' w' :
  lookup_session_by_app usess app = None ->
  ust_app_global_update_one usess app w = Some (app', w') ->
  app' = app \/
  exists s,
    app' = with_first_session s app /\ s_id s = usess_id usess /\
    s_handle s <> -1 /\
    Forall (fun c => ch_is_sent c = 1) (s_channels s) /\
    (usess_start_trace usess = 0 -> s_started s = 0) /\
    (usess_start_trace usess <> 0 ->
     s_started s = 1 /\
     exists m, s_metadata s = Some m /\ ch_is_sent m = 1).
Proof.
  intros Hnone H. unfold ust_app_global_update_one in H.
  destruct (app_compatible app =? 0) eqn:Hcompat; [minv H; now left|].
  apply Z.eqb_neq in Hcompat.
  minv H. destruct a as [[r created] app1].
  destruct (create_ust_app_session_fresh _ _ _ _ _ _ _ Hnone H0)
    as [[Hneg ->]|(-> & s & -> & Hid & Hh & Hst & Hm)].
  { apply Z.ltb_lt in Hneg. rewrite Hneg in H. minv H. now left. }
  cbn [Z.ltb Z.compare] in H.
  fold (with_first_session s app) in H.
  rewrite (lookup_first_session _ _ _ Hid) in H.
  minv H. destruct a as [r2 channels].
  rewrite (store_first_session s (set_s_channels channels s) app eq_refl)
    in H.
  set (s2 := set_s_channels channels s) in *.
  minv H.
  { left. eapply destroy_first_session. exact H. }
  apply global_update_channels_sent in H1; [|nonneg].
  minv H.
  2:{ minv H. right. exists s2. subst s2.
      cbn [set_s_channels s_id s_handle s_channels s_started s_metadata].
      split; [reflexivity|]. split; [exact Hid|]. split; [exact Hh|].
      split; [exact H1|]. split; [intros _; exact Hst|].
      intros Hne. apply negb_false_iff, Z.eqb_eq in Hc0. contradiction. }
  minv H. destruct a as [r3 app3].
  destruct (ust_app_start_trace_first usess s2 app _ _ _ _ Hcompat Hid Hst
              Hm H2) as (s3 & -> & Hid3 & Hch3 & Hh3 & Hok3).
  minv H.
  - rewrite (lookup_first_session _ _ _ Hid3) in H. left.
    eapply destroy_first_session. exact H.
  - minv H. right. exists s3. split; [reflexivity|].
    split; [exact Hid3|]. split; [rewrite Hh3; exact Hh|].
    split; [rewrite Hch3; exact H1|].
    assert (Hr3 : 0 <= r3) by nonneg.
    destruct (Hok3 Hr3) as [Hstarted Hmeta].
    split; [|intros _; now split].
    intros Hzero. apply negb_true_iff, Z.eqb_neq in Hc0. contradiction.
Qed.


End GlobalUpdate2.

Lemma ust_app_create_event_glb_stops_witness :
  ust_app_create_event_glb (E := env_quiet) usess_chan0 uchan_0
    uevent_sched_switch world_two_apps
  = Some (- EEXIST, world_two_apps) /\
  exists pre addr post,
    registered_addrs world_two_apps = pre ++ addr :: post.
Proof.
  destruct (ust_app_create_event_glb_stops (E := env_quiet) usess_chan0
              uchan_0 uevent_sched_switch world_two_apps)
    as [Hfirst Hneg].
  set (app := with_session usess_chan0 app_100).
  set (s := hd blank_session (app_sessions app)).
  set (c := hd channel_0 (s_channels s)).
  assert (Hrun : ust_app_create_event_glb (E := env_quiet) usess_chan0
                   uchan_0 uevent_sched_switch world_two_apps
                 = Some (- EEXIST, world_two_apps)).
  { apply (Hfirst [] 0%nat [1%nat] 0 world_two_apps app s c).
    - vm_compute. reflexivity.
    - reflexivity.
    - lia.
    - vm_compute. reflexivity.
    - vm_compute. discriminate.
    - vm_compute. reflexivity.
    - vm_compute. reflexivity.
    - vm_compute. discriminate. }
  split; [exact Hrun|].
  destruct (Hneg _ _ Hrun ltac:(vm_compute; reflexivity))
    as (pre & addr & post & _ & _ & _ & _ & _ & _ & _ & Hreg & _).
  exists pre, addr, post. exact Hreg.
Defined.

Lemma ust_app_enable_channel_glb_calls_witness :
  exists w',
    ust_app_enable_channel_glb (E := env_enable_fails_on_7)
      (Some usess_chan0) (Some uchan_0) world_two_apps = Some (0, w') /\
    w_log w' = [c_ustctl_enable 7 (Some 4); c_ustctl_enable 9 (Some 4)].
Proof.
  destruct (ust_app_enable_channel_glb_calls (E := env_enable_fails_on_7)
              usess_chan0 uchan_0 world_two_apps)
    as (_ & _ & r & w' & Hrun & Hlog & _ & _ & _ & _ & Hlast).
  assert (Hcalls : w_log w'
                   = [c_ustctl_enable 7 (Some 4); c_ustctl_enable 9 (Some 4)])
    by (rewrite Hlog; vm_compute; reflexivity).
  specialize (Hlast [0%nat] 1%nat (with_session usess_chan0 app_200)
                (c_ustctl_enable 9 (Some 4))
                ltac:(vm_compute; reflexivity)
                ltac:(vm_compute; reflexivity)
                ltac:(vm_compute; reflexivity)).
  rewrite Hcalls in Hlast. vm_compute in Hlast. subst r.
  exists w'. split; [exact Hrun|exact Hcalls].
Defined.

Lemma ust_app_destroy_trace_all_clears_witness :
  exists w' app',
    ust_app_destroy_trace_all (E := env_quiet) usess_chan0 world_two_apps
    = Some (0, w') /\
    ust_app_find_by_pid 200 w' = Some app' /\
    lookup_session_by_app usess_chan0 app' = None.
Proof.
  destruct (ust_app_destroy_trace_all_clears (E := env_quiet) usess_chan0
              world_two_apps) as (w' & Hrun & _ & _ & _ & _ & Happs).
  - intros a app Ha.
    apply elem_of_map_to_list in Ha.
    let l := eval vm_compute in (map_to_list (w_apps world_two_apps)) in
    change (map_to_list (w_apps world_two_apps)) with l in Ha.
    apply list_elem_of_In in Ha.
    destruct Ha as [Ha|[Ha|[]]]; injection Ha as <- <-;
      vm_compute; apply NoDup_singleton.
  - destruct (Happs 200 (with_session usess_chan0 app_200)
                ltac:(vm_compute; reflexivity))
      as (app' & Hfind & Hgone & _).
    exists w', app'. split; [exact Hrun|]. split; [exact Hfind|].
    apply Hgone.
    pose proof Hrun as C. vm_compute in C. injection C as <-.
    vm_compute in Hfind. injection Hfind as <-. vm_compute. discriminate.
Defined.

